(* ===== verification/_CoqProject ===== *)
-Q . S2P
Prelude.v
Physical.v
Kmalloc.v
Isr.v
Io.v
Scheduler.v
Vga.v
Interfaces.v
Paging.v
Drivers.v
Idt.v
X86.v
Entry.v
Kernel.v
System.v
Tests.v
Tasks.v
Preempt.v
Boot.v
Print.v
Fat.v
Loader.v
Real.v
Disk.v
Stage1.v
Handoff.v
