(* ===== verification/Prelude.v ===== *)
(** * neilOS: a verification of the kernel and of its boot loader

    neilOS is a 32-bit x86 kernel with its own boot loader.  This development
    models its C code as executable Rocq functions, and its assembly as instruction
    sequences on two small x86 machines (real and protected mode), and proves that
    they do what they are for, from the first instruction of the boot sector to the
    tasks that run under the kernel's scheduler.

    ** The program

    - src/boot/stage1/boot.asm (real mode) is the boot sector: it reads the second
      stage to 0x5000 through the BIOS and jumps to it.
    - src/boot/stage2 (C and assembly, real mode) finds the file KERNEL on the FAT12
      boot disk through the BIOS, loads it to 0x9000, switches to protected mode and
      jumps to it.
    - src/kernel starts in [_start] (main.asm), which loads the segments of
      arch/x86/gdt.asm, clears .bss, greets on the serial port and calls [kmain]
      (kernel.c), which initialises the terminal
      (drivers/video/vga.c), the physical page allocator (mm/physical.c), the heap
      (mm/kmalloc.c), the interrupt descriptor table (arch/x86/idt.c), the
      interrupt controllers (arch/x86/pic.c), the timer (drivers/timer/pit.c), the
      keyboard (drivers/keyboard/keyboard.c), the scheduler
      (scheduler/scheduler.c) and paging (mm/paging.c), and then halts.
    - Everything else happens in interrupts: the stubs of arch/x86/isr.asm call
      [interrupt_handler] (idt.c), which returns the frame to resume, possibly
      another task's.

    ** The files

    - Prelude.v: machine integers, the monad of the model with its weakest
      precondition [wp], loops, arrays, memory, and the lemmas and tactics on them.
    - Physical.v (physical.c): a bitmap of 16384 pages and a counter, refined by the
      set of free pages.
    - Kmalloc.v (kmalloc.c): a linked list of block headers in memory, refined by the
      list of blocks that tile the heap.
    - Isr.v (idt.h, isr.asm): interrupt frames on a stack, entering and returning.
    - Io.v (io.h): ports and the interrupt flag, as classes of states that have them.
    - Scheduler.v (scheduler.c): the task table, contexts on the task stacks, a step
      relation with its invariant, fairness.
    - Vga.v (vga.c): a scroll-back buffer and the text memory, refined by an abstract
      terminal; formatted output against the text a format stands for.
    - Interfaces.v: what paging.c relies on, as the classes [PageAllocator] and
      [Console], with the instances that Physical.v and Vga.v discharge.
    - Paging.v (paging.c): page tables in memory, CR0, CR3 and the TLB, against the
      page walk of the CPU; proved for any page allocator and console.
    - Drivers.v (pic.c, pit.c, keyboard.c): drivers as port accesses, the keyboard as
      a state machine.
    - Idt.v (idt.c): the gates.
    - X86.v: the instructions that the kernel's assembly uses, on registers, bytes of
      memory, segment descriptors and ports; a linker that places code.
    - Entry.v (main.asm, gdt.asm, gdt.h, isr.asm): the entry point, the descriptor
      table and the interrupt stubs, instruction by instruction; the stubs refine
      Isr.v.
    - Kernel.v (kernel.c, [interrupt_handler] of idt.c): one state for the whole
      kernel, [kmain], the interrupt handler and the running system as a step
      relation.
    - System.v: the running system with tasks that use the memory manager: heap
      blocks, pages, mappings, and writes to what they hold.
    - Tests.v (kernel/tests): the test programs of the heap, paging and the page
      allocator, and the creation of the tasks of the scheduler's test.
    - Tasks.v (kernel/tests/scheduler): [scheduler_test] and the bodies of its ten
      tasks as programs with loops, one access at a time, that take turns under the
      scheduler with interrupts between any two accesses.
    - Preempt.v: [kmalloc], [kfree], [physical_alloc_page] and [physical_free_page]
      again, one memory access at a time, with interrupts between any two accesses; and
      two of them interleaved.
    - Boot.v (boot/stage2: endian.c, string.c, print.c, disk.asm, stage2.c): the
      second-stage loader, over the class [Bios]; the disk access.
    - Print.v: [printf] of the loader against the text a format stands for.
    - Fat.v: the FAT12 reader against the format on the bytes of the disk.
    - Loader.v: [fat_init] and [stage2_main], termination and end-to-end correctness.
    - Real.v: the 16-bit instructions that the boot code uses, on registers, segments
      and bytes of memory, and the BIOS as the class [Bios16].
    - Disk.v (boot/stage2/disk.asm): the disk routines of the second stage again,
      instruction by instruction, refining Boot.v.
    - Stage1.v (boot/stage1/boot.asm): the boot sector, instruction by instruction.
    - Handoff.v (boot/stage2/entry.asm): the entry point of the second stage, the
      switch to protected mode, and the whole way from the boot sector to [kmain].

    ** How code becomes definitions

    A C file's static variables (with the hardware it drives) are a record, and a
    function that uses them is a function of the monad [M]: it takes the record and
    returns a result with the new one, or None for undefined behaviour (an index out
    of an array, a division by zero, a page fault, an access behind the segment
    limit).  Functions keep their names; a loop or a branch that has a definition of
    its own is named after its function.  Loops with a counter are [mfor] and
    [mfor_ret] (with [return] and [break]); the others recurse on fuel.  Integers are
    [Z] with the wrap-around written out.  Pointers are addresses where the code
    computes with them, and references otherwise ([task_ref]).

    Running out of fuel is None as well, and every theorem says that the function
    returns, so the fuel is shown to be enough: [kmalloc] and [kfree] have one unit
    for each 16-byte header the heap can hold, [print_digits] one for each digit the
    buffer holds, [load_loop] one for each byte of the file (every turn loads at least
    one).

    What is not the program's is a parameter: the answers of devices ([Io.device]),
    of the BIOS ([Boot.Stage2.Bios], [Real.Bios16]), the addresses the linkers choose
    (the layouts, [Kernel.Kernel.image], the linkers of X86.v and Real.v), and what a
    compiler makes of the second stage's C code ([compiled_ok] of Handoff.v: it keeps CS
    and DS and writes, besides what the C code stores, to its stack and data), with the
    constraints the linker scripts assert or the documentation of the hardware gives as
    named hypotheses ([Entry.entry_ok] for what the loader leaves to [_start]).  Each of
    them has an instance in the witnesses.

    ** What is proved

    - Booting (Stage1.v, Handoff.v): from the first instruction of the boot sector, the
      jump at 0x7C00, on a disk with a second stage and a kernel whose blocks can be read, the machine
      reaches [kmain] with exactly the kernel's bytes in memory; what each stage leaves
      is what the next one assumes.  If its read fails, the boot sector prints its
      error and restarts the machine.
    - Starting (Entry.v, Kernel.v): [_start] reaches [kmain] with segments, stack,
      .bss and serial port in order; [kmain] reaches the halt loop with every component
      in order.
    - The system (System.v, Kernel.v, Isr.v, Idt.v): in every reachable state any
      interrupt is handled to its end, acknowledged at the right controllers, and
      returns to a frame on the stack of the task that is then current; interrupted
      code continues unchanged; memory calls of tasks return; free pages, page tables
      and what tasks hold stay apart, and nothing but its holder writes to held memory.
      The instructions of the stubs do what this model of interrupts says.
    - Tests (Tests.v, Tasks.v): after booting, the kernel's tests pass when no interrupt
      comes; the tasks of the
      scheduler's test never get stuck, whatever interrupts come, and a task that blocks
      stays blocked until it is unblocked.
    - Preemption (Preempt.v): a heap or page operation interrupted anywhere by kernel
      steps ends as if it had not been; two allocations interleaved can both get the
      same block, in every heap, or the same page, in every state of the allocator.
    - Memory management (Physical.v, Kmalloc.v, Paging.v): the operations refine sets
      of pages, lists of blocks and address translations, on every path; what is
      handed out is disjoint from what is in use; error codes change nothing.
    - Scheduling (Scheduler.v): the invariant of the step relation, round robin,
      bounded waiting, creation and unblocking of tasks.
    - Input and output (Vga.v, Drivers.v): the text memory always shows the viewport
      of the buffer, output is that of an abstract terminal, the keyboard refines its
      state machine and can type every printable character.
    - Loading (Boot.v, Disk.v, Fat.v, Loader.v): block addresses, the 12-bit table, the search
      of the directory and the loaded bytes are those of the format; the loader
      always reaches a verdict and boots a bootable disk.  The instructions of disk.asm
      do what the loader's model says and keep CS, DS, SS and the frame; they leave ES at
      the segment they read to, and the stack pointer two bytes below where the compiled
      code expects it.

    Some theorems show defects: [Kmalloc.kmalloc_huge_request_succeeds],
    [Paging.paging_map_table_fault], [Preempt.kmalloc_race],
    [Preempt.physical_alloc_race], [Stage1.disk_read_retries_other_block], and the last
    part of [Tasks.task_block_waits], by which the scheduler's test cannot fail.

    ** Bounds of the model

    - Each component has the memory it works on; that the kernel's stacks, tables and
      heap do not overlap is a hypothesis on the linker's layout, and that tasks stay
      on their stacks one on the steps.
    - The scheduler's steps are uninterruptible pieces; [task_block]'s store is a step
      of its own.  Interrupts can come between any two steps, whatever IF is.
    - System.v's memory calls are single steps, between interrupts: one task uses the
      heap and the page tables at a time, since kmalloc.c and paging.c have no locks.
      Preempt.v gives this up for the heap and the page allocator.  A task maps only
      virtual pages above the kernel's 4 MiB and needs a free page below 4 MiB when a table is missing.
    - Tasks.v takes a load, a store and a call that runs with interrupts off as one turn;
      which registers a task has is any frame on its stack.
    - Real.v's addresses do not wrap at 1 MiB, and hardware interrupts that the BIOS
      serves while the boot code runs are not modelled.  An INT 13h call that fails stores
      nothing and changes AX and the carry flag only.  The compiled C code of the second
      stage appears in Handoff.v by its effect, which Loader.v gives, on the machine's
      memory; it relies on the upper half of ESP being 0 at the start.
    - Where control falls through from one label to the next, the code has a step of its
      own ([Fall]) that is no instruction and changes nothing.
    - Entry.v's instructions take one step each; its memory is aligned words with the
      bytes in them, and a word access that is not aligned is undefined there.
    - Loader.v's volumes have 512-byte sectors and at most nine table sectors, and
      files end below 1 MiB: beyond that the loader overwrites its own memory, which
      its code does not check.  All memory below 1 MiB counts as RAM there; the kernel of
      Handoff.v ends below 0x98000, as its linker script asserts, and so below the video
      memory.

    ** Not modelled

    The printf calls under DEBUG, the linker scripts and the makefile (their constraints
    are hypotheses), and [gdt_init], which is declared and nowhere defined. *)

From stdpp Require Export base gmap list list_numbers strings fin_maps sets.
From Stdlib Require Export ZArith Lia.

#[global] Open Scope Z_scope.

(** ** Machine integers

    A C integer of width [w] is a [Z]; the wrap-around of unsigned arithmetic
    is written out with [u8], [u16] and [u32].  The kernel is compiled with
    [-m32]: [size_t], [uintptr_t] and pointers are 32 bits wide. *)

Definition u8 (x : Z) : Z := x `mod` 2 ^ 8.
Definition u16 (x : Z) : Z := x `mod` 2 ^ 16.
Definition u32 (x : Z) : Z := x `mod` 2 ^ 32.

(** The signed reading of a 32-bit pattern ([int]). *)
Definition i32 (x : Z) : Z :=
  if u32 x <? 2 ^ 31 then u32 x else u32 x - 2 ^ 32.

(** ** The monad of the model

    A C function that works on the static variables [S] of its file is a
    function [S -> option (A * S)].  [None] is undefined behaviour: an index
    outside an array, a page fault, a missing variadic argument, or a loop that
    has used up its fuel.  A theorem that a function returns therefore shows
    that none of these happens. *)

Definition M (S A : Type) : Type := S → option (A * S).

#[global] Instance M_ret {S} : MRet (M S) := λ A a s, Some (a, s).
#[global] Instance M_bind {S} : MBind (M S) := λ A B f m s,
  match m s with Some (a, s') => f a s' | None => None end.

Definition gets {S A} (f : S → A) : M S A := λ s, Some (f s, s).
Definition modify {S} (f : S → S) : M S unit := λ s, Some (tt, f s).
Definition undef {S A} : M S A := λ _, None.
Definition lift {S A} (o : option A) : M S A := λ s,
  match o with Some a => Some (a, s) | None => None end.
Definition when {S} (b : bool) (m : M S unit) : M S unit :=
  if b then m else mret tt.

(** The state a run ends in (the initial one if it is undefined). *)
Definition final {S A} (m : M S A) (s : S) : S :=
  match m s with Some (_, s') => s' | None => s end.

(** Running a component's operation on the state of the system it belongs to. *)
Definition zoom {S T A} (get : S → T) (set : T → S → S) (m : M T A) : M S A :=
  λ s, match m (get s) with Some (a, t) => Some (a, set t s) | None => None end.

(** [for (x : l) body] *)
Fixpoint mfor {S X} (l : list X) (body : X → M S unit) : M S unit :=
  match l with
  | [] => mret tt
  | x :: l => body x ≫= λ _, mfor l body
  end.

(** [for (x : l) body], where the body may leave the loop with a value
    ([return r] or [break]). *)
Fixpoint mfor_ret {S X R} (l : list X) (body : X → M S (option R))
  : M S (option R) :=
  match l with
  | [] => mret None
  | x :: l => body x ≫= λ o, match o with
                             | Some r => mret (Some r)
                             | None => mfor_ret l body
                             end
  end.

(** The values of [i] in [for (i = lo; i < hi; ++i)]. *)
Definition range (lo hi : Z) : list Z := seqZ lo (hi - lo).

(** ** Arrays

    [a[i]] and [a[i] = v]; an index outside the array is undefined. *)

Definition aget {A} (l : list A) (i : Z) : option A :=
  if decide (0 ≤ i) then l !! Z.to_nat i else None.
Definition aset {A} (i : Z) (v : A) (l : list A) : option (list A) :=
  if decide (0 ≤ i < Z.of_nat (length l)) then Some (<[Z.to_nat i := v]> l)
  else None.

(** [a[i]] and [a[i] = v] for an array that is a static variable of the file. *)
Definition load_at {S A} (get : S → list A) (i : Z) : M S A :=
  l ← gets get; lift (aget l i).
Definition store_at {S A} (get : S → list A) (set : list A → S → S) (i : Z) (v : A)
  : M S unit :=
  l ← gets get; l' ← lift (aset i v l); modify (set l').

(** ** Memory

    Memory is a map from the address of an aligned 32-bit word to its value; a
    word that was never written holds an arbitrary value, here 0. *)

Definition getw (m : gmap Z Z) (a : Z) : Z := default 0 (m !! a).

(** ** C strings

    [cstr] turns a literal into its bytes, reading the escapes of C. *)

Definition escape (c : Z) : Z :=
  if decide (c = 110) then 10          (* \n *)
  else if decide (c = 116) then 9      (* \t *)
  else if decide (c = 114) then 13     (* \r *)
  else if decide (c = 98) then 8       (* \b *)
  else c.

Definition byte_of (a : Ascii.ascii) : Z := Z.of_N (Ascii.N_of_ascii a).

Fixpoint cstr (s : string) : list Z :=
  match s with
  | EmptyString => []
  | String a s' =>
      if decide (byte_of a = 92) then
        match s' with
        | EmptyString => [92]
        | String b s'' => escape (byte_of b) :: cstr s''
        end
      else byte_of a :: cstr s'
  end.

(** ** Total weakest precondition

    [wp m Q s]: run in [s], [m] returns, and its result and final state
    satisfy [Q]. *)

Definition wp {S A} (m : M S A) (Q : A → S → Prop) (s : S) : Prop :=
  match m s with Some (a, s') => Q a s' | None => False end.

Section wp.
Context {S : Type}.
Implicit Types s : S.

Lemma wp_eq {A} (m : M S A) Q s a s' : m s = Some (a, s') → Q a s' → wp m Q s.
Proof. unfold wp. by intros ->. Qed.

Lemma wp_inv {A} (m : M S A) Q s :
  wp m Q s ↔ ∃ a s', m s = Some (a, s') ∧ Q a s'.
Proof.
  unfold wp. destruct (m s) as [[a s']|]; split.
  - eauto.
  - by intros (? & ? & [= -> ->] & ?).
  - done.
  - by intros (? & ? & ? & ?).
Qed.

Lemma wp_run {A} (m : M S A) Q s a s' : wp m Q s → m s = Some (a, s') → Q a s'.
Proof. unfold wp. intros H E. by rewrite E in H. Qed.

Lemma wp_final {A} (m : M S A) Q s :
  wp m Q s → ∃ a, m s = Some (a, final m s) ∧ Q a (final m s).
Proof. unfold wp, final. destruct (m s) as [[a s']|]; [eauto|done]. Qed.

Lemma wp_mono {A} (m : M S A) (Q Q' : A → S → Prop) s :
  wp m Q s → (∀ a s', Q a s' → Q' a s') → wp m Q' s.
Proof. unfold wp. destruct (m s) as [[a s']|]; naive_solver. Qed.

Lemma wp_and {A} (m : M S A) (Q R : A → S → Prop) s :
  wp m Q s → wp m R s → wp m (λ a s', Q a s' ∧ R a s') s.
Proof. unfold wp. by destruct (m s) as [[a s']|]. Qed.

Lemma wp_ret {A} (a : A) (Q : A → S → Prop) s : Q a s → wp (mret a) Q s.
Proof. done. Qed.

Lemma wp_bind {A B} (m : M S A) (f : A → M S B) Q s :
  wp m (λ a, wp (f a) Q) s → wp (m ≫= f) Q s.
Proof. unfold wp, mbind, M_bind. by destruct (m s) as [[a s']|]. Qed.

Lemma wp_assoc {A B C} (m : M S A) (f : A → M S B) (g : B → M S C) Q s :
  wp (m ≫= f) (λ b, wp (g b) Q) s → wp (m ≫= λ a, f a ≫= g) Q s.
Proof.
  unfold wp, mbind, M_bind. destruct (m s) as [[a s']|]; [|done]. by destruct (f a s') as [[b s'']|].
Qed.

Lemma wp_gets {A} (f : S → A) (Q : A → S → Prop) s : Q (f s) s → wp (gets f) Q s.
Proof. done. Qed.

Lemma wp_modify (f : S → S) (Q : unit → S → Prop) s :
  Q tt (f s) → wp (modify f) Q s.
Proof. done. Qed.

Lemma wp_lift {A} (o : option A) a (Q : A → S → Prop) s :
  o = Some a → Q a s → wp (lift o) Q s.
Proof. by intros ->. Qed.

Lemma wp_when (b : bool) (m : M S unit) Q s :
  (b = true → wp m Q s) → (b = false → Q tt s) → wp (when b m) Q s.
Proof. unfold when. destruct b; intros Ht Hf; [auto|apply wp_ret; auto]. Qed.

Lemma wp_zoom {T A} (get : S → T) set (m : M T A) (Q : A → S → Prop) s :
  wp m (λ a t, Q a (set t s)) (get s) → wp (zoom get set m) Q s.
Proof. unfold wp, zoom. by destruct (m (get s)) as [[a t]|]. Qed.

(** The invariant rule: [I done rest] holds before each iteration. *)
Lemma wp_mfor {X} (I : list X → list X → S → Prop) (l : list X) body Q s :
  I [] l s →
  (∀ done x rest s, l = done ++ x :: rest → I done (x :: rest) s →
     wp (body x) (λ _ s', I (done ++ [x]) rest s') s) →
  (∀ s, I l [] s → Q tt s) →
  wp (mfor l body) Q s.
Proof.
  intros Hinit Hstep Hfin.
  assert (∀ rest dn s, l = dn ++ rest → I dn rest s →
            wp (mfor rest body) (λ _ s', I l [] s') s) as Hgen.
  { clear s Hinit. induction rest as [|x rest IH]; intros dn s Hl HI; simpl.
    - rewrite app_nil_r in Hl. subst dn. by apply wp_ret.
    - apply wp_bind. eapply wp_mono; [by eapply Hstep|]. simpl.
      intros _ s' HI'. apply IH with (dn := dn ++ [x]); [|done].
      by rewrite <- app_assoc. }
  eapply wp_mono; [by apply (Hgen l [])|]. intros []. apply Hfin.
Qed.
End wp.

(** One step of symbolic execution of [wp]. *)
Ltac wp_step :=
  lazymatch goal with
  | |- wp (mret _) _ _ => apply wp_ret
  | |- wp (_ ≫= _) _ _ => apply wp_bind
  | |- wp (gets _) _ _ => apply wp_gets
  | |- wp (modify _) _ _ => apply wp_modify
  | |- wp (zoom _ _ _) _ _ => apply wp_zoom
  | |- wp (if ?b then _ else _) _ _ => destruct b eqn:?
  end; cbv beta.
Ltac wp_steps := repeat wp_step.

(** [use_wp H]: the next operation has the specification [H]. *)
Tactic Notation "use_wp" uconstr(H) := eapply wp_mono; [eapply H|cbv beta].

(** The loop [for (i = lo; i < hi; ++i)] with an invariant on [i]. *)
Lemma wp_mfor_range {S} (I : Z → S → Prop) lo hi body (Q : unit → S → Prop) s :
  lo ≤ hi →
  I lo s →
  (∀ i s, lo ≤ i < hi → I i s → wp (body i) (λ _ s', I (i + 1) s') s) →
  (∀ s, I hi s → Q tt s) →
  wp (mfor (range lo hi) body) Q s.
Proof.
  intros Hle Hinit Hstep Hfin. unfold range.
  apply (wp_mfor (λ dn rest s, I (lo + Z.of_nat (length dn)) s)); simpl.
  - by rewrite Z.add_0_r.
  - intros dn x rest s0 Hl HI.
    assert (seqZ lo (hi - lo) !! length dn = Some x) as Hx.
    { rewrite Hl. by apply list_lookup_middle. }
    apply lookup_seqZ in Hx as [-> Hlt].
    eapply wp_mono; [apply Hstep; [lia|done]|]. simpl. intros _ s' HI'.
    rewrite length_app. simpl. replace (lo + Z.of_nat (length dn + 1))
      with (lo + Z.of_nat (length dn) + 1) by lia. done.
  - intros s0. rewrite length_seqZ. replace (lo + Z.of_nat (Z.to_nat (hi - lo)))
      with hi by lia. apply Hfin.
Qed.

(** A counting loop that may return: [I i] holds before iteration [i]. *)
Lemma wp_mfor_ret_range {S R} (I : Z → S → Prop) lo hi
    (body : Z → M S (option R)) (Q : option R → S → Prop) s :
  lo ≤ hi →
  I lo s →
  (∀ i s, lo ≤ i < hi → I i s →
     wp (body i) (λ o s', match o with
                          | Some r => Q (Some r) s'
                          | None => I (i + 1) s'
                          end) s) →
  (∀ s, I hi s → Q None s) →
  wp (mfor_ret (range lo hi) body) Q s.
Proof.
  intros Hle Hinit Hstep Hfin. unfold range.
  remember (Z.to_nat (hi - lo)) as n eqn:Hn.
  revert lo s Hn Hle Hinit Hstep. induction n as [|n IH]; intros lo s Hn Hle Hinit Hstep.
  - rewrite seqZ_nil by lia. simpl. apply wp_ret. replace hi with lo in Hfin by lia. auto.
  - rewrite seqZ_cons by lia. simpl. apply wp_bind.
    eapply wp_mono; [apply Hstep; [lia|done]|]. simpl. intros [r|] s' H.
    + by apply wp_ret.
    + replace (Z.pred (hi - lo)) with (hi - Z.succ lo) by lia.
      apply IH; [lia|lia|by rewrite <- Z.add_1_r|].
      intros i s0 Hi. apply Hstep. lia.
Qed.

(** A loop that may return, with an invariant that does not depend on how far it
    has come. *)
Lemma wp_mfor_ret_inv {S X R} (I : S → Prop) (l : list X) (body : X → M S (option R))
    (Q : option R → S → Prop) s :
  I s →
  (∀ x s, I s → wp (body x) (λ o s', match o with Some r => Q (Some r) s' | None => I s' end) s) →
  (∀ s, I s → Q None s) →
  wp (mfor_ret l body) Q s.
Proof.
  intros Hs Hstep Hfin. revert s Hs. induction l as [|x l IH]; intros s Hs; simpl; [by apply wp_ret, Hfin|].
  apply wp_bind. eapply wp_mono; [by apply Hstep|]. simpl. intros [r|] s' H; [by apply wp_ret|by apply IH].
Qed.

(** A searching loop: the state is only read until the first element that
    satisfies [P]. *)
Lemma wp_mfor_find {S X R} (P : X → bool) (l : list X) (body : X → M S (option R))
    (Q : option R → S → Prop) s :
  (∀ x, x ∈ l → P x = false → body x s = Some (None, s)) →
  match List.find P l with
  | Some x => wp (body x) (λ o s', ∃ r, o = Some r ∧ Q (Some r) s') s
  | None => Q None s
  end →
  wp (mfor_ret l body) Q s.
Proof.
  induction l as [|x l IH]; intros Hskip HQ; simpl in *; [by apply wp_ret|].
  apply wp_bind. destruct (P x) eqn:Ex.
  - eapply wp_mono; [exact HQ|]. simpl. intros o s' (r & -> & Hr). by apply wp_ret.
  - eapply wp_eq; [apply Hskip; [left|done]|]. simpl. apply IH; [|done].
    intros y Hy. apply Hskip. by right.
Qed.

(** ** Lemmas on arrays *)

Section array.
Context {A : Type}.
Implicit Types (l : list A) (i : Z).

Lemma aget_Some l i a : aget l i = Some a ↔ 0 ≤ i ∧ l !! Z.to_nat i = Some a.
Proof. unfold aget. case_decide; [tauto|]. split; [done|]. by intros [? _]. Qed.

Lemma aget_range l i a : aget l i = Some a → 0 ≤ i < Z.of_nat (length l).
Proof.
  intros [? H%lookup_lt_Some]%aget_Some. lia.
Qed.

Lemma aget_is_Some l i : 0 ≤ i < Z.of_nat (length l) → is_Some (aget l i).
Proof.
  intros Hi. destruct (lookup_lt_is_Some_2 l (Z.to_nat i)) as [a Ha]; [lia|].
  exists a. apply aget_Some. split; [lia|done].
Qed.

Lemma aset_in l i a :
  0 ≤ i < Z.of_nat (length l) → aset i a l = Some (<[Z.to_nat i := a]> l).
Proof. intros. unfold aset. by rewrite decide_True. Qed.

Lemma aset_length l i a l' : aset i a l = Some l' → length l' = length l.
Proof. unfold aset. case_decide; [|done]. intros [= <-]. apply length_insert. Qed.

Lemma aget_aset l i a l' j :
  aset i a l = Some l' → aget l' j = if decide (i = j) then Some a else aget l j.
Proof.
  unfold aset, aget. case_decide; [|done]. intros [= <-].
  repeat case_decide; try lia; try done; subst.
  - apply list_lookup_insert_eq. lia.
  - apply list_lookup_insert_ne. lia.
Qed.
End array.

(** Searching in two halves. *)
Lemma find_app {A} (P : A → bool) (l1 l2 : list A) :
  List.find P (l1 ++ l2) = match List.find P l1 with
                           | Some x => Some x
                           | None => List.find P l2
                           end.
Proof. induction l1 as [|x l1 IH]; simpl; [done|]. by destruct (P x). Qed.

(** A store into a static array, and the loop that fills one:
    [for (i = 0; i < n; ++i) a[i] = f(i);]. *)
Section fill.
Context {S A : Type} (get : S → list A) (set : list A → S → S).
Hypothesis get_set : ∀ l s, get (set l s) = l.
Hypothesis set_set : ∀ l l' s, set l (set l' s) = set l s.
Hypothesis set_get : ∀ s, set (get s) s = s.

Lemma wp_store_at i v (Q : unit → S → Prop) s :
  0 ≤ i < Z.of_nat (length (get s)) →
  Q tt (set (<[Z.to_nat i := v]> (get s)) s) →
  wp (store_at get set i v) Q s.
Proof.
  intros Hi HQ. unfold store_at. wp_steps.
  eapply wp_lift; [by apply aset_in|]. wp_steps. done.
Qed.

Lemma wp_fill (f : Z → A) n (Q : unit → S → Prop) s :
  Z.of_nat (length (get s)) = n →
  Q tt (set (f <$> range 0 n) s) →
  wp (mfor (range 0 n) (λ i, store_at get set i (f i))) Q s.
Proof.
  intros Hn HQ.
  apply (wp_mfor_range (λ i s', s' = set ((f <$> range 0 i) ++ drop (Z.to_nat i) (get s)) s)).
  - lia.
  - change (Z.to_nat 0) with O. rewrite drop_0. symmetry. apply set_get.
  - intros i s' Hi ->. apply wp_store_at.
    + rewrite get_set, length_app, length_fmap, length_drop.
      unfold range. rewrite length_seqZ. lia.
    + rewrite get_set, set_set. f_equal.
      rewrite insert_app_r_alt by (rewrite length_fmap; unfold range; rewrite length_seqZ; lia).
      rewrite length_fmap. unfold range at 2. rewrite length_seqZ.
      replace (Z.to_nat i - Z.to_nat (i - 0))%nat with 0%nat by lia.
      destruct (drop (Z.to_nat i) (get s)) as [|x l] eqn:E.
      { apply (f_equal length) in E. rewrite length_drop in E. simpl in E. lia. }
      simpl. unfold range. replace (i + 1 - 0) with ((i - 0) + 1) by lia.
      rewrite seqZ_app by lia. rewrite fmap_app, <- app_assoc. f_equal.
      replace (0 + (i - 0)) with i by lia. simpl. f_equal.
      replace (Z.to_nat (i + 1)) with (Z.to_nat i + 1)%nat by lia.
      by rewrite <- drop_drop, E.
  - intros s' ->. by rewrite drop_ge, app_nil_r by lia.
Qed.
End fill.

(** ** Lemmas on memory *)

Lemma getw_insert m a v b : getw (<[a := v]> m) b = if decide (a = b) then v else getw m b.
Proof. unfold getw. rewrite lookup_insert. by case_decide. Qed.

(** ** Lemmas on machine integers *)

Lemma u32_small x : 0 ≤ x < 2 ^ 32 → u32 x = x.
Proof. intros. by apply Z.mod_small. Qed.
Lemma u32_range x : 0 ≤ u32 x < 2 ^ 32.
Proof. apply Z.mod_pos_bound. lia. Qed.
Lemma u16_small x : 0 ≤ x < 2 ^ 16 → u16 x = x.
Proof. intros. by apply Z.mod_small. Qed.
Lemma u16_range x : 0 ≤ u16 x < 2 ^ 16.
Proof. apply Z.mod_pos_bound. lia. Qed.
Lemma u8_small x : 0 ≤ x < 2 ^ 8 → u8 x = x.
Proof. intros. by apply Z.mod_small. Qed.
Lemma u8_range x : 0 ≤ u8 x < 2 ^ 8.
Proof. apply Z.mod_pos_bound. lia. Qed.

(** Masking with [2^k - 1] and with its complement. *)
Lemma land_ones_mod x k : 0 ≤ k → Z.land x (2 ^ k - 1) = x `mod` 2 ^ k.
Proof. intros. rewrite <- Z.land_ones by done. by rewrite Z.ones_equiv, Z.sub_1_r. Qed.

Lemma land_not_ones x k :
  0 ≤ k ≤ 32 → 0 ≤ x < 2 ^ 32 → Z.land x (2 ^ 32 - 2 ^ k) = x - x `mod` 2 ^ k.
Proof.
  intros Hk Hx.
  replace (x - x `mod` 2 ^ k) with (Z.ldiff x (Z.ones k)).
  - replace (2 ^ 32 - 2 ^ k) with (Z.ldiff (Z.ones 32) (Z.ones k)).
    + apply Z.bits_inj'. intros n Hn.
      rewrite Z.land_spec, !Z.ldiff_spec, !Z.testbit_ones_nonneg by lia.
      destruct (Z.ltb_spec n 32); simpl; [done|].
      assert (Z.testbit x n = false) as ->; [|done].
      rewrite <- (Z.mod_small x (2 ^ 32)) by done. apply Z.mod_pow2_bits_high. lia.
    + rewrite Z.ldiff_ones_r by lia.
      rewrite Z.shiftr_div_pow2, Z.shiftl_mul_pow2 by lia.
      rewrite Z.ones_equiv. replace (Z.pred (2 ^ 32)) with
        ((2 ^ (32 - k) - 1) * 2 ^ k + (2 ^ k - 1)).
      2:{ rewrite Z.mul_sub_distr_r, <- Z.pow_add_r by lia.
          replace (32 - k + k) with 32 by lia. lia. }
      rewrite Z.div_add_l, (Z.div_small (2 ^ k - 1)) by lia.
      rewrite Z.add_0_r, Z.mul_sub_distr_r, <- Z.pow_add_r by lia.
      replace (32 - k + k) with 32 by lia. lia.
  - rewrite Z.ldiff_ones_r by lia. rewrite Z.shiftr_div_pow2, Z.shiftl_mul_pow2 by lia.
    rewrite (Z.mod_eq x (2 ^ k)) by lia. lia.
Qed.

(** Setting, clearing and testing one bit of a 32-bit word, the way C spells
    them: [w |= 1u << k], [w &= ~(1u << k)] and [(w & (1u << k)) != 0]. *)
Lemma u32_bit k : 0 ≤ k < 32 → u32 (Z.shiftl 1 k) = 2 ^ k.
Proof.
  intros Hk. rewrite Z.shiftl_1_l. apply u32_small. split; [lia|].
  apply Z.pow_lt_mono_r; lia.
Qed.

Lemma testbit_high w k j : 0 ≤ w < 2 ^ k → 0 ≤ k ≤ j → Z.testbit w j = false.
Proof.
  intros Hw Hj. rewrite <- (Z.mod_small w (2 ^ k)) by done.
  apply Z.mod_pow2_bits_high. lia.
Qed.

(** A non-negative number without bits from [k] on is below [2^k]. *)
Lemma bits_lt w k :
  0 ≤ k → 0 ≤ w → (∀ j, k ≤ j → Z.testbit w j = false) → w < 2 ^ k.
Proof.
  intros Hk Hw Hbits. assert (w `mod` 2 ^ k = w) as <-.
  { apply Z.bits_inj'. intros j Hj. destruct (decide (j < k)).
    - by rewrite Z.mod_pow2_bits_low.
    - rewrite Z.mod_pow2_bits_high by lia. symmetry. apply Hbits. lia. }
  apply Z.mod_pos_bound. lia.
Qed.

Lemma lor_range a b k :
  0 ≤ k → 0 ≤ a < 2 ^ k → 0 ≤ b < 2 ^ k → 0 ≤ Z.lor a b < 2 ^ k.
Proof.
  intros Hk Ha Hb. assert (0 ≤ Z.lor a b) by (apply Z.lor_nonneg; lia).
  split; [done|]. apply bits_lt; [done|done|]. intros j Hj.
  by rewrite Z.lor_spec, (testbit_high a k), (testbit_high b k).
Qed.

Lemma land_range a b k : 0 ≤ k → 0 ≤ a < 2 ^ k → 0 ≤ Z.land a b < 2 ^ k.
Proof.
  intros Hk Ha. assert (0 ≤ Z.land a b) by (apply Z.land_nonneg; lia).
  split; [done|]. apply bits_lt; [done|done|]. intros j Hj.
  by rewrite Z.land_spec, (testbit_high a k).
Qed.

(** Packing a [k]-bit number below another. *)
Lemma lor_shiftl a b k :
  0 ≤ k → 0 ≤ a < 2 ^ k → Z.lor a (Z.shiftl b k) = a + b * 2 ^ k.
Proof.
  intros Hk Ha. rewrite <- Z.shiftl_mul_pow2 by done. symmetry. apply Z.add_nocarry_lor.
  apply Z.bits_inj'. intros j Hj. rewrite Z.land_spec, Z.bits_0. destruct (decide (j < k)).
  - rewrite Z.shiftl_spec_low by done. apply andb_false_r.
  - rewrite (testbit_high a k) by lia. done.
Qed.

Lemma set_bit_spec w k j :
  0 ≤ k < 32 → 0 ≤ j →
  Z.testbit (Z.lor w (u32 (Z.shiftl 1 k))) j = (k =? j) || Z.testbit w j.
Proof.
  intros Hk Hj. rewrite u32_bit by done.
  by rewrite Z.lor_spec, Z.pow2_bits_eqb, orb_comm by lia.
Qed.

Lemma u32_lnot x : 0 ≤ x < 2 ^ 32 → u32 (Z.lnot x) = 2 ^ 32 - 1 - x.
Proof.
  intros Hx. unfold u32, Z.lnot. rewrite <- (Z_mod_plus_full _ 1).
  rewrite Z.mod_small; lia.
Qed.

Lemma clear_bit_spec w k j :
  0 ≤ k < 32 → 0 ≤ j < 32 →
  Z.testbit (Z.land w (u32 (Z.lnot (u32 (Z.shiftl 1 k))))) j
  = negb (k =? j) && Z.testbit w j.
Proof.
  intros Hk Hj. rewrite u32_bit by done. rewrite Z.land_spec, andb_comm. f_equal.
  unfold u32. rewrite Z.mod_pow2_bits_low, Z.lnot_spec, Z.pow2_bits_eqb by lia. done.
Qed.

Lemma test_bit_spec w k :
  0 ≤ k < 32 → negb (Z.land w (u32 (Z.shiftl 1 k)) =? 0) = Z.testbit w k.
Proof.
  intros Hk. rewrite u32_bit by done.
  assert (∀ j, 0 ≤ j → Z.testbit (Z.land w (2 ^ k)) j = (k =? j) && Z.testbit w j) as Hb.
  { intros j Hj. by rewrite Z.land_spec, Z.pow2_bits_eqb, andb_comm by lia. }
  destruct (Z.testbit w k) eqn:E.
  - destruct (Z.eqb_spec (Z.land w (2 ^ k)) 0) as [H|]; [|done].
    specialize (Hb k ltac:(lia)). by rewrite H, Z.bits_0, Z.eqb_refl, E in Hb.
  - destruct (Z.eqb_spec (Z.land w (2 ^ k)) 0) as [|H]; [done|].
    destruct H. apply Z.bits_inj'. intros j Hj. rewrite Hb, Z.bits_0 by done.
    destruct (Z.eqb_spec k j); [by subst|done].
Qed.

(** ** Automation *)

Create HintDb neil.
Create Rewrite HintDb neil_rw.
#[export] Hint Resolve u8_range u16_range u32_range : neil.
#[export] Hint Rewrite u8_small u16_small u32_small using lia : neil_rw.


(** Evaluate the integer comparisons of a goal, in order. *)
Ltac decides :=
  repeat first [rewrite decide_False by lia | rewrite decide_True by lia].

(** ** Executions

    A machine is a step relation; [eventually R s Q]: from [s] it can run to a state
    that satisfies [Q]. *)
Definition eventually {A} (R : relation A) (s : A) (Q : A → Prop) : Prop := ∃ s', rtc R s s' ∧ Q s'.

Section eventually.
Context {A : Type} (R : relation A).
Implicit Types (s : A) (Q : A → Prop).

Lemma eventually_here s Q : Q s → eventually R s Q.
Proof. intros HQ. exists s. by split; [constructor|]. Qed.

Lemma eventually_step s s' Q : R s s' → eventually R s' Q → eventually R s Q.
Proof. intros H1 (s2 & H2 & HQ). exists s2. split; [|done]. by eapply rtc_l. Qed.

Lemma eventually_bind s Q Q' : eventually R s Q → (∀ s', Q s' → eventually R s' Q') → eventually R s Q'.
Proof.
  intros (s1 & H1 & HQ) HR. destruct (HR s1 HQ) as (s2 & H2 & HR2). exists s2. split; [|done]. by etrans.
Qed.

(** Running a part of a larger machine. *)
Lemma eventually_embed {B} (R' : relation B) (f : A → B) s Q (Q' : B → Prop) :
  (∀ x y, R x y → R' (f x) (f y)) → eventually R s Q → (∀ x, Q x → Q' (f x)) → eventually R' (f s) Q'.
Proof.
  intros Hf (s1 & H1 & HQ) HQ'. exists (f s1). split; [|by apply HQ'].
  induction H1 as [|x y z Hxy _ IH]; [constructor|]. eapply rtc_l; [by apply Hf|by apply IH].
Qed.
End eventually.
