(* ===== verification/Physical.v ===== *)
(** * The physical page allocator (src/kernel/mm/physical.c)

    The bitmap [pageBitMap] with one bit per 4 KiB page of the first 64 MiB and
    the counter [freePages], the operations of the file, an abstract allocator
    over the set of free pages, and the proof that the bitmap implements it. *)

From S2P Require Import Prelude.

Module Physical.

(** ** Data and operations *)

Definition PAGE_SIZE : Z := 4096.
Definition PHYSICAL_MEMORY_SIZE : Z := 64 * 1024 * 1024.
Definition PHYSICAL_PAGE_COUNT : Z := PHYSICAL_MEMORY_SIZE / PAGE_SIZE.
Definition BITMAP_WORD_COUNT : Z := (PHYSICAL_PAGE_COUNT + 31) / 32.

(** The static variables of physical.c. *)
Record phys : Type := mkPhys {
  pageBitMap : list Z;
  freePages : Z
}.

Definition set_pageBitMap (bm : list Z) (s : phys) : phys := mkPhys bm (freePages s).
Definition set_freePages (n : Z) (s : phys) : phys := mkPhys (pageBitMap s) n.

(** The symbols of src/kernel/linker.ld; only the end of the kernel image
    depends on the code that was linked. *)
Definition kernel_start : Z := 0x9000.
Definition heap_start : Z := 0x100000.
Definition heap_end : Z := heap_start + 0x100000.

Definition mark_used (page : Z) : M phys unit :=
  w ← load_at pageBitMap (page / 32);
  store_at pageBitMap set_pageBitMap (page / 32)
    (Z.lor w (u32 (Z.shiftl 1 (page `mod` 32)))).

Definition mark_free (page : Z) : M phys unit :=
  w ← load_at pageBitMap (page / 32);
  store_at pageBitMap set_pageBitMap (page / 32)
    (Z.land w (u32 (Z.lnot (u32 (Z.shiftl 1 (page `mod` 32)))))).

Definition is_used (page : Z) : M phys bool :=
  w ← load_at pageBitMap (page / 32);
  mret (negb (Z.land w (u32 (Z.shiftl 1 (page `mod` 32))) =? 0)).

Definition decr_freePages : M phys unit :=
  modify (λ s, set_freePages (u32 (freePages s - 1)) s).
Definition incr_freePages : M phys unit :=
  modify (λ s, set_freePages (u32 (freePages s + 1)) s).

(** The loop of [reserve_range]; it leaves at the end of physical memory, so
    one unit of fuel per page is enough. *)
Fixpoint reserve_loop (fuel : nat) (address end_ : Z) : M phys unit :=
  match fuel with
  | O => undef
  | S fuel =>
      if address <? end_ then
        let page := address / PAGE_SIZE in
        if PHYSICAL_PAGE_COUNT <=? page then mret tt
        else
          u ← is_used page;
          _ ← when (negb u) (_ ← mark_used page; decr_freePages);
          reserve_loop fuel (u32 (address + PAGE_SIZE)) end_
      else mret tt
  end.

Definition reserve_fuel : nat := S (Z.to_nat PHYSICAL_PAGE_COUNT).

Definition reserve_range (start end_ : Z) : M phys unit :=
  let start := Z.land start (u32 (Z.lnot (PAGE_SIZE - 1))) in
  let end_ := Z.land (u32 (end_ + PAGE_SIZE - 1)) (u32 (Z.lnot (PAGE_SIZE - 1))) in
  reserve_loop reserve_fuel start end_.

Definition physical_init (kernel_end : Z) : M phys unit :=
  _ ← mfor (range 0 BITMAP_WORD_COUNT) (λ i,
        store_at pageBitMap set_pageBitMap i 0xFFFFFFFF);
  _ ← modify (set_freePages 0);
  _ ← mfor (range 0 PHYSICAL_PAGE_COUNT) (λ page,
        _ ← mark_free page; incr_freePages);
  _ ← reserve_range 0x00000000 0x00001000;
  _ ← reserve_range 0x00000000 0x00100000;
  _ ← reserve_range kernel_start kernel_end;
  _ ← reserve_range heap_start heap_end;
  reserve_range 0x00098000 0x000A0000.

Definition physical_alloc_page : M phys Z :=
  r ← mfor_ret (range 256 PHYSICAL_PAGE_COUNT) (λ page,
        u ← is_used page;
        if negb u then
          _ ← mark_used page;
          _ ← decr_freePages;
          mret (Some (u32 (page * PAGE_SIZE)))
        else mret None);
  mret (default 0 r).

Definition physical_free_page (address : Z) : M phys unit :=
  if negb (Z.land address (PAGE_SIZE - 1) =? 0) then mret tt
  else
    let page := address / PAGE_SIZE in
    if PHYSICAL_PAGE_COUNT <=? page then mret tt
    else if address <? 0x00100000 then mret tt
    else
      u ← is_used page;
      if negb u then mret tt
      else _ ← mark_free page; incr_freePages.

(** ** The abstract allocator: a set of free page numbers *)

Definition pages (lo hi : Z) : gset Z := list_to_set (range lo hi).

(** Page [p] is free in the bitmap. *)
Definition page_free (bm : list Z) (p : Z) : bool :=
  match aget bm (p / 32) with
  | Some w => negb (Z.testbit w (p `mod` 32))
  | None => false
  end.

Definition word_ok (w : Z) : Prop := 0 ≤ w < 2 ^ 32.

(** The bitmap represents the set [F]. *)
Record bm_rep (bm : list Z) (F : gset Z) : Prop := {
  bm_length : Z.of_nat (length bm) = BITMAP_WORD_COUNT;
  bm_words : Forall word_ok bm;
  bm_sub : F ⊆ pages 0 PHYSICAL_PAGE_COUNT;
  bm_free : ∀ p, 0 ≤ p < PHYSICAL_PAGE_COUNT → page_free bm p = bool_decide (p ∈ F)
}.

(** The allocator's state represents [F]: the bitmap does and the counter is
    the number of free pages. *)
Record phys_rep (s : phys) (F : gset Z) : Prop := {
  rep_bm : bm_rep (pageBitMap s) F;
  rep_count : freePages s = Z.of_nat (size F)
}.

(** [reserve_range]: the pages that overlap [start, end_) stop being free. *)
Definition spec_reserve (start end_ : Z) (F : gset Z) : gset Z :=
  F ∖ pages (start / PAGE_SIZE) ((end_ + PAGE_SIZE - 1) / PAGE_SIZE).

(** [physical_alloc_page]: the result is 0 and nothing changes when no page
    from 256 on is free; otherwise it is the address of the lowest such page. *)
Definition spec_alloc (F : gset Z) (r : Z) (F' : gset Z) : Prop :=
  (r = 0 ∧ F' = F ∧ (∀ p, p ∈ F → p < 256)) ∨
  (∃ p, p ∈ F ∧ 256 ≤ p ∧ (∀ q, q ∈ F → 256 ≤ q → p ≤ q) ∧
        r = p * PAGE_SIZE ∧ F' = F ∖ {[p]}).

(** [physical_free_page]. *)
Definition spec_free (address : Z) (F : gset Z) : gset Z :=
  if decide (address `mod` PAGE_SIZE = 0 ∧ 0x100000 ≤ address < PHYSICAL_MEMORY_SIZE)
  then {[address / PAGE_SIZE]} ∪ F else F.

(** ** The bitmap represents a set *)

Ltac consts :=
  change PHYSICAL_PAGE_COUNT with 16384 in *;
  change BITMAP_WORD_COUNT with 512 in *;
  change PHYSICAL_MEMORY_SIZE with 67108864 in *;
  change PAGE_SIZE with 4096 in *.

Lemma elem_of_pages lo hi p : p ∈ pages lo hi ↔ lo ≤ p < hi.
Proof. unfold pages, range. rewrite elem_of_list_to_set, elem_of_seqZ. lia. Qed.

Lemma size_pages lo hi : size (pages lo hi) = Z.to_nat (hi - lo).
Proof.
  unfold pages, range. rewrite size_list_to_set by apply NoDup_seqZ.
  by rewrite length_seqZ.
Qed.

#[global] Opaque pages.

(** The word that holds page [p]. *)
Lemma bm_word bm F p :
  bm_rep bm F → 0 ≤ p < PHYSICAL_PAGE_COUNT →
  ∃ w, aget bm (p / 32) = Some w ∧ word_ok w ∧
       Z.testbit w (p `mod` 32) = bool_decide (p ∉ F).
Proof.
  intros [Hlen Hok _ Hfree] Hp. consts.
  destruct (aget_is_Some bm (p / 32)) as [w Hw].
  { pose proof (Z.div_pos p 32). pose proof (Z.div_lt_upper_bound p 32 512). lia. }
  exists w. split; [done|]. split.
  - apply aget_Some in Hw as [_ Hw]. by eapply Forall_lookup_1 in Hw.
  - specialize (Hfree p Hp). unfold page_free in Hfree. rewrite Hw in Hfree.
    rewrite bool_decide_not, <- Hfree. by rewrite negb_involutive.
Qed.

(** Changing bit [p `mod` 32] of word [p / 32], and no other one, is adding
    page [p] to the set or removing it. *)
Lemma bm_update bm F F' p w w' :
  bm_rep bm F → 0 ≤ p < PHYSICAL_PAGE_COUNT →
  aget bm (p / 32) = Some w → word_ok w' →
  (∀ j, 0 ≤ j < 32 → Z.testbit w' j =
     if decide (p `mod` 32 = j) then bool_decide (p ∉ F') else Z.testbit w j) →
  (∀ q, q ≠ p → q ∈ F' ↔ q ∈ F) →
  ∃ bm', aset (p / 32) w' bm = Some bm' ∧ bm_rep bm' F'.
Proof.
  intros Hrep Hp Hw Hok Hbit Hother. pose proof (aget_range _ _ _ Hw) as Hr.
  eexists. split; [by apply aset_in|]. destruct Hrep as [Hlen Hall Hsub Hfree].
  constructor.
  - by rewrite length_insert.
  - by apply Forall_insert.
  - intros q Hq. destruct (decide (q = p)) as [->|]; [by apply elem_of_pages|].
    apply Hsub. by apply Hother.
  - intros q Hq. unfold page_free.
    erewrite aget_aset by (by apply aset_in). destruct (decide (p / 32 = q / 32)) as [Hqp|Hqp].
    + rewrite Hbit by (apply Z.mod_pos_bound; lia).
      destruct (decide (p `mod` 32 = q `mod` 32)) as [Hm|Hm].
      * assert (q = p) as -> by (pose proof (Z.div_mod p 32); pose proof (Z.div_mod q 32); lia).
        by rewrite bool_decide_not, negb_involutive.
      * assert (q ≠ p) as Hne by (by intros ->).
        specialize (Hfree q Hq). unfold page_free in Hfree. rewrite <- Hqp, Hw in Hfree.
        rewrite Hfree. apply bool_decide_ext. by rewrite Hother.
    + assert (q ≠ p) as Hne by (by intros ->).
      specialize (Hfree q Hq). unfold page_free in Hfree. rewrite Hfree.
      apply bool_decide_ext. by rewrite Hother.
Qed.

Lemma is_used_spec s F p :
  bm_rep (pageBitMap s) F → 0 ≤ p < PHYSICAL_PAGE_COUNT →
  wp (is_used p) (λ b s', s' = s ∧ b = bool_decide (p ∉ F)) s.
Proof.
  intros Hrep Hp. destruct (bm_word _ _ _ Hrep Hp) as (w & Hw & _ & Hbit).
  unfold is_used, load_at. wp_steps. eapply wp_lift; [done|]. apply wp_ret.
  split; [done|]. rewrite test_bit_spec by (apply Z.mod_pos_bound; lia). done.
Qed.

Lemma mark_used_spec s F p :
  bm_rep (pageBitMap s) F → 0 ≤ p < PHYSICAL_PAGE_COUNT →
  wp (mark_used p) (λ _ s', bm_rep (pageBitMap s') (F ∖ {[p]}) ∧
                            freePages s' = freePages s) s.
Proof.
  intros Hrep Hp. destruct (bm_word _ _ _ Hrep Hp) as (w & Hw & Hok & Hbit).
  pose proof (Z.mod_pos_bound p 32 ltac:(lia)) as Hm.
  unfold mark_used, load_at, store_at. wp_steps. eapply wp_lift; [done|].
  destruct (bm_update _ _ (F ∖ {[p]}) _ _
    (Z.lor w (u32 (Z.shiftl 1 (p `mod` 32)))) Hrep Hp Hw) as (bm' & Hset & Hrep').
  - apply lor_range; [lia|done|apply u32_range].
  - intros j Hj. rewrite set_bit_spec by lia.
    destruct (decide (p `mod` 32 = j)) as [Hd|Hd].
    + rewrite Hd, Z.eqb_refl. simpl. symmetry. apply bool_decide_eq_true. set_solver.
    + by rewrite (proj2 (Z.eqb_neq _ _) Hd).
  - set_solver.
  - wp_steps. eapply wp_lift; [done|]. wp_steps. done.
Qed.

Lemma mark_free_spec s F p :
  bm_rep (pageBitMap s) F → 0 ≤ p < PHYSICAL_PAGE_COUNT →
  wp (mark_free p) (λ _ s', bm_rep (pageBitMap s') ({[p]} ∪ F) ∧
                            freePages s' = freePages s) s.
Proof.
  intros Hrep Hp. destruct (bm_word _ _ _ Hrep Hp) as (w & Hw & Hok & Hbit).
  pose proof (Z.mod_pos_bound p 32 ltac:(lia)) as Hm.
  unfold mark_free, load_at, store_at. wp_steps. eapply wp_lift; [done|].
  destruct (bm_update _ _ ({[p]} ∪ F) _ _
    (Z.land w (u32 (Z.lnot (u32 (Z.shiftl 1 (p `mod` 32)))))) Hrep Hp Hw)
    as (bm' & Hset & Hrep').
  - apply land_range; [lia|done].
  - intros j Hj. rewrite clear_bit_spec by lia.
    destruct (decide (p `mod` 32 = j)) as [Hd|Hd].
    + rewrite Hd, Z.eqb_refl. simpl. symmetry. apply bool_decide_eq_false. set_solver.
    + by rewrite (proj2 (Z.eqb_neq _ _) Hd).
  - set_solver.
  - wp_steps. eapply wp_lift; [done|]. wp_steps. done.
Qed.

(** ** The operations implement the abstract allocator *)

Lemma size_range F : F ⊆ pages 0 PHYSICAL_PAGE_COUNT → 0 ≤ Z.of_nat (size F) ≤ 16384.
Proof.
  intros Hsub. apply subseteq_size in Hsub. rewrite size_pages in Hsub. consts. lia.
Qed.

Lemma size_remove (X : gset Z) x : x ∈ X → size X = S (size (X ∖ {[x]})).
Proof.
  intros Hx. rewrite (union_difference_singleton_L x X Hx) at 1.
  rewrite size_union, size_singleton by set_solver. lia.
Qed.

(** Taking a free page out: [mark_used(p); --freePages]. *)
Lemma take_page_spec s F p :
  phys_rep s F → p ∈ F →
  wp (_ ← mark_used p; decr_freePages) (λ _ s', phys_rep s' (F ∖ {[p]})) s.
Proof.
  intros [Hbm Hcnt] Hp. pose proof (bm_sub _ _ Hbm) as Hsub.
  pose proof (size_range _ Hsub) as Hsz. pose proof (Hsub _ Hp) as Hr.
  apply elem_of_pages in Hr. wp_step. use_wp mark_used_spec; [done|done|].
  intros _ s' [Hbm' Hcnt']. unfold decr_freePages. wp_steps. constructor; simpl; [done|].
  rewrite Hcnt', Hcnt. pose proof (size_remove F p Hp). rewrite u32_small; lia.
Qed.

(** Putting a page back: [mark_free(p); ++freePages]. *)
Lemma put_page_spec s F p :
  phys_rep s F → p ∉ F → 0 ≤ p < PHYSICAL_PAGE_COUNT →
  wp (_ ← mark_free p; incr_freePages) (λ _ s', phys_rep s' ({[p]} ∪ F)) s.
Proof.
  intros [Hbm Hcnt] Hp Hr. pose proof (bm_sub _ _ Hbm) as Hsub.
  pose proof (size_range _ Hsub) as Hsz. wp_step. use_wp mark_free_spec; [done|done|].
  intros _ s' [Hbm' Hcnt']. unfold incr_freePages. wp_steps. constructor; simpl; [done|].
  rewrite Hcnt', Hcnt. rewrite size_union, size_singleton by (clear -Hp; set_solver).
  rewrite u32_small; lia.
Qed.

Lemma page_succ a : (a + 4096) / 4096 = a / 4096 + 1.
Proof. by rewrite <- Z.div_add by lia. Qed.

Lemma reserve_loop_spec fuel a e s F :
  phys_rep s F → a `mod` PAGE_SIZE = 0 → e `mod` PAGE_SIZE = 0 →
  0 ≤ a → e < 2 ^ 32 → Z.of_nat fuel > Z.max 0 (PHYSICAL_PAGE_COUNT - a / PAGE_SIZE) →
  wp (reserve_loop fuel a e)
     (λ _ s', phys_rep s' (F ∖ pages (a / PAGE_SIZE) (e / PAGE_SIZE))) s.
Proof.
  consts. intros Hrep Ha He Ha0 He0 Hf.
  revert a s F Hrep Ha Ha0 Hf. induction fuel as [|fuel IH]; intros a s F Hrep Ha Ha0 Hf; [lia|].
  assert (a = 4096 * (a / 4096)) as Ea by (pose proof (Z.div_mod a 4096); lia).
  assert (e = 4096 * (e / 4096)) as Ee by (pose proof (Z.div_mod e 4096); lia).
  simpl. consts. destruct (Z.ltb_spec a e) as [Hlt|Hge].
  2:{ apply wp_ret. replace (F ∖ _) with F; [done|]. apply set_eq. intros p.
      rewrite elem_of_difference, elem_of_pages. intuition lia. }
  assert (∀ p, p ∈ F → p < 16384) as HF.
  { intros p Hp. apply (bm_sub _ _ (rep_bm _ _ Hrep)) in Hp. apply elem_of_pages in Hp. consts. lia. }
  destruct (Z.leb_spec 16384 (a / 4096)) as [Hout|Hin].
  { apply wp_ret. replace (F ∖ _) with F; [done|]. apply set_eq. intros p.
    rewrite elem_of_difference, elem_of_pages. specialize (HF p). intuition lia. }
  set (F1 := F ∖ {[a / 4096]}).
  wp_step. use_wp is_used_spec; [apply Hrep|consts; lia|]. intros u ? [-> Hu]. wp_step.
  eapply (wp_mono _ (λ _ s', phys_rep s' F1)).
  - apply wp_when; intros E.
    + apply take_page_spec; [done|]. subst u. apply negb_true_iff, bool_decide_eq_false in E.
      by apply dec_stable in E.
    + replace F1 with F; [done|]. subst u.
      apply negb_false_iff, bool_decide_eq_true in E. unfold F1.
      clear -E. set_solver.
  - cbv beta. intros _ s' Hrep'. rewrite u32_small by lia.
    use_wp (IH (a + 4096) s' F1); rewrite ?page_succ; [done| |lia|lia|].
    + by rewrite Z.add_mod, Ha by lia.
    + intros _ s2 H2.
      replace (F ∖ _) with (F1 ∖ pages (a / 4096 + 1) (e / 4096)); [done|].
      unfold F1. apply set_eq. intros p.
      rewrite !elem_of_difference, elem_of_singleton, !elem_of_pages. intuition lia.
Qed.

(** Rounding down and up to a page, as [reserve_range] spells it. *)
Lemma page_mask x :
  0 ≤ x < 2 ^ 32 →
  Z.land x (u32 (Z.lnot (PAGE_SIZE - 1))) = PAGE_SIZE * (x / PAGE_SIZE).
Proof.
  intros Hx. rewrite u32_lnot by (consts; lia).
  replace (2 ^ 32 - 1 - (PAGE_SIZE - 1)) with (2 ^ 32 - 2 ^ 12) by (consts; lia).
  rewrite land_not_ones by lia. consts. change (2 ^ 12) with 4096.
  pose proof (Z.div_mod x 4096). lia.
Qed.

Lemma reserve_range_spec start end_ s F :
  phys_rep s F → 0 ≤ start < 2 ^ 32 → 0 ≤ end_ ≤ 2 ^ 32 - PAGE_SIZE →
  wp (reserve_range start end_) (λ _ s', phys_rep s' (spec_reserve start end_ F)) s.
Proof.
  intros Hrep Hs He. unfold reserve_range.
  assert (u32 (end_ + PAGE_SIZE - 1) = end_ + PAGE_SIZE - 1) as ->
    by (apply u32_small; consts; lia).
  rewrite !page_mask by (consts; lia). unfold spec_reserve.
  use_wp reserve_loop_spec; [done| | | | | |].
  - rewrite Z.mul_comm. by apply Z.mod_mul.
  - rewrite Z.mul_comm. by apply Z.mod_mul.
  - pose proof (Z.div_pos start PAGE_SIZE). consts. lia.
  - pose proof (Z.mul_div_le (end_ + PAGE_SIZE - 1) PAGE_SIZE). consts. lia.
  - unfold reserve_fuel. rewrite Nat2Z.inj_succ, Z2Nat.id by done.
    rewrite Z.mul_comm, Z.div_mul by done. pose proof (Z.div_pos start PAGE_SIZE). consts. lia.
  - intros _ s'. by rewrite !(Z.mul_comm PAGE_SIZE), !Z.div_mul by done.
Qed.

Lemma bm_rep_ones : bm_rep ((λ _, 0xFFFFFFFF) <$> range 0 BITMAP_WORD_COUNT) ∅.
Proof.
  constructor.
  - rewrite length_fmap. unfold range. rewrite length_seqZ. consts. lia.
  - apply Forall_fmap, Forall_true. intros. unfold word_ok. simpl. lia.
  - apply empty_subseteq.
  - intros p Hp. consts. unfold page_free.
    assert (0 ≤ p / 32 < 512).
    { split; [apply Z.div_pos; lia|apply Z.div_lt_upper_bound; lia]. }
    assert (aget ((λ _, 0xFFFFFFFF) <$> range 0 512) (p / 32) = Some 0xFFFFFFFF) as ->.
    { apply aget_Some. split; [lia|]. rewrite list_lookup_fmap.
      unfold range. rewrite lookup_seqZ_lt by lia. done. }
    change 0xFFFFFFFF with (Z.ones 32). rewrite Z.testbit_ones_nonneg by
      (try apply Z.mod_pos_bound; lia).
    pose proof (Z.mod_pos_bound p 32). destruct (Z.ltb_spec (p `mod` 32) 32); [|lia].
    symmetry. apply bool_decide_eq_false, not_elem_of_empty.
Qed.

(** All pages marked free, one after the other. *)
Lemma free_all_spec s :
  bm_rep (pageBitMap s) ∅ → freePages s = 0 →
  wp (mfor (range 0 PHYSICAL_PAGE_COUNT) (λ page, _ ← mark_free page; incr_freePages))
     (λ _ s', phys_rep s' (pages 0 PHYSICAL_PAGE_COUNT)) s.
Proof.
  intros Hbm Hcnt.
  apply (wp_mfor_range (λ i s', phys_rep s' (pages 0 i))); [consts; lia| | |done].
  - replace (pages 0 0) with (∅ : gset Z); [by constructor|].
    symmetry. apply set_eq. intros p. rewrite elem_of_pages, elem_of_empty. lia.
  - intros i s' Hi Hrep. use_wp put_page_spec; [done| |done|].
    + rewrite elem_of_pages. lia.
    + intros _ s2 H2. replace (pages 0 (i + 1)) with ({[i]} ∪ pages 0 i); [done|].
      apply set_eq. intros p. rewrite elem_of_union, elem_of_singleton, !elem_of_pages. lia.
Qed.

(** The memory [physical_init] leaves free: all but the first 2 MiB. *)
Definition usable_pages : gset Z := pages 512 PHYSICAL_PAGE_COUNT.

(** Reserving a range that starts below a run of free pages shortens the run. *)
Lemma reserve_prefix_spec start end_ lo hi lo' s :
  phys_rep s (pages lo hi) → 0 ≤ start < 2 ^ 32 → 0 ≤ end_ ≤ 2 ^ 32 - PAGE_SIZE →
  start / PAGE_SIZE ≤ lo → lo' = Z.max lo ((end_ + PAGE_SIZE - 1) / PAGE_SIZE) →
  wp (reserve_range start end_) (λ _ s', phys_rep s' (pages lo' hi)) s.
Proof.
  intros Hrep Hs He Hlo ->. use_wp reserve_range_spec; [done|done|done|].
  intros _ s'. assert (spec_reserve start end_ (pages lo hi)
    = pages (Z.max lo ((end_ + PAGE_SIZE - 1) / PAGE_SIZE)) hi) as ->; [|done].
  unfold spec_reserve. apply set_eq. intros p.
  rewrite elem_of_difference, !elem_of_pages. lia.
Qed.

Lemma physical_init_spec kend s :
  Z.of_nat (length (pageBitMap s)) = BITMAP_WORD_COUNT →
  kernel_start ≤ kend ≤ 0x98000 →
  wp (physical_init kend) (λ _ s', phys_rep s' usable_pages) s.
Proof.
  intros Hlen Hk. unfold kernel_start in Hk.
  assert ((kend + PAGE_SIZE - 1) / PAGE_SIZE ≤ 256)
    by (consts; apply Z.div_le_upper_bound; lia).
  unfold physical_init. wp_step. apply wp_fill; [done|done|by intros []|done|].
  wp_steps. use_wp free_all_spec; [exact bm_rep_ones|done|]. intros _ s1 H1.
  wp_step. use_wp (reserve_prefix_spec _ _ _ _ 1 _ H1); [done..|]. intros _ s2 H2.
  wp_step. use_wp (reserve_prefix_spec _ _ _ _ 256 _ H2); [done..|]. intros _ s3 H3.
  wp_step. use_wp (reserve_prefix_spec _ _ _ _ 256 _ H3); [done|consts; lia|done|lia|].
  intros _ s4 H4.
  wp_step. use_wp (reserve_prefix_spec _ _ _ _ 512 _ H4); [done..|]. intros _ s5 H5.
  use_wp (reserve_prefix_spec _ _ _ _ 512 _ H5); [done..|]. intros _ s6 H6. exact H6.
Qed.

Lemma physical_alloc_page_spec s F :
  phys_rep s F →
  wp physical_alloc_page (λ r s', ∃ F', spec_alloc F r F' ∧ phys_rep s' F') s.
Proof.
  intros Hrep. unfold physical_alloc_page. wp_step.
  apply (wp_mfor_ret_range (λ i s', s' = s ∧ ∀ q, q ∈ F → 256 ≤ q → i ≤ q)).
  - consts. lia.
  - auto.
  - intros i s' Hi [-> Hmin]. wp_step. use_wp is_used_spec; [apply Hrep|consts; lia|].
    intros u s' [-> Hu]. subst u. destruct (decide (i ∈ F)) as [Hin|Hout].
    + rewrite bool_decide_eq_false_2 by (by intros ?). simpl. wp_step.
      pose proof (take_page_spec _ _ _ Hrep Hin) as Ht.
      unfold wp in Ht |- *. unfold mbind, M_bind in Ht.
      destruct (mark_used i s) as [[[] s1]|]; [|done]. unfold decr_freePages, modify in *.
      simpl. exists (F ∖ {[i]}). split; [|done]. right. exists i. split_and!; auto; [lia|].
      apply u32_small. consts. lia.
    + rewrite bool_decide_eq_true_2 by done. simpl. apply wp_ret.
      split; [done|]. intros q Hq Hq'. specialize (Hmin q Hq Hq').
      assert (q ≠ i) by (by intros ->). lia.
  - intros s' [-> Hmin]. apply wp_ret. simpl. exists F. split; [|done]. left.
    split_and!; [done|done|]. intros p Hp. pose proof (bm_sub _ _ (rep_bm _ _ Hrep) _ Hp) as Hr.
    apply elem_of_pages in Hr. specialize (Hmin p Hp). lia.
Qed.

Lemma physical_free_page_spec address s F :
  phys_rep s F → 0 ≤ address < 2 ^ 32 →
  wp (physical_free_page address) (λ _ s', phys_rep s' (spec_free address F)) s.
Proof.
  intros Hrep Ha. unfold physical_free_page, spec_free.
  replace (PAGE_SIZE - 1) with (2 ^ 12 - 1) by (consts; lia).
  rewrite land_ones_mod by lia. change (2 ^ 12) with PAGE_SIZE. consts.
  assert (address = 4096 * (address / 4096) + address `mod` 4096) as Ea
    by (apply Z.div_mod; lia).
  assert (0 ≤ address / 4096) by (apply Z.div_pos; lia).
  pose proof (Z.mod_pos_bound address 4096 ltac:(lia)).
  destruct (Z.eqb_spec (address `mod` 4096) 0) as [Hal|Hal]; simpl.
  2:{ apply wp_ret. rewrite decide_False; [done|]. intuition. }
  destruct (Z.leb_spec 16384 (address / 4096)).
  { apply wp_ret. rewrite decide_False; [done|]. lia. }
  destruct (Z.ltb_spec address 0x100000).
  { apply wp_ret. rewrite decide_False; [done|]. lia. }
  rewrite decide_True by lia. wp_step.
  use_wp is_used_spec; [apply Hrep|consts; lia|]. intros u s' [-> Hu]. subst u.
  destruct (decide (address / 4096 ∈ F)) as [Hin|Hout].
  - rewrite bool_decide_eq_false_2 by (by intros ?). simpl. apply wp_ret.
    replace ({[_]} ∪ F) with F; [done|]. clear -Hin. set_solver.
  - rewrite bool_decide_eq_true_2 by done. simpl. apply put_page_spec; [done|done|consts; lia].
Qed.

(** ** Clients of the allocator

    A client owns the addresses it was given and has not freed yet; it frees
    only what it owns. *)

Inductive client_step : phys * gset Z → phys * gset Z → Prop :=
| client_alloc s s' r owned :
    physical_alloc_page s = Some (r, s') → r ≠ 0 →
    client_step (s, owned) (s', {[r]} ∪ owned)
| client_alloc_fails s s' owned :
    physical_alloc_page s = Some (0, s') →
    client_step (s, owned) (s', owned)
| client_free s s' a owned :
    a ∈ owned → physical_free_page a s = Some (tt, s') →
    client_step (s, owned) (s', owned ∖ {[a]}).

(** The states after a boot with a kernel image that ends at [kend]. *)
Definition booted (kend : Z) (s : phys) : Prop :=
  ∃ s0, Z.of_nat (length (pageBitMap s0)) = BITMAP_WORD_COUNT ∧
        physical_init kend s0 = Some (tt, s).

(** Owned and free pages partition the usable memory. *)
Definition client_inv (c : phys * gset Z) : Prop :=
  ∃ F, phys_rep c.1 F ∧
    (∀ p, p ∈ F ↔ 512 ≤ p < 16384 ∧ p * PAGE_SIZE ∉ c.2) ∧
    (∀ a, a ∈ c.2 → ∃ p, 512 ≤ p < 16384 ∧ a = p * PAGE_SIZE) ∧
    freePages c.1 + Z.of_nat (size c.2) = 15872.

Lemma booted_rep kend s :
  kernel_start ≤ kend ≤ 0x98000 → booted kend s → phys_rep s usable_pages.
Proof.
  intros Hk (s0 & Hlen & Hrun).
  exact (wp_run _ _ _ _ _ (physical_init_spec kend s0 Hlen Hk) Hrun).
Qed.

Lemma usable_range p : p ∈ usable_pages ↔ 512 ≤ p < 16384.
Proof. unfold usable_pages. rewrite elem_of_pages. by consts. Qed.

Lemma booted_inv kend s :
  kernel_start ≤ kend ≤ 0x98000 → booted kend s → client_inv (s, ∅).
Proof.
  intros Hk Hb. pose proof (booted_rep _ _ Hk Hb) as Hrep.
  exists usable_pages. split_and!; cbn [fst snd].
  - done.
  - intros p. rewrite usable_range, elem_of_empty. tauto.
  - intros a Ha. by apply elem_of_empty in Ha.
  - rewrite (rep_count _ _ Hrep). unfold usable_pages. rewrite size_pages, size_empty.
    consts. lia.
Qed.

(** What a successful allocation returns in a state of the invariant. *)
Lemma client_alloc_page s owned r s' :
  client_inv (s, owned) → physical_alloc_page s = Some (r, s') →
  (r = 0 ∧ (∃ F, phys_rep s F ∧ phys_rep s' F ∧ (∀ p, p ∈ F → p < 256))) ∨
  (∃ p, r = p * PAGE_SIZE ∧ 512 ≤ p < 16384 ∧ (r ∉ owned) ∧
     (∃ F, phys_rep s F ∧ p ∈ F ∧ phys_rep s' (F ∖ {[p]}))).
Proof.
  intros (F & Hrep & Hpart & _ & _) Hrun. simpl in *.
  destruct (wp_run _ _ _ _ _ (physical_alloc_page_spec s F Hrep) Hrun)
    as (F' & [(-> & -> & Hnone)|(p & Hp & _ & _ & -> & ->)] & Hrep').
  - left. split; [done|]. exists F. auto.
  - right. exists p. apply Hpart in Hp as Hp'. destruct Hp' as [Hu Ho].
    split; [done|]. split; [done|]. split; [done|]. exists F. auto.
Qed.

Lemma phys_rep_unique s F F' : phys_rep s F → phys_rep s F' → F = F'.
Proof.
  intros [Hb _] [Hb' _]. apply set_eq. intros p.
  assert (∀ X, bm_rep (pageBitMap s) X → p ∈ X ↔
    0 ≤ p < PHYSICAL_PAGE_COUNT ∧ page_free (pageBitMap s) p = true) as H.
  { intros X HX. split.
    - intros Hp. apply (bm_sub _ _ HX) in Hp as Hr. apply elem_of_pages in Hr. split; [done|].
      rewrite (bm_free _ _ HX) by done. by apply bool_decide_eq_true.
    - intros [Hr Hf]. rewrite (bm_free _ _ HX) in Hf by done. by apply bool_decide_eq_true in Hf. }
  by rewrite (H F Hb), (H F' Hb').
Qed.

Lemma client_alloc_inv s owned r s' :
  client_inv (s, owned) → physical_alloc_page s = Some (r, s') → r ≠ 0 →
  client_inv (s', {[r]} ∪ owned).
Proof.
  intros Hinv Hrun Hr. destruct (client_alloc_page _ _ _ _ Hinv Hrun)
    as [[-> _]|(p & -> & Hu & Ho & F1 & HF1 & Hp & Hrep')]; [done|].
  destruct Hinv as (F & Hrep & Hpart & Hown & Hcnt). simpl in *.
  assert (F1 = F) as -> by exact (phys_rep_unique s _ _ HF1 Hrep).
  exists (F ∖ {[p]}). split_and!; simpl; [done| | |].
  - intros q. rewrite elem_of_difference, Hpart, not_elem_of_union, !not_elem_of_singleton.
    assert (q ≠ p ↔ q * PAGE_SIZE ≠ p * PAGE_SIZE) as Hqp by (consts; lia).
    clear -Hqp. tauto.
  - intros b [->%elem_of_singleton|Hb]%elem_of_union; eauto.
  - rewrite size_union, size_singleton by (clear -Ho; set_solver).
    rewrite (rep_count _ _ Hrep'). rewrite (rep_count _ _ Hrep) in Hcnt.
    rewrite (size_remove F p Hp) in Hcnt. lia.
Qed.

Lemma client_alloc_fails_inv s owned s' :
  client_inv (s, owned) → physical_alloc_page s = Some (0, s') → client_inv (s', owned).
Proof.
  intros Hinv Hrun. destruct (client_alloc_page _ _ _ _ Hinv Hrun)
    as [(_ & F1 & HF1 & Hrep' & _)|(p & H0 & Hu & _)]; [|consts; lia].
  destruct Hinv as (F & Hrep & Hpart & Hown & Hcnt). simpl in *.
  assert (F1 = F) as -> by exact (phys_rep_unique s _ _ HF1 Hrep).
  exists F. split_and!; simpl; [done|done|done|].
  by rewrite (rep_count _ _ Hrep'), <- (rep_count _ _ Hrep).
Qed.

(** Freeing an aligned address of the usable memory. *)
Lemma spec_free_usable p F :
  256 ≤ p < 16384 → spec_free (p * PAGE_SIZE) F = {[p]} ∪ F.
Proof.
  intros Hp. unfold spec_free. consts. rewrite Z.div_mul by lia.
  rewrite decide_True; [done|]. split; [by apply Z.mod_mul|lia].
Qed.

Lemma client_free_inv s owned a s' :
  client_inv (s, owned) → a ∈ owned → physical_free_page a s = Some (tt, s') →
  client_inv (s', owned ∖ {[a]}).
Proof.
  intros (F & Hrep & Hpart & Hown & Hcnt) Ha Hrun. simpl in *.
  destruct (Hown a Ha) as (p & Hr & ->).
  pose proof (wp_run _ _ _ _ _ (physical_free_page_spec (p * PAGE_SIZE) s F Hrep
    ltac:(consts; lia)) Hrun) as Hrep'. cbv beta in Hrep'. rewrite spec_free_usable in Hrep' by lia.
  assert (p ∉ F) as Hnp by (rewrite Hpart; tauto).
  exists ({[p]} ∪ F). split_and!; simpl; [done| | |].
  - intros q. rewrite elem_of_union, elem_of_singleton, Hpart, elem_of_difference,
      elem_of_singleton. consts.
    destruct (decide (q = p)) as [->|Hne]; [clear -Hr; tauto|].
    assert (q * 4096 ≠ p * 4096) as Hqp by lia. clear -Hqp Hne. tauto.
  - intros b [Hb _]%elem_of_difference. auto.
  - rewrite (rep_count _ _ Hrep'), size_union, size_singleton by (clear -Hnp; set_solver).
    rewrite (rep_count _ _ Hrep) in Hcnt. rewrite (size_remove owned _ Ha) in Hcnt. lia.
Qed.

Lemma client_step_inv c c' : client_inv c → client_step c c' → client_inv c'.
Proof.
  intros Hinv Hstep. destruct Hstep.
  - by eapply client_alloc_inv.
  - by eapply client_alloc_fails_inv.
  - by eapply client_free_inv.
Qed.

Lemma client_reachable_inv kend s c :
  kernel_start ≤ kend ≤ 0x98000 → booted kend s → rtc client_step (s, ∅) c → client_inv c.
Proof.
  intros Hk Hb Hsteps. pose proof (booted_inv _ _ Hk Hb) as Hinv.
  remember (s, ∅) as c0 eqn:E. clear E Hb.
  induction Hsteps as [|c0 c1 c2 Hstep _ IH]; [done|]. apply IH. by eapply client_step_inv.
Qed.

(** ** The theorems of this file *)

(** [physical_init] returns, whatever the bitmap holds before, and leaves
    exactly the pages from 2 MiB to 64 MiB free: the BIOS area, the kernel image,
    the kmalloc heap and the kernel stack are all reserved, and [freePages] is
    the number of free pages. *)
Theorem physical_init_reserves_low_memory kend s :
  Z.of_nat (length (pageBitMap s)) = BITMAP_WORD_COUNT →
  kernel_start ≤ kend ≤ 0x98000 →
  ∃ s', physical_init kend s = Some (tt, s') ∧ phys_rep s' usable_pages ∧
        freePages s' = 15872.
Proof.
  intros Hlen Hk. pose proof (physical_init_spec kend s Hlen Hk) as H.
  apply wp_inv in H as ([] & s' & Hrun & Hrep). exists s'. split_and!; [done|done|].
  rewrite (rep_count _ _ Hrep). unfold usable_pages. rewrite size_pages. consts. lia.
Qed.

(** A zeroed bitmap, and the state after a boot that starts from it. *)
Definition zero_phys : phys := mkPhys (replicate 512 0) 0.
Definition boot_phys : phys := final (physical_init 0x20000) zero_phys.

Lemma zero_phys_length : Z.of_nat (length (pageBitMap zero_phys)) = BITMAP_WORD_COUNT.
Proof. reflexivity. Qed.

Lemma boot_kend : kernel_start ≤ 0x20000 ≤ 0x98000.
Proof. unfold kernel_start. lia. Qed.

Lemma boot_phys_booted : booted 0x20000 boot_phys.
Proof.
  destruct (wp_final _ _ _ (physical_init_spec _ _ zero_phys_length boot_kend)) as ([] & Hrun & _).
  exact (ex_intro _ zero_phys (conj zero_phys_length Hrun)).
Qed.

Lemma boot_phys_rep : phys_rep boot_phys usable_pages.
Proof. exact (booted_rep 0x20000 boot_phys boot_kend boot_phys_booted). Qed.

Lemma physical_init_witness :
  ∃ s', physical_init 0x20000 zero_phys = Some (tt, s') ∧ phys_rep s' usable_pages ∧
        freePages s' = 15872.
Proof.
  exact (physical_init_reserves_low_memory 0x20000 zero_phys zero_phys_length boot_kend).
Defined.

(** [reserve_range] returns and takes exactly the pages that overlap the
    byte range out of the free set, whatever is free before and also where the
    range leaves physical memory, unless rounding its end up wraps around. *)
Theorem reserve_range_refines start end_ s F :
  phys_rep s F → 0 ≤ start < 2 ^ 32 → 0 ≤ end_ ≤ 2 ^ 32 - PAGE_SIZE →
  ∃ s', reserve_range start end_ s = Some (tt, s') ∧
        phys_rep s' (spec_reserve start end_ F).
Proof.
  intros Hrep Hs He. pose proof (reserve_range_spec start end_ s F Hrep Hs He) as H.
  apply wp_inv in H as ([] & s' & Hrun & Hrep'). eauto.
Qed.

Lemma reserve_range_witness :
  ∃ s', reserve_range 0x300123 0x305001 boot_phys = Some (tt, s') ∧
        phys_rep s' (spec_reserve 0x300123 0x305001 usable_pages).
Proof.
  apply (reserve_range_refines 0x300123 0x305001 boot_phys usable_pages);
    [exact boot_phys_rep|lia|unfold PAGE_SIZE; lia].
Defined.

(** C17. [physical_alloc_page] refines the abstract allocator: it returns, and
    either no page from 256 on is free, the result is 0 and the free set is
    unchanged, or the result is the address of the lowest free page from 256
    on and exactly that page leaves the free set. *)
Theorem physical_alloc_page_refines s F :
  phys_rep s F →
  ∃ r s' F', physical_alloc_page s = Some (r, s') ∧ spec_alloc F r F' ∧ phys_rep s' F'.
Proof.
  intros Hrep. pose proof (physical_alloc_page_spec s F Hrep) as H.
  apply wp_inv in H as (r & s' & Hrun & F' & Hspec & Hrep'). eauto 6.
Qed.

Lemma physical_alloc_page_witness :
  ∃ r s' F', physical_alloc_page boot_phys = Some (r, s') ∧
             spec_alloc usable_pages r F' ∧ phys_rep s' F'.
Proof. apply (physical_alloc_page_refines boot_phys usable_pages). exact boot_phys_rep. Defined.

(** [physical_free_page] refines the abstract allocator: a page-aligned
    address from 1 MiB up to the end of memory is put in the free set (a second
    free of it changes nothing), and every other address is ignored. *)
Theorem physical_free_page_refines address s F :
  phys_rep s F → 0 ≤ address < 2 ^ 32 →
  ∃ s', physical_free_page address s = Some (tt, s') ∧ phys_rep s' (spec_free address F).
Proof.
  intros Hrep Ha. pose proof (physical_free_page_spec address s F Hrep Ha) as H.
  apply wp_inv in H as ([] & s' & Hrun & Hrep'). eauto.
Qed.

Lemma physical_free_page_witness :
  ∃ s', physical_free_page 0x200000 boot_phys = Some (tt, s') ∧
        phys_rep s' (spec_free 0x200000 usable_pages).
Proof.
  apply (physical_free_page_refines 0x200000 boot_phys usable_pages);
    [exact boot_phys_rep|lia].
Defined.

(** Ownership: after a boot and any sequence of allocations and of frees
    of addresses that are still owned, a successful [physical_alloc_page]
    returns a page-aligned address between 2 MiB and 64 MiB that nobody owns,
    and free pages and owned pages always add up to the 15872 usable ones. *)
Theorem physical_alloc_page_exclusive kend s0 s owned r s' :
  kernel_start ≤ kend ≤ 0x98000 → booted kend s0 →
  rtc client_step (s0, ∅) (s, owned) →
  physical_alloc_page s = Some (r, s') →
  freePages s + Z.of_nat (size owned) = 15872 ∧
  (r ≠ 0 → (r ∉ owned) ∧ r `mod` PAGE_SIZE = 0 ∧ 0x200000 ≤ r < PHYSICAL_MEMORY_SIZE).
Proof.
  intros Hk Hb Hsteps Hrun. pose proof (client_reachable_inv _ _ _ Hk Hb Hsteps) as Hinv.
  split; [by destruct Hinv as (F & _ & _ & _ & Hcnt)|]. intros Hr.
  destruct (client_alloc_page _ _ _ _ Hinv Hrun) as [[-> _]|(p & -> & Hp & Ho & _)]; [done|].
  split_and!; [done|by apply Z.mod_mul|consts; lia|consts; lia].
Qed.

Lemma boot_alloc :
  ∃ s1, physical_alloc_page boot_phys = Some (0x200000, s1) ∧
        phys_rep s1 (usable_pages ∖ {[512]}).
Proof.
  destruct (wp_final _ _ _ (physical_alloc_page_spec _ _ boot_phys_rep))
    as (r & Hrun & F' & [(_ & _ & Hnone)|(p & Hp & Hp256 & Hmin & -> & ->)] & Hrep').
  - specialize (Hnone 512 (proj2 (usable_range 512) ltac:(lia))). lia.
  - specialize (Hmin 512 (proj2 (usable_range 512) ltac:(lia)) ltac:(lia)).
    apply usable_range in Hp. assert (p = 512) as -> by lia. eauto.
Qed.

Lemma physical_alloc_page_exclusive_witness :
  ∃ s', physical_alloc_page boot_phys = Some (0x200000, s') ∧
  freePages boot_phys + Z.of_nat (size (∅ : gset Z)) = 15872 ∧
  (0x200000 ≠ 0 → (0x200000 ∉ (∅ : gset Z)) ∧ 0x200000 `mod` PAGE_SIZE = 0 ∧
     0x200000 ≤ 0x200000 < PHYSICAL_MEMORY_SIZE).
Proof.
  destruct boot_alloc as (s' & Hrun & _). exists s'. split; [exact Hrun|].
  exact (physical_alloc_page_exclusive 0x20000 boot_phys boot_phys ∅ 0x200000 s' boot_kend
    boot_phys_booted (rtc_refl _ _) Hrun).
Defined.

(** Freeing a page just allocated undoes the allocation, and the next
    allocation returns the same page. *)
Theorem physical_free_then_alloc s F r s1 s2 r3 s3 :
  phys_rep s F → r ≠ 0 →
  physical_alloc_page s = Some (r, s1) →
  physical_free_page r s1 = Some (tt, s2) →
  physical_alloc_page s2 = Some (r3, s3) →
  phys_rep s2 F ∧ r3 = r.
Proof.
  intros Hrep Hr0 Ha Hf Ha2.
  destruct (wp_run _ _ _ _ _ (physical_alloc_page_spec s F Hrep) Ha)
    as (F1 & [(-> & _)|(p & Hp & Hp256 & Hmin & -> & ->)] & Hrep1); [done|].
  pose proof (bm_sub _ _ (rep_bm _ _ Hrep) _ Hp) as Hr. apply elem_of_pages in Hr. consts.
  pose proof (wp_run _ _ _ _ _ (physical_free_page_spec (p * 4096) s1 _ Hrep1 ltac:(lia)) Hf)
    as Hrep2. cbv beta in Hrep2. rewrite (spec_free_usable p) in Hrep2 by lia.
  rewrite <- union_difference_singleton_L in Hrep2 by done. split; [done|].
  destruct (wp_run _ _ _ _ _ (physical_alloc_page_spec s2 F Hrep2) Ha2)
    as (F3 & [(_ & _ & Hnone)|(q & Hq & Hq256 & Hqmin & -> & _)] & _).
  - specialize (Hnone p Hp). lia.
  - specialize (Hmin q Hq Hq256). specialize (Hqmin p Hp Hp256). consts. lia.
Qed.

Lemma boot_alloc_free :
  ∃ s1 s2 s3, physical_alloc_page boot_phys = Some (0x200000, s1) ∧
    physical_free_page 0x200000 s1 = Some (tt, s2) ∧
    ∃ r3, physical_alloc_page s2 = Some (r3, s3).
Proof.
  destruct boot_alloc as (s1 & Hrun & Hrep1).
  destruct (wp_final _ _ _ (physical_free_page_spec 0x200000 _ _ Hrep1 ltac:(lia)))
    as ([] & Hrun2 & Hrep2).
  destruct (wp_final _ _ _ (physical_alloc_page_spec _ _ Hrep2)) as (r3 & Hrun3 & _).
  exists s1. do 2 eexists. split; [exact Hrun|]. split; [exact Hrun2|]. exists r3. exact Hrun3.
Qed.

Lemma physical_free_then_alloc_witness :
  ∃ s2 r3, phys_rep s2 usable_pages ∧ r3 = 0x200000.
Proof.
  destruct boot_alloc_free as (s1 & s2 & s3 & H1 & H2 & r3 & H3). exists s2, r3.
  exact (physical_free_then_alloc boot_phys usable_pages 0x200000 s1 s2 r3 s3
    boot_phys_rep ltac:(lia) H1 H2 H3).
Defined.

End Physical.
