(* ===== verification/Kmalloc.v ===== *)
(** * The kernel heap (src/kernel/mm/kmalloc.c)

    The heap is the megabyte between the linker symbols [__heap_start] and
    [__heap_end], as 32-bit words of memory; a block is a header of 16 bytes
    ([block_t] rounded up to 8) followed by its payload.  The file models
    [kmalloc_init], [kmalloc] and [kfree] on this memory, gives an abstract heap
    (the list of the blocks that tile the megabyte) and proves that the code
    implements it and leaves the payload of allocated blocks alone. *)

From S2P Require Import Prelude.

Module Kmalloc.

(** ** Data and operations *)

Definition ALIGN8 (size : Z) : Z := Z.land (u32 (size + 7)) (u32 (Z.lnot 7)).

Definition HEAP_SIZE : Z := 1024 * 1024.
Definition heap_start : Z := 0x100000.
Definition heap_end : Z := heap_start + 0x100000.

(** [block_t] is { size_t size; bool free; struct block* next; }: the three
    fields are at offsets 0, 4 and 8, and its size is 12. *)
Definition sizeof_block_t : Z := 12.
Definition off_size : Z := 0.
Definition off_free : Z := 4.
Definition off_next : Z := 8.
Definition HEADER_SIZE : Z := ALIGN8 sizeof_block_t.

Definition NULL : Z := 0.

(** The static variable [head] and the memory, one entry per aligned word; a
    word that was never written holds an arbitrary value, here 0. *)
Record heap : Type := mkHeap {
  mem : gmap Z Z;
  head : Z
}.

Definition set_mem (m : gmap Z Z) (h : heap) : heap := mkHeap m (head h).
Definition set_head (p : Z) (h : heap) : heap := mkHeap (mem h) p.

(** An access outside the heap, or one that is not aligned, is undefined. *)
Definition in_heap (a : Z) : bool :=
  bool_decide (heap_start ≤ a ∧ a + 4 ≤ heap_end ∧ a `mod` 4 = 0).

Definition load32 (a : Z) : M heap Z :=
  if in_heap a then gets (λ h, getw (mem h) a) else undef.
Definition store32 (a v : Z) : M heap unit :=
  if in_heap a then modify (λ h, set_mem (<[a := v]> (mem h)) h) else undef.

(** The low byte of the word at [a] (little-endian). *)
Definition load8 (a : Z) : M heap Z := w ← load32 a; mret (Z.land w 0xFF).
Definition store8 (a v : Z) : M heap unit :=
  w ← load32 a; store32 a (Z.lor (Z.land w 0xFFFFFF00) v).

Definition load_size (p : Z) : M heap Z := load32 (p + off_size).
Definition load_free (p : Z) : M heap bool :=
  b ← load8 (p + off_free); mret (negb (b =? 0)).
Definition load_next (p : Z) : M heap Z := load32 (p + off_next).
Definition store_size (p v : Z) : M heap unit := store32 (p + off_size) v.
Definition store_free (p : Z) (b : bool) : M heap unit :=
  store8 (p + off_free) (if b then 1 else 0).
Definition store_next (p v : Z) : M heap unit := store32 (p + off_next) v.

Definition kmalloc_init : M heap unit :=
  _ ← modify (set_head heap_start);
  h ← gets head;
  _ ← store_size h (HEAP_SIZE - HEADER_SIZE);
  _ ← store_free h true;
  store_next h NULL.

(** Cutting the block at [ptr] in two. *)
Definition split_block (ptr size : Z) : M heap unit :=
  let split := u32 (ptr + HEADER_SIZE + size) in
  sz ← load_size ptr;
  _ ← store_size split (u32 (sz - size - HEADER_SIZE));
  _ ← store_free split true;
  nx ← load_next ptr;
  _ ← store_next split nx;
  _ ← store_size ptr size;
  store_next ptr split.

(** [!ptr->free || ptr->size < size] *)
Definition skip_block (ptr size : Z) : M heap bool :=
  fr ← load_free ptr;
  if negb fr then mret true else sz ← load_size ptr; mret (sz <? size).

(** The search for a free block, from [ptr] on. *)
Fixpoint kmalloc_loop (fuel : nat) (ptr size : Z) : M heap Z :=
  match fuel with
  | O => undef
  | S fuel =>
      if ptr =? NULL then mret NULL
      else
        skip ← skip_block ptr size;
        if (skip : bool) then
          nx ← load_next ptr;
          kmalloc_loop fuel nx size
        else
          sz ← load_size ptr;
          _ ← when (u32 (size + HEADER_SIZE + 8) <=? sz) (split_block ptr size);
          _ ← store_free ptr false;
          mret (u32 (ptr + HEADER_SIZE))
  end.

(** A heap of 1 MiB has at most 65536 blocks. *)
Definition heap_fuel : nat := S (Z.to_nat (HEAP_SIZE / HEADER_SIZE)).

Definition kmalloc (size : Z) : M heap Z :=
  if size =? 0 then mret NULL
  else
    let size := ALIGN8 size in
    h ← gets head;
    kmalloc_loop heap_fuel h size.

(** [cur->free && cur->next != NULL && cur->next->free] *)
Definition can_merge (cur : Z) : M heap bool :=
  fr ← load_free cur;
  if negb fr then mret false
  else
    nx ← load_next cur;
    if nx =? NULL then mret false else nx ← load_next cur; load_free nx.

(** [while (cur->free && cur->next != NULL && cur->next->free)] *)
Fixpoint merge_loop (fuel : nat) (cur : Z) : M heap unit :=
  match fuel with
  | O => undef
  | S fuel =>
      go ← can_merge cur;
      if negb go then mret tt
      else
        sz ← load_size cur;
        nx ← load_next cur;
        nsz ← load_size nx;
        _ ← store_size cur (u32 (sz + (HEADER_SIZE + nsz)));
        nx ← load_next cur;
        nnx ← load_next nx;
        _ ← store_next cur nnx;
        merge_loop fuel cur
  end.

(** [for (cur = head; cur != NULL; cur = cur->next)] *)
Fixpoint coalesce_loop (fuel : nat) (cur : Z) : M heap unit :=
  match fuel with
  | O => undef
  | S fuel =>
      if cur =? NULL then mret tt
      else
        _ ← merge_loop heap_fuel cur;
        nx ← load_next cur;
        coalesce_loop fuel nx
  end.

Definition kfree (ptr : Z) : M heap unit :=
  if ptr =? NULL then mret tt
  else
    let b := u32 (ptr - HEADER_SIZE) in
    _ ← store_free b true;
    h ← gets head;
    coalesce_loop heap_fuel h.

(** ** The abstract heap: the blocks that tile the megabyte, in address order *)

Abbreviation block := (Z * bool)%type (only parsing).

(** First fit, splitting a block that leaves room for a header and 8 bytes.
    The result is the payload's address and the new blocks. *)
Fixpoint first_fit (a size : Z) (bs : list block) : option (Z * list block) :=
  match bs with
  | [] => None
  | (sz, fr) :: rest =>
      if fr && (size <=? sz) then
        Some (a + 16,
              if size + 24 <=? sz
              then (size, false) :: (sz - size - 16, true) :: rest
              else (sz, false) :: rest)
      else
        match first_fit (a + 16 + sz) size rest with
        | Some (p, rest') => Some (p, (sz, fr) :: rest')
        | None => None
        end
  end.

(** Marking free the block whose payload is at [p]. *)
Fixpoint mark_block (a p : Z) (bs : list block) : list block :=
  match bs with
  | [] => []
  | (sz, fr) :: rest =>
      if decide (a + 16 = p) then (sz, true) :: rest
      else (sz, fr) :: mark_block (a + 16 + sz) p rest
  end.

(** Joining neighbours that are both free. *)
Definition join (b : block) (rest : list block) : list block :=
  match b, rest with
  | (sz, true), (sz', true) :: rest' => (sz + (16 + sz'), true) :: rest'
  | _, _ => b :: rest
  end.
Definition coalesce (bs : list block) : list block := foldr join [] bs.

(** The next pointer of a block that ends at [a]. *)
Definition link (a : Z) (rest : list block) : Z :=
  match rest with [] => NULL | _ => a end.

(** From [a] on, memory holds the blocks [bs], up to the end of the heap. *)
Fixpoint seg (m : gmap Z Z) (a : Z) (bs : list block) : Prop :=
  match bs with
  | [] => a = heap_end
  | (sz, fr) :: rest =>
      getw m a = sz ∧
      Z.land (getw m (a + 4)) 0xFF = (if fr then 1 else 0) ∧
      getw m (a + 8) = link (a + 16 + sz) rest ∧
      0 ≤ sz ∧ sz `mod` 8 = 0 ∧
      seg m (a + 16 + sz) rest
  end.

Record heap_rep (h : heap) (bs : list block) : Prop := {
  rep_head : head h = heap_start;
  rep_nonempty : bs ≠ [];
  rep_seg : seg (mem h) heap_start bs
}.

(** [w] is in the payload of an allocated block. *)
Fixpoint in_payload (a : Z) (bs : list block) (w : Z) : Prop :=
  match bs with
  | [] => False
  | (sz, fr) :: rest =>
      (fr = false ∧ a + 16 ≤ w < a + 16 + sz) ∨ in_payload (a + 16 + sz) rest w
  end.

(** ** Memory accesses to a block's header *)

(** There is room for a header at [a]. *)
Definition blk (a : Z) : Prop := heap_start ≤ a ∧ a + 16 ≤ heap_end ∧ a `mod` 8 = 0.

Ltac consts :=
  change HEADER_SIZE with 16 in *; change HEAP_SIZE with 1048576 in *;
  change heap_start with 1048576 in *; change heap_end with 2097152 in *;
  change NULL with 0 in *; unfold off_size, off_free, off_next in *.

Lemma blk_in_heap a k : blk a → k = 0 ∨ k = 4 ∨ k = 8 → in_heap (a + k) = true.
Proof.
  intros (Hlo & Hhi & Hal) Hk. apply bool_decide_eq_true. consts.
  split_and!; [lia|lia|]. apply Z.mod_divide; [lia|]. apply Z.mod_divide in Hal as [q ->]; [|lia].
  destruct Hk as [->|[->| ->]]; [exists (2 * q)|exists (2 * q + 1)|exists (2 * q + 2)]; lia.
Qed.

Section access.
Context (m : gmap Z Z) (hd a : Z) (Hb : blk a).

Lemma wp_load_word k Q :
  k = 0 ∨ k = 4 ∨ k = 8 → Q (getw m (a + k)) (mkHeap m hd) →
  wp (load32 (a + k)) Q (mkHeap m hd).
Proof. intros Hk HQ. unfold load32. rewrite blk_in_heap by done. by apply wp_gets. Qed.

Lemma wp_store_word k v Q :
  k = 0 ∨ k = 4 ∨ k = 8 → Q tt (mkHeap (<[a + k := v]> m) hd) →
  wp (store32 (a + k) v) Q (mkHeap m hd).
Proof. intros Hk HQ. unfold store32. rewrite blk_in_heap by done. by apply wp_modify. Qed.

Lemma wp_load_size Q :
  Q (getw m a) (mkHeap m hd) → wp (load_size a) Q (mkHeap m hd).
Proof.
  intros HQ. unfold load_size, off_size. apply wp_load_word; [auto|]. by rewrite Z.add_0_r.
Qed.

Lemma wp_load_free Q :
  Q (negb (Z.land (getw m (a + 4)) 0xFF =? 0)) (mkHeap m hd) →
  wp (load_free a) Q (mkHeap m hd).
Proof.
  intros HQ. unfold load_free, load8, off_free. wp_steps. apply wp_load_word; [auto|].
  by wp_steps.
Qed.

Lemma wp_load_next Q :
  Q (getw m (a + 8)) (mkHeap m hd) → wp (load_next a) Q (mkHeap m hd).
Proof. intros HQ. unfold load_next, off_next. apply wp_load_word; auto. Qed.

Lemma wp_store_size v Q :
  Q tt (mkHeap (<[a := v]> m) hd) → wp (store_size a v) Q (mkHeap m hd).
Proof.
  intros HQ. unfold store_size, off_size. apply wp_store_word; [auto|]. by rewrite Z.add_0_r.
Qed.

Lemma wp_store_free (b : bool) Q :
  (∀ w, Z.land w 0xFF = (if b then 1 else 0) → Q tt (mkHeap (<[a + 4 := w]> m) hd)) →
  wp (store_free a b) Q (mkHeap m hd).
Proof.
  intros HQ. unfold store_free, store8, off_free. wp_steps. apply wp_load_word; [auto|].
  apply wp_store_word; [auto|]. apply HQ.
  rewrite Z.land_lor_distr_l, <- Z.land_assoc. change (Z.land 0xFFFFFF00 0xFF) with 0.
  rewrite Z.land_0_r. by destruct b.
Qed.

Lemma wp_store_next v Q :
  Q tt (mkHeap (<[a + 8 := v]> m) hd) → wp (store_next a v) Q (mkHeap m hd).
Proof. intros HQ. unfold store_next, off_next. apply wp_store_word; auto. Qed.
End access.

(** ** Segments of blocks *)

Lemma seg_bounds m a bs : seg m a bs → a + 16 * Z.of_nat (length bs) ≤ heap_end.
Proof.
  revert a. induction bs as [|[sz fr] rest IH]; intros a; simpl.
  - intros ->. consts. lia.
  - intros (_ & _ & _ & Hsz & _ & Hrest). specialize (IH _ Hrest). lia.
Qed.

(** The header of a segment's first block, and where the next one starts. *)
Lemma seg_cons m a sz fr rest :
  seg m a ((sz, fr) :: rest) → heap_start ≤ a → a `mod` 8 = 0 →
  blk a ∧ 0 ≤ sz ∧ sz `mod` 8 = 0 ∧ a + 16 + sz ≤ heap_end ∧
  heap_start ≤ a + 16 + sz ∧ (a + 16 + sz) `mod` 8 = 0 ∧
  seg m (a + 16 + sz) rest.
Proof.
  intros (_ & _ & _ & Hsz & Hal & Hrest) Hlo Ha. pose proof (seg_bounds _ _ _ Hrest) as Hb.
  assert ((a + 16 + sz) `mod` 8 = 0) as Hm.
  { rewrite Z.add_mod, Hal by lia. rewrite Z.add_0_r, Z.mod_mod by lia.
    by rewrite Z.add_mod, Ha by lia. }
  unfold blk. split_and!; try done; lia.
Qed.

(** A segment depends only on memory from its start on. *)
Lemma seg_frame m m' a bs :
  (∀ w, a ≤ w → m' !! w = m !! w) → seg m a bs → seg m' a bs.
Proof.
  revert a. induction bs as [|[sz fr] rest IH]; intros a Hm; simpl; [done|].
  unfold getw. intros (H1 & H2 & H3 & Hsz & Hal & Hrest). rewrite !Hm by lia.
  split_and!; try done. apply IH; [|done]. intros w Hw. apply Hm. lia.
Qed.

Lemma link_nonnull a bs : heap_start ≤ a → bs ≠ [] → link a bs = a ∧ (link a bs =? NULL) = false.
Proof.
  intros Ha Hbs. destruct bs; [done|]. simpl. split; [done|]. apply Z.eqb_neq. consts. lia.
Qed.

Lemma first_fit_nonempty a size bs p bs' : first_fit a size bs = Some (p, bs') → bs' ≠ [].
Proof.
  destruct bs as [|[sz fr] rest]; simpl; [done|].
  destruct (fr && _); [intros [= <- <-]; by case_match|].
  destruct (first_fit _ _ rest) as [[p' rest']|]; [intros [= <- <-]; done|done].
Qed.

Lemma in_payload_ge m a bs w : seg m a bs → in_payload a bs w → a + 16 ≤ w.
Proof.
  revert a. induction bs as [|[sz fr] rest IH]; intros a; simpl; [done|].
  intros (_ & _ & _ & Hsz & _ & Hrest) [[_ Hw]|Hw]; [lia|]. specialize (IH _ Hrest Hw). lia.
Qed.

(** ** [kmalloc] *)

(** Changing the flag of the first block. *)
Lemma seg_set_free m a sz fr rest b w :
  seg m a ((sz, fr) :: rest) → Z.land w 0xFF = (if (b : bool) then 1 else 0) →
  seg (<[a + 4 := w]> m) a ((sz, b) :: rest).
Proof.
  intros (H1 & H2 & H3 & Hsz & Hal & Hrest) Hw. simpl. rewrite !getw_insert.
  rewrite decide_False, decide_True, decide_False by lia. split_and!; try done.
  apply (seg_frame m); [|done]. intros x Hx. apply lookup_insert_ne. lia.
Qed.

Lemma split_block_spec m hd a sz rest size :
  seg m a ((sz, true) :: rest) → heap_start ≤ a → a `mod` 8 = 0 →
  0 ≤ size → size `mod` 8 = 0 → size + 24 ≤ sz →
  wp (split_block a size) (λ _ h', head h' = hd ∧
      seg (mem h') a ((size, true) :: (sz - size - 16, true) :: rest) ∧
      (∀ w, w < a ∨ a + 16 + sz ≤ w → mem h' !! w = m !! w)) (mkHeap m hd).
Proof.
  intros Hseg Ha Hal Hs Hsal Hfit.
  destruct (seg_cons _ _ _ _ _ Hseg Ha Hal) as (Hblk & Hsz & Hszal & Hend & _ & _ & _).
  destruct Hseg as (H1 & H2 & H3 & _ & _ & Hrest).
  assert (blk (a + 16 + size)) as Hblk'.
  { unfold blk in *. split_and!; [lia|lia|].
    rewrite Z.add_mod, Hsal by lia. rewrite Z.add_0_r, Z.mod_mod by lia.
    by rewrite Z.add_mod, Hal by lia. }
  unfold split_block. consts. rewrite (u32_small (a + 16 + size)) by (unfold blk in *; consts; lia).
  wp_step. apply wp_load_size; [done|]. rewrite H1.
  wp_step. apply wp_store_size; [done|].
  wp_step. apply wp_store_free; [done|]. intros w Hw.
  wp_step. apply wp_load_next; [done|].
  wp_step. apply wp_store_next; [done|].
  wp_step. apply wp_store_size; [done|]. apply wp_store_next; [done|]. simpl.
  split; [done|]. split.
  - rewrite !getw_insert, u32_small by (consts; lia).
    decides.
    rewrite H2, H3. split_and!; try done; try lia.
    + replace (a + 16 + size + 16 + (sz - size - 16)) with (a + 16 + sz) by lia. done.
    + rewrite Zminus_mod, (Zminus_mod sz size), Hszal, Hsal by lia. done.
    + replace (a + 16 + size + 16 + (sz - size - 16)) with (a + 16 + sz) by lia.
      apply (seg_frame m); [|done]. intros x Hx. rewrite !lookup_insert_ne by lia. done.
  - intros x Hx. rewrite !lookup_insert_ne by lia. done.
Qed.

(** What [kmalloc] does with the block it found: cut off the rest if it is worth
    a block of its own, and take the block. *)
Lemma take_block_spec m hd a sz size rest :
  seg m a ((sz, true) :: rest) → heap_start ≤ a → a `mod` 8 = 0 →
  0 ≤ size → size `mod` 8 = 0 → size ≤ sz →
  wp (_ ← when (u32 (size + HEADER_SIZE + 8) <=? sz) (split_block a size);
      _ ← store_free a false;
      mret (u32 (a + HEADER_SIZE)))
    (λ r h', head h' = hd ∧ r = a + 16 ∧
      (∀ w, w < a ∨ a + 16 + sz ≤ w → mem h' !! w = m !! w) ∧
      seg (mem h') a (if size + 24 <=? sz
                      then (size, false) :: (sz - size - 16, true) :: rest
                      else (sz, false) :: rest)) (mkHeap m hd).
Proof.
  intros Hseg Ha Hal Hs Hsal Hle.
  destruct (seg_cons _ _ _ _ _ Hseg Ha Hal) as (Hblk & Hsz & Hszal & Hend & Ha' & Hal' & Hrest).
  rewrite (u32_small (size + HEADER_SIZE + 8)) by (consts; lia).
  replace (size + HEADER_SIZE + 8) with (size + 24) by (consts; lia).
  wp_step. eapply (wp_mono _ (λ _ h', head h' = hd ∧
    seg (mem h') a (if size + 24 <=? sz
                    then (size, true) :: (sz - size - 16, true) :: rest
                    else (sz, true) :: rest) ∧
    (∀ w, w < a ∨ a + 16 + sz ≤ w → mem h' !! w = m !! w))).
  - apply wp_when; intros E; rewrite E; [|done].
    apply Z.leb_le in E. apply split_block_spec; done || lia.
  - intros _ [m' hd'] (Hhd & Hseg' & Hfr). simpl in *.
    wp_step. apply wp_store_free; [done|]. intros w Hw. wp_steps. simpl.
    split_and!; [done| | |].
    + apply u32_small. unfold blk in Hblk. consts. lia.
    + intros x Hx. rewrite lookup_insert_ne by lia. by apply Hfr.
    + destruct (size + 24 <=? sz); eapply seg_set_free; done.
Qed.

(** The two conditions. *)
Lemma flag_byte (fr : bool) : negb ((if fr then 1 else 0) =? 0) = fr.
Proof. by destruct fr. Qed.

Lemma skip_block_spec m hd a sz size (fr : bool) :
  blk a → getw m a = sz → Z.land (getw m (a + 4)) 0xFF = (if fr then 1 else 0) →
  skip_block a size (mkHeap m hd) = Some (negb (fr && (size <=? sz)), mkHeap m hd).
Proof.
  intros Hblk H1 H2.
  assert (wp (skip_block a size) (λ r h', r = negb (fr && (size <=? sz)) ∧ h' = mkHeap m hd) (mkHeap m hd)) as Hwp.
  { unfold skip_block. wp_step. apply wp_load_free; [done|]. rewrite H2, flag_byte. destruct fr; cbn [negb andb]; [|by wp_step].
    wp_step. apply wp_load_size; [done|]. rewrite H1. wp_step. by rewrite <- Z.ltb_antisym. }
  apply wp_inv in Hwp as (r & h' & E & -> & ->). exact E.
Qed.

Lemma kmalloc_loop_spec fuel bs m hd a size :
  seg m a bs → heap_start ≤ a → a `mod` 8 = 0 → 0 ≤ size → size `mod` 8 = 0 →
  (length bs < fuel)%nat →
  wp (kmalloc_loop fuel (link a bs) size) (λ r h', head h' = hd ∧
      (∀ w, w < a → mem h' !! w = m !! w) ∧
      (∀ w, in_payload a bs w → mem h' !! w = m !! w) ∧
      match first_fit a size bs with
      | Some (p, bs') => r = p ∧ seg (mem h') a bs'
      | None => r = NULL ∧ mem h' = m
      end) (mkHeap m hd).
Proof.
  revert fuel a. induction bs as [|[sz fr] rest IH]; intros fuel a Hseg Ha Hal Hs Hsal Hfuel;
    (destruct fuel as [|fuel]; [simpl in Hfuel; lia|]); cbn [kmalloc_loop].
  { simpl. by apply wp_ret. }
  destruct (link_nonnull a ((sz, fr) :: rest) Ha) as [-> Hnn]; [done|].
  simpl in Hnn. rewrite Hnn.
  destruct (seg_cons _ _ _ _ _ Hseg Ha Hal) as (Hblk & Hsz & Hszal & Hend & Ha' & Hal' & Hrest).
  pose proof Hseg as (H1 & H2 & H3 & _).
  wp_step. eapply wp_eq; [exact (skip_block_spec m hd a sz size fr Hblk H1 H2)|]. cbv beta. cbn [first_fit].
  destruct (fr && (size <=? sz)) eqn:Hok; cbn [negb].
  - apply andb_true_iff in Hok as [-> Hle%Z.leb_le]. wp_step. apply wp_load_size; [done|]. rewrite H1.
    use_wp (take_block_spec m hd a sz size rest); [done..|].
    intros r h' (Hhd & -> & Hfr & Hseg'). split_and!; [done| | |done|done].
    + intros x Hx. apply Hfr. by left.
    + intros x [[? _]|Hx]; [done|]. apply Hfr. right.
      pose proof (in_payload_ge _ _ _ _ Hrest Hx). lia.
  - wp_step. apply wp_load_next; [done|]. rewrite H3.
    use_wp (IH fuel (a + 16 + sz)); [done..|simpl in Hfuel; lia|].
    intros r [m' hd'] (Hhd & Hlow & Hpay & Hres). simpl in *.
    split_and!; [done| | |].
    + intros w Hw. apply Hlow. lia.
    + intros w [[Hf Hw]|Hw]; [apply Hlow; lia|by apply Hpay].
    + destruct (first_fit (a + 16 + sz) size rest) as [[p rest']|] eqn:Hff; [|done].
      destruct Hres as [-> Hseg']. split; [done|]. simpl. unfold getw.
      rewrite !Hlow by lia. fold (getw m a) (getw m (a + 4)) (getw m (a + 8)).
      split_and!; try done. rewrite H3. apply first_fit_nonempty in Hff as Hne.
      destruct rest; [done|]. by destruct rest'.
Qed.

(** Rounding up to 8, when the addition does not wrap and when it does. *)
Lemma ALIGN8_spec x :
  0 ≤ x < 2 ^ 32 →
  0 ≤ ALIGN8 x ∧ ALIGN8 x `mod` 8 = 0 ∧
  (x ≤ 2 ^ 32 - 8 → x ≤ ALIGN8 x < x + 8) ∧ (2 ^ 32 - 8 < x → ALIGN8 x = 0).
Proof.
  intros Hx. unfold ALIGN8. rewrite u32_lnot by lia.
  replace (2 ^ 32 - 1 - 7) with (2 ^ 32 - 2 ^ 3) by lia.
  rewrite land_not_ones by (try apply u32_range; lia). change (2 ^ 3) with 8.
  pose proof (u32_range (x + 7)). pose proof (Z.mod_pos_bound (u32 (x + 7)) 8 ltac:(lia)).
  pose proof (Z.mod_le (u32 (x + 7)) 8). split_and!.
  - lia.
  - rewrite Zminus_mod, Z.mod_mod, Z.sub_diag by lia. done.
  - intros Hle. rewrite u32_small in * by lia. lia.
  - intros Hgt. assert (u32 (x + 7) = x + 7 - 2 ^ 32) as E.
    { unfold u32. rewrite <- (Z_mod_plus_full _ (-1)), Z.mod_small; lia. }
    rewrite E, (Z.mod_small (x + 7 - 2 ^ 32)) by lia. lia.
Qed.

Lemma heap_rep_fuel h bs : heap_rep h bs → (length bs < heap_fuel)%nat.
Proof.
  intros [_ _ Hseg]. pose proof (seg_bounds _ _ _ Hseg). unfold heap_fuel.
  change (HEAP_SIZE / HEADER_SIZE) with 65536. consts. lia.
Qed.

#[global] Opaque heap_fuel.

(** What [kmalloc] does to the abstract heap. *)
Definition spec_kmalloc (size : Z) (bs : list block) : option (Z * list block) :=
  if decide (size = 0) then None else first_fit heap_start (ALIGN8 size) bs.

Lemma kmalloc_spec size h bs :
  heap_rep h bs → 0 ≤ size < 2 ^ 32 →
  wp (kmalloc size) (λ r h',
    (∀ w, in_payload heap_start bs w → mem h' !! w = mem h !! w) ∧
    match spec_kmalloc size bs with
    | Some (p, bs') => r = p ∧ heap_rep h' bs'
    | None => r = NULL ∧ h' = h
    end) h.
Proof.
  intros Hrep Hs. pose proof (heap_rep_fuel _ _ Hrep) as Hfuel.
  unfold kmalloc, spec_kmalloc. destruct (Z.eqb_spec size 0) as [E|E].
  { rewrite decide_True by done. by apply wp_ret. }
  rewrite decide_False by done. wp_steps. destruct Hrep as [Hhd Hne Hseg].
  destruct h as [m hd]. simpl in *. subst hd.
  destruct (ALIGN8_spec size Hs) as (Ha0 & Ha8 & _).
  destruct (link_nonnull heap_start bs) as [Hlink _]; [lia|done|].
  rewrite <- Hlink at 1. use_wp kmalloc_loop_spec; [done|lia|done|done|done|done|].
  intros r [m' hd'] (Hhd & _ & Hpay & Hres). simpl in *. split; [done|].
  destruct (first_fit _ _ bs) as [[p bs']|] eqn:Hff.
  - destruct Hres as [-> Hseg']. split; [done|]. constructor; simpl; [congruence| |done].
    by eapply first_fit_nonempty.
  - destruct Hres as [-> ->]. split; [done|congruence].
Qed.

(** ** [kfree] *)

(** The size and the rest after the free blocks that follow are merged in. *)
Fixpoint absorb (s : Z) (bs : list block) : Z * list block :=
  match bs with
  | (s', true) :: bs' => absorb (s + (16 + s')) bs'
  | _ => (s, bs)
  end.

Lemma absorb_shift k s bs : absorb (k + s) bs = (k + (absorb s bs).1, (absorb s bs).2).
Proof.
  revert s. induction bs as [|[s' []] bs IH]; intros s; simpl; [done| |done].
  rewrite <- Z.add_assoc. apply IH.
Qed.

Lemma coalesce_free s bs :
  coalesce ((s, true) :: bs) = ((absorb s bs).1, true) :: coalesce (absorb s bs).2.
Proof.
  revert s. induction bs as [|[s' []] bs IH]; intros s; [done| |].
  - change (coalesce ((s, true) :: (s', true) :: bs))
      with (join (s, true) (coalesce ((s', true) :: bs))).
    rewrite IH. simpl. rewrite !Z.add_assoc, absorb_shift. done.
  - simpl. by destruct (coalesce bs).
Qed.

Lemma coalesce_used s bs : coalesce ((s, false) :: bs) = (s, false) :: coalesce bs.
Proof. done. Qed.

Lemma absorb_length s bs : (length (absorb s bs).2 ≤ length bs)%nat.
Proof.
  revert s. induction bs as [|[s' []] bs IH]; intros s; simpl; [lia| |lia].
  specialize (IH (s + (16 + s'))). lia.
Qed.

Lemma in_payload_absorb a s bs w :
  in_payload (a + 16 + s) bs w ↔
  in_payload (a + 16 + (absorb s bs).1) (absorb s bs).2 w.
Proof.
  revert s. induction bs as [|[s' []] bs IH]; intros s; simpl; [done| |done].
  rewrite <- IH. replace (a + 16 + (s + (16 + s'))) with (a + 16 + s + 16 + s') by lia.
  split; [|auto]. by intros [[? _]|?].
Qed.

(** One turn of the inner loop: the free block after the first one is merged. *)
Lemma seg_merge m a s s' bs :
  seg m a ((s, true) :: (s', true) :: bs) → 0 ≤ s' →
  seg (<[a + 8 := link (a + 16 + s + 16 + s') bs]> (<[a := s + (16 + s')]> m)) a
      ((s + (16 + s'), true) :: bs).
Proof.
  intros (H1 & H2 & H3 & Hs & Hal & _ & _ & _ & Hs' & Hal' & Hrest) _. simpl.
  rewrite !getw_insert. decides.
  replace (a + 16 + (s + (16 + s'))) with (a + 16 + s + 16 + s') by lia.
  split_and!; try done; [lia| |].
  - rewrite Z.add_mod, Hal, (Z.add_mod 16 s'), Hal' by lia. done.
  - apply (seg_frame m); [|done]. intros w Hw. rewrite !lookup_insert_ne by lia. done.
Qed.

(** Whether the next block is free. *)
Definition link_free (bs : list block) : bool := match bs with (_, fr) :: _ => fr | [] => false end.

Lemma can_merge_spec m hd a s fr bs :
  seg m a ((s, fr) :: bs) → heap_start ≤ a → a `mod` 8 = 0 →
  can_merge a (mkHeap m hd) = Some (fr && link_free bs, mkHeap m hd).
Proof.
  intros Hseg Ha Hal. destruct (seg_cons _ _ _ _ _ Hseg Ha Hal) as (Hblk & Hs & Hs8 & Hend & Ha' & Hal' & Hrest).
  pose proof Hseg as (_ & H2 & H3 & _).
  assert (wp (can_merge a) (λ r h', r = fr && link_free bs ∧ h' = mkHeap m hd) (mkHeap m hd)) as Hwp.
  { unfold can_merge. wp_step. apply wp_load_free; [done|]. rewrite H2, flag_byte. destruct fr; cbn [negb andb]; [|by wp_step].
    wp_step. apply wp_load_next; [done|]. rewrite H3. destruct bs as [|[s' fr'] bs]; [by wp_step|].
    destruct (link_nonnull (a + 16 + s) ((s', fr') :: bs)) as [-> ->]; [done|done|].
    wp_step. apply wp_load_next; [done|]. rewrite H3.
    destruct (link_nonnull (a + 16 + s) ((s', fr') :: bs)) as [-> _]; [done|done|].
    destruct (seg_cons _ _ _ _ _ Hrest Ha' Hal') as (Hblk' & _). destruct Hrest as (_ & H2' & _).
    apply wp_load_free; [done|]. rewrite H2'. by destruct fr'. }
  apply wp_inv in Hwp as (r & h' & E & -> & ->). exact E.
Qed.

Lemma merge_loop_spec fuel bs m hd a s fr :
  seg m a ((s, fr) :: bs) → heap_start ≤ a → a `mod` 8 = 0 → (length bs < fuel)%nat →
  wp (merge_loop fuel a) (λ _ h', head h' = hd ∧
      (∀ w, w ≠ a → w ≠ a + 8 → mem h' !! w = m !! w) ∧
      seg (mem h') a (if fr then ((absorb s bs).1, true) :: (absorb s bs).2
                      else (s, fr) :: bs)) (mkHeap m hd).
Proof.
  revert fuel m s. induction bs as [|[s' fr'] bs IH]; intros fuel m s Hseg Ha Hal Hfuel;
    (destruct fuel as [|fuel]; [simpl in Hfuel; lia|]); cbn [merge_loop];
    destruct (seg_cons _ _ _ _ _ Hseg Ha Hal) as (Hblk & Hs & Hs8 & Hend & Ha' & Hal' & Hrest);
    pose proof Hseg as (H1 & H2 & H3 & _).
  { wp_step. eapply wp_eq; [eapply (can_merge_spec m hd a s fr []); done|]. cbn [link_free]. rewrite andb_false_r. cbn [negb]. apply wp_ret. by destruct fr. }
  wp_step. eapply wp_eq; [by eapply (can_merge_spec m hd a s fr ((s', fr') :: bs))|].
  cbn [link_free]. destruct (link_nonnull (a + 16 + s) ((s', fr') :: bs)) as [El _]; [done|done|].
  destruct (seg_cons _ _ _ _ _ Hrest Ha' Hal') as (Hblk' & Hs' & Hs8' & Hend' & _).
  pose proof Hrest as (H1' & H2' & H3' & _). destruct fr; cbn [andb]; [|by wp_step].
  destruct fr'; cbn [negb]; [|by wp_step].
  wp_step. apply wp_load_size; [done|]. wp_step. apply wp_load_next; [done|]. rewrite H3, El.
  wp_step. apply wp_load_size; [done|]. rewrite H1, H1'. consts. rewrite u32_small by (unfold blk in *; consts; lia).
  wp_step. apply wp_store_size; [done|]. wp_step. apply wp_load_next; [done|].
  rewrite getw_insert, decide_False, H3, El by lia. wp_step. apply wp_load_next; [done|].
  rewrite getw_insert, decide_False, H3' by lia.
  wp_step. apply wp_store_next; [done|].
  use_wp IH; [by apply seg_merge|done|done|simpl in Hfuel; lia|].
  intros _ h' (Hhd & Hfr & Hseg'). split_and!; [done| |done].
  intros w Hw Hw8. rewrite Hfr by done. rewrite !lookup_insert_ne by lia. done.
Qed.

(** What the first turn of the outer loop leaves: the first block with its
    free successors merged in. *)
Definition settle (s : Z) (fr : bool) (bs : list block) : Z * list block :=
  if fr then absorb s bs else (s, bs).

Lemma coalesce_settle s fr bs :
  coalesce ((s, fr) :: bs) = ((settle s fr bs).1, fr) :: coalesce (settle s fr bs).2.
Proof. destruct fr; [apply coalesce_free|done]. Qed.

Lemma settle_length s fr bs : (length (settle s fr bs).2 ≤ length bs)%nat.
Proof. destruct fr; [apply absorb_length|simpl; lia]. Qed.

Lemma link_coalesce a bs : link a (coalesce bs) = link a bs.
Proof. destruct bs as [|[s fr] bs]; [done|]. by rewrite coalesce_settle. Qed.

Lemma coalesce_loop_spec fuel bs m hd a :
  seg m a bs → heap_start ≤ a → a `mod` 8 = 0 → (length bs < fuel)%nat →
  (length bs < heap_fuel)%nat →
  wp (coalesce_loop fuel (link a bs)) (λ _ h', head h' = hd ∧
      (∀ w, w < a → mem h' !! w = m !! w) ∧
      (∀ w, in_payload a bs w → mem h' !! w = m !! w) ∧
      seg (mem h') a (coalesce bs)) (mkHeap m hd).
Proof.
  revert bs m a. induction fuel as [|fuel IH]; intros bs m a Hseg Ha Hal Hfuel Hhf; [lia|].
  destruct bs as [|[s fr] bs]; cbn [coalesce_loop]; [by apply wp_ret|].
  destruct (link_nonnull a ((s, fr) :: bs) Ha) as [-> ->]; [done|].
  wp_step. use_wp merge_loop_spec; [done|done|done|simpl in Hhf; lia|].
  intros _ [m1 hd1] (Hhd1 & Hfr1 & Hseg1'). cbn [mem head] in *. subst hd1.
  assert (seg m1 a (((settle s fr bs).1, fr) :: (settle s fr bs).2)) as Hseg1 by (by destruct fr).
  clear Hseg1'. pose proof (settle_length s fr bs) as Hlen.
  rewrite coalesce_settle. destruct (settle s fr bs) as [s1 bs1] eqn:Hset. cbn [fst snd] in *.
  destruct (seg_cons _ _ _ _ _ Hseg1 Ha Hal) as (Hblk & Hs1 & Hs8 & Hend & Ha1 & Hal1 & Hrest).
  destruct (seg_cons _ _ _ _ _ Hseg Ha Hal) as (_ & Hs & _ & _ & _ & _ & Hrest0).
  pose proof Hseg1 as (H1 & H2 & H3 & _).
  wp_step. apply wp_load_next; [done|]. rewrite H3.
  use_wp IH; [done|done|done|simpl in Hfuel; lia|simpl in Hhf; lia|].
  intros _ [m2 hd2] (Hhd & Hlow & Hpay & Hseg2). cbn [mem head] in *.
  split_and!; [done| | |].
  - intros w Hw. rewrite Hlow, Hfr1 by lia. done.
  - intros w Hw. assert (w ≠ a ∧ w ≠ a + 8) as [Hw1 Hw2]
      by (pose proof (in_payload_ge _ _ _ _ Hseg Hw); lia).
    rewrite <- (Hfr1 w Hw1 Hw2). simpl in Hw. destruct fr.
    + apply Hpay. destruct Hw as [[? _]|Hw]; [done|].
      apply in_payload_absorb in Hw. simpl in Hset. rewrite Hset in Hw. exact Hw.
    + simpl in Hset. injection Hset as <- <-. destruct Hw as [[_ Hw]|Hw]; [apply Hlow; lia|auto].
  - simpl. unfold getw. rewrite !Hlow by lia.
    fold (getw m1 a) (getw m1 (a + 4)) (getw m1 (a + 8)). rewrite link_coalesce.
    split_and!; done.
Qed.

(** A block's payload starts at [p]. *)
Fixpoint has_block (a p : Z) (bs : list block) : Prop :=
  match bs with
  | [] => False
  | (sz, fr) :: rest => a + 16 = p ∨ has_block (a + 16 + sz) p rest
  end.

Lemma has_block_range m a p bs :
  seg m a bs → heap_start ≤ a → a `mod` 8 = 0 → has_block a p bs →
  blk (p - 16) ∧ a + 16 ≤ p.
Proof.
  revert a. induction bs as [|[sz fr] rest IH]; intros a Hseg Ha Hal; simpl; [done|].
  destruct (seg_cons _ _ _ _ _ Hseg Ha Hal) as (Hblk & Hs & _ & _ & Ha1 & Hal1 & Hrest).
  intros [<-|Hb].
  - replace (a + 16 - 16) with a by lia. split; [done|lia].
  - destruct (IH _ Hrest Ha1 Hal1 Hb). split; [done|lia].
Qed.

Lemma seg_mark m a p bs w :
  seg m a bs → has_block a p bs → heap_start ≤ a → a `mod` 8 = 0 → Z.land w 0xFF = 1 →
  seg (<[p - 16 + 4 := w]> m) a (mark_block a p bs).
Proof.
  revert a. induction bs as [|[sz fr] rest IH]; intros a Hseg Hb Ha Hal Hw; [done|].
  cbn [mark_block]. destruct (decide (a + 16 = p)) as [<-|Hne].
  - replace (a + 16 - 16 + 4) with (a + 4) by lia. by eapply seg_set_free.
  - destruct (seg_cons _ _ _ _ _ Hseg Ha Hal) as (_ & Hs & _ & _ & Ha1 & Hal1 & Hrest).
    destruct Hb as [?|Hb]; [done|].
    destruct (has_block_range _ _ _ _ Hrest Ha1 Hal1 Hb) as [_ Hp].
    destruct Hseg as (H1 & H2 & H3 & _ & Hs8 & _). simpl. rewrite !getw_insert. decides.
    split_and!; try done; [|by apply IH]. rewrite H3. destruct rest as [|[sz' fr'] rest]; [done|].
    simpl. by case_decide.
Qed.

Lemma in_payload_mark a p bs w : in_payload a (mark_block a p bs) w → in_payload a bs w.
Proof.
  revert a. induction bs as [|[sz fr] rest IH]; intros a; simpl; [done|].
  case_decide; simpl; intros [[Hf Hw]|Hw]; auto; discriminate.
Qed.

Lemma mark_block_length a p bs : length (mark_block a p bs) = length bs.
Proof.
  revert a. induction bs as [|[sz fr] rest IH]; intros a; simpl; [done|].
  case_decide; simpl; by f_equal.
Qed.

(** Headers are not payload. *)
Lemma payload_not_header m a p bs x :
  seg m a bs → heap_start ≤ a → a `mod` 8 = 0 → has_block a p bs →
  in_payload a bs x → p - 16 ≤ x < p → False.
Proof.
  revert a. induction bs as [|[sz fr] rest IH]; intros a Hseg Ha Hal Hb Hx Hr; [done|].
  pose proof (in_payload_ge _ _ _ _ Hseg Hx).
  destruct (seg_cons _ _ _ _ _ Hseg Ha Hal) as (_ & Hs & _ & _ & Ha1 & Hal1 & Hrest).
  destruct Hb as [<-|Hb]; [lia|].
  destruct (has_block_range _ _ _ _ Hrest Ha1 Hal1 Hb) as [_ Hp].
  destruct Hx as [[_ Hx]|Hx]; [lia|]. eauto.
Qed.

(** What [kfree] does to the abstract heap. *)
Definition spec_kfree (p : Z) (bs : list block) : list block :=
  coalesce (mark_block heap_start p bs).

Lemma kfree_spec p h bs :
  heap_rep h bs → has_block heap_start p bs →
  wp (kfree p) (λ _ h', heap_rep h' (spec_kfree p bs) ∧
    ∀ w, in_payload heap_start (mark_block heap_start p bs) w → mem h' !! w = mem h !! w) h.
Proof.
  intros Hrep Hb. pose proof (heap_rep_fuel _ _ Hrep) as Hfuel.
  destruct Hrep as [Hhd Hne Hseg]. destruct h as [m hd]. cbn [mem head] in *. subst hd.
  destruct (has_block_range _ _ _ _ Hseg ltac:(lia) ltac:(done) Hb) as [Hblk Hp].
  unfold kfree. destruct (Z.eqb_spec p NULL) as [->|_]; [consts; lia|].
  consts. rewrite u32_small by (unfold blk in Hblk; consts; lia).
  wp_step. apply wp_store_free; [done|]. intros w Hw. wp_steps. cbn [head].
  set (m1 := <[p - 16 + 4 := w]> m). set (bs1 := mark_block heap_start p bs).
  assert (seg m1 heap_start bs1) as Hseg1 by (apply seg_mark; done || lia).
  assert (length bs1 = length bs) as Hlen by apply mark_block_length.
  assert (bs1 ≠ []) as Hne1 by (by destruct bs; [|intros E; rewrite E in Hlen]).
  destruct (link_nonnull heap_start bs1) as [Hlink _]; [lia|done|]. change heap_start with 1048576 in Hlink.
  rewrite <- Hlink at 1. use_wp coalesce_loop_spec; [exact Hseg1|consts; lia|done|lia|lia|].
  intros _ [m2 hd2] (Hhd & _ & Hpay & Hseg2). cbn [mem head] in *. split.
  - constructor; cbn [mem head]; [done| |done]. unfold spec_kfree. fold bs1.
    destruct bs1 as [|[s1 fr1] bs2]; [done|]. by rewrite coalesce_settle.
  - intros x Hx. rewrite Hpay by done. unfold m1. apply lookup_insert_ne.
    intros <-. eapply (payload_not_header m heap_start p bs);
      [done|lia|done|done|by eapply in_payload_mark|lia].
Qed.

(** ** Properties of the abstract heap *)

(** No two neighbours are both free. *)
Fixpoint separated (bs : list block) : Prop :=
  match bs with
  | (_, true) :: ((_, true) :: _) as rest => False
  | _ :: rest => separated rest
  | [] => True
  end.

Lemma separated_cons s fr bs :
  separated ((s, fr) :: bs) ↔
  separated bs ∧ (fr = true → match bs with (_, true) :: _ => False | _ => True end).
Proof.
  destruct fr.
  - destruct bs as [|[s' []] bs]; simpl; tauto.
  - simpl. split; [intros; split; [assumption|discriminate]|by intros [? _]].
Qed.

Lemma coalesce_separated bs : separated (coalesce bs).
Proof.
  induction bs as [|[s fr] bs IH]; [done|]. change (coalesce ((s, fr) :: bs))
    with (join (s, fr) (coalesce bs)).
  destruct fr; [|by apply separated_cons].
  destruct (coalesce bs) as [|[s' []] bs']; simpl join; [done| |by apply separated_cons].
  apply separated_cons. by apply separated_cons in IH.
Qed.

Lemma first_fit_separated a size bs p bs' :
  separated bs → first_fit a size bs = Some (p, bs') → separated bs'.
Proof.
  revert a bs'. induction bs as [|[s fr] bs IH]; intros a bs' Hsep; simpl; [done|].
  apply separated_cons in Hsep as [Hsep Hhd]. destruct (fr && _) eqn:E.
  - apply andb_true_iff in E as [-> _]. intros [= _ <-].
    destruct (size + 24 <=? s); repeat (apply separated_cons; split); auto; done.
  - destruct (first_fit _ _ bs) as [[p' rest']|] eqn:Hff; [|done]. intros [= <- <-].
    apply separated_cons. split; [by eapply IH|]. intros ->. specialize (Hhd eq_refl).
    destruct bs as [|[s' []] bs]; simpl in Hff; [done|done|].
    destruct (first_fit _ _ bs) as [[p2 r2]|]; [|done]. injection Hff as _ <-. done.
Qed.

(** [q] is the payload address of an allocated block. *)
Fixpoint alloc_at (a q : Z) (bs : list block) : Prop :=
  match bs with
  | [] => False
  | (sz, fr) :: rest => (a + 16 = q ∧ fr = false) ∨ alloc_at (a + 16 + sz) q rest
  end.

Definition sizes_ok (bs : list block) : Prop := Forall (λ b, 0 ≤ b.1) bs.

Lemma seg_sizes m a bs : seg m a bs → sizes_ok bs.
Proof.
  revert a. induction bs as [|[sz fr] rest IH]; intros a; simpl; [constructor|].
  intros (_ & _ & _ & Hs & _ & Hrest). constructor; [done|]. by eapply IH.
Qed.

Lemma alloc_at_ge a q bs : sizes_ok bs → alloc_at a q bs → a + 16 ≤ q.
Proof.
  revert a. induction bs as [|[sz fr] rest IH]; intros a Hok; simpl; [done|].
  apply Forall_cons in Hok as [Hs Hok]. simpl in Hs. intros [[Hq _]|Hq]; [lia|].
  specialize (IH _ Hok Hq). lia.
Qed.

Lemma alloc_has_block a q bs : alloc_at a q bs → has_block a q bs.
Proof.
  revert a. induction bs as [|[sz fr] rest IH]; intros a; simpl; [done|].
  intros [[? _]|?]; auto.
Qed.

Lemma alloc_at_mark a p q bs :
  sizes_ok bs → alloc_at a q (mark_block a p bs) ↔ alloc_at a q bs ∧ q ≠ p.
Proof.
  revert a. induction bs as [|[sz fr] rest IH]; intros a Hok; simpl; [tauto|].
  apply Forall_cons in Hok as [Hs Hok]. simpl in Hs. case_decide as Hp; simpl.
  - split.
    + intros [[_ ?]|Hq]; [done|]. split; [auto|]. pose proof (alloc_at_ge _ _ _ Hok Hq). lia.
    + intros [[[? _]|Hq] Hne]; [lia|auto].
  - rewrite IH by done. split.
    + intros [[? ?]|[? ?]]; [|by auto]. split; [auto|]. lia.
    + intros [[[? ?]|?] ?]; auto.
Qed.

Lemma alloc_at_coalesce a q bs : alloc_at a q (coalesce bs) ↔ alloc_at a q bs.
Proof.
  revert a. induction bs as [|[s fr] bs IH]; intros a; [done|].
  change (coalesce ((s, fr) :: bs)) with (join (s, fr) (coalesce bs)). simpl alloc_at at 2.
  rewrite <- IH. destruct fr; [|done]. simpl.
  destruct (coalesce bs) as [|[s' []] bs']; simpl; [done| |done].
  replace (a + 16 + (s + (16 + s'))) with (a + 16 + s + 16 + s') by lia.
  intuition discriminate.
Qed.

Lemma in_payload_coalesce a bs w : in_payload a (coalesce bs) w ↔ in_payload a bs w.
Proof.
  revert a. induction bs as [|[s fr] bs IH]; intros a; [done|].
  change (coalesce ((s, fr) :: bs)) with (join (s, fr) (coalesce bs)). simpl in_payload at 2.
  rewrite <- IH. destruct fr; [|done]. simpl.
  destruct (coalesce bs) as [|[s' []] bs']; simpl; [intuition discriminate| |intuition discriminate].
  replace (a + 16 + (s + (16 + s'))) with (a + 16 + s + 16 + s') by lia.
  intuition discriminate.
Qed.

(** What a successful first fit returns: the start of a block that was free,
    of at least the requested size; the other blocks' payload is as before. *)
Lemma first_fit_fresh a size bs p bs' :
  sizes_ok bs → 0 ≤ size → first_fit a size bs = Some (p, bs') →
  ∃ sz, size ≤ sz ∧ a + 16 ≤ p ∧ alloc_at a p bs' ∧
    (∀ w, in_payload a bs w → a + 16 ≤ w) ∧
    (∀ w, p ≤ w < p + sz → ¬ in_payload a bs w) ∧
    (∀ w, in_payload a bs' w ↔ in_payload a bs w ∨ p ≤ w < p + sz) ∧
    (∀ q, alloc_at a q bs' ↔ alloc_at a q bs ∨ q = p) ∧ ¬ alloc_at a p bs.
Proof.
  revert a bs'. induction bs as [|[s fr] bs IH]; intros a bs' Hok Hsz; simpl; [done|].
  apply Forall_cons in Hok as [Hs Hok]. simpl in Hs.
  assert (∀ w, in_payload (a + 16 + s) bs w → a + 16 + s + 16 ≤ w) as Hge.
  { clear -Hok. generalize (a + 16 + s). induction bs as [|[s' fr'] bs IH]; intros b w; [done|].
    apply Forall_cons in Hok as [Hs Hok]. simpl in *. intros [[_ ?]|Hw]; [lia|].
    specialize (IH Hok _ _ Hw). lia. }
  pose proof (λ q, alloc_at_ge (a + 16 + s) q bs Hok) as Hag.
  destruct (fr && (size <=? s)) eqn:E.
  - apply andb_true_iff in E as [-> Hle%Z.leb_le]. intros [= <- <-].
    destruct (Z.leb_spec (size + 24) s); [exists size|exists s]; simpl;
      try replace (a + 16 + size + 16 + (s - size - 16)) with (a + 16 + s) by lia;
      split_and!; try lia; try by auto.
    all: try (intros w [[? _]|Hw]; [done|]; specialize (Hge w Hw); lia).
    all: try (intros w Hw [[? _]|Hw']; [done|]; specialize (Hge w Hw'); lia).
    all: try (intros [[_ ?]|Hq]; [done|]; specialize (Hag _ Hq); lia).
    all: intros w; intuition (discriminate || lia).
  - destruct (first_fit _ _ bs) as [[p' rest']|] eqn:Hff; [|done]. intros [= <- <-].
    destruct (IH _ _ Hok Hsz Hff) as (sz & H1 & H2 & H3 & H4 & H5 & H6 & H7 & H8).
    exists sz. simpl. split_and!; try lia; try by auto.
    + intros w [[_ ?]|Hw]; [lia|]. specialize (H4 w Hw). lia.
    + intros w Hw [[_ ?]|Hw']; [lia|]. by apply (H5 w Hw).
    + intros w. rewrite H6. tauto.
    + intros q. rewrite H7. tauto.
    + intros [[? _]|?]; [lia|done].
Qed.

Lemma first_fit_None a size bs :
  first_fit a size bs = None ↔ Forall (λ b, b.2 = true → b.1 < size) bs.
Proof.
  revert a. induction bs as [|[s fr] bs IH]; intros a; simpl; [by split; [constructor|]|].
  rewrite Forall_cons. simpl. rewrite <- (IH (a + 16 + s)). destruct fr; simpl.
  - destruct (Z.leb_spec size s).
    + split; [done|]. intros [Hlt _]. specialize (Hlt eq_refl). lia.
    + destruct (first_fit _ _ bs) as [[? ?]|]; naive_solver.
  - destruct (first_fit _ _ bs) as [[? ?]|]; naive_solver.
Qed.

(** A heap without allocated blocks is one free block. *)
Lemma all_free_single m a bs :
  seg m a bs → separated bs → bs ≠ [] → (∀ q, ¬ alloc_at a q bs) →
  bs = [(heap_end - a - 16, true)].
Proof.
  intros Hseg Hsep Hne Hnone. destruct bs as [|[s fr] rest]; [done|].
  destruct fr; [|destruct (Hnone (a + 16)); simpl; auto].
  destruct Hseg as (_ & _ & _ & _ & _ & Hrest).
  destruct rest as [|[s' []] rest]; simpl in *; [|done|].
  - repeat f_equal. lia.
  - destruct (Hnone (a + 16 + s + 16)). auto.
Qed.

Lemma heap_rep_init h : wp kmalloc_init (λ _ h', heap_rep h' [(HEAP_SIZE - 16, true)]) h.
Proof.
  assert (blk heap_start) as Hblk by (unfold blk; consts; split_and!; done || lia).
  destruct h as [m hd]. unfold kmalloc_init. wp_steps. cbn [head set_head mem].
  apply wp_store_size; [done|]. wp_step. apply wp_store_free; [done|]. intros w Hw.
  apply wp_store_next; [done|]. constructor; cbn [head mem]; [done|done|].
  simpl. rewrite !getw_insert. consts. decides. done.
Qed.

(** Writing into the payload of an allocated block leaves the blocks alone. *)
Lemma seg_payload_write m a bs x v :
  seg m a bs → heap_start ≤ a → a `mod` 8 = 0 → in_payload a bs x → seg (<[x := v]> m) a bs.
Proof.
  revert a. induction bs as [|[sz fr] rest IH]; intros a Hseg Ha Hal Hx; [done|].
  pose proof (in_payload_ge _ _ _ _ Hseg Hx).
  destruct (seg_cons _ _ _ _ _ Hseg Ha Hal) as (_ & Hs & _ & _ & Ha1 & Hal1 & Hrest).
  destruct Hseg as (H1 & H2 & H3 & _ & Hs8 & _). simpl. rewrite !getw_insert. decides.
  split_and!; try done. destruct Hx as [[_ Hx]|Hx]; [|by apply IH].
  apply (seg_frame m); [|done]. intros w Hw. apply lookup_insert_ne. lia.
Qed.

(** ** Clients of the heap *)

(** A client keeps the pointers it got and has not freed; it frees only those
    (or NULL) and writes only into the payload of allocated blocks. *)
Inductive kclient_step : heap * gset Z → heap * gset Z → Prop :=
| kclient_malloc h h' size r owned :
    0 ≤ size < 2 ^ 32 → kmalloc size h = Some (r, h') →
    kclient_step (h, owned) (h', if decide (r = NULL) then owned else {[r]} ∪ owned)
| kclient_free h h' p owned :
    p ∈ owned ∨ p = NULL → kfree p h = Some (tt, h') →
    kclient_step (h, owned) (h', owned ∖ {[p]})
| kclient_write h bs x v owned :
    heap_rep h bs → in_payload heap_start bs x →
    kclient_step (h, owned) (set_mem (<[x := v]> (mem h)) h, owned).

Definition kclient_inv (c : heap * gset Z) : Prop :=
  ∃ bs, heap_rep c.1 bs ∧ separated bs ∧ (∀ q, q ∈ c.2 ↔ alloc_at heap_start q bs).

Lemma rep_unique m a bs bs' : seg m a bs → seg m a bs' → heap_start ≤ a → a `mod` 8 = 0 → bs = bs'.
Proof.
  revert a bs'. induction bs as [|[s fr] bs IH]; intros a bs' Hs Hs' Ha Hal.
  - destruct bs' as [|[s' fr'] bs']; [done|]. simpl in Hs.
    destruct (seg_cons _ _ _ _ _ Hs' Ha Hal) as ((_ & ? & _) & _). lia.
  - destruct (seg_cons _ _ _ _ _ Hs Ha Hal) as (Hblk & _ & _ & _ & Ha1 & Hal1 & Hrest).
    destruct bs' as [|[s' fr'] bs']; [simpl in Hs'; unfold blk in Hblk; lia|].
    destruct (seg_cons _ _ _ _ _ Hs' Ha Hal) as (_ & _ & _ & _ & _ & _ & Hrest').
    destruct Hs as (H1 & H2 & _), Hs' as (H1' & H2' & _).
    assert (s' = s) as -> by congruence. f_equal; [|by eapply IH].
    f_equal. destruct fr, fr'; congruence.
Qed.

Lemma alloc_not_null m q bs : seg m heap_start bs → alloc_at heap_start q bs → q ≠ NULL.
Proof.
  intros Hseg Hq. pose proof (alloc_at_ge _ _ _ (seg_sizes _ _ _ Hseg) Hq). consts. lia.
Qed.

Lemma kclient_step_inv c c' : kclient_inv c → kclient_step c c' → kclient_inv c'.
Proof.
  intros (bs & Hrep & Hsep & Hown) Hstep. pose proof (rep_seg _ _ Hrep) as Hseg.
  destruct Hstep as [h h' size r owned Hs Hrun|h h' p owned Hp Hrun|h bs0 x v owned Hrep0 Hx];
    cbn [fst snd] in *.
  - destruct (wp_run _ _ _ _ _ (kmalloc_spec size h bs Hrep Hs) Hrun) as [_ Hres].
    unfold spec_kmalloc in Hres. case_decide as E0.
    { destruct Hres as [-> ->]. rewrite decide_True by done. exists bs. auto. }
    destruct (first_fit _ _ bs) as [[p bs']|] eqn:Hff.
    + destruct Hres as [-> Hrep']. destruct (ALIGN8_spec size Hs) as (Ha0 & _).
      destruct (first_fit_fresh _ _ _ _ _ (seg_sizes _ _ _ Hseg) Ha0 Hff)
        as (sz & _ & _ & Hat & _ & _ & _ & Hiff & _).
      rewrite decide_False by (by eapply alloc_not_null; [apply Hrep'|]).
      exists bs'. split_and!; [done|by eapply first_fit_separated|].
      intros q. simpl. rewrite Hiff, elem_of_union, elem_of_singleton, Hown. tauto.
    + destruct Hres as [-> ->]. rewrite decide_True by done. exists bs. auto.
  - destruct Hp as [Hp| ->].
    + apply Hown in Hp as Hat.
      destruct (wp_run _ _ _ _ _ (kfree_spec p h bs Hrep (alloc_has_block _ _ _ Hat)) Hrun)
        as [Hrep' _].
      exists (spec_kfree p bs). split_and!; [done|apply coalesce_separated|]. simpl.
      intros q. unfold spec_kfree. rewrite alloc_at_coalesce, alloc_at_mark
        by (by eapply seg_sizes). rewrite elem_of_difference, elem_of_singleton, Hown. done.
    + injection Hrun as <-. exists bs. split_and!; [done|done|]. simpl.
      intros q. rewrite elem_of_difference, elem_of_singleton, Hown.
      split; [tauto|]. intros Hq. split; [done|]. by eapply alloc_not_null.
  - exists bs. assert (bs0 = bs) as ->.
    { eapply rep_unique; [apply Hrep0|exact Hseg|lia|done]. }
    split_and!; [|done|done]. destruct Hrep as [Hhd Hne _]. constructor; simpl; [done|done|].
    by apply seg_payload_write; [|lia| |].
Qed.

Lemma kclient_reachable_inv h0 h1 c :
  kmalloc_init h0 = Some (tt, h1) → rtc kclient_step (h1, ∅) c → kclient_inv c.
Proof.
  intros Hinit Hsteps. assert (kclient_inv (h1, ∅)) as Hinv.
  { pose proof (wp_run _ _ _ _ _ (heap_rep_init h0) Hinit) as Hrep.
    exists [(HEAP_SIZE - 16, true)]. split_and!; [done|done|]. simpl.
    intros q. rewrite elem_of_empty. intuition discriminate. }
  remember (h1, ∅) as c0 eqn:E. clear E Hinit.
  induction Hsteps as [|c0 c1 c2 Hstep _ IH]; [done|]. apply IH. by eapply kclient_step_inv.
Qed.

(** ** The theorems of this file *)

(** C12. [kmalloc] refines first fit on the abstract heap: for every request it
    returns without an access outside the heap, its result and the blocks it
    leaves are those of [spec_kmalloc], and no word of the payload of an
    allocated block has changed. *)
Theorem kmalloc_refines size h bs :
  heap_rep h bs → 0 ≤ size < 2 ^ 32 →
  ∃ r h', kmalloc size h = Some (r, h') ∧
    (∀ w, in_payload heap_start bs w → mem h' !! w = mem h !! w) ∧
    match spec_kmalloc size bs with
    | Some (p, bs') => r = p ∧ heap_rep h' bs'
    | None => r = NULL ∧ h' = h
    end.
Proof. intros Hrep Hs. apply (proj1 (wp_inv _ _ _)). by apply kmalloc_spec. Qed.

(** The heap after [kmalloc_init]. *)
Definition boot_heap : heap := final kmalloc_init (mkHeap ∅ NULL).
Lemma boot_heap_run : kmalloc_init (mkHeap ∅ NULL) = Some (tt, boot_heap).
Proof. vm_compute. reflexivity. Qed.
Lemma boot_heap_rep : heap_rep boot_heap [(HEAP_SIZE - 16, true)].
Proof. exact (wp_run _ _ _ _ _ (heap_rep_init (mkHeap ∅ NULL)) boot_heap_run). Qed.

Lemma kmalloc_witness :
  ∃ r h', kmalloc 100 boot_heap = Some (r, h') ∧
    (∀ w, in_payload heap_start [(HEAP_SIZE - 16, true)] w → mem h' !! w = mem boot_heap !! w) ∧
    match spec_kmalloc 100 [(HEAP_SIZE - 16, true)] with
    | Some (p, bs') => r = p ∧ heap_rep h' bs'
    | None => r = NULL ∧ h' = boot_heap
    end.
Proof. apply (kmalloc_refines 100 boot_heap); [exact boot_heap_rep|lia]. Defined.

(** C13. [kfree] refines the abstract heap: given a block's payload address it
    returns without an access outside the heap, the block is free, free
    neighbours are joined throughout the heap, and no word of the payload of
    the blocks that stay allocated has changed. *)
Theorem kfree_refines p h bs :
  heap_rep h bs → has_block heap_start p bs →
  ∃ h', kfree p h = Some (tt, h') ∧ heap_rep h' (spec_kfree p bs) ∧
    ∀ w, in_payload heap_start (mark_block heap_start p bs) w → mem h' !! w = mem h !! w.
Proof.
  intros Hrep Hb. pose proof (kfree_spec p h bs Hrep Hb) as H.
  apply wp_inv in H as ([] & h' & Hrun & H1 & H2). eauto.
Qed.

Definition one_block_heap : heap := final (kmalloc 100) boot_heap.
Lemma one_block_rep : heap_rep one_block_heap [(104, false); (HEAP_SIZE - 136, true)].
Proof.
  destruct (wp_final _ _ _ (kmalloc_spec 100 boot_heap _ boot_heap_rep ltac:(lia)))
    as (r & _ & _ & Hres).
  exact (proj2 Hres).
Qed.

Lemma kfree_witness :
  ∃ h', kfree (heap_start + 16) one_block_heap = Some (tt, h') ∧
    heap_rep h' (spec_kfree (heap_start + 16) [(104, false); (HEAP_SIZE - 136, true)]) ∧
    ∀ w, in_payload heap_start
           (mark_block heap_start (heap_start + 16) [(104, false); (HEAP_SIZE - 136, true)]) w →
         mem h' !! w = mem one_block_heap !! w.
Proof.
  apply (kfree_refines (heap_start + 16) one_block_heap [(104, false); (HEAP_SIZE - 136, true)]);
    [exact one_block_rep|left; reflexivity].
Defined.

(** What [kmalloc] hands out is new memory: for a request of at most
    2^32 - 8 bytes, a result other than NULL is the address of a block of at
    least that many bytes inside the heap, no byte of which was in the payload
    of an allocated block before, all of which are payload now, and the payload
    of all other blocks is still theirs. *)
Theorem kmalloc_returns_fresh_block size h bs r h' :
  heap_rep h bs → 0 ≤ size ≤ 2 ^ 32 - 8 → kmalloc size h = Some (r, h') → r ≠ NULL →
  ∃ bs' sz, heap_rep h' bs' ∧ size ≤ sz ∧ heap_start + 16 ≤ r ∧ alloc_at heap_start r bs' ∧
    (∀ w, r ≤ w < r + sz → ¬ in_payload heap_start bs w) ∧
    (∀ w, in_payload heap_start bs' w ↔ in_payload heap_start bs w ∨ r ≤ w < r + sz).
Proof.
  intros Hrep Hs Hrun Hr.
  destruct (wp_run _ _ _ _ _ (kmalloc_spec size h bs Hrep ltac:(lia)) Hrun) as [_ Hres].
  unfold spec_kmalloc in Hres. case_decide as E0; [by destruct Hres|].
  destruct (first_fit _ _ bs) as [[p bs']|] eqn:Hff; [|by destruct Hres].
  destruct Hres as [-> Hrep']. destruct (ALIGN8_spec size ltac:(lia)) as (Ha0 & _ & Ha & _).
  destruct (first_fit_fresh _ _ _ _ _ (seg_sizes _ _ _ (rep_seg _ _ Hrep)) Ha0 Hff)
    as (sz & Hsz & Hp & Hat & _ & Hfresh & Hiff & _ & _).
  exists bs', sz. specialize (Ha ltac:(lia)). split_and!; try done. lia.
Qed.

Lemma kmalloc_fresh_witness :
  ∃ bs' sz, heap_rep one_block_heap bs' ∧ 100 ≤ sz ∧ heap_start + 16 ≤ heap_start + 16 ∧
    alloc_at heap_start (heap_start + 16) bs' ∧
    (∀ w, heap_start + 16 ≤ w < heap_start + 16 + sz →
       ¬ in_payload heap_start [(HEAP_SIZE - 16, true)] w) ∧
    (∀ w, in_payload heap_start bs' w ↔
       in_payload heap_start [(HEAP_SIZE - 16, true)] w ∨
       heap_start + 16 ≤ w < heap_start + 16 + sz).
Proof.
  apply (kmalloc_returns_fresh_block 100 boot_heap [(HEAP_SIZE - 16, true)] (heap_start + 16)
    one_block_heap boot_heap_rep); [lia|vm_compute; reflexivity|consts; lia].
Defined.

(** [kmalloc] returns NULL exactly when the request is for 0 bytes or no
    free block holds the request rounded up to 8. *)
Theorem kmalloc_null_iff size h bs r h' :
  heap_rep h bs → 0 ≤ size < 2 ^ 32 → kmalloc size h = Some (r, h') →
  (r = NULL ↔ size = 0 ∨ Forall (λ b, b.2 = true → b.1 < ALIGN8 size) bs).
Proof.
  intros Hrep Hs Hrun.
  destruct (wp_run _ _ _ _ _ (kmalloc_spec size h bs Hrep Hs) Hrun) as [_ Hres].
  unfold spec_kmalloc in Hres. case_decide as E0; [destruct Hres as [-> _]; tauto|].
  rewrite <- (first_fit_None heap_start).
  destruct (first_fit _ _ bs) as [[p bs']|] eqn:Hff; [|destruct Hres as [-> _]; tauto].
  destruct Hres as [-> Hrep']. destruct (ALIGN8_spec size Hs) as (Ha0 & _).
  destruct (first_fit_fresh _ _ _ _ _ (seg_sizes _ _ _ (rep_seg _ _ Hrep)) Ha0 Hff)
    as (sz & _ & Hp & _). split; [consts; lia|]. by intros [?|?].
Qed.

Lemma kmalloc_null_witness :
  NULL = NULL ↔ 1048568 = 0 ∨
    Forall (λ b : Z * bool, b.2 = true → b.1 < ALIGN8 1048568) [(HEAP_SIZE - 16, true)].
Proof.
  apply (kmalloc_null_iff 1048568 boot_heap [(HEAP_SIZE - 16, true)] NULL boot_heap
    boot_heap_rep); [lia|vm_compute; reflexivity].
Defined.

(** From [kmalloc_init] on, through any sequence of allocations, frees of
    owned pointers (or NULL) and writes into allocated payload: the heap is
    tiled by blocks of which no two free ones are neighbours, the pointers the
    client owns are exactly the allocated blocks, and when it owns none the
    whole megabyte is one free block again. *)
Theorem kmalloc_client_invariant h0 h1 h owned :
  kmalloc_init h0 = Some (tt, h1) → rtc kclient_step (h1, ∅) (h, owned) →
  ∃ bs, heap_rep h bs ∧ separated bs ∧ (∀ q, q ∈ owned ↔ alloc_at heap_start q bs) ∧
        (owned = ∅ → bs = [(HEAP_SIZE - 16, true)]).
Proof.
  intros Hinit Hsteps.
  destruct (kclient_reachable_inv _ _ _ Hinit Hsteps) as (bs & Hrep & Hsep & Hown).
  exists bs. simpl in *. split_and!; [done|done|done|]. intros ->.
  rewrite (all_free_single (mem h) heap_start bs); [done|apply Hrep|done|apply Hrep|].
  intros q Hq. apply Hown in Hq. set_solver.
Qed.

Lemma kmalloc_client_witness :
  ∃ bs, heap_rep one_block_heap bs ∧ separated bs ∧
    (∀ q, q ∈ ({[heap_start + 16]} ∪ ∅ : gset Z) ↔ alloc_at heap_start q bs) ∧
    ({[heap_start + 16]} ∪ ∅ = (∅ : gset Z) → bs = [(HEAP_SIZE - 16, true)]).
Proof.
  apply (kmalloc_client_invariant (mkHeap ∅ NULL) boot_heap one_block_heap
    ({[heap_start + 16]} ∪ ∅) boot_heap_run).
  apply rtc_once, (kclient_malloc boot_heap one_block_heap 100 (heap_start + 16) ∅);
    [lia|vm_compute; reflexivity].
Defined.

(** The bytes that blocks take up, and what is left of a free block of which nothing is
    asked. *)
Definition span (bs : list block) : Z := foldr (λ b n, 16 + b.1 + n) 0 bs.
Definition emptied (s : Z) : list block := if 24 <=? s then [(0, false); (s - 16, true)] else [(s, false)].

(** Asking for nothing takes the first free block, whatever its size. *)
Lemma first_fit_zero a bs :
  sizes_ok bs →
  (Forall (λ b, b.2 = false) bs ∧ first_fit a 0 bs = None) ∨
  ∃ pre s post, bs = pre ++ (s, true) :: post ∧ Forall (λ b, b.2 = false) pre ∧
    first_fit a 0 bs = Some (a + span pre + 16, pre ++ emptied s ++ post).
Proof.
  revert a. induction bs as [|[s fr] bs IH]; intros a Hok; [by left|]. apply Forall_cons in Hok as [Hs Hok].
  cbn [fst first_fit] in *. destruct fr; cbn [andb].
  - right. exists [], s, bs. rewrite (proj2 (Z.leb_le 0 s)) by lia. split; [done|]. split; [done|].
    unfold emptied. cbn [span foldr app]. replace (s - 0 - 16) with (s - 16) by lia. rewrite Z.add_0_r.
    change (0 + 24) with 24. by destruct (24 <=? s).
  - destruct (IH (a + 16 + s) Hok) as [[Hall ->]|(pre & s' & post & -> & Hpre & ->)]; [left|right].
    + split; [|done]. by constructor.
    + exists ((s, false) :: pre), s', post. split; [done|]. split; [by constructor|]. cbn [span foldr fst app].
      do 2 f_equal. unfold span. lia.
Qed.

(** C38. Rounding up wraps: [kmalloc] takes a request of more than 2^32 - 8 bytes for one of
    0 bytes.  Unless every block of the heap is in use, it does not return NULL but the
    first free block, of whatever size; if that block has 24 bytes or more, it is cut to
    0 bytes. *)
Theorem kmalloc_huge_request_succeeds size h bs :
  heap_rep h bs → 2 ^ 32 - 8 < size < 2 ^ 32 →
  (Forall (λ b, b.2 = false) bs ∧ kmalloc size h = Some (NULL, h)) ∨
  ∃ pre s post h', bs = pre ++ (s, true) :: post ∧ Forall (λ b, b.2 = false) pre ∧
    kmalloc size h = Some (heap_start + span pre + 16, h') ∧ heap_rep h' (pre ++ emptied s ++ post).
Proof.
  intros Hrep Hs. destruct (ALIGN8_spec size ltac:(lia)) as (_ & _ & _ & Hwrap).
  destruct (wp_final _ _ _ (kmalloc_spec size h _ Hrep ltac:(lia))) as (r & Hrun & _ & Hres).
  unfold spec_kmalloc in Hres. rewrite decide_False, Hwrap in Hres by lia.
  destruct (first_fit_zero heap_start bs (seg_sizes _ _ _ (rep_seg _ _ Hrep)))
    as [[Hall E]|(pre & s & post & -> & Hpre & E)]; rewrite E in Hres; destruct Hres as [-> Hres]; [left|right].
  - split; [done|]. by rewrite Hrun, Hres.
  - by exists pre, s, post, (final (kmalloc size) h).
Qed.

(** A heap whose first block is in use. *)
Lemma kmalloc_huge_witness :
  ∃ pre s post h', [(104, false); (HEAP_SIZE - 136, true)] = pre ++ (s, true) :: post ∧
    kmalloc 0xFFFFFFFF one_block_heap = Some (heap_start + span pre + 16, h') ∧ heap_rep h' (pre ++ emptied s ++ post).
Proof.
  destruct (kmalloc_huge_request_succeeds 0xFFFFFFFF one_block_heap _ one_block_rep ltac:(lia))
    as [[Hall _]|(pre & s & post & h' & E & _ & Hrun & Hrep)].
  - apply Forall_cons in Hall as [_ Hall]. apply Forall_cons in Hall as [Hf _]. discriminate Hf.
  - exists pre, s, post, h'. exact (conj E (conj Hrun Hrep)).
Defined.

End Kmalloc.
