(* ===== verification/Isr.v ===== *)
(** * Interrupt frames (src/kernel/arch/x86/idt.h, isr.asm)

    The layout of [struct registers] on an interrupted stack and what the
    epilogue of [isr_common] does with it: the frame the CPU and the stubs push,
    and the CPU state a return from the handler resumes. *)

From S2P Require Import Prelude.

Module Isr.

(** [struct registers]; [useresp] and [ss] are pushed only when the privilege
    level changes, which the kernel's tasks never do. *)
Record registers : Type := mkRegisters {
  edi : Z; esi : Z; ebp : Z; esp : Z; ebx : Z; edx : Z; ecx : Z; eax : Z;
  int_no : Z; err_code : Z;
  eip : Z; cs : Z; eflags : Z
}.

(** The frame at address [p]. *)
Definition frame_at (m : gmap Z Z) (p : Z) : registers :=
  mkRegisters (getw m p) (getw m (p + 4)) (getw m (p + 8)) (getw m (p + 12))
    (getw m (p + 16)) (getw m (p + 20)) (getw m (p + 24)) (getw m (p + 28))
    (getw m (p + 32)) (getw m (p + 36))
    (getw m (p + 40)) (getw m (p + 44)) (getw m (p + 48)).

(** The part of the CPU state a task has. *)
Record cpu : Type := mkCpu {
  r_edi : Z; r_esi : Z; r_ebp : Z; r_ebx : Z; r_edx : Z; r_ecx : Z; r_eax : Z;
  r_eip : Z; r_cs : Z; r_eflags : Z; r_esp : Z
}.

(** The epilogue of [isr_common]: [mov esp, eax] with the handler's result,
    [popa] (which drops the saved ESP), [add esp, 8] over the interrupt number
    and the error code, [iretd] (EIP, CS, EFLAGS at the same privilege). *)
Definition isr_return (m : gmap Z Z) (p : Z) : cpu :=
  let f := frame_at m p in
  mkCpu (edi f) (esi f) (ebp f) (ebx f) (edx f) (ecx f) (eax f)
    (eip f) (cs f) (eflags f) (u32 (p + 52)).

(** EFLAGS.IF *)
Definition interrupts_enabled (c : cpu) : bool := Z.testbit (r_eflags c) 9.

(** Pushing words: [*(--sp) = v;] for each [v] in turn. *)
Fixpoint push_words (m : gmap Z Z) (sp : Z) (vs : list Z) : gmap Z Z * Z :=
  match vs with
  | [] => (m, sp)
  | v :: vs => push_words (<[sp - 4 := v]> m) (sp - 4) vs
  end.

(** The exceptions for which the CPU pushes an error code. *)
Definition has_error_code (n : Z) : bool := bool_decide (n ∈ [8; 10; 11; 12; 13; 14; 17; 21; 30]).

(** Entering interrupt [n] from [c]: the CPU pushes EFLAGS, CS and EIP and for some
    exceptions the error code [e], the stub a zero in its place for the others and
    the number, [pusha] the registers with the ESP from before it.  The result is
    the frame's address, the argument of [interrupt_handler]. *)
Definition isr_enter (n e : Z) (m : gmap Z Z) (c : cpu) : gmap Z Z * Z :=
  push_words m (r_esp c)
    [r_eflags c; r_cs c; r_eip c;
     (if has_error_code n then e else 0); n;
     r_eax c; r_ecx c; r_edx c; r_ebx c; r_esp c - 20; r_ebp c; r_esi c; r_edi c].

Lemma push_words_sp m sp vs : (push_words m sp vs).2 = sp - 4 * Z.of_nat (length vs).
Proof.
  revert m sp. induction vs as [|v vs IH]; intros m sp; simpl; [lia|]. rewrite IH. lia.
Qed.

(** Pushing leaves what is above the stack pointer alone. *)
Lemma push_words_above m sp vs a : sp ≤ a → (push_words m sp vs).1 !! a = m !! a.
Proof.
  revert m sp. induction vs as [|v vs IH]; intros m sp Ha; simpl; [done|].
  rewrite IH by lia. apply lookup_insert_ne. lia.
Qed.

(** It leaves what is below the last word pushed alone, too. *)
Lemma push_words_below m sp vs a :
  a < sp - 4 * Z.of_nat (length vs) → (push_words m sp vs).1 !! a = m !! a.
Proof.
  revert m sp. induction vs as [|v vs IH]; intros m sp Ha; simpl in *; [done|].
  rewrite IH by lia. apply lookup_insert_ne. lia.
Qed.

(** The [i]-th word pushed is [i + 1] words below the stack pointer. *)
Lemma push_words_get m sp vs i v :
  vs !! i = Some v → getw (push_words m sp vs).1 (sp - 4 * (Z.of_nat i + 1)) = v.
Proof.
  revert m sp i. induction vs as [|v0 vs IH]; intros m sp i Hi; [done|]. simpl.
  destruct i as [|i]; simpl in Hi.
  - injection Hi as ->. unfold getw. rewrite push_words_above by lia.
    replace (sp - 4 * (Z.of_nat 0 + 1)) with (sp - 4) by lia. by rewrite lookup_insert_eq.
  - replace (sp - 4 * (Z.of_nat (S i) + 1)) with (sp - 4 - 4 * (Z.of_nat i + 1)) by lia. by apply IH.
Qed.

(** The frame that a list of 13 words pushed below [sp] makes. *)
Lemma push_words_frame m sp fl c ip e n a cx d b s bp si di :
  let '(m', p) := push_words m sp [fl; c; ip; e; n; a; cx; d; b; s; bp; si; di] in
  p = sp - 52 ∧ frame_at m' p = mkRegisters di si bp s b d cx a n e ip c fl.
Proof.
  set (vs := [fl; c; ip; e; n; a; cx; d; b; s; bp; si; di]).
  pose proof (push_words_sp m sp vs) as Hsp. pose proof (push_words_get m sp vs) as Hget.
  destruct (push_words m sp vs) as [m' p]. cbn [fst snd] in *. change (length vs) with 13%nat in Hsp.
  split; [lia|]. subst p. unfold frame_at.
  assert (∀ k i v, vs !! i = Some v → k = 48 - 4 * Z.of_nat i →
            getw m' (sp - 4 * Z.of_nat 13 + k) = v) as Hk.
  { intros k i v Hv ->. rewrite <- (Hget i v Hv). f_equal. lia. }
  replace (sp - 4 * Z.of_nat 13) with (sp - 4 * Z.of_nat 13 + 0) at 1 by lia.
  by rewrite (Hk 0 12%nat di), (Hk 4 11%nat si), (Hk 8 10%nat bp), (Hk 12 9%nat s),
    (Hk 16 8%nat b), (Hk 20 7%nat d), (Hk 24 6%nat cx), (Hk 28 5%nat a), (Hk 32 4%nat n),
    (Hk 36 3%nat e), (Hk 40 2%nat ip), (Hk 44 1%nat c), (Hk 48 0%nat fl).
Qed.

Lemma isr_enter_frame n e m c :
  let '(m', p) := isr_enter n e m c in
  p = r_esp c - 52 ∧ int_no (frame_at m' p) = n ∧
  err_code (frame_at m' p) = (if has_error_code n then e else 0) ∧
  (0 ≤ r_esp c < 2 ^ 32 → isr_return m' p = c).
Proof.
  unfold isr_enter.
  pose proof (push_words_frame m (r_esp c) (r_eflags c) (r_cs c) (r_eip c) (if has_error_code n then e else 0)
    n (r_eax c) (r_ecx c) (r_edx c) (r_ebx c) (r_esp c - 20) (r_ebp c) (r_esi c) (r_edi c)) as Hf.
  destruct (push_words _ _ _) as [m' p]. destruct Hf as [-> Hf].
  rewrite Hf. split; [done|]. split; [done|]. split; [done|].
  intros Hsp. unfold isr_return. rewrite Hf. simpl. replace (r_esp c - 52 + 52) with (r_esp c) by lia.
  rewrite u32_small by lia. by destruct c.
Qed.

(** Saving and restoring a context is a round trip: returning from an
    interrupt to the frame that entering it pushed resumes every register, the
    instruction pointer, the flags and the stack pointer of the interrupted
    code, for the vectors with and without an error code, and the frame says
    which interrupt it was and with which error code. *)
Theorem isr_roundtrip n e m c :
  52 ≤ r_esp c < 2 ^ 32 →
  let '(m', p) := isr_enter n e m c in
  isr_return m' p = c ∧ int_no (frame_at m' p) = n ∧
  err_code (frame_at m' p) = (if has_error_code n then e else 0).
Proof.
  intros Hsp. pose proof (isr_enter_frame n e m c) as Hf. destruct (isr_enter n e m c) as [m' p].
  destruct Hf as (_ & Hn & He & Hret). split; [apply Hret; lia|done].
Qed.

Lemma isr_roundtrip_witness :
  let '(m', p) := isr_enter 14 2 ∅ (mkCpu 1 2 3 4 5 6 7 0x9100 8 0x202 0x9E000) in
  isr_return m' p = mkCpu 1 2 3 4 5 6 7 0x9100 8 0x202 0x9E000 ∧
  int_no (frame_at m' p) = 14 ∧ err_code (frame_at m' p) = 2.
Proof.
  apply (isr_roundtrip 14 2 ∅ (mkCpu 1 2 3 4 5 6 7 0x9100 8 0x202 0x9E000)). simpl. lia.
Defined.

End Isr.
