(* ===== verification/Io.v ===== *)
(** * Port I/O and the interrupt flag (src/kernel/arch/x86/io.h)

    The interface between the drivers and the CPU: a state with an EFLAGS
    register, and a state with a record of the port accesses made so far.  What
    a device answers to a read is not the kernel's: it is a parameter, a
    function of the accesses made before. *)

From S2P Require Import Prelude.

Module Io.

(** ** The interrupt flag *)

Class HasEflags (S : Type) := {
  get_eflags : S → Z;
  set_eflags : Z → S → S
}.

(** What clients rely on. *)
Class EflagsLaws (S : Type) `{HasEflags S} : Prop := {
  eflags_get_set : ∀ f (s : S), get_eflags (set_eflags f s) = f;
  eflags_set_set : ∀ f g (s : S), set_eflags f (set_eflags g s) = set_eflags f s;
  eflags_set_get : ∀ s : S, set_eflags (get_eflags s) s = s
}.

(** [pushf; pop flags; cli] *)
Definition irq_save {S} `{HasEflags S} : M S Z :=
  flags ← gets get_eflags;
  _ ← modify (set_eflags (Z.ldiff flags 0x200));
  mret flags.

(** [push flags; popf] *)
Definition irq_restore {S} `{HasEflags S} (flags : Z) : M S unit :=
  modify (set_eflags flags).

(** ** Ports *)

Inductive io_event : Type :=
| OutB (port value : Z)
| InB (port value : Z).

#[global] Instance io_event_eq_dec : EqDecision io_event.
Proof. solve_decision. Defined.

(** A device: the byte a read of the port returns after the given accesses
    (the last one first). *)
Definition device : Type := list io_event → Z → Z.

Class HasPorts (S : Type) := {
  get_trace : S → list io_event;
  set_trace : list io_event → S → S
}.

Definition outb {S} `{HasPorts S} (port value : Z) : M S unit :=
  modify (λ s, set_trace (OutB (u16 port) (u8 value) :: get_trace s) s).

Definition inb {S} `{HasPorts S} (dev : device) (port : Z) : M S Z :=
  tr ← gets get_trace;
  let v := u8 (dev tr (u16 port)) in
  _ ← modify (λ s, set_trace (InB (u16 port) v :: get_trace s) s);
  mret v.

(** ** Critical sections *)

Section critical.
Context {S : Type} `{EflagsLaws S}.

Lemma irq_save_spec (Q : Z → S → Prop) s :
  Q (get_eflags s) (set_eflags (Z.ldiff (get_eflags s) 0x200) s) → wp irq_save Q s.
Proof. intros HQ. unfold irq_save. by wp_steps. Qed.

Lemma irq_save_disables f : Z.testbit (Z.ldiff f 0x200) 9 = false.
Proof. rewrite Z.ldiff_spec. change (Z.testbit 0x200 9) with true. apply andb_false_r. Qed.

Lemma irq_restore_spec f (Q : unit → S → Prop) s :
  Q tt (set_eflags f s) → wp (irq_restore f) Q s.
Proof. intros HQ. unfold irq_restore. by wp_steps. Qed.
End critical.

End Io.
