(* ===== verification/Scheduler.v ===== *)
(** * The scheduler (src/kernel/scheduler/scheduler.c)

    The task table, the idle task and the current task; creation, blocking and
    termination of tasks; the round-robin choice of the next task and the time
    slice; and the frames [task_create_context] builds on the task stacks. *)

From S2P Require Import Prelude Io Isr.
Import Io Isr.

Module Scheduler.

(** ** Data *)

Definition MAX_TASKS : Z := 16.
Definition MAX_USER_TASKS : Z := MAX_TASKS - 1.
Definition STACK_SIZE : Z := 4096.
Definition TIME_SLICE_MS : Z := 10.

Inductive task_state : Type :=
| TASK_READY
| TASK_RUNNING
| TASK_BLOCKED
| TASK_TERMINATED.

#[global] Instance task_state_eq_dec : EqDecision task_state.
Proof. solve_decision. Defined.

(** [task_t] *)
Record task : Type := mkTask {
  id : Z;
  esp : Z;
  state : task_state;
  next : Z
}.

(** A [task_t*] that is not NULL: [&tasks[i]] or [&idleTask]. *)
Inductive task_ref : Type :=
| Slot (i : Z)
| Idle.

#[global] Instance task_ref_eq_dec : EqDecision task_ref.
Proof. solve_decision. Defined.

(** The static variables of scheduler.c, the words of the task stacks and the
    EFLAGS register. *)
Record sched : Type := mkSched {
  tasks : list task;
  idleTask : task;
  curTask : option task_ref;
  nextTaskID : Z;
  schedulerTicks : Z;
  stacks : gmap Z Z;
  sched_eflags : Z
}.

Definition set_tasks (x : list task) (s : sched) : sched :=
  mkSched x (idleTask s) (curTask s) (nextTaskID s) (schedulerTicks s) (stacks s) (sched_eflags s).
Definition set_idleTask (x : task) (s : sched) : sched :=
  mkSched (tasks s) x (curTask s) (nextTaskID s) (schedulerTicks s) (stacks s) (sched_eflags s).
Definition set_curTask (x : option task_ref) (s : sched) : sched :=
  mkSched (tasks s) (idleTask s) x (nextTaskID s) (schedulerTicks s) (stacks s) (sched_eflags s).
Definition set_nextTaskID (x : Z) (s : sched) : sched :=
  mkSched (tasks s) (idleTask s) (curTask s) x (schedulerTicks s) (stacks s) (sched_eflags s).
Definition set_schedulerTicks (x : Z) (s : sched) : sched :=
  mkSched (tasks s) (idleTask s) (curTask s) (nextTaskID s) x (stacks s) (sched_eflags s).
Definition set_stacks (x : gmap Z Z) (s : sched) : sched :=
  mkSched (tasks s) (idleTask s) (curTask s) (nextTaskID s) (schedulerTicks s) x (sched_eflags s).

#[global] Instance sched_HasEflags : HasEflags sched := {
  get_eflags := sched_eflags;
  set_eflags f s := mkSched (tasks s) (idleTask s) (curTask s) (nextTaskID s)
                      (schedulerTicks s) (stacks s) f
}.
#[global] Instance sched_EflagsLaws : EflagsLaws sched.
Proof. by split; [|intros ? ? []|intros []]. Qed.

Definition with_id (x : Z) (t : task) : task := mkTask x (esp t) (state t) (next t).
Definition with_esp (x : Z) (t : task) : task := mkTask (id t) x (state t) (next t).
Definition with_state (x : task_state) (t : task) : task := mkTask (id t) (esp t) x (next t).

(** Where the linker puts the stacks and the two functions whose address the
    scheduler takes. *)
Record layout : Type := mkLayout {
  taskStacks : Z;
  idleStack : Z;
  task_exit_addr : Z;
  idle_task_entry_addr : Z
}.

(** ** Operations *)

Section operations.
Context (L : layout).

(** [*r] and an update of a field of [*r]. *)
Definition read_task (r : task_ref) : M sched task :=
  match r with
  | Slot i => load_at tasks i
  | Idle => gets idleTask
  end.
Definition write_task (r : task_ref) (t : task) : M sched unit :=
  match r with
  | Slot i => store_at tasks set_tasks i t
  | Idle => modify (set_idleTask t)
  end.
Definition update_task (r : task_ref) (f : task → task) : M sched unit :=
  t ← read_task r; write_task r (f t).

(** A word of one of the stacks; anything else is undefined. *)
Definition in_stacks (a : Z) : bool :=
  bool_decide (taskStacks L ≤ a < taskStacks L + MAX_USER_TASKS * STACK_SIZE) ||
  bool_decide (idleStack L ≤ a < idleStack L + STACK_SIZE).

Definition push (sp v : Z) : M sched Z :=
  if in_stacks (sp - 4) then
    _ ← modify (λ s, set_stacks (<[sp - 4 := v]> (stacks s)) s);
    mret (sp - 4)
  else undef.

Definition task_create_context (stack entry : Z) : M sched Z :=
  let sp := stack + STACK_SIZE in
  sp ← push sp (task_exit_addr L);
  sp ← push sp 0x202;
  sp ← push sp 0x08;
  sp ← push sp entry;
  sp ← push sp 0;
  sp ← push sp 32;
  sp ← push sp 0;
  sp ← push sp 0;
  sp ← push sp 0;
  sp ← push sp 0;
  sp ← push sp 0;
  sp ← push sp 0;
  sp ← push sp 0;
  push sp 0.

Definition scheduler_init : M sched unit :=
  _ ← mfor (range 0 MAX_TASKS) (λ i,
        store_at tasks set_tasks i (mkTask 0 0 TASK_TERMINATED 0));
  _ ← modify (set_nextTaskID 1);
  _ ← update_task (Slot 0) (with_state TASK_RUNNING);
  e ← task_create_context (idleStack L) (idle_task_entry_addr L);
  _ ← modify (set_idleTask (mkTask (u32 (-1)) e TASK_READY 0));
  _ ← modify (set_curTask (Some (Slot 0)));
  modify (set_schedulerTicks 0).

(** The first free slot from 1 on. *)
Definition find_slot : M sched (option Z) :=
  mfor_ret (range 1 MAX_TASKS) (λ i,
    t ← load_at tasks i;
    mret (if decide (state t = TASK_TERMINATED) then Some i else None)).

Definition task_create (entry : Z) : M sched Z :=
  if entry =? 0 then mret (-1)
  else
    flags ← irq_save;
    slot ← find_slot;
    match slot with
    | None => _ ← irq_restore flags; mret (-1)
    | Some i =>
        t ← load_at tasks i;
        _ ← when (id t =? 0)
              (n ← gets nextTaskID;
               _ ← update_task (Slot i) (with_id n);
               modify (set_nextTaskID (u32 (n + 1))));
        t ← load_at tasks i;
        if MAX_USER_TASKS <=? u32 (id t - 1) then
          _ ← irq_restore flags; mret (-1)
        else
          e ← task_create_context (taskStacks L + (id t - 1) * STACK_SIZE) entry;
          _ ← update_task (Slot i) (with_esp e);
          _ ← update_task (Slot i) (with_state TASK_READY);
          _ ← irq_restore flags;
          mret (i32 (id t))
    end.

Definition task_unblock (tid : Z) : M sched Z :=
  flags ← irq_save;
  r ← mfor_ret (range 1 MAX_TASKS) (λ i,
        t ← load_at tasks i;
        if (id t =? tid) && bool_decide (state t = TASK_BLOCKED) then
          _ ← update_task (Slot i) (with_state TASK_READY);
          _ ← irq_restore flags;
          mret (Some 0)
        else mret None);
  match r with
  | Some v => mret v
  | None => _ ← irq_restore flags; mret (-1)
  end.

(** The index of the current task, 0 when it is the idle task. *)
Definition cur_index (cur : task_ref) : M sched Z :=
  r ← mfor_ret (range 0 MAX_TASKS) (λ i,
        mret (if decide (cur = Slot i) then Some i else None));
  mret (default 0 r).

(** Making [r] the running task; the result is its saved context. *)
Definition switch_to (r : task_ref) : M sched Z :=
  _ ← modify (set_curTask (Some r));
  _ ← update_task r (with_state TASK_RUNNING);
  _ ← modify (set_schedulerTicks 0);
  t ← read_task r;
  mret (esp t).

(** [regs] is the address of the interrupted context, 0 for NULL. *)
Definition scheduler_schedule (regs : Z) : M sched Z :=
  c ← gets curTask;
  match c with
  | None => mret regs
  | Some cur =>
      if regs =? 0 then mret regs
      else
        _ ← update_task cur (with_esp regs);
        t ← read_task cur;
        _ ← when (bool_decide (state t = TASK_RUNNING))
              (update_task cur (with_state TASK_READY));
        curIdx ← cur_index cur;
        r ← mfor_ret (range 1 (MAX_TASKS + 1)) (λ i,
              let nextIdx := u32 (curIdx + i) `mod` MAX_TASKS in
              t ← load_at tasks nextIdx;
              if decide (state t = TASK_READY) then
                e ← switch_to (Slot nextIdx);
                mret (Some e)
              else mret None);
        match r with
        | Some e => mret e
        | None =>
            t ← read_task cur;
            if decide (state t = TASK_READY) then switch_to cur
            else switch_to Idle
        end
  end.

Definition scheduler_tick (regs : Z) : M sched Z :=
  _ ← modify (λ s, set_schedulerTicks (u32 (schedulerTicks s + 1)) s);
  n ← gets schedulerTicks;
  if n <? TIME_SLICE_MS then mret regs
  else
    _ ← modify (set_schedulerTicks 0);
    scheduler_schedule regs.

Definition scheduler_exit (regs : Z) : M sched Z :=
  c ← gets curTask;
  match c with
  | None => mret regs
  | Some cur =>
      if regs =? 0 then mret regs
      else
        _ ← update_task cur (with_state TASK_TERMINATED);
        scheduler_schedule regs
  end.

(** [task_yield] and [task_exit] raise interrupts 49 and 50, whose handlers are
    [scheduler_schedule] and [scheduler_exit]; [regs] is the frame the interrupt
    pushed.  [task_block] stores the state first, as a step of its own. *)
Definition task_yield (regs : Z) : M sched Z := scheduler_schedule regs.
Definition task_exit (regs : Z) : M sched Z := scheduler_exit regs.
Definition task_block_mark : M sched unit :=
  c ← gets curTask;
  match c with
  | None => undef
  | Some cur => update_task cur (with_state TASK_BLOCKED)
  end.
Definition task_block (regs : Z) : M sched Z :=
  _ ← task_block_mark; task_yield regs.

End operations.

(** ** References to tasks *)

Definition task_of (s : sched) (r : task_ref) : option task :=
  match r with Slot i => aget (tasks s) i | Idle => Some (idleTask s) end.

Definition put_task (r : task_ref) (t : task) (s : sched) : sched :=
  match r with
  | Slot i => set_tasks (<[Z.to_nat i := t]> (tasks s)) s
  | Idle => set_idleTask t s
  end.

Definition has_state (s : sched) (r : task_ref) (x : task_state) : Prop :=
  ∃ t, task_of s r = Some t ∧ state t = x.

#[global] Instance has_state_dec s r x : Decision (has_state s r x).
Proof.
  unfold has_state. destruct (task_of s r) as [t|].
  - destruct (decide (state t = x)) as [E|E]; [left; eauto|right].
    by intros (t' & [= <-] & ?).
  - right. by intros (t' & ? & ?).
Defined.

Lemma task_of_put r t s r' :
  is_Some (task_of s r) →
  task_of (put_task r t s) r' = if decide (r = r') then Some t else task_of s r'.
Proof.
  intros [t0 Hr]. destruct r as [i|], r' as [j|]; simpl in *; try done.
  pose proof (aget_range _ _ _ Hr) as Hi.
  erewrite aget_aset by (by apply aset_in).
  destruct (decide (i = j)) as [->|]; decides; [by rewrite decide_True|].
  rewrite decide_False by congruence. done.
Qed.

Lemma sched_ext s s' :
  tasks s = tasks s' → idleTask s = idleTask s' → curTask s = curTask s' →
  nextTaskID s = nextTaskID s' → schedulerTicks s = schedulerTicks s' →
  stacks s = stacks s' → sched_eflags s = sched_eflags s' → s = s'.
Proof. destruct s, s'. simpl. by intros -> -> -> -> -> -> ->. Qed.

(** [put_task] changes nothing but tasks. *)
Lemma put_task_cur r t s : curTask (put_task r t s) = curTask s.
Proof. by destruct r. Qed.
Lemma put_task_next r t s : nextTaskID (put_task r t s) = nextTaskID s.
Proof. by destruct r. Qed.
Lemma put_task_ticks r t s : schedulerTicks (put_task r t s) = schedulerTicks s.
Proof. by destruct r. Qed.
Lemma put_task_stacks r t s : stacks (put_task r t s) = stacks s.
Proof. by destruct r. Qed.
Lemma put_task_eflags r t s : sched_eflags (put_task r t s) = sched_eflags s.
Proof. by destruct r. Qed.
Lemma put_task_length r t s : length (tasks (put_task r t s)) = length (tasks s).
Proof. destruct r; simpl; [by rewrite length_insert|done]. Qed.

Create Rewrite HintDb sched.
#[export] Hint Rewrite put_task_cur put_task_next put_task_ticks put_task_stacks
  put_task_eflags put_task_length : sched.

Lemma wp_read_task r t s (Q : task → sched → Prop) :
  task_of s r = Some t → Q t s → wp (read_task r) Q s.
Proof.
  intros Hr HQ. destruct r as [i|]; simpl in *.
  - unfold load_at. wp_steps. by eapply wp_lift.
  - injection Hr as <-. by apply wp_gets.
Qed.

Lemma wp_load_task i t s (Q : task → sched → Prop) :
  task_of s (Slot i) = Some t → Q t s → wp (load_at tasks i) Q s.
Proof. apply (wp_read_task (Slot i)). Qed.

Lemma wp_update_task r f t s (Q : unit → sched → Prop) :
  task_of s r = Some t → Q tt (put_task r (f t) s) → wp (update_task r f) Q s.
Proof.
  intros Hr HQ. unfold update_task. wp_step. eapply wp_read_task; [done|].
  destruct r as [i|]; simpl in *; [|by apply wp_modify].
  apply wp_store_at; [by apply (aget_range _ _ t)|done].
Qed.

Lemma task_of_slot s i : length (tasks s) = 16%nat → 0 ≤ i < 16 → is_Some (task_of s (Slot i)).
Proof. intros Hlen Hi. apply aget_is_Some. lia. Qed.

Lemma task_of_slot_range s i t : length (tasks s) = 16%nat → task_of s (Slot i) = Some t → 0 ≤ i < 16.
Proof. intros Hlen Ht. apply aget_range in Ht. lia. Qed.

(** ** The choice of the next task *)

Definition is_state (x : task_state) (s : sched) (i : Z) : bool :=
  match task_of s (Slot i) with Some t => bool_decide (state t = x) | None => false end.

(** The slots in the order the search visits them, from the current index. *)
Definition next_index (ci i : Z) : Z := (ci + i) `mod` MAX_TASKS.

(** The distance to the first ready slot in that order. *)
Definition next_ready (s : sched) (ci : Z) : option Z :=
  List.find (λ i, is_state TASK_READY s (next_index ci i)) (range 1 (MAX_TASKS + 1)).

Definition index_of (r : task_ref) : Z := match r with Slot i => i | Idle => 0 end.

(** The state with the interrupted task's context saved and the task demoted. *)
Definition preempt (regs : Z) (t : task) : task :=
  mkTask (id t) regs (if decide (state t = TASK_RUNNING) then TASK_READY else state t) (next t).

(** The task that runs next: the first ready slot after the current one, else
    the current task if it is ready, else the idle task. *)
Definition choose (s : sched) (cur : task_ref) : task_ref :=
  match next_ready s (index_of cur) with
  | Some i => Slot (next_index (index_of cur) i)
  | None => if decide (has_state s cur TASK_READY) then cur else Idle
  end.

(** The state in which [r] has been made the running task. *)
Definition switched (r : task_ref) (t : task) (s : sched) : sched :=
  set_schedulerTicks 0 (put_task r (with_state TASK_RUNNING t) (set_curTask (Some r) s)).

Lemma task_of_set_cur c s r : task_of (set_curTask c s) r = task_of s r.
Proof. by destruct r. Qed.
Lemma task_of_set_ticks n s r : task_of (set_schedulerTicks n s) r = task_of s r.
Proof. by destruct r. Qed.

Lemma task_of_switched r t s q :
  task_of s r = Some t →
  task_of (switched r t s) q =
    if decide (r = q) then Some (with_state TASK_RUNNING t) else task_of s q.
Proof.
  intros Ht. unfold switched. rewrite task_of_set_ticks, task_of_put by (rewrite task_of_set_cur; eauto).
  by rewrite task_of_set_cur.
Qed.
Lemma switched_cur r t s : curTask (switched r t s) = Some r.
Proof. unfold switched. simpl. by autorewrite with sched. Qed.
Lemma switched_next r t s : nextTaskID (switched r t s) = nextTaskID s.
Proof. unfold switched. simpl. by autorewrite with sched. Qed.
Lemma switched_ticks r t s : schedulerTicks (switched r t s) = 0.
Proof. done. Qed.

Lemma wp_switch_to r t s (Q : Z → sched → Prop) :
  task_of s r = Some t → Q (esp t) (switched r t s) → wp (switch_to r) Q s.
Proof.
  intros Hr HQ. unfold switch_to. wp_steps. eapply wp_update_task; [by rewrite task_of_set_cur|].
  wp_steps. eapply wp_read_task.
  { rewrite task_of_set_ticks, task_of_put by (rewrite task_of_set_cur; eauto).
    by rewrite decide_True. }
  by apply wp_ret.
Qed.

Lemma wp_cur_index cur s (Q : Z → sched → Prop) :
  length (tasks s) = 16%nat → is_Some (task_of s cur) →
  Q (index_of cur) s → wp (cur_index cur) Q s.
Proof.
  intros Hlen [t Ht] HQ. unfold cur_index. wp_step.
  apply (wp_mfor_find (λ i, bool_decide (cur = Slot i))).
  - intros i _ Hi%bool_decide_eq_false. by rewrite decide_False.
  - destruct (List.find _ _) as [i|] eqn:Hf.
    + apply List.find_some in Hf as [_ ->%bool_decide_eq_true]. wp_steps.
      rewrite decide_True by done. exists i. split; [done|]. by wp_steps.
    + wp_steps. destruct cur as [i|]; [|done]. exfalso.
      apply (task_of_slot_range _ _ _ Hlen) in Ht.
      eapply (List.find_none _ _ ) with (x := i) in Hf.
      * by apply bool_decide_eq_false in Hf.
      * apply list_elem_of_In, elem_of_seqZ. unfold MAX_TASKS. lia.
Qed.

Lemma next_index_range ci i : 0 ≤ next_index ci i < 16.
Proof. apply Z.mod_pos_bound. unfold MAX_TASKS. lia. Qed.

Lemma index_of_range s r t : length (tasks s) = 16%nat → task_of s r = Some t → 0 ≤ index_of r < 16.
Proof.
  intros Hlen Ht. destruct r as [i|]; simpl; [by eapply task_of_slot_range|lia].
Qed.

(** [scheduler_schedule]: the interrupted task is saved and demoted, the chosen
    one is made current, and its saved context is returned. *)
Lemma schedule_spec regs cur t s :
  length (tasks s) = 16%nat → curTask s = Some cur → task_of s cur = Some t → regs ≠ 0 →
  let s1 := put_task cur (preempt regs t) s in
  wp (scheduler_schedule regs) (λ e s', ∃ t', task_of s1 (choose s1 cur) = Some t' ∧
    e = esp t' ∧ s' = switched (choose s1 cur) t' s1) s.
Proof.
  intros Hlen Hcur Ht Hregs s1. unfold scheduler_schedule. do 2 wp_step. rewrite Hcur.
  destruct (Z.eqb_spec regs 0); [done|].
  wp_step. eapply wp_update_task; [done|]. wp_step.
  eapply wp_read_task. { rewrite task_of_put by eauto. by rewrite decide_True. }
  wp_step. eapply (wp_mono _ (λ _ s', s' = s1)).
  { apply wp_when; simpl.
    - intros E%bool_decide_eq_true. eapply wp_update_task.
      { rewrite task_of_put by eauto. by rewrite decide_True. }
      unfold s1, preempt. rewrite decide_True by done.
      destruct cur as [i|]; simpl; [|done]. unfold set_tasks. simpl. f_equal.
      by rewrite list_insert_insert_eq.
    - intros E%bool_decide_eq_false. unfold s1, preempt. by rewrite decide_False. }
  intros _ s' ->. assert (length (tasks s1) = 16%nat) as Hlen1 by (unfold s1; by autorewrite with sched).
  assert (task_of s1 cur = Some (preempt regs t)) as Ht1.
  { unfold s1. rewrite task_of_put by eauto. by rewrite decide_True. }
  wp_step. apply wp_cur_index; [done|eauto|]. wp_step.
  pose proof (index_of_range _ _ _ Hlen1 Ht1) as Hci. unfold choose, next_ready.
  apply (wp_mfor_find (λ i, is_state TASK_READY s1 (next_index (index_of cur) i))).
  - intros i Hi Hn. apply elem_of_seqZ in Hi. rewrite u32_small by (unfold MAX_TASKS in *; lia).
    fold (next_index (index_of cur) i) in *. unfold is_state in Hn.
    destruct (task_of_slot s1 (next_index (index_of cur) i) Hlen1 (next_index_range _ _)) as [tn Htn].
    rewrite Htn in Hn. apply bool_decide_eq_false in Hn.
    unfold load_at, mbind, M_bind, gets. simpl in Htn. unfold lift. rewrite Htn. cbv beta iota.
    by rewrite decide_False.
  - destruct (List.find _ _) as [i|] eqn:Hf.
    + apply List.find_some in Hf as [Hi Hready]. apply list_elem_of_In, elem_of_seqZ in Hi.
      rewrite u32_small by (unfold MAX_TASKS in *; lia).
      fold (next_index (index_of cur) i). unfold is_state in Hready.
      destruct (task_of s1 (Slot (next_index (index_of cur) i))) as [tn|] eqn:Htn; [|done].
      apply bool_decide_eq_true in Hready. wp_step. eapply wp_load_task; [done|].
      rewrite decide_True by done. wp_step. eapply wp_switch_to; [done|]. wp_steps.
      exists (esp tn). split; [done|]. wp_steps. eauto.
    + wp_step. eapply wp_read_task; [done|]. destruct (decide (has_state _ _ _)) as [Hr|Hr].
      * destruct Hr as (t' & Ht' & Hr). rewrite decide_True by congruence.
        eapply wp_switch_to; [done|]. eauto.
      * rewrite decide_False by (intros E; apply Hr; exists (preempt regs t); done).
        eapply wp_switch_to; [done|]. eexists. by split; [|split].
Qed.

(** ** The invariant *)

Section invariant.
Context (L : layout).

(** The stack a task runs on: the boot stack of the kernel task (main.asm starts
    it at 0x9E000, physical.c reserves it), a row of [taskStacks] (the code
    picks the row by the task's id, which the invariant shows to be its slot), or
    [idleStack]. *)
Definition stack_base (r : task_ref) : Z :=
  match r with
  | Slot i => if decide (i = 0) then 0x98000 else taskStacks L + (i - 1) * STACK_SIZE
  | Idle => idleStack L
  end.
Definition stack_size (r : task_ref) : Z :=
  match r with
  | Slot i => if decide (i = 0) then 0x8000 else STACK_SIZE
  | Idle => STACK_SIZE
  end.
Definition on_stack (r : task_ref) (a : Z) : Prop :=
  stack_base r ≤ a < stack_base r + stack_size r.

(** The linker script puts the stacks, which are in .bss, between 0x9000 and the
    kernel's own stack at 0x98000 (it asserts the latter), and apart. *)
Record layout_ok : Prop := {
  lay_task : 0x9000 ≤ taskStacks L ∧ taskStacks L + MAX_USER_TASKS * STACK_SIZE ≤ 0x98000;
  lay_idle : 0x9000 ≤ idleStack L ∧ idleStack L + STACK_SIZE ≤ 0x98000;
  lay_apart : idleStack L + STACK_SIZE ≤ taskStacks L ∨
              taskStacks L + MAX_USER_TASKS * STACK_SIZE ≤ idleStack L
}.

(** What holds between two steps of the system, whatever the state of the
    current task. *)
Record sched_base (s : sched) : Prop := {
  inv_len : length (tasks s) = 16%nat;
  (* nobody but the current task is running *)
  inv_run : ∀ r, has_state s r TASK_RUNNING → curTask s = Some r;
  inv_idle : state (idleTask s) = TASK_READY ∨ state (idleTask s) = TASK_RUNNING;
  (* the slots 1 .. nextTaskID - 1 have been used, and their id is their index *)
  inv_next : 1 ≤ nextTaskID s ≤ 16;
  inv_used : ∀ i t, task_of s (Slot i) = Some t → 1 ≤ i < nextTaskID s → id t = i;
  inv_fresh : ∀ i t, task_of s (Slot i) = Some t → nextTaskID s ≤ i →
                id t = 0 ∧ state t = TASK_TERMINATED;
  inv_ticks : 0 ≤ schedulerTicks s < TIME_SLICE_MS;
  (* a task that can be resumed was saved on its own stack *)
  inv_esp : ∀ r t, task_of s r = Some t → curTask s ≠ Some r →
              state t = TASK_READY ∨ state t = TASK_BLOCKED → on_stack r (esp t)
}.

(** There is a current task; it is running, or has just marked itself blocked. *)
Definition cur_ok (s : sched) : Prop :=
  ∃ cur t, curTask s = Some cur ∧ task_of s cur = Some t ∧
    (state t = TASK_RUNNING ∨ (state t = TASK_BLOCKED ∧ cur ≠ Idle)).

Definition sched_inv (s : sched) : Prop := sched_base s ∧ cur_ok s.

Context (HL : layout_ok).

(** A frame on a stack is not at address 0. *)
Lemma on_stack_nonzero r a s t :
  length (tasks s) = 16%nat → task_of s r = Some t → on_stack r a → a ≠ 0.
Proof.
  intros Hlen Ht. destruct HL as [[? _] [? _] _]. unfold on_stack, stack_base.
  destruct r as [i|]; [|unfold STACK_SIZE in *; lia].
  apply (task_of_slot_range _ _ _ Hlen) in Ht. case_decide; [lia|].
  unfold STACK_SIZE in *. lia.
Qed.

(** The interrupted task, saved and demoted: what the search starts from. *)
Lemma preempt_inv regs cur t s :
  sched_base s → curTask s = Some cur → task_of s cur = Some t →
  let s1 := put_task cur (preempt regs t) s in
  (∀ r t1, task_of s1 r = Some t1 → task_of s r = Some t1 ∧ r ≠ cur ∨
                                     r = cur ∧ t1 = preempt regs t) ∧
  (∀ r, ¬ has_state s1 r TASK_RUNNING).
Proof.
  intros Hinv Hcur Ht s1. assert (∀ r t1, task_of s1 r = Some t1 →
    task_of s r = Some t1 ∧ r ≠ cur ∨ r = cur ∧ t1 = preempt regs t) as Htask.
  { intros r t1. unfold s1. rewrite task_of_put by eauto.
    case_decide as E; [intros [= <-]; by right|]. left. by split; [|congruence]. }
  split; [done|]. intros r (t1 & Ht1 & Hrun). destruct (Htask r t1 Ht1) as [[Hr Hne]|[-> ->]].
  - destruct Hne. assert (curTask s = Some r) by (apply (inv_run _ Hinv); by exists t1). congruence.
  - revert Hrun. unfold preempt. simpl. by case_decide.
Qed.

Lemma choose_spec s cur :
  length (tasks s) = 16%nat → (∃ t, task_of s cur = Some t) →
  let r := choose s cur in
  (has_state s r TASK_READY ∨
   (r = Idle ∧ (∀ i, ¬ has_state s (Slot i) TASK_READY))).
Proof.
  intros Hlen [t Ht]. unfold choose, next_ready.
  destruct (List.find _ _) as [i|] eqn:Hf; cbv zeta.
  - apply List.find_some in Hf as [_ Hready]. left. unfold is_state in Hready.
    destruct (task_of s (Slot (next_index (index_of cur) i))) as [tn|] eqn:Htn; [|done].
    apply bool_decide_eq_true in Hready. by exists tn.
  - case_decide as Hr; [by left|]. right. split; [done|]. intros j (tj & Htj & Hj).
    pose proof (index_of_range _ _ _ Hlen Ht) as Hci.
    pose proof (task_of_slot_range _ _ _ Hlen Htj) as Hjr.
    set (d := (j - index_of cur - 1) `mod` 16 + 1).
    assert (next_index (index_of cur) d = j) as Hd.
    { unfold next_index, d, MAX_TASKS. rewrite Z.add_assoc.
      replace (index_of cur + (j - index_of cur - 1) `mod` 16 + 1)
        with ((j - index_of cur - 1) `mod` 16 + (index_of cur + 1)) by lia.
      rewrite Zplus_mod_idemp_l. replace (j - index_of cur - 1 + (index_of cur + 1)) with j by lia.
      by apply Z.mod_small. }
    eapply (List.find_none _ _) with (x := d) in Hf.
    + rewrite Hd in Hf. unfold is_state in Hf. rewrite Htj in Hf.
      by apply bool_decide_eq_false in Hf.
    + apply list_elem_of_In, elem_of_seqZ. unfold MAX_TASKS, d.
      pose proof (Z.mod_pos_bound (j - index_of cur - 1) 16). lia.
Qed.

(** Nobody runs and whoever can be resumed was saved on its own stack: the state
    of the system in the middle of a context switch. *)
Record between (s : sched) : Prop := {
  btw_base : sched_base s;
  btw_idle : ∀ r, ¬ has_state s r TASK_RUNNING;
  btw_esp : ∀ r t, task_of s r = Some t →
              state t = TASK_READY ∨ state t = TASK_BLOCKED → on_stack r (esp t)
}.

(** Saving and demoting the interrupted task leads there.  The current task may
    be in any state: it is terminated when the switch comes from [scheduler_exit]. *)
Lemma preempt_between regs cur t s :
  sched_base s → curTask s = Some cur → task_of s cur = Some t → on_stack cur regs →
  between (put_task cur (preempt regs t) s).
Proof.
  intros Hb Hcur Ht Hregs. destruct (preempt_inv regs cur t s Hb Hcur Ht) as [Htask Hnorun].
  assert (∀ q tq, task_of (put_task cur (preempt regs t) s) q = Some tq →
            state tq = TASK_READY ∨ state tq = TASK_BLOCKED → on_stack q (esp tq)) as Hesp.
  { intros q tq Hq Hst. destruct (Htask q tq Hq) as [[Hq' Hne]|[-> ->]]; [|done].
    apply (inv_esp _ Hb q tq); [done|congruence|done]. }
  split; [|done|done]. constructor; autorewrite with sched; try apply Hb; [| | | |eauto].
  - intros r Hr. by destruct (Hnorun r).
  - destruct (Htask Idle _ eq_refl) as [[[= Hi] _]|[<- Hi]].
    + rewrite <- Hi. apply Hb.
    + injection Ht as <-. rewrite Hi. simpl. destruct (inv_idle _ Hb) as [E|E]; rewrite E; auto.
  - intros i t1 Ht1. destruct (Htask _ _ Ht1) as [[H1 _]|[<- ->]]; [|simpl]; by apply (inv_used _ Hb).
  - intros i t1 Ht1 Hr. destruct (Htask _ _ Ht1) as [[H1 _]|[<- ->]].
    + by apply (inv_fresh _ Hb i).
    + destruct (inv_fresh _ Hb i t Ht Hr) as [H1 H2]. simpl. by rewrite H2.
Qed.

(** The search always finds a ready task: at worst the idle task. *)
Lemma choose_ready s cur :
  between s → (∃ t, task_of s cur = Some t) → has_state s (choose s cur) TASK_READY.
Proof.
  intros [Hb Hnorun _] Hc. destruct (choose_spec s cur (inv_len _ Hb) Hc) as [?|[-> _]]; [done|].
  exists (idleTask s). split; [done|]. destruct (inv_idle _ Hb); [done|].
  destruct (Hnorun Idle). by exists (idleTask s).
Qed.

(** Resuming a ready task re-establishes the invariant. *)
Lemma switched_inv r t' s :
  between s → task_of s r = Some t' → state t' = TASK_READY → sched_inv (switched r t' s).
Proof.
  intros [Hb Hnorun Hesp] Ht' Hready.
  assert (∀ q tq, task_of (switched r t' s) q = Some tq →
            r = q ∧ tq = with_state TASK_RUNNING t' ∨ r ≠ q ∧ task_of s q = Some tq) as Hsw.
  { intros q tq. rewrite (task_of_switched r t' s q Ht').
    destruct (decide (r = q)); [intros [= <-]; auto|auto]. }
  split.
  - constructor; rewrite ?switched_cur, ?switched_next.
    + unfold switched. simpl. autorewrite with sched. apply Hb.
    + intros q (tq & Hq & Hrun).
      destruct (Hsw q tq Hq) as [[-> _]|[_ Hq']]; [done|]. destruct (Hnorun q). by exists tq.
    + destruct r as [i|]; simpl; [apply Hb|by right].
    + apply Hb.
    + intros i ti Hi. destruct (Hsw _ _ Hi) as [[-> ->]|[_ Hi']]; [|by apply (inv_used _ Hb)].
      simpl. by apply (inv_used _ Hb).
    + intros i ti Hi Hr. destruct (Hsw _ _ Hi) as [[-> ->]|[_ Hi']]; [|by apply (inv_fresh _ Hb i)].
      destruct (inv_fresh _ Hb i t' Ht' Hr). congruence.
    + rewrite switched_ticks. unfold TIME_SLICE_MS. lia.
    + intros q tq Hq Hne. destruct (Hsw _ _ Hq) as [[-> _]|[_ Hq']]; [done|]. eauto.
  - exists r, (with_state TASK_RUNNING t'). split; [apply switched_cur|]. split; [|by left].
    rewrite (task_of_switched r t' s r Ht'). by rewrite decide_True.
Qed.

(** A context switch keeps the invariant and resumes the new task on its own
    stack. *)
Lemma switch_inv regs cur t s :
  sched_base s → curTask s = Some cur → task_of s cur = Some t → on_stack cur regs →
  let s1 := put_task cur (preempt regs t) s in
  ∃ t', task_of s1 (choose s1 cur) = Some t' ∧
    sched_inv (switched (choose s1 cur) t' s1) ∧ on_stack (choose s1 cur) (esp t').
Proof.
  intros Hb Hcur Ht Hregs s1.
  pose proof (preempt_between regs cur t s Hb Hcur Ht Hregs) as Hbt. fold s1 in Hbt.
  destruct (choose_ready s1 cur Hbt) as (t' & Ht' & Hready).
  { exists (preempt regs t). unfold s1. rewrite task_of_put by eauto. by rewrite decide_True. }
  exists t'. split; [done|]. split; [by apply switched_inv|]. apply (btw_esp _ Hbt); auto.
Qed.

(** ** Creating a task *)

#[local] Arguments push_words : simpl never.

(** The words [task_create_context] pushes. *)
Definition context_words (entry : Z) : list Z :=
  [task_exit_addr L; 0x202; 0x08; entry; 0; 32; 0; 0; 0; 0; 0; 0; 0; 0].

Lemma wp_push sp v s (Q : Z → sched → Prop) :
  in_stacks L (sp - 4) = true →
  Q (sp - 4) (set_stacks (<[sp - 4 := v]> (stacks s)) s) → wp (push L sp v) Q s.
Proof. intros Hin HQ. unfold push. rewrite Hin. by wp_steps. Qed.

Lemma context_spec stack entry s (Q : Z → sched → Prop) :
  (∀ a, stack ≤ a < stack + STACK_SIZE → in_stacks L a = true) →
  Q (stack + STACK_SIZE - 56)
    (set_stacks (push_words (stacks s) (stack + STACK_SIZE) (context_words entry)).1 s) →
  wp (task_create_context L stack entry) Q s.
Proof.
  intros Hin HQ. unfold task_create_context. cbv zeta.
  repeat (wp_step; apply wp_push; [apply Hin; unfold STACK_SIZE; lia|]).
  apply wp_push; [apply Hin; unfold STACK_SIZE; lia|].
  replace (stack + STACK_SIZE - 56)
    with (stack + STACK_SIZE - 4 - 4 - 4 - 4 - 4 - 4 - 4 - 4 - 4 - 4 - 4 - 4 - 4 - 4) in HQ by lia.
  exact HQ.
Qed.

Lemma in_stacks_slot i a :
  1 ≤ i < 16 → stack_base (Slot i) ≤ a < stack_base (Slot i) + STACK_SIZE → in_stacks L a = true.
Proof.
  intros Hi. unfold stack_base. decides. intros Ha. unfold in_stacks. apply orb_true_iff. left.
  apply bool_decide_eq_true. unfold MAX_USER_TASKS, MAX_TASKS, STACK_SIZE in *. lia.
Qed.

Lemma in_stacks_idle a :
  stack_base Idle ≤ a < stack_base Idle + STACK_SIZE → in_stacks L a = true.
Proof.
  intros Ha. unfold in_stacks. apply orb_true_iff. right. by apply bool_decide_eq_true.
Qed.

(** The first free slot, as [find_slot] finds it. *)
Definition free_slot (s : sched) : option Z :=
  List.find (is_state TASK_TERMINATED s) (range 1 MAX_TASKS).

Lemma find_slot_spec s (Q : option Z → sched → Prop) :
  length (tasks s) = 16%nat → Q (free_slot s) s → wp find_slot Q s.
Proof.
  intros Hlen HQ. unfold find_slot. apply (wp_mfor_find (is_state TASK_TERMINATED s)).
  - intros i Hi%elem_of_seqZ Hn. destruct (task_of_slot s i Hlen) as [t Ht]; [unfold MAX_TASKS in *; lia|].
    unfold is_state in Hn. rewrite Ht in Hn. apply bool_decide_eq_false in Hn.
    unfold load_at, mbind, M_bind, gets, lift. simpl in Ht. rewrite Ht. by rewrite decide_False.
  - fold (free_slot s). destruct (free_slot s) as [i|] eqn:Hf; [|done].
    apply List.find_some in Hf as [_ Hi]. unfold is_state in Hi.
    destruct (task_of s (Slot i)) as [t|] eqn:Ht; [|done]. apply bool_decide_eq_true in Hi.
    wp_step. eapply wp_load_task; [done|]. rewrite decide_True by done. wp_steps. eauto.
Qed.

(** The state after a task with this entry has been put in slot [i]. *)
Definition created (i entry : Z) (t : task) (s : sched) : sched :=
  let top := stack_base (Slot i) + STACK_SIZE in
  put_task (Slot i) (mkTask i (top - 56) TASK_READY (next t))
    (set_nextTaskID (Z.max (nextTaskID s) (i + 1))
      (set_stacks (push_words (stacks s) top (context_words entry)).1 s)).

(** A free slot was used before, or is the next one. *)
Lemma free_slot_spec s i :
  sched_base s → free_slot s = Some i →
  1 ≤ i < 16 ∧ i ≤ nextTaskID s ∧ ∃ t, task_of s (Slot i) = Some t ∧ state t = TASK_TERMINATED ∧
    (i < nextTaskID s → id t = i) ∧ (i = nextTaskID s → id t = 0).
Proof.
  intros Hb Hf. pose proof Hf as [Hi Ht]%List.find_some. apply list_elem_of_In, elem_of_seqZ in Hi.
  unfold MAX_TASKS in Hi. unfold is_state in Ht.
  destruct (task_of s (Slot i)) as [t|] eqn:Hti; [|done]. apply bool_decide_eq_true in Ht.
  split; [lia|]. assert (i ≤ nextTaskID s) as Hle.
  { destruct (decide (i ≤ nextTaskID s)) as [|Hgt]; [done|]. exfalso. pose proof (inv_next _ Hb) as Hn.
    destruct (task_of_slot s (nextTaskID s) (inv_len _ Hb)) as [tn Htn]; [lia|].
    destruct (inv_fresh _ Hb _ _ Htn) as [_ Hterm]; [lia|].
    unfold free_slot in Hf. revert Hf. unfold range.
    replace (MAX_TASKS - 1) with ((nextTaskID s - 1) + (MAX_TASKS - nextTaskID s)) by lia.
    rewrite seqZ_app by (unfold MAX_TASKS; lia). replace (1 + (nextTaskID s - 1)) with (nextTaskID s) by lia.
    rewrite (seqZ_cons (nextTaskID s)) by (unfold MAX_TASKS; lia). rewrite find_app. simpl.
    assert (is_state TASK_TERMINATED s (nextTaskID s) = true) as ->
      by (unfold is_state; rewrite Htn; by apply bool_decide_eq_true).
    destruct (List.find _ (seqZ 1 _)) as [j|] eqn:Hj; intros [= Ej]; [|lia].
    apply List.find_some in Hj as [Hj _]. apply list_elem_of_In, elem_of_seqZ in Hj. lia. }
  split; [done|]. exists t. split_and!; [done|done| |].
  - intros. apply (inv_used _ Hb); [done|lia].
  - intros. apply (inv_fresh _ Hb i); [done|lia].
Qed.

Lemma free_slot_first s i j : free_slot s = Some i → 1 ≤ j < i → ¬ has_state s (Slot j) TASK_TERMINATED.
Proof.
  unfold free_slot, range. intros Hf Hj (t & Ht & Hst).
  pose proof Hf as [Hi _]%List.find_some. apply list_elem_of_In, elem_of_seqZ in Hi.
  replace (MAX_TASKS - 1) with (j + (MAX_TASKS - 1 - j)) in Hf by lia.
  rewrite seqZ_app, find_app in Hf by lia. destruct (List.find _ (seqZ 1 j)) as [k|] eqn:Hk.
  - injection Hf as ->. apply List.find_some in Hk as [Hk _].
    apply list_elem_of_In, elem_of_seqZ in Hk. lia.
  - eapply (List.find_none _ _) with (x := j) in Hk.
    + unfold is_state in Hk. rewrite Ht in Hk. by apply bool_decide_eq_false in Hk.
    + apply list_elem_of_In, elem_of_seqZ. lia.
Qed.

Lemma task_create_spec entry s :
  sched_base s →
  wp (task_create L entry) (λ v s',
    if decide (entry = 0) then v = -1 ∧ s' = s
    else match free_slot s with
         | None => v = -1 ∧ s' = s
         | Some i => v = i ∧ ∃ t, task_of s (Slot i) = Some t ∧ s' = created i entry t s
         end) s.
Proof.
  intros Hb. unfold task_create. destruct (Z.eqb_spec entry 0) as [->|He]; [by wp_steps|].
  destruct (decide (entry = 0)) as [|_]; [done|]. wp_step. apply irq_save_spec.
  set (s0 := set_eflags _ s). wp_step. apply find_slot_spec; [apply Hb|].
  change (free_slot s0) with (free_slot s).
  destruct (free_slot s) as [i|] eqn:Hf.
  2:{ wp_step. apply irq_restore_spec. wp_steps. split; [done|]. unfold s0.
      rewrite eflags_set_set. apply eflags_set_get. }
  destruct (free_slot_spec s i Hb Hf) as (Hi & Hle & t & Ht & Hterm & Hid & Hz).
  assert (task_of s0 (Slot i) = Some t) as Ht0 by exact Ht.
  pose proof (inv_next _ Hb) as Hn. wp_step. eapply wp_load_task; [exact Ht0|]. wp_step.
  set (s1 := put_task (Slot i) (with_id i t) (set_nextTaskID (Z.max (nextTaskID s) (i + 1)) s0)).
  eapply (wp_mono _ (λ _ s', s' = s1)).
  { apply wp_when.
    - intros E%Z.eqb_eq. assert (i = nextTaskID s) as Ei by (destruct (decide (i < nextTaskID s)); lia).
      do 2 wp_step. wp_step. eapply wp_update_task; [exact Ht0|]. wp_steps.
      unfold s1. autorewrite with sched. cbn [nextTaskID s0 set_eflags sched_HasEflags].
      rewrite Z.max_r by lia. subst i. by rewrite u32_small by lia.
    - intros E%Z.eqb_neq. assert (i < nextTaskID s) as Ei by (destruct (decide (i = nextTaskID s)); lia).
      unfold s1. rewrite Z.max_l by lia. rewrite <- (Hid Ei) at 2.
      assert (with_id (id t) t = t) as -> by (by destruct t).
      destruct s. simpl in *. unfold s0, set_tasks, set_nextTaskID. simpl.
      f_equal. symmetry. apply list_insert_id. by apply aget_Some in Ht as [_ ?]. }
  intros [] s' ->. assert (task_of s1 (Slot i) = Some (with_id i t)) as Ht1.
  { unfold s1. rewrite task_of_put by (exists t; exact Ht). by rewrite decide_True. }
  wp_step. eapply wp_load_task; [exact Ht1|]. cbn [id with_id].
  assert ((MAX_USER_TASKS <=? u32 (i - 1)) = false) as ->.
  { rewrite u32_small by lia. unfold MAX_USER_TASKS, MAX_TASKS. lia. }
  assert (taskStacks L + (i - 1) * STACK_SIZE = stack_base (Slot i)) as ->
    by (unfold stack_base; by decides).
  wp_step. apply context_spec; [intros a; by apply in_stacks_slot|].
  wp_step. eapply wp_update_task. { exact Ht1. }
  wp_step. eapply wp_update_task.
  { rewrite task_of_put by (eexists; exact Ht1). by rewrite decide_True. }
  wp_step. apply irq_restore_spec. wp_steps. split.
  { unfold i32. rewrite u32_small by lia. destruct (Z.ltb_spec i (2 ^ 31)); lia. }
  exists t. split; [done|]. unfold created, s1, s0.
  apply sched_ext; try reflexivity. simpl. by rewrite !list_insert_insert_eq.
Qed.

(** The current task of a state with the invariant is not in a free slot. *)
Lemma created_inv i entry t s :
  sched_inv s → free_slot s = Some i → task_of s (Slot i) = Some t →
  sched_inv (created i entry t s).
Proof.
  intros [Hb (cur & tc & Hcur & Htc & Hst)] Hf Ht.
  destruct (free_slot_spec s i Hb Hf) as (Hi & Hle & t0 & Ht0 & Hterm & Hid & Hz).
  assert (t0 = t) as -> by congruence.
  assert (cur ≠ Slot i) as Hne.
  { intros Ec. rewrite Ec in Htc. assert (tc = t) as Et by congruence. rewrite Et in Hst.
    destruct Hst as [?|[? _]]; congruence. }
  set (t' := mkTask i (stack_base (Slot i) + STACK_SIZE - 56) TASK_READY (next t)).
  assert (∀ q, task_of (created i entry t s) q =
               if decide (Slot i = q) then Some t' else task_of s q) as Hof.
  { intros q. unfold created. rewrite task_of_put by (exists t; exact Ht).
    destruct (decide (Slot i = q)); [done|]. by destruct q. }
  assert (∀ q tq, task_of (created i entry t s) q = Some tq →
     q = Slot i ∧ tq = t' ∨ q ≠ Slot i ∧ task_of s q = Some tq) as Hcases.
  { intros q tq. rewrite Hof. destruct (decide (Slot i = q)); [intros [= <-]; auto|auto]. }
  assert (nextTaskID (created i entry t s) = Z.max (nextTaskID s) (i + 1)) as Hnext by done.
  assert (curTask (created i entry t s) = Some cur) as Hcur' by done.
  pose proof (inv_next _ Hb). split.
  - constructor.
    + unfold created. autorewrite with sched. apply Hb.
    + intros q (tq & Hq & Hrun). rewrite Hcur'.
      destruct (Hcases q tq Hq) as [[-> ->]|[_ Hq']]; [done|].
      rewrite <- Hcur. apply (inv_run _ Hb). by exists tq.
    + apply Hb.
    + rewrite Hnext. lia.
    + intros j tj Hj. rewrite Hnext. intros Hjr.
      destruct (Hcases _ _ Hj) as [[[= ->] ->]|[Hji Hj']]; [done|].
      assert (j ≠ i) by congruence. apply (inv_used _ Hb); [done|lia].
    + intros j tj Hj. rewrite Hnext. intros Hjr.
      destruct (Hcases _ _ Hj) as [[[= ->] ->]|[Hji Hj']]; [lia|].
      apply (inv_fresh _ Hb j); [done|lia].
    + apply Hb.
    + intros q tq Hq Hn Hstq. destruct (Hcases _ _ Hq) as [[-> ->]|[_ Hq']].
      * unfold on_stack, stack_size, t'. rewrite decide_False by lia.
        cbn [esp]. unfold STACK_SIZE. lia.
      * apply (inv_esp _ Hb); [done|congruence|done].
  - exists cur, tc. split; [done|]. split; [|done]. rewrite Hof. by rewrite decide_False.
Qed.

(** ** The other operations keep the invariant *)

(** Storing a state in one task: what [task_block], [task_unblock] and
    [scheduler_exit] do. *)
Lemma restate_base r x t s :
  sched_base s → task_of s r = Some t → r ≠ Idle → x ≠ TASK_RUNNING →
  state t ≠ TASK_TERMINATED → curTask s = Some r ∨ state t = TASK_BLOCKED →
  sched_base (put_task r (with_state x t) s).
Proof.
  intros Hb Ht Hidle Hx Hterm Hor.
  assert (∀ q tq, task_of (put_task r (with_state x t) s) q = Some tq →
     q = r ∧ tq = with_state x t ∨ q ≠ r ∧ task_of s q = Some tq) as Hcases.
  { intros q tq. rewrite task_of_put by eauto.
    destruct (decide (r = q)); [intros [= <-]; auto|auto]. }
  constructor; autorewrite with sched; try apply Hb.
  - intros q (tq & Hq & Hrun). destruct (Hcases q tq Hq) as [[-> ->]|[_ Hq']]; [done|].
    apply (inv_run _ Hb). by exists tq.
  - destruct r; [|done]. apply Hb.
  - intros i ti Hi Hr. destruct (Hcases _ _ Hi) as [[<- ->]|[_ Hi']];
      [cbn [id with_state]|]; by apply (inv_used _ Hb).
  - intros i ti Hi Hr. destruct (Hcases _ _ Hi) as [[<- ->]|[_ Hi']].
    + destruct (inv_fresh _ Hb i t Ht Hr). done.
    + by apply (inv_fresh _ Hb i).
  - intros q tq Hq Hne Hst. destruct (Hcases _ _ Hq) as [[-> ->]|[_ Hq']].
    + destruct Hor as [?|Hbl]; [done|]. apply (inv_esp _ Hb r t); auto.
    + by apply (inv_esp _ Hb).
Qed.

Lemma set_ticks_base n s :
  sched_base s → 0 ≤ n < TIME_SLICE_MS → sched_base (set_schedulerTicks n s).
Proof.
  intros Hb Hn. by constructor; try apply Hb.
Qed.

(** Where a switching operation ends: in the invariant, with the frame it
    returns on the stack of the task that is now current. *)
Definition resumes (p : Z) (s : sched) : Prop :=
  sched_inv s ∧ ∃ cur, curTask s = Some cur ∧ on_stack cur p.

Lemma schedule_resumes regs cur t s :
  sched_base s → curTask s = Some cur → task_of s cur = Some t → on_stack cur regs →
  wp (scheduler_schedule regs) resumes s.
Proof.
  intros Hb Hcur Ht Hregs.
  use_wp (schedule_spec regs cur t s (inv_len _ Hb) Hcur Ht (on_stack_nonzero _ _ _ _ (inv_len _ Hb) Ht Hregs)).
  intros e s' (t' & Ht' & -> & ->).
  destruct (switch_inv regs cur t s Hb Hcur Ht Hregs) as (t'' & Ht'' & Hinv & Hon).
  cbv zeta in *. assert (t'' = t') as -> by congruence.
  split; [done|]. eexists. split; [apply switched_cur|done].
Qed.

Lemma tick_spec regs s (Q : Z → sched → Prop) :
  0 ≤ schedulerTicks s < TIME_SLICE_MS →
  (schedulerTicks s + 1 < TIME_SLICE_MS →
     Q regs (set_schedulerTicks (schedulerTicks s + 1) s)) →
  (schedulerTicks s + 1 = TIME_SLICE_MS →
     wp (scheduler_schedule regs) Q (set_schedulerTicks 0 s)) →
  wp (scheduler_tick regs) Q s.
Proof.
  intros Hn Hlt Heq. unfold TIME_SLICE_MS in *. unfold scheduler_tick. do 4 wp_step.
  cbn [schedulerTicks set_schedulerTicks]. rewrite u32_small by lia.
  destruct (Z.ltb_spec (schedulerTicks s + 1) TIME_SLICE_MS) as [H|H]; unfold TIME_SLICE_MS in H.
  - wp_step. auto.
  - wp_steps. apply Heq. lia.
Qed.

Lemma tick_resumes regs cur s :
  sched_inv s → curTask s = Some cur → on_stack cur regs →
  wp (scheduler_tick regs) resumes s.
Proof.
  intros [Hb (c & t & Hc & Ht & Hst)] Hcur Hregs. assert (c = cur) as -> by congruence.
  pose proof (inv_ticks _ Hb). apply tick_spec; [done| |].
  - intros. split; [|by exists cur]. split; [apply set_ticks_base; [done|lia]|].
    exists cur, t. by rewrite task_of_set_ticks.
  - intros. eapply schedule_resumes; [|done|by rewrite task_of_set_ticks|done].
    apply set_ticks_base; [done|unfold TIME_SLICE_MS; lia].
Qed.

Lemma exit_resumes regs cur t s :
  sched_base s → curTask s = Some cur → task_of s cur = Some t → state t = TASK_RUNNING →
  cur ≠ Idle → on_stack cur regs → wp (scheduler_exit regs) resumes s.
Proof.
  intros Hb Hcur Ht Hrun Hidle Hregs. unfold scheduler_exit. do 2 wp_step. rewrite Hcur.
  destruct (Z.eqb_spec regs 0).
  { by destruct (on_stack_nonzero _ _ _ _ (inv_len _ Hb) Ht Hregs). }
  wp_step. eapply wp_update_task; [done|]. eapply schedule_resumes.
  - apply restate_base; auto; congruence.
  - by autorewrite with sched.
  - rewrite task_of_put by eauto. by rewrite decide_True.
  - done.
Qed.

Lemma block_mark_spec cur t s :
  sched_base s → curTask s = Some cur → task_of s cur = Some t → state t = TASK_RUNNING →
  cur ≠ Idle →
  wp task_block_mark (λ _ s', s' = put_task cur (with_state TASK_BLOCKED t) s ∧ sched_inv s') s.
Proof.
  intros Hb Hcur Ht Hrun Hidle. unfold task_block_mark. do 2 wp_step. rewrite Hcur.
  eapply wp_update_task; [done|]. split; [done|]. split.
  - apply restate_base; auto; congruence.
  - exists cur, (with_state TASK_BLOCKED t). autorewrite with sched. split; [done|].
    rewrite task_of_put by eauto. rewrite decide_True by done. auto.
Qed.

(** With the invariant an id names a slot, so [task_unblock] looks at one task. *)
Lemma unblock_spec tid s (Q : Z → sched → Prop) :
  sched_base s →
  (∀ t, 1 ≤ tid → task_of s (Slot tid) = Some t → state t = TASK_BLOCKED →
     Q 0 (put_task (Slot tid) (with_state TASK_READY t) s)) →
  ((∀ i, 1 ≤ i → has_state s (Slot i) TASK_BLOCKED → i ≠ tid) → Q (-1) s) →
  wp (task_unblock tid) Q s.
Proof.
  intros Hb Hyes Hno. unfold task_unblock. wp_step. apply irq_save_spec.
  set (s0 := set_eflags _ s). wp_step. set (P i := is_state TASK_BLOCKED s i && (i =? tid)).
  (* a blocked slot has its index as its id *)
  assert (∀ i t, 1 ≤ i → task_of s (Slot i) = Some t → state t = TASK_BLOCKED → id t = i) as Hid.
  { intros i t Hi Ht Hbl. apply (inv_used _ Hb); [done|]. split; [done|].
    destruct (decide (i < nextTaskID s)) as [|Hge]; [done|].
    destruct (inv_fresh _ Hb i t Ht) as [_ ?]; [lia|congruence]. }
  apply (wp_mfor_find P).
  - intros i Hi%elem_of_seqZ Hn.
    destruct (task_of_slot s i (inv_len _ Hb)) as [t Ht]; [unfold MAX_TASKS in *; lia|].
    unfold P, is_state in Hn. rewrite Ht in Hn.
    unfold load_at, mbind, M_bind, gets, lift. change (tasks s0) with (tasks s). simpl in Ht. rewrite Ht.
    destruct (bool_decide_reflect (state t = TASK_BLOCKED)) as [Hbl|]; [|by rewrite andb_false_r].
    rewrite (Hid i t ltac:(lia) Ht Hbl). simpl in Hn. by rewrite Hn.
  - destruct (List.find P _) as [i|] eqn:Hf.
    + apply List.find_some in Hf as [Hi [Hbl ->%Z.eqb_eq]%andb_true_iff].
      apply list_elem_of_In, elem_of_seqZ in Hi. unfold is_state in Hbl.
      destruct (task_of s (Slot tid)) as [t|] eqn:Ht; [|done]. apply bool_decide_eq_true in Hbl.
      wp_step. eapply wp_load_task; [exact Ht|]. rewrite (Hid tid t ltac:(lia) Ht Hbl), Z.eqb_refl.
      rewrite bool_decide_true by done. simpl. wp_step. eapply wp_update_task; [exact Ht|].
      wp_step. apply irq_restore_spec. wp_steps. exists 0. split; [done|]. wp_steps.
      specialize (Hyes t ltac:(lia) eq_refl Hbl).
      replace (set_eflags _ _) with (put_task (Slot tid) (with_state TASK_READY t) s); [done|].
      by apply sched_ext.
    + wp_step. apply irq_restore_spec. wp_steps. unfold s0.
      rewrite eflags_set_set, eflags_set_get. apply Hno. intros i Hi (t & Ht & Hbl) ->.
      pose proof (task_of_slot_range _ _ _ (inv_len _ Hb) Ht).
      eapply (List.find_none _ _) with (x := tid) in Hf.
      * unfold P, is_state in Hf. rewrite Ht, bool_decide_true, Z.eqb_refl in Hf by done. done.
      * apply list_elem_of_In, elem_of_seqZ. unfold MAX_TASKS. lia.
Qed.

Lemma unblock_inv tid s :
  sched_inv s → (∃ cur, has_state s cur TASK_RUNNING) →
  wp (task_unblock tid) (λ _ s', sched_inv s') s.
Proof.
  intros [Hb Hc] [cur (tc & Htc & Hrun)]. apply unblock_spec; [done| |done].
  intros t _ Ht Hbl. assert (cur ≠ Slot tid) by (intros ->; congruence). split.
  - by apply restate_base; auto; rewrite Hbl.
  - exists cur, tc. autorewrite with sched. split; [apply (inv_run _ Hb); by exists tc|].
    rewrite task_of_put by eauto. rewrite decide_False by congruence. auto.
Qed.

(** The state [scheduler_init] leaves: the kernel task runs in slot 0, the other
    slots are free, and the idle task has a context on its stack. *)
Definition blank_task : task := mkTask 0 0 TASK_TERMINATED 0.
Definition sched_initial (s : sched) : sched :=
  mkSched (with_state TASK_RUNNING blank_task :: replicate 15 blank_task)
    (mkTask (2 ^ 32 - 1) (idleStack L + STACK_SIZE - 56) TASK_READY 0)
    (Some (Slot 0)) 1 0
    (push_words (stacks s) (idleStack L + STACK_SIZE) (context_words (idle_task_entry_addr L))).1
    (sched_eflags s).

Lemma scheduler_init_spec s :
  length (tasks s) = 16%nat → wp (scheduler_init L) (λ _ s', s' = sched_initial s) s.
Proof.
  intros Hlen. unfold scheduler_init. wp_step.
  apply (wp_fill tasks set_tasks) with (f := λ _, blank_task);
    [done|done|by intros []|rewrite Hlen; done|].
  do 2 wp_step. wp_step. eapply wp_update_task; [reflexivity|]. wp_step.
  apply context_spec; [apply in_stacks_idle|]. wp_steps. by apply sched_ext.
Qed.

Lemma initial_free s i : 1 ≤ i < 16 → has_state (sched_initial s) (Slot i) TASK_TERMINATED.
Proof.
  intros Hi. exists blank_task. split; [|done]. cbn [task_of sched_initial tasks]. apply aget_Some. split; [lia|].
  destruct (Z.to_nat i) as [|k] eqn:E; [lia|].
  change (replicate 15 blank_task !! k = Some blank_task). apply lookup_replicate_2. lia.
Qed.

Lemma initial_inv s : sched_inv (sched_initial s).
Proof.
  assert (∀ i t, task_of (sched_initial s) (Slot i) = Some t →
            i = 0 ∧ t = with_state TASK_RUNNING blank_task ∨ 1 ≤ i ∧ t = blank_task) as Hslot.
  { intros i t. cbn [task_of sched_initial tasks]. intros [Hi Ht]%aget_Some.
    destruct (decide (i = 0)) as [->|]; [left; by injection Ht as <-|right]. split; [lia|].
    destruct (Z.to_nat i) as [|k] eqn:En; [lia|].
    change (replicate 15 blank_task !! k = Some t) in Ht. by apply lookup_replicate_1 in Ht as [-> _]. }
  split; [constructor|].
  - done.
  - intros [i|] (t & Ht & Hr); [|by injection Ht as <-].
    destruct (Hslot i t Ht) as [[-> _]|[_ ->]]; done.
  - by left.
  - simpl. lia.
  - intros i t Ht Hi. simpl in Hi. lia.
  - intros i t Ht Hi. simpl in Hi. destruct (Hslot i t Ht) as [[-> _]|[_ ->]]; [lia|done].
  - simpl. unfold TIME_SLICE_MS. lia.
  - intros [i|] t Ht Hne Hst.
    + destruct (Hslot i t Ht) as [[-> _]|[_ ->]]; [done|]. by destruct Hst.
    + injection Ht as <-. unfold on_stack, stack_size. simpl. unfold STACK_SIZE. lia.
  - exists (Slot 0), (with_state TASK_RUNNING blank_task). by split_and!; [| |left].
Qed.

(** ** The system as a step relation

    One step is one uninterruptible piece of the scheduler: a timer interrupt, a
    system interrupt of [task_yield] or [task_exit], the store of [task_block],
    or a call that runs with interrupts disabled.  [regs] is the frame the
    interrupt pushed: it is on the stack of the interrupted task (tasks do not
    overflow their stacks). *)

Inductive event : Type :=
| Tick (regs : Z)
| Yield (regs : Z)
| Exit (regs : Z)
| BlockMark
| Create (entry : Z)
| Unblock (tid : Z).

Definition run_event (e : event) : M sched Z :=
  match e with
  | Tick regs => scheduler_tick regs
  | Yield regs => task_yield regs
  | Exit regs => task_exit regs
  | BlockMark => _ ← task_block_mark; mret 0
  | Create entry => task_create L entry
  | Unblock tid => task_unblock tid
  end.

(** Which steps the current task can make.  Between the store of [task_block]
    and its yield it does nothing else; the idle task only halts. *)
Definition enabled (s : sched) (e : event) : Prop :=
  ∃ cur, curTask s = Some cur ∧
  match e with
  | Tick regs | Yield regs => on_stack cur regs
  | Exit regs => on_stack cur regs ∧ has_state s cur TASK_RUNNING ∧ cur ≠ Idle
  | BlockMark => has_state s cur TASK_RUNNING ∧ cur ≠ Idle
  | Create _ | Unblock _ => has_state s cur TASK_RUNNING
  end.

Definition switches (e : event) : bool :=
  match e with Tick _ | Yield _ | Exit _ => true | _ => false end.

Inductive sched_step (s : sched) (e : event) (v : Z) (s' : sched) : Prop :=
| sched_step_run : enabled s e → run_event e s = Some (v, s') → sched_step s e v s'.

Inductive reachable : sched → Prop :=
| reach_init s u s' :
    length (tasks s) = 16%nat → scheduler_init L s = Some (u, s') → reachable s'
| reach_step s e v s' : reachable s → sched_step s e v s' → reachable s'.

Lemma event_inv e s :
  sched_inv s → enabled s e →
  wp (run_event e) (λ v s', sched_inv s' ∧ (switches e → resumes v s')) s.
Proof.
  intros Hinv (cur & Hcur & He). pose proof Hinv as [Hb (c & t & Hc & Ht & Hst)].
  assert (c = cur) as -> by congruence.
  assert (∀ m, wp m resumes s → wp m (λ v s', sched_inv s' ∧ (true → resumes v s')) s) as Hres.
  { intros m Hm. eapply wp_mono; [exact Hm|]. intros v s' Hr. split; [apply Hr|done]. }
  assert (∀ x, has_state s cur x → state t = x) as Hstate
    by (intros x (t' & Ht' & <-); congruence).
  destruct e as [regs|regs|regs| |entry|tid]; cbn [run_event switches].
  - apply Hres. by eapply tick_resumes.
  - apply Hres. by eapply schedule_resumes.
  - destruct He as (Hon & Hrun & Hidle). apply Hres.
    eapply exit_resumes; try done. by apply Hstate.
  - destruct He as (Hrun & Hidle). wp_step.
    use_wp (block_mark_spec cur t s Hb Hcur Ht (Hstate _ Hrun) Hidle).
    intros _ s' [_ ?]. by wp_step.
  - use_wp (task_create_spec entry s Hb). intros v s' H. split; [|done].
    destruct (decide (entry = 0)); [by destruct H as [_ ->]|].
    destruct (free_slot s) as [i|] eqn:Hf; [|by destruct H as [_ ->]].
    destruct H as (_ & t' & Ht' & ->). by apply created_inv.
  - use_wp (unblock_inv tid s Hinv (ex_intro _ cur He)). done.
Qed.

Lemma reachable_inv s : reachable s → sched_inv s.
Proof.
  induction 1 as [s u s' Hlen Hi|s e v s' _ IH [He Hrun]].
  - pose proof (scheduler_init_spec s Hlen) as Hspec. apply (wp_run _ _ _ _ _ Hspec) in Hi as ->.
    apply initial_inv.
  - by apply (wp_run _ _ _ _ _ (event_inv e s IH He)) in Hrun as [? _].
Qed.

(** The stacks of two tasks have no byte in common. *)
Lemma stacks_apart s r r' t t' a :
  length (tasks s) = 16%nat → task_of s r = Some t → task_of s r' = Some t' →
  on_stack r a → on_stack r' a → r = r'.
Proof.
  intros Hlen Ht Ht'. destruct HL as [Hl1 Hl2 Hl3].
  unfold on_stack, stack_base, stack_size. unfold MAX_USER_TASKS, MAX_TASKS, STACK_SIZE in *.
  destruct r as [i|], r' as [j|]; try done;
    try apply (task_of_slot_range _ _ _ Hlen) in Ht; try apply (task_of_slot_range _ _ _ Hlen) in Ht';
    try destruct (decide (i = 0)); try destruct (decide (j = 0)); intros; f_equal; lia.
Qed.

(** ** Waiting *)

(** How many other slots the search from [cur] visits before slot [j]. *)
Definition distance (cur : task_ref) (j : Z) : Z := (j - index_of cur - 1) `mod` MAX_TASKS.

Lemma distance_range cur j : 0 ≤ distance cur j < 16.
Proof. apply Z.mod_pos_bound. unfold MAX_TASKS. lia. Qed.

(** Slots of [0, 16) at distance [d] are at [d + 1] from the current index. *)
Lemma next_index_distance cur j : 0 ≤ j < 16 → next_index (index_of cur) (distance cur j + 1) = j.
Proof.
  intros Hj. unfold next_index, distance, MAX_TASKS.
  pose proof (Z.div_mod (j - index_of cur - 1) 16 ltac:(lia)).
  symmetry. apply Z.mod_unique_pos with (- ((j - index_of cur - 1) / 16)); lia.
Qed.

Lemma distance_next cur i j :
  0 ≤ j < 16 → 1 ≤ i ≤ distance cur j →
  distance (Slot (next_index (index_of cur) i)) j = distance cur j - i.
Proof.
  intros Hj Hi. pose proof (distance_range cur j) as Hd.
  unfold distance, next_index, MAX_TASKS in *. cbn [index_of].
  pose proof (Z.div_mod (j - index_of cur - 1) 16 ltac:(lia)).
  pose proof (Z.div_mod (index_of cur + i) 16 ltac:(lia)).
  symmetry. apply Z.mod_unique_pos with
    ((j - index_of cur - 1) / 16 + (index_of cur + i) / 16); lia.
Qed.

Lemma distance_of_next cur i :
  1 ≤ i ≤ 16 → distance cur (next_index (index_of cur) i) = i - 1.
Proof.
  intros Hi. unfold distance, next_index, MAX_TASKS.
  pose proof (Z.div_mod (index_of cur + i) 16 ltac:(lia)).
  symmetry. apply Z.mod_unique_pos with (- ((index_of cur + i) / 16)); lia.
Qed.

(** A slot that is ready is chosen, or the choice is a slot before it. *)
Lemma choose_distance s cur j :
  0 ≤ j < 16 → is_state TASK_READY s j = true →
  choose s cur = Slot j ∨
  ∃ k, choose s cur = Slot k ∧ k ≠ j ∧
    distance (Slot k) j < distance cur j ∧ distance cur k < distance cur j.
Proof.
  intros Hj Hready. unfold choose, next_ready. pose proof (distance_range cur j) as Hd.
  set (P := λ i, is_state TASK_READY s (next_index (index_of cur) i)).
  assert (P (distance cur j + 1) = true) as HP
    by (unfold P; by rewrite next_index_distance).
  assert (range 1 (MAX_TASKS + 1) =
          range 1 (distance cur j + 1) ++ range (distance cur j + 1) (MAX_TASKS + 1)) as ->.
  { unfold range. replace (MAX_TASKS + 1 - 1)
      with ((distance cur j + 1 - 1) + (MAX_TASKS + 1 - (distance cur j + 1))) by lia.
    rewrite seqZ_app by (unfold MAX_TASKS; lia). f_equal. f_equal. lia. }
  rewrite find_app. destruct (List.find P (range 1 (distance cur j + 1))) as [i|] eqn:Hf.
  - right. apply List.find_some in Hf as [Hi _]. apply list_elem_of_In, elem_of_seqZ in Hi.
    exists (next_index (index_of cur) i). split; [done|].
    pose proof (distance_next cur i j Hj ltac:(lia)) as Hdn.
    pose proof (distance_of_next cur i ltac:(lia)). split; [|lia].
    intros E. rewrite E in Hdn. assert (distance (Slot j) j = 15); [|lia].
    unfold distance. cbn [index_of]. by replace (j - j - 1) with (-1) by lia.
  - left. unfold range. rewrite seqZ_cons by (unfold MAX_TASKS; lia). simpl. rewrite HP.
    by rewrite next_index_distance.
Qed.

(** The steps that pick a task. *)
Definition reschedules (s : sched) (e : event) : bool :=
  match e with
  | Tick _ => schedulerTicks s + 1 =? TIME_SLICE_MS
  | Yield _ | Exit _ => true
  | _ => false
  end.

(** [waits j s n s']: a run from [s] to [s'] in which slot [j] never becomes the
    current task, with [n] choices of a next task. *)
Inductive waits (j : Z) : sched → Z → sched → Prop :=
| waits_nil s : waits j s 0 s
| waits_step s e v s1 n s2 :
    sched_step s e v s1 → curTask s1 ≠ Some (Slot j) → waits j s1 n s2 →
    waits j s (if reschedules s e then n + 1 else n) s2.

(** Slot [j] is ready and not current; [d] is its distance from the current task. *)
Definition waiting (j d : Z) (s : sched) : Prop :=
  is_state TASK_READY s j = true ∧
  ∃ cur, curTask s = Some cur ∧ cur ≠ Slot j ∧ distance cur j = d.

Lemma is_state_put x r t s j :
  is_Some (task_of s r) → r ≠ Slot j → is_state x (put_task r t s) j = is_state x s j.
Proof. intros Hr Hne. unfold is_state. rewrite task_of_put by done. by rewrite decide_False. Qed.

Lemma is_state_switched r t s j :
  task_of s r = Some t → r ≠ Slot j →
  is_state TASK_READY (switched r t s) j = is_state TASK_READY s j.
Proof. intros Hr Hne. unfold is_state. rewrite (task_of_switched _ _ _ _ Hr). by rewrite decide_False. Qed.

Lemma schedule_waiting regs cur t s j d :
  length (tasks s) = 16%nat → curTask s = Some cur → task_of s cur = Some t → regs ≠ 0 →
  waiting j d s →
  wp (scheduler_schedule regs) (λ _ s', curTask s' = Some (Slot j) ∨ ∃ d', d' < d ∧ waiting j d' s') s.
Proof.
  intros Hlen Hcur Ht Hregs (Hready & c & Hc & Hne & Hd). assert (c = cur) as -> by congruence.
  use_wp (schedule_spec regs cur t s Hlen Hcur Ht Hregs). intros e s' (t' & Ht' & _ & ->).
  set (s1 := put_task cur (preempt regs t) s) in *.
  assert (is_state TASK_READY s1 j = true) as Hready1
    by (unfold s1; by rewrite is_state_put by eauto).
  assert (0 ≤ j < 16) as Hj.
  { unfold is_state in Hready. destruct (task_of s (Slot j)) eqn:E; [|done].
    by apply (task_of_slot_range _ _ _ Hlen) in E. }
  destruct (choose_distance s1 cur j Hj Hready1) as [E|(k & E & Hk & Hlt & _)].
  - left. by rewrite switched_cur, E.
  - right. exists (distance (Slot k) j). split; [lia|]. rewrite E in Ht'. split.
    + rewrite E, is_state_switched; [done|done|congruence].
    + exists (Slot k). rewrite switched_cur, E. split; [done|]. split; [congruence|done].
Qed.

Lemma waiting_frame j d s s' :
  waiting j d s → curTask s' = curTask s →
  is_state TASK_READY s' j = is_state TASK_READY s j → waiting j d s'.
Proof. intros (Hr & Hc) Ec Es. split; [by rewrite Es|by rewrite Ec]. Qed.

Lemma is_state_ready s j t : task_of s (Slot j) = Some t → is_state TASK_READY s j = true → state t = TASK_READY.
Proof. unfold is_state. intros ->. apply bool_decide_eq_true. Qed.

(** After any step the waiting task is current, or still waiting and not
    farther away; a choice brings it closer. *)
Lemma event_waiting e s j d :
  sched_inv s → enabled s e → waiting j d s →
  wp (run_event e) (λ _ s', curTask s' = Some (Slot j) ∨
     ∃ d', (if reschedules s e then d' < d else d' ≤ d) ∧ waiting j d' s') s.
Proof.
  intros Hinv (cur & Hcur & He) Hw. pose proof Hinv as [Hb (c & t & Hc & Ht & Hst)].
  assert (c = cur) as -> by congruence.
  pose proof Hw as (Hready & c & Hc' & Hnej & Hd). assert (c = cur) as -> by congruence.
  assert (∀ regs, on_stack cur regs → regs ≠ 0) as Hnz
    by (intros; by eapply on_stack_nonzero; [apply (inv_len _ Hb)| |]).
  assert (∀ s', waiting j d s' → curTask s' = Some (Slot j) ∨ ∃ d', d' ≤ d ∧ waiting j d' s') as Hstay
    by (intros s' H; right; exists d; by split; [lia|]).
  destruct e as [regs|regs|regs| |entry|tid]; cbn [run_event reschedules].
  - apply tick_spec; [apply Hb| |].
    + intros Hlt. destruct (Z.eqb_spec (schedulerTicks s + 1) TIME_SLICE_MS); [lia|].
      apply Hstay. by eapply waiting_frame.
    + intros Heq. rewrite Heq. rewrite Z.eqb_refl.
      eapply schedule_waiting; [apply Hb|done|by rewrite task_of_set_ticks|by apply Hnz|].
      by eapply waiting_frame.
  - eapply schedule_waiting; [apply Hb|done|done|by apply Hnz|done].
  - destruct He as (Hon & Hrun & Hidle). unfold task_exit, scheduler_exit. do 2 wp_step. rewrite Hcur.
    destruct (Z.eqb_spec regs 0); [by destruct (Hnz regs Hon)|].
    wp_step. eapply wp_update_task; [done|]. eapply schedule_waiting.
    + autorewrite with sched. apply Hb.
    + by autorewrite with sched.
    + rewrite task_of_put by eauto. by rewrite decide_True.
    + done.
    + eapply waiting_frame; [done|by autorewrite with sched|by rewrite is_state_put by eauto].
  - destruct He as ((t' & Ht' & Hrun) & Hidle). assert (t' = t) as -> by congruence. wp_step.
    use_wp (block_mark_spec cur t s Hb Hcur Ht Hrun Hidle). intros _ s' [-> _]. wp_step. apply Hstay.
    eapply waiting_frame; [done|by autorewrite with sched|by rewrite is_state_put by eauto].
  - use_wp (task_create_spec entry s Hb). intros v s' H. apply Hstay.
    destruct (decide (entry = 0)); [by destruct H as [_ ->]|].
    destruct (free_slot s) as [i|] eqn:Hf; [|by destruct H as [_ ->]].
    destruct H as (_ & t' & Ht' & ->). destruct (free_slot_spec s i Hb Hf) as (_ & _ & t0 & Ht0 & Hterm & _).
    eapply waiting_frame; [done|done|]. unfold created. rewrite is_state_put; [done|by exists t0|].
    intros [= ->]. apply (is_state_ready _ _ _ Ht0) in Hready. congruence.
  - apply unblock_spec; [done| |auto]. intros t' _ Ht' Hbl. apply Hstay.
    eapply waiting_frame; [done|by autorewrite with sched|]. apply is_state_put; [eauto|].
    intros [= ->]. apply (is_state_ready _ _ _ Ht') in Hready. congruence.
Qed.

Lemma waits_bound j s n s' d : waits j s n s' → sched_inv s → waiting j d s → n ≤ d.
Proof.
  intros Hw. revert d. induction Hw as [s|s e v s1 n s2 [He Hrun] Hne Hw IH]; intros d Hinv Hwait.
  - destruct Hwait as (_ & cur & _ & _ & <-). apply distance_range.
  - pose proof (wp_run _ _ _ _ _ (event_inv e s Hinv He) Hrun) as [Hinv1 _].
    pose proof (wp_run _ _ _ _ _ (event_waiting e s j d Hinv He Hwait) Hrun) as [?|(d' & Hd & Hw')];
      [done|].
    specialize (IH d' Hinv1 Hw'). destruct (reschedules s e); lia.
Qed.

(** ** The frame of a new task *)

(** What resuming a created task starts: the entry point, on its own stack with
    [task_exit] as the return address, with interrupts enabled. *)
Lemma created_context i entry t s :
  1 ≤ i < 16 → task_of s (Slot i) = Some t →
  let s' := created i entry t s in
  let top := stack_base (Slot i) + STACK_SIZE in
  task_of s' (Slot i) = Some (mkTask i (top - 56) TASK_READY (next t)) ∧
  isr_return (stacks s') (top - 56) = mkCpu 0 0 0 0 0 0 0 entry 0x08 0x202 (top - 4) ∧
  getw (stacks s') (top - 4) = task_exit_addr L.
Proof.
  intros Hi Ht s' top. split_and!.
  - unfold s', created. rewrite task_of_put by (exists t; exact Ht). by rewrite decide_True.
  - change (stacks s') with (push_words (stacks s) top (context_words entry)).1.
    unfold context_words. change (push_words (stacks s) top (?v :: ?vs))
      with (push_words (<[top - 4 := v]> (stacks s)) (top - 4) vs).
    pose proof (push_words_frame (<[top - 4 := task_exit_addr L]> (stacks s)) (top - 4)
                  0x202 0x08 entry 0 32 0 0 0 0 0 0 0 0) as Hf.
    destruct (push_words _ (top - 4) _) as [m p]. destruct Hf as [-> Hf]. cbn [fst].
    replace (top - 56) with (top - 4 - 52) by lia. unfold isr_return. rewrite Hf. simpl.
    f_equal. rewrite u32_small; [lia|]. destruct HL as [Hl _ _].
    unfold top, stack_base, MAX_USER_TASKS, MAX_TASKS, STACK_SIZE in *. decides. lia.
  - change (stacks s') with (push_words (stacks s) top (context_words entry)).1.
    apply (push_words_get (stacks s) top (context_words entry) 0 (task_exit_addr L)). done.
Qed.

End invariant.

(** ** Properties *)

(** A layout as the linker makes one, and the state after [scheduler_init]. *)
Definition demo_layout : layout := mkLayout 0x20000 0x30000 0x9100 0x9200.
Definition zero_sched : sched :=
  mkSched (replicate 16 (mkTask 0 0 TASK_READY 0)) (mkTask 0 0 TASK_READY 0) None 0 0 ∅ 0x202.
Definition demo_sched : sched := final (scheduler_init demo_layout) zero_sched.

Lemma demo_layout_ok : layout_ok demo_layout.
Proof. constructor; vm_compute; intuition congruence. Qed.

Lemma demo_reachable : reachable demo_layout demo_sched.
Proof. apply (reach_init demo_layout zero_sched tt); [reflexivity|]. vm_compute. reflexivity. Qed.

(** Two tasks created in the initial state. *)
Definition demo_two : sched :=
  final (task_create demo_layout 0x9500) (final (task_create demo_layout 0x9400) demo_sched).

Lemma demo_two_reachable : reachable demo_layout demo_two.
Proof.
  eapply (reach_step _ _ (Create 0x9500) 2); [eapply (reach_step _ _ (Create 0x9400) 1);
    [apply demo_reachable|]|]; (constructor; [|vm_compute; reflexivity]);
    (exists (Slot 0); split; [vm_compute; reflexivity|];
     exists (mkTask 0 0 TASK_RUNNING 0); vm_compute; split; reflexivity).
Qed.

Lemma demo_two_inv : sched_inv demo_layout demo_two.
Proof. exact (reachable_inv _ demo_layout_ok _ demo_two_reachable). Qed.

(** C21. In every reachable state of the scheduler there is a current task, at
    most one task is running and it is the current one, the idle task is never
    blocked or terminated, every slot in use carries its index as its id, so ids
    are unique, and every task that can be resumed was saved on its own stack. *)
Theorem scheduler_invariant L s :
  layout_ok L → reachable L s →
  (∃ cur, curTask s = Some cur ∧ is_Some (task_of s cur)) ∧
  (∀ r, has_state s r TASK_RUNNING → curTask s = Some r) ∧
  (has_state s Idle TASK_READY ∨ has_state s Idle TASK_RUNNING) ∧
  (∀ i t, 1 ≤ i → task_of s (Slot i) = Some t → state t ≠ TASK_TERMINATED → id t = i) ∧
  (∀ r t, task_of s r = Some t → curTask s ≠ Some r →
     state t = TASK_READY ∨ state t = TASK_BLOCKED → on_stack L r (esp t)).
Proof.
  intros HL Hr. destruct (reachable_inv L HL s Hr) as [Hb (cur & t & Hcur & Ht & _)]. split_and!.
  - eauto.
  - apply (inv_run _ _ Hb).
  - destruct (inv_idle _ _ Hb); [left|right]; by eexists.
  - intros i ti Hi Hti Hst. apply (inv_used _ _ Hb); [done|]. split; [done|].
    destruct (decide (i < nextTaskID s)) as [|Hge]; [done|].
    destruct (inv_fresh _ _ Hb i ti Hti) as [_ ?]; [lia|done].
  - apply (inv_esp _ _ Hb).
Qed.

Lemma scheduler_invariant_witness :
  ∃ cur, curTask demo_sched = Some cur ∧ is_Some (task_of demo_sched cur).
Proof.
  exact (proj1 (scheduler_invariant demo_layout demo_sched demo_layout_ok demo_reachable)).
Defined.

(** C20. The scheduler never gets stuck and never mixes up stacks: from a
    reachable state every operation that the current task can start returns, and
    the frame that a timer tick, a yield or an exit returns to the interrupt
    stub lies on the stack of the task that is then current, which shares no
    byte with any other task's stack. *)
Theorem scheduler_step_safe L s e :
  layout_ok L → reachable L s → enabled L s e →
  ∃ v s', run_event L e s = Some (v, s') ∧ reachable L s' ∧
    (switches e → ∃ cur, curTask s' = Some cur ∧ on_stack L cur v ∧
       ∀ r, r ≠ cur → is_Some (task_of s' r) → ¬ on_stack L r v).
Proof.
  intros HL Hr He. pose proof (event_inv L HL e s (reachable_inv L HL s Hr) He) as Hwp.
  apply wp_inv in Hwp as (v & s' & Hrun & Hinv & Hres). exists v, s'. split; [done|].
  assert (reachable L s') as Hr' by (eapply reach_step; [done|by constructor]).
  split; [done|]. intros Hs. destruct (Hres Hs) as ([Hb (c & t & Hc & Ht & _)] & cur & Hcur & Hon).
  assert (c = cur) as -> by congruence. exists cur. split; [done|]. split; [done|].
  intros r Hne [tr Htr] Hon'. apply Hne.
  by apply (stacks_apart L HL s' r cur tr t v (inv_len _ _ Hb)).
Qed.

Lemma scheduler_step_safe_witness :
  ∃ v s', run_event demo_layout (Yield 0x9DFC0) demo_sched = Some (v, s') ∧ reachable demo_layout s' ∧
    (switches (Yield 0x9DFC0) → ∃ cur, curTask s' = Some cur ∧ on_stack demo_layout cur v ∧
       ∀ r, r ≠ cur → is_Some (task_of s' r) → ¬ on_stack demo_layout r v).
Proof.
  apply (scheduler_step_safe demo_layout demo_sched (Yield 0x9DFC0) demo_layout_ok demo_reachable).
  exists (Slot 0). split; [done|]. vm_compute. by split.
Defined.

(** C18. Round robin: a reschedule from the running task [cur] runs the first
    ready slot after [cur] in cyclic order ([cur] itself last, as it has been
    made ready again), and the idle task only when no slot is ready. *)
Theorem schedule_round_robin L s cur t regs :
  sched_base L s → curTask s = Some cur → task_of s cur = Some t → regs ≠ 0 →
  ∃ e s' nxt, scheduler_schedule regs s = Some (e, s') ∧ curTask s' = Some nxt ∧
    let s1 := put_task cur (preempt regs t) s in
    match nxt with
    | Slot k => has_state s1 (Slot k) TASK_READY ∧
        ∀ j, has_state s1 (Slot j) TASK_READY → distance cur k ≤ distance cur j
    | Idle => ∀ j, ¬ has_state s1 (Slot j) TASK_READY
    end.
Proof.
  intros Hb Hcur Ht Hregs. pose proof (schedule_spec regs cur t s (inv_len _ _ Hb) Hcur Ht Hregs) as Hwp.
  cbv zeta in *. set (s1 := put_task cur (preempt regs t) s) in *.
  apply wp_inv in Hwp as (e & s' & Hrun & t' & Ht' & -> & ->).
  assert (length (tasks s1) = 16%nat) as Hlen1 by (unfold s1; autorewrite with sched; apply Hb).
  assert (task_of s1 cur = Some (preempt regs t)) as Hc1
    by (unfold s1; rewrite task_of_put by eauto; by rewrite decide_True).
  eexists _, _, (choose s1 cur). split; [done|]. split; [apply switched_cur|].
  assert (∀ j, has_state s1 (Slot j) TASK_READY → 0 ≤ j < 16 ∧ is_state TASK_READY s1 j = true) as Hst.
  { intros j (tj & Htj & Hj). split; [by eapply task_of_slot_range|].
    unfold is_state. rewrite Htj. by apply bool_decide_eq_true. }
  destruct (choose_spec s1 cur Hlen1 (ex_intro _ _ Hc1)) as [Hch|[Hch Hno]].
  - destruct (choose s1 cur) as [k|] eqn:E.
    + split; [done|]. intros j Hj. destruct (Hst j Hj) as [Hjr Hjs]. destruct (Hst k Hch) as [Hkr _].
      destruct (choose_distance s1 cur j Hjr Hjs) as [E'|(k' & E' & Hk' & Hd & Hd')].
      * assert (k = j) as -> by congruence. done.
      * assert (k' = k) as -> by congruence. lia.
    + intros j Hj. destruct (Hst j Hj) as [Hjr Hjs].
      destruct (choose_distance s1 cur j Hjr Hjs) as [E'|(k' & E' & _)]; congruence.
  - by rewrite Hch.
Qed.

Lemma schedule_round_robin_witness :
  ∃ e s' nxt, scheduler_schedule 0x9DFC0 demo_two = Some (e, s') ∧ curTask s' = Some nxt ∧
    let s1 := put_task (Slot 0) (preempt 0x9DFC0 (mkTask 0 0 TASK_RUNNING 0)) demo_two in
    match nxt with
    | Slot k => has_state s1 (Slot k) TASK_READY ∧
        ∀ j, has_state s1 (Slot j) TASK_READY → distance (Slot 0) k ≤ distance (Slot 0) j
    | Idle => ∀ j, ¬ has_state s1 (Slot j) TASK_READY
    end.
Proof.
  apply (schedule_round_robin demo_layout demo_two (Slot 0) (mkTask 0 0 TASK_RUNNING 0) 0x9DFC0).
  - apply demo_two_inv.
  - vm_compute. reflexivity.
  - vm_compute. reflexivity.
  - lia.
Defined.

(** C22. Bounded waiting: in any run of the scheduler a ready task is passed
    over at most 15 times; so a task that stays ready is running after at most
    16 choices of a next task, whatever the tasks do meanwhile. *)
Theorem bounded_waiting L j s n s' :
  layout_ok L → reachable L s → has_state s (Slot j) TASK_READY →
  waits L j s n s' → n ≤ 15.
Proof.
  intros HL Hr (t & Ht & Hready) Hw. pose proof (reachable_inv L HL s Hr) as Hinv.
  pose proof Hinv as [_ (cur & tc & Hcur & Htc & Hst)].
  assert (cur ≠ Slot j) as Hne.
  { intros ->. assert (tc = t) as -> by congruence. destruct Hst as [?|[? _]]; congruence. }
  assert (waiting j (distance cur j) s) as Hwait.
  { split; [unfold is_state; rewrite Ht; by apply bool_decide_eq_true|]. by exists cur. }
  pose proof (waits_bound L HL j s n s' _ Hw Hinv Hwait). pose proof (distance_range cur j). lia.
Qed.

(** Task 2 of [demo_two] waits while the kernel task yields to task 1; it is passed
    over once then, and never more than 15 times. *)
Lemma bounded_waiting_witness :
  waits demo_layout 2 demo_two 1 (final (scheduler_schedule 0x9DFC0) demo_two) ∧ 1 ≤ 15 ∧
  ∀ n s', waits demo_layout 2 demo_two n s' → n ≤ 15.
Proof.
  assert (has_state demo_two (Slot 2) TASK_READY) as Hst by (exists (mkTask 2 0x21FC8 TASK_READY 0); vm_compute; by split).
  assert (waits demo_layout 2 demo_two 1 (final (scheduler_schedule 0x9DFC0) demo_two)) as Hw.
  { eapply (waits_step _ _ demo_two (Yield 0x9DFC0) 0x20FC8 _ 0).
    - constructor; [|vm_compute; reflexivity]. exists (Slot 0). vm_compute. by split.
    - vm_compute. congruence.
    - constructor. }
  split; [exact Hw|]. split; [exact (bounded_waiting demo_layout 2 demo_two 1 _ demo_layout_ok demo_two_reachable Hst Hw)|].
  intros n s' Hn. exact (bounded_waiting demo_layout 2 demo_two n s' demo_layout_ok demo_two_reachable Hst Hn).
Defined.

(** C32. [task_create]: -1 for a null entry point or when all 15 slots are taken,
    and then nothing has changed; otherwise the result is the first free slot,
    which becomes ready with that id.  No other task, the current task and the
    interrupt flag are as before. *)
Theorem task_create_correct L s entry :
  sched_inv L s →
  ∃ v s', task_create L entry s = Some (v, s') ∧
    sched_eflags s' = sched_eflags s ∧ curTask s' = curTask s ∧
    (v = -1 → s' = s ∧ (entry = 0 ∨ ∀ i, 1 ≤ i < 16 → ¬ has_state s (Slot i) TASK_TERMINATED)) ∧
    (v ≠ -1 → entry ≠ 0 ∧ 1 ≤ v < 16 ∧
       has_state s (Slot v) TASK_TERMINATED ∧
       (∀ i, 1 ≤ i < v → ¬ has_state s (Slot i) TASK_TERMINATED) ∧
       (∃ t, task_of s' (Slot v) = Some t ∧ id t = v ∧ state t = TASK_READY) ∧
       ∀ r, r ≠ Slot v → task_of s' r = task_of s r).
Proof.
  intros [Hb _]. pose proof (task_create_spec L entry s Hb) as Hwp.
  apply wp_inv in Hwp as (v & s' & Hrun & H). exists v, s'. split; [done|].
  destruct (decide (entry = 0)) as [->|He].
  { destruct H as [-> ->]. split_and!; auto; done. }
  destruct (free_slot s) as [i|] eqn:Hf.
  - destruct H as (-> & t & Ht & ->).
    destruct (free_slot_spec L s i Hb Hf) as (Hi & _ & t0 & Ht0 & Hterm & _).
    split_and!; [done|done|lia|]. intros _. split_and!; [done|lia|lia|by exists t0| | |].
    + intros k Hk. by eapply free_slot_first.
    + eexists. unfold created. rewrite task_of_put by (exists t; exact Ht).
      by rewrite decide_True.
    + intros r Hr. unfold created. rewrite task_of_put by (exists t; exact Ht).
      rewrite decide_False by done. by destruct r.
  - destruct H as [-> ->]. split_and!; auto; [|done]. intros _. split; [done|]. right.
    intros i Hi (t & Ht & Hst). eapply (List.find_none _ _) with (x := i) in Hf.
    + unfold is_state in Hf. rewrite Ht in Hf. by apply bool_decide_eq_false in Hf.
    + apply list_elem_of_In, elem_of_seqZ. unfold MAX_TASKS. lia.
Qed.

Lemma task_create_correct_witness :
  ∃ v s', task_create demo_layout 0x9600 demo_two = Some (v, s') ∧
    sched_eflags s' = sched_eflags demo_two.
Proof.
  destruct (task_create_correct demo_layout demo_two 0x9600 demo_two_inv)
    as (v & s' & Hrun & Hf & _). exists v, s'. exact (conj Hrun Hf).
Defined.

(** C33. A created task starts at its entry point: its saved frame, restored by
    the interrupt stub, gives EIP = entry with the kernel code segment,
    interrupts enabled and zero registers, and a stack whose top word is
    [task_exit], so that returning from the entry point ends the task. *)
Theorem task_create_starts_entry L s entry :
  layout_ok L → sched_inv L s → entry ≠ 0 →
  (∃ i, 1 ≤ i < 16 ∧ has_state s (Slot i) TASK_TERMINATED) →
  ∃ v s' t, task_create L entry s = Some (v, s') ∧ task_of s' (Slot v) = Some t ∧
    let c := isr_return (stacks s') (esp t) in
    r_eip c = entry ∧ r_cs c = 0x08 ∧ interrupts_enabled c = true ∧
    r_eax c = 0 ∧ r_ebx c = 0 ∧ r_ecx c = 0 ∧ r_edx c = 0 ∧
    on_stack L (Slot v) (r_esp c) ∧ getw (stacks s') (r_esp c) = task_exit_addr L.
Proof.
  intros HL [Hb _] He (i & Hi & ti & Hti & Hterm). pose proof (task_create_spec L entry s Hb) as Hwp.
  apply wp_inv in Hwp as (v & s' & Hrun & H). destruct (decide (entry = 0)); [done|].
  destruct (free_slot s) as [k|] eqn:Hf.
  - destruct H as (-> & t & Ht & ->).
    destruct (free_slot_spec L s k Hb Hf) as (Hk & _).
    destruct (created_context L HL k entry t s Hk Ht) as (H1 & H2 & H3).
    eexists k, _, _. split; [exact Hrun|]. split; [exact H1|]. cbn [esp]. cbv zeta.
    rewrite H2. split_and!; try done. cbn [r_esp].
    unfold on_stack, stack_size, STACK_SIZE. decides. lia.
  - exfalso. eapply (List.find_none _ _) with (x := i) in Hf.
    + unfold is_state in Hf. rewrite Hti in Hf. by apply bool_decide_eq_false in Hf.
    + apply list_elem_of_In, elem_of_seqZ. unfold MAX_TASKS. lia.
Qed.

Lemma task_create_starts_entry_witness :
  ∃ v s' t, task_create demo_layout 0x9600 demo_two = Some (v, s') ∧
    task_of s' (Slot v) = Some t ∧
    let c := isr_return (stacks s') (esp t) in
    r_eip c = 0x9600 ∧ r_cs c = 0x08 ∧ interrupts_enabled c = true ∧
    r_eax c = 0 ∧ r_ebx c = 0 ∧ r_ecx c = 0 ∧ r_edx c = 0 ∧
    on_stack demo_layout (Slot v) (r_esp c) ∧ getw (stacks s') (r_esp c) = task_exit_addr demo_layout.
Proof.
  apply (task_create_starts_entry demo_layout demo_two 0x9600 demo_layout_ok demo_two_inv).
  - lia.
  - exists 3. split; [lia|]. exists (mkTask 0 0 TASK_TERMINATED 0). vm_compute. by split.
Defined.

(** [task_unblock] returns 0 exactly when the id names a blocked task,
    which becomes ready and nothing else changes; otherwise -1 and nothing
    changes at all. *)
Theorem task_unblock_correct L s tid :
  sched_inv L s →
  ∃ v s', task_unblock tid s = Some (v, s') ∧
    (v = 0 ↔ 1 ≤ tid ∧ has_state s (Slot tid) TASK_BLOCKED) ∧
    (v = 0 → has_state s' (Slot tid) TASK_READY ∧ curTask s' = curTask s ∧
       sched_eflags s' = sched_eflags s ∧ ∀ r, r ≠ Slot tid → task_of s' r = task_of s r) ∧
    (v ≠ 0 → v = -1 ∧ s' = s).
Proof.
  intros [Hb _]. apply wp_inv, (unblock_spec L); [done| |].
  - intros t Htid Ht Hbl. split_and!; [|intros _|done].
    + split; [intros _; split; [done|by exists t]|done].
    + split_and!; [|done|done|].
      * exists (with_state TASK_READY t). rewrite task_of_put by eauto. by rewrite decide_True.
      * intros r Hr. rewrite task_of_put by eauto. by rewrite decide_False.
  - intros Hno. split_and!; [|done|done]. split; [done|].
    intros [Htid Hbl]. by destruct (Hno tid Htid Hbl).
Qed.

(** Task 1 has blocked itself; the kernel task runs. *)
Definition demo_blocked : sched :=
  final (task_block 0x20F00) (final (scheduler_schedule 0x9DFC0)
    (final (task_create demo_layout 0x9400) demo_sched)).

Lemma demo_blocked_reachable : reachable demo_layout demo_blocked.
Proof.
  set (s1 := final (task_create demo_layout 0x9400) demo_sched).
  set (s2 := final (scheduler_schedule 0x9DFC0) s1).
  set (s3 := final task_block_mark s2).
  assert (reachable demo_layout s1) as H1.
  { apply (reach_step _ demo_sched (Create 0x9400) 1); [apply demo_reachable|].
    constructor; [|vm_compute; reflexivity]. exists (Slot 0). split; [vm_compute; reflexivity|].
    exists (mkTask 0 0 TASK_RUNNING 0). vm_compute. split; reflexivity. }
  assert (reachable demo_layout s2) as H2.
  { apply (reach_step _ s1 (Yield 0x9DFC0) 0x20FC8); [done|].
    constructor; [|vm_compute; reflexivity]. exists (Slot 0). vm_compute. by split. }
  assert (reachable demo_layout s3) as H3.
  { apply (reach_step _ s2 BlockMark 0); [done|].
    constructor; [|vm_compute; reflexivity]. exists (Slot 1). split; [vm_compute; reflexivity|].
    split; [|done]. exists (mkTask 1 0x20FC8 TASK_RUNNING 0). vm_compute. split; reflexivity. }
  apply (reach_step _ s3 (Yield 0x20F00) 0x9DFC0); [done|].
  constructor; [|vm_compute; reflexivity]. exists (Slot 1). vm_compute. by split.
Qed.

Lemma task_unblock_correct_witness :
  ∃ v s', task_unblock 1 demo_blocked = Some (v, s') ∧
    (v = 0 ↔ 1 ≤ 1 ∧ has_state demo_blocked (Slot 1) TASK_BLOCKED).
Proof.
  destruct (task_unblock_correct demo_layout demo_blocked 1
              (reachable_inv _ demo_layout_ok _ demo_blocked_reachable))
    as (v & s' & Hrun & Hv & _). exists v, s'. exact (conj Hrun Hv).
Defined.

(** A run of [n] timer ticks while the same code is interrupted at [regs]. *)
Fixpoint ticks (n : nat) (regs : Z) : M sched Z :=
  match n with
  | O => mret regs
  | S n => p ← scheduler_tick regs; ticks n p
  end.

(** The time slice: after a switch the next nine timer ticks return the
    interrupted frame and change nothing but the tick counter, and the tenth one
    reschedules. *)
Theorem time_slice s regs n :
  schedulerTicks s = 0 → (n < 10)%nat →
  ticks n regs s = Some (regs, set_schedulerTicks (Z.of_nat n) s) ∧
  ticks 10 regs s = scheduler_schedule regs s.
Proof.
  intros H0 Hn.
  assert (∀ k, (k < 10)%nat → ∀ m, ticks (k + m) regs s =
            ticks m regs (set_schedulerTicks (Z.of_nat k) s)) as Hticks.
  { induction k as [|k IH]; intros Hk m.
    - simpl. f_equal. apply sched_ext; done.
    - replace (S k + m)%nat with (k + S m)%nat by lia. rewrite IH by lia. cbn [ticks].
      unfold mbind, M_bind. unfold scheduler_tick at 1. unfold mbind, M_bind, modify, gets. simpl.
      rewrite u32_small by lia.
      destruct (Z.ltb_spec (Z.of_nat k + 1) TIME_SLICE_MS) as [|H]; [|unfold TIME_SLICE_MS in H; lia].
      unfold mret, M_ret. f_equal. unfold set_schedulerTicks. simpl. f_equal. lia. }
  split.
  - rewrite <- (Nat.add_0_r n) at 1. by rewrite Hticks by lia.
  - change 10%nat with (9 + 1)%nat. rewrite (Hticks 9%nat ltac:(lia) 1%nat). simpl. unfold mbind, M_bind.
    unfold scheduler_tick, modify, gets, mbind, M_bind. simpl.
    replace (set_schedulerTicks 0 _) with s by (destruct s; simpl in *; by subst).
    unfold mret, M_ret. by destruct (scheduler_schedule regs s) as [[]|].
Qed.

Lemma time_slice_witness :
  ticks 9 0x9DFC0 demo_two = Some (0x9DFC0, set_schedulerTicks 9 demo_two) ∧
  ticks 10 0x9DFC0 demo_two = scheduler_schedule 0x9DFC0 demo_two.
Proof. apply (time_slice demo_two 0x9DFC0 9); [vm_compute; reflexivity|lia]. Defined.

End Scheduler.
