(* ===== verification/Vga.v ===== *)
(** * The text terminal (src/kernel/drivers/video/vga.c)

    A scroll-back buffer of 1000 lines of 80 cells, a cursor, a viewport of 25
    lines and the VGA text memory that shows it; character output, formatted
    output and scrolling. *)

From S2P Require Import Prelude Io.
Import Io.

Module Vga.

(** ** Data *)

Definition VGA_WIDTH : Z := 80.
Definition VGA_HEIGHT : Z := 25.
Definition TERMINAL_LINES : Z := 1000.

Definition VGA_BLACK : Z := 0x0.
Definition VGA_LIGHT_GREEN : Z := 0xA.
Definition VGA_LIGHT_RED : Z := 0xC.
Definition VGA_WHITE : Z := 0xF.

Definition VGA_COLOR (fg bg : Z) : Z := Z.lor (u8 fg) (Z.shiftl (u8 bg) 4).
Definition VGA_ENTRY (ch fg bg : Z) : Z :=
  Z.lor (u16 ch) (Z.shiftl (u16 (VGA_COLOR fg bg)) 8).
Definition VGA_CLEAR : Z := VGA_ENTRY 32 VGA_BLACK VGA_BLACK.

(** The static variables of vga.c, the text memory at 0xB8000 (2000 cells) and
    the EFLAGS register. *)
Record vga : Type := mkVga {
  terminalBuffer : list (list Z);
  cursorX : Z;
  cursorY : Z;
  viewportY : Z;
  renderPending : bool;
  vgaColor : Z;
  screen : list Z;
  vga_eflags : Z
}.

Definition set_terminalBuffer (x : list (list Z)) (s : vga) : vga :=
  mkVga x (cursorX s) (cursorY s) (viewportY s) (renderPending s) (vgaColor s) (screen s) (vga_eflags s).
Definition set_cursorX (x : Z) (s : vga) : vga :=
  mkVga (terminalBuffer s) x (cursorY s) (viewportY s) (renderPending s) (vgaColor s) (screen s) (vga_eflags s).
Definition set_cursorY (x : Z) (s : vga) : vga :=
  mkVga (terminalBuffer s) (cursorX s) x (viewportY s) (renderPending s) (vgaColor s) (screen s) (vga_eflags s).
Definition set_viewportY (x : Z) (s : vga) : vga :=
  mkVga (terminalBuffer s) (cursorX s) (cursorY s) x (renderPending s) (vgaColor s) (screen s) (vga_eflags s).
Definition set_renderPending (x : bool) (s : vga) : vga :=
  mkVga (terminalBuffer s) (cursorX s) (cursorY s) (viewportY s) x (vgaColor s) (screen s) (vga_eflags s).
Definition set_vgaColor (x : Z) (s : vga) : vga :=
  mkVga (terminalBuffer s) (cursorX s) (cursorY s) (viewportY s) (renderPending s) x (screen s) (vga_eflags s).
Definition set_screen (x : list Z) (s : vga) : vga :=
  mkVga (terminalBuffer s) (cursorX s) (cursorY s) (viewportY s) (renderPending s) (vgaColor s) x (vga_eflags s).

#[global] Instance vga_HasEflags : HasEflags vga := {
  get_eflags := vga_eflags;
  set_eflags f s := mkVga (terminalBuffer s) (cursorX s) (cursorY s) (viewportY s)
                      (renderPending s) (vgaColor s) (screen s) f
}.
#[global] Instance vga_EflagsLaws : EflagsLaws vga.
Proof. by split; [|intros ? ? []|intros []]. Qed.

(** ** Operations *)

(** [terminalBuffer[y][x]] *)
Definition load_cell (y x : Z) : M vga Z :=
  row ← load_at terminalBuffer y; lift (aget row x).
Definition store_cell (y x e : Z) : M vga unit :=
  row ← load_at terminalBuffer y;
  row' ← lift (aset x e row);
  store_at terminalBuffer set_terminalBuffer y row'.

Definition vga_render : M vga unit :=
  mfor (range 0 VGA_HEIGHT) (λ screenY,
    v ← gets viewportY;
    let bufferY := u32 (v + screenY) in
    mfor (range 0 VGA_WIDTH) (λ x,
      e ← if bufferY <? TERMINAL_LINES then load_cell bufferY x else mret VGA_CLEAR;
      store_at screen set_screen (screenY * VGA_WIDTH + x) e)).

Definition vga_follow_cursor : M vga unit :=
  s ← gets (λ s, s);
  when (u32 (viewportY s + VGA_HEIGHT) <=? cursorY s)
    (_ ← modify (set_viewportY (u32 (u32 (cursorY s - VGA_HEIGHT) + 1)));
     modify (set_renderPending true)).

Definition vga_write_cell (bufferY x entry : Z) : M vga unit :=
  s ← gets (λ s, s);
  when (negb (renderPending s) && (viewportY s <=? bufferY) &&
        (bufferY <? u32 (viewportY s + VGA_HEIGHT)))
    (store_at screen set_screen ((bufferY - viewportY s) * VGA_WIDTH + x) entry).

Definition vga_flush : M vga unit :=
  p ← gets renderPending;
  when p (_ ← vga_render; modify (set_renderPending false)).

(** The effect of the character itself, the [switch] of [vga_putchar_raw]. *)
Definition putchar_switch (c : Z) : M vga unit :=
  s ← gets (λ s, s);
  if c =? 9 then
    _ ← modify (set_cursorX (Z.land (u32 (cursorX s + 4)) (u32 (Z.lnot 3))));
    x ← gets cursorX;
    when (VGA_WIDTH <=? x)
      (_ ← modify (set_cursorX 0); modify (set_cursorY (u32 (cursorY s + 1))))
  else if c =? 10 then
    _ ← modify (set_cursorX 0); modify (set_cursorY (u32 (cursorY s + 1)))
  else if c =? 13 then modify (set_cursorX 0)
  else if c =? 8 then
    when (0 <? cursorX s)
      (_ ← modify (set_cursorX (cursorX s - 1));
       _ ← store_cell (cursorY s) (cursorX s - 1) VGA_CLEAR;
       vga_write_cell (cursorY s) (cursorX s - 1) VGA_CLEAR)
  else
    let entry := u16 (Z.lor (u8 c) (Z.shiftl (vgaColor s) 8)) in
    _ ← store_cell (cursorY s) (cursorX s) entry;
    _ ← vga_write_cell (cursorY s) (cursorX s) entry;
    _ ← modify (set_cursorX (u32 (cursorX s + 1)));
    x ← gets cursorX;
    when (VGA_WIDTH <=? x)
      (_ ← modify (set_cursorX 0); modify (set_cursorY (u32 (cursorY s + 1)))).

(** Moving every line up by one when the cursor has left the buffer. *)
Definition putchar_scroll : M vga unit :=
  y ← gets cursorY;
  when (TERMINAL_LINES <=? y)
    (_ ← mfor (range 1 TERMINAL_LINES) (λ y,
           mfor (range 0 VGA_WIDTH) (λ x,
             e ← load_cell y x; store_cell (y - 1) x e));
     _ ← mfor (range 0 VGA_WIDTH) (λ x, store_cell (TERMINAL_LINES - 1) x VGA_CLEAR);
     _ ← modify (set_cursorY (TERMINAL_LINES - 1));
     modify (set_renderPending true)).

Definition vga_putchar_raw (c : Z) : M vga unit :=
  _ ← putchar_switch (u8 c);
  _ ← putchar_scroll;
  vga_follow_cursor.

Definition digits : list Z := cstr "0123456789abcdef".

(** The first loop of [vga_print_unsigned]: the digits, last one first, into
    [buffer[16]]; a seventeenth digit would be written outside it. *)
Fixpoint print_digits (fuel : nat) (value base : Z) (buffer : list Z) : M vga (list Z) :=
  if value =? 0 then mret buffer
  else match fuel with
       | O => undef
       | S fuel =>
           if 16 <=? Z.of_nat (length buffer) then undef
           else if base =? 0 then undef
           else
             d ← lift (aget digits (value `mod` base));
             print_digits fuel (value / base) base (buffer ++ [d])
       end.

Definition vga_print_unsigned (value base : Z) : M vga Z :=
  if value =? 0 then _ ← vga_putchar_raw 48; mret 1
  else
    buffer ← print_digits 17 value base [];
    _ ← mfor (reverse buffer) vga_putchar_raw;
    mret (Z.of_nat (length buffer)).

Definition vga_print_signed (value : Z) : M vga Z :=
  if value <? 0 then
    _ ← vga_putchar_raw 45;
    n ← vga_print_unsigned (u32 (u32 (- (value + 1)) + 1)) 10;
    mret (1 + n)
  else vga_print_unsigned (u32 value) 10.

Definition vga_set_color (fg bg : Z) : M vga unit :=
  modify (set_vgaColor (u8 (VGA_COLOR fg bg))).
Definition vga_set_foreground (fg : Z) : M vga unit :=
  modify (λ s, set_vgaColor (u8 (VGA_COLOR fg (Z.shiftr (vgaColor s) 4))) s).
Definition vga_set_background (bg : Z) : M vga unit :=
  modify (λ s, set_vgaColor (u8 (VGA_COLOR (Z.land (vgaColor s) 0x0F) bg)) s).

Definition vga_clear : M vga unit :=
  _ ← mfor (range 0 TERMINAL_LINES) (λ y,
        mfor (range 0 VGA_WIDTH) (λ x, store_cell y x VGA_CLEAR));
  _ ← modify (set_cursorX 0);
  _ ← modify (set_cursorY 0);
  _ ← modify (set_viewportY 0);
  mfor (range 0 VGA_HEIGHT) (λ y,
    mfor (range 0 VGA_WIDTH) (λ x,
      store_at screen set_screen (y * VGA_WIDTH + x) VGA_CLEAR)).

Definition vga_putchar (c : Z) : M vga unit :=
  flags ← irq_save;
  _ ← vga_putchar_raw c;
  _ ← vga_flush;
  irq_restore flags.

(** [str] is the bytes of the string before its terminator. *)
Definition vga_write (str : list Z) : M vga unit :=
  flags ← irq_save;
  _ ← mfor str vga_putchar_raw;
  _ ← vga_flush;
  irq_restore flags.

Definition vga_scroll_up : M vga unit :=
  v ← gets viewportY;
  when (0 <? v) (_ ← modify (set_viewportY (v - 1)); vga_render).

(** [maxViewport] *)
Definition max_viewport (cy : Z) : Z :=
  if VGA_HEIGHT <=? cy then u32 (u32 (cy - VGA_HEIGHT) + 1) else 0.

Definition vga_scroll_down : M vga unit :=
  s ← gets (λ s, s);
  when (viewportY s <? max_viewport (cursorY s))
    (_ ← modify (set_viewportY (u32 (viewportY s + 1))); vga_render).

Definition vga_page_up : M vga unit :=
  v ← gets viewportY;
  _ ← (if VGA_HEIGHT <=? v then modify (set_viewportY (v - VGA_HEIGHT))
       else modify (set_viewportY 0));
  vga_render.

Definition vga_page_down : M vga unit :=
  s ← gets (λ s, s);
  let maxViewport := max_viewport (cursorY s) in
  _ ← modify (set_viewportY (u32 (viewportY s + VGA_HEIGHT)));
  v ← gets viewportY;
  _ ← when (maxViewport <? v) (modify (set_viewportY maxViewport));
  vga_render.

Definition vga_init : M vga unit := vga_clear.

(** ** Formatted output *)

(** A variadic argument: a 32-bit word ([int], [unsigned], [char]) or a
    [const char*] (None for NULL).  Reading an argument that is not there, or as
    the wrong kind, is undefined. *)
Inductive va_arg : Type :=
| VWord (w : Z)
| VStr (p : option (list Z)).

Definition va_word (args : list va_arg) : M vga (Z * list va_arg) :=
  match args with VWord w :: args => mret (w, args) | _ => undef end.
Definition va_string (args : list va_arg) : M vga (list Z * list va_arg) :=
  match args with
  | VStr p :: args => mret (default (cstr "(null)") p, args)
  | _ => undef
  end.

(** One conversion [%f]: what it prints and how many characters. *)
Definition vvga_conversion (f : Z) (args : list va_arg) : M vga (Z * list va_arg) :=
  if f =? 37 then _ ← vga_putchar_raw 37; mret (1, args)
  else if f =? 99 then
    '(w, args) ← va_word args; _ ← vga_putchar_raw w; mret (1, args)
  else if f =? 115 then
    '(str, args) ← va_string args;
    _ ← mfor str vga_putchar_raw; mret (Z.of_nat (length str), args)
  else if (f =? 100) || (f =? 105) then
    '(w, args) ← va_word args; n ← vga_print_signed (i32 w); mret (n, args)
  else if f =? 117 then
    '(w, args) ← va_word args; n ← vga_print_unsigned (u32 w) 10; mret (n, args)
  else if f =? 120 then
    '(w, args) ← va_word args;
    _ ← vga_putchar_raw 48;
    _ ← vga_putchar_raw 120;
    n ← vga_print_unsigned (u32 w) 16; mret (2 + n, args)
  else
    _ ← vga_putchar_raw 37; _ ← vga_putchar_raw f; mret (2, args).

Fixpoint vvga_loop (fmt : list Z) (args : list va_arg) (cnt : Z) : M vga Z :=
  match fmt with
  | [] => mret cnt
  | c :: fmt =>
      if c =? 37 then
        match fmt with
        | [] => mret cnt
        | f :: fmt =>
            '(n, args) ← vvga_conversion f args;
            vvga_loop fmt args (cnt + n)
        end
      else _ ← vga_putchar_raw c; vvga_loop fmt args (cnt + 1)
  end.

Definition vvga_write (fmt : list Z) (args : list va_arg) : M vga Z :=
  vvga_loop fmt args 0.

Definition fvga_write (fmt : list Z) (args : list va_arg) : M vga Z :=
  flags ← irq_save;
  cnt ← vvga_write fmt args;
  _ ← vga_flush;
  _ ← irq_restore flags;
  mret cnt.

(** ** The buffer *)

Definition cell (b : list (list Z)) (y x : Z) : option Z := aget b y ≫= λ row, aget row x.

Definition put_cell (y x e : Z) (b : list (list Z)) : list (list Z) :=
  match aget b y with
  | Some row => <[Z.to_nat y := <[Z.to_nat x := e]> row]> b
  | None => b
  end.

(** A buffer of 1000 lines of 80 cells. *)
Definition rect (b : list (list Z)) : Prop :=
  length b = 1000%nat ∧ ∀ y row, aget b y = Some row → length row = 80%nat.

Lemma rect_row b y : rect b → 0 ≤ y < 1000 → ∃ row, aget b y = Some row ∧ length row = 80%nat.
Proof.
  intros [Hlen Hrow] Hy. destruct (aget_is_Some b y) as [row Hr]; [lia|]. eauto.
Qed.

Lemma rect_put y x e b : rect b → 0 ≤ y < 1000 → rect (put_cell y x e b).
Proof.
  intros Hb Hy. destruct (rect_row b y Hb Hy) as (row & Hr & Hl). destruct Hb as [Hlen Hrow].
  unfold put_cell. rewrite Hr. split; [by rewrite length_insert|]. intros y' row'.
  erewrite aget_aset by (apply aset_in; lia).
  destruct (decide (y = y')); [intros [= <-]; by rewrite length_insert|apply Hrow].
Qed.

Lemma cell_put y x e b y' x' :
  rect b → 0 ≤ y < 1000 → 0 ≤ x < 80 →
  cell (put_cell y x e b) y' x' = if decide (y = y' ∧ x = x') then Some e else cell b y' x'.
Proof.
  intros Hb Hy Hx. destruct (rect_row b y Hb Hy) as (row & Hr & Hl). destruct Hb as [Hlen Hrow].
  unfold put_cell, cell. rewrite Hr. erewrite aget_aset by (apply aset_in; lia).
  destruct (decide (y = y')) as [<-|]; [|rewrite decide_False by tauto; done].
  cbn. erewrite aget_aset by (apply aset_in; lia). rewrite Hr. cbn.
  destruct (decide (x = x')); [by rewrite decide_True|by rewrite decide_False by tauto].
Qed.

Lemma cell_is_Some b y x : rect b → 0 ≤ y < 1000 → 0 ≤ x < 80 → is_Some (cell b y x).
Proof.
  intros Hb Hy Hx. destruct (rect_row b y Hb Hy) as (row & Hr & Hl). unfold cell. rewrite Hr.
  apply aget_is_Some. lia.
Qed.

Lemma wp_load_cell y x e s (Q : Z → vga → Prop) :
  cell (terminalBuffer s) y x = Some e → Q e s → wp (load_cell y x) Q s.
Proof.
  unfold cell. intros He HQ. destruct (aget (terminalBuffer s) y) as [row|] eqn:Hr; [|done].
  unfold load_cell. wp_step. unfold load_at. wp_steps. eapply wp_lift; [done|]. by eapply wp_lift.
Qed.

Lemma wp_store_cell y x e s (Q : unit → vga → Prop) :
  rect (terminalBuffer s) → 0 ≤ y < 1000 → 0 ≤ x < 80 →
  Q tt (set_terminalBuffer (put_cell y x e (terminalBuffer s)) s) → wp (store_cell y x e) Q s.
Proof.
  intros Hb Hy Hx HQ. destruct (rect_row _ y Hb Hy) as (row & Hr & Hl). destruct Hb as [Hlen _].
  unfold put_cell in HQ. rewrite Hr in HQ.
  unfold store_cell. wp_step. unfold load_at. wp_steps. eapply wp_lift; [done|].
  wp_step. eapply wp_lift; [apply aset_in; lia|]. apply wp_store_at; [lia|done].
Qed.

(** ** What the screen shows *)

Definition shown (b : list (list Z)) (y x : Z) : option Z :=
  if decide (y < 1000) then cell b y x else Some VGA_CLEAR.

(** The text memory shows the 25 lines of the buffer from the viewport on. *)
Definition in_sync (s : vga) : Prop :=
  ∀ y x, 0 ≤ y < 25 → 0 ≤ x < 80 →
    aget (screen s) (y * 80 + x) = shown (terminalBuffer s) (viewportY s + y) x.

(** The invariant of the terminal, with the cursor on a line up to [top]; while a
    rendering is pending the text memory may lag behind. *)
Record vga_within (top : Z) (s : vga) : Prop := {
  ok_rect : rect (terminalBuffer s);
  ok_screen : length (screen s) = 2000%nat;
  ok_x : 0 ≤ cursorX s < 80;
  ok_y : 0 ≤ cursorY s ≤ top;
  ok_view : 0 ≤ viewportY s ≤ Z.max 0 (Z.min (cursorY s) 999 - 24);
  ok_color : 0 ≤ vgaColor s < 256;
  ok_sync : renderPending s = false → in_sync s
}.
Abbreviation vga_ok := (vga_within 999).

(** [vga_render] copies the viewport and changes nothing else. *)
Lemma render_spec s :
  rect (terminalBuffer s) → length (screen s) = 2000%nat → 0 ≤ viewportY s < 1000 →
  wp vga_render (λ _ s', ∃ scr, s' = set_screen scr s ∧ length scr = 2000%nat ∧ in_sync s') s.
Proof.
  intros Hb Hscr Hv.
  (* the cells before line [n], column [k] have been copied *)
  set (I n k s' := ∃ scr, s' = set_screen scr s ∧ length scr = 2000%nat ∧
        ∀ y x, 0 ≤ y < 25 → 0 ≤ x < 80 → y * 80 + x < n * 80 + k →
          aget scr (y * 80 + x) = shown (terminalBuffer s) (viewportY s + y) x).
  unfold vga_render. apply (wp_mfor_range (λ n, I n 0)).
  - unfold VGA_HEIGHT. lia.
  - exists (screen s). split; [by destruct s|]. split; [done|]. intros. lia.
  - intros n s1 Hn HI. unfold VGA_HEIGHT in Hn. do 2 wp_step.
    assert (viewportY s1 = viewportY s) as -> by (by destruct HI as (? & -> & _)).
    rewrite u32_small by lia. apply (wp_mfor_range (λ k, I n k)).
    + unfold VGA_WIDTH. lia.
    + done.
    + intros k s2 Hk (scr & -> & Hl & Hcopied). unfold VGA_WIDTH in Hk. wp_step.
      assert (is_Some (shown (terminalBuffer s) (viewportY s + n) k)) as [e He].
      { unfold shown. case_decide; [apply cell_is_Some; [done|lia|lia]|done]. }
      eapply (wp_mono _ (λ e' s', e' = e ∧ s' = set_screen scr s)).
      { unfold shown in He. destruct (Z.ltb_spec (viewportY s + n) TERMINAL_LINES) as [H|H];
          unfold TERMINAL_LINES in H.
        - rewrite decide_True in He by lia. by eapply wp_load_cell.
        - rewrite decide_False in He by lia. injection He as <-. by apply wp_ret. }
      intros e' s' [-> ->]. apply wp_store_at; [cbn [screen set_screen]; unfold VGA_WIDTH; lia|].
      cbn [screen set_screen]. eexists. split; [done|]. rewrite length_insert. split; [done|].
      intros y x Hy Hx Hlt. erewrite aget_aset by (apply aset_in; unfold VGA_WIDTH; lia).
      unfold VGA_WIDTH. case_decide as E.
      * assert (y = n ∧ x = k) as [-> ->] by lia. done.
      * apply Hcopied; lia.
    + intros s2 (scr & -> & Hl & Hcopied). exists scr. split; [done|]. split; [done|].
      intros y x Hy Hx Hlt. apply Hcopied; [lia|lia|unfold VGA_WIDTH; lia].
  - intros s1 (scr & -> & Hl & Hcopied). exists scr. split; [done|]. split; [done|].
    intros y x Hy Hx. apply Hcopied; [lia|lia|unfold VGA_HEIGHT; lia].
Qed.

Lemma flush_spec top s :
  vga_within top s →
  wp vga_flush (λ _ s', ∃ scr, s' = set_renderPending false (set_screen scr s) ∧
                          vga_within top s') s.
Proof.
  intros Hok. unfold vga_flush. wp_steps. apply wp_when; intros Hp.
  - wp_step. use_wp (render_spec s (ok_rect _ _ Hok) (ok_screen _ _ Hok)).
    { pose proof (ok_view _ _ Hok). lia. }
    intros _ s' (scr & -> & Hl & Hs). wp_step. exists scr. split; [done|].
    destruct Hok. by constructor.
  - exists (screen s). split; [destruct s; simpl in *; by subst|done].
Qed.

(** Storing a cell in the buffer and, when it is visible, in the text memory. *)
Lemma write_both y x e top s :
  vga_within top s → 0 ≤ y < 1000 → 0 ≤ x < 80 →
  wp (_ ← store_cell y x e; vga_write_cell y x e)
    (λ _ s', ∃ scr, s' = set_screen scr (set_terminalBuffer (put_cell y x e (terminalBuffer s)) s) ∧
              vga_within top s') s.
Proof.
  intros Hok Hy Hx. destruct Hok as [Hrect Hscr Hcx Hcy Hv Hcol Hsync]. wp_step.
  apply wp_store_cell; [done|done|done|]. set (s1 := set_terminalBuffer _ s).
  assert (∀ scr, length scr = 2000%nat → (renderPending s = false → in_sync (set_screen scr s1)) →
            vga_within top (set_screen scr s1)) as Hok1
    by (intros; constructor; try done; by apply rect_put).
  unfold vga_write_cell. do 2 wp_step. cbn [renderPending viewportY s1 set_terminalBuffer].
  rewrite u32_small by (unfold VGA_HEIGHT; lia). unfold VGA_HEIGHT, VGA_WIDTH. apply wp_when.
  - intros [[Hp Hlo%Z.leb_le]%andb_true_iff Hhi%Z.ltb_lt]%andb_true_iff. apply negb_true_iff in Hp.
    specialize (Hsync Hp). apply wp_store_at; [cbn [screen s1 set_terminalBuffer]; lia|].
    cbn [screen s1 set_terminalBuffer]. eexists. split; [done|].
    apply Hok1; [by rewrite length_insert|]. intros _ y' x' Hy' Hx'.
    cbn [screen set_screen terminalBuffer viewportY s1 set_terminalBuffer].
    erewrite aget_aset by (apply aset_in; lia). rewrite (Hsync y' x') by done.
    unfold shown. rewrite cell_put by done.
    destruct (decide ((y - viewportY s) * 80 + x = y' * 80 + x')) as [E|E].
    + assert (y = viewportY s + y' ∧ x = x') as [-> ->] by lia. by rewrite !decide_True by lia.
    + destruct (decide (viewportY s + y' < 1000)); [|done]. by rewrite (decide_False (P := _ ∧ _)) by lia.
  - intros Hn. exists (screen s). split; [by destruct s|].
    apply Hok1; [done|]. intros Hp. specialize (Hsync Hp). rewrite Hp in Hn. simpl in Hn.
    intros y' x' Hy' Hx'. cbn [screen set_screen terminalBuffer viewportY s1 set_terminalBuffer].
    rewrite (Hsync y' x') by done. unfold shown. rewrite cell_put by done.
    destruct (decide (viewportY s + y' < 1000)); [|done].
    rewrite (decide_False (P := _ ∧ _)); [done|]. intros [-> _].
    apply andb_false_iff in Hn as [Hn%Z.leb_gt|Hn%Z.ltb_ge]; lia.
Qed.

(** Two buffers with the same cells are equal. *)
Lemma rect_ext b b' :
  rect b → rect b' → (∀ y x, 0 ≤ y < 1000 → 0 ≤ x < 80 → cell b y x = cell b' y x) → b = b'.
Proof.
  intros Hb Hb' Hcell. apply list_eq_same_length with 1000%nat; [apply Hb'|apply Hb|].
  intros n row row' Hn Hr Hr'.
  assert (aget b (Z.of_nat n) = Some row) as Hg by (apply aget_Some; rewrite Nat2Z.id; by split; [lia|]).
  assert (aget b' (Z.of_nat n) = Some row') as Hg' by (apply aget_Some; rewrite Nat2Z.id; by split; [lia|]).
  apply list_eq_same_length with 80%nat; [by apply Hb' in Hg'|by apply Hb in Hg|].
  intros k e e' Hk He He'. specialize (Hcell (Z.of_nat n) (Z.of_nat k) ltac:(lia) ltac:(lia)).
  unfold cell in Hcell. rewrite Hg, Hg' in Hcell. simpl in Hcell.
  assert (aget row (Z.of_nat k) = Some e) as H1 by (apply aget_Some; rewrite Nat2Z.id; by split; [lia|]).
  assert (aget row' (Z.of_nat k) = Some e') as H2 by (apply aget_Some; rewrite Nat2Z.id; by split; [lia|]).
  congruence.
Qed.

Definition blank_line : list Z := replicate 80 VGA_CLEAR.

(** The buffer moved up by one line. *)
Definition scrolled (b : list (list Z)) : list (list Z) := drop 1 b ++ [blank_line].

Lemma scrolled_rect b : rect b → rect (scrolled b).
Proof.
  intros [Hlen Hrow]. split.
  - unfold scrolled. rewrite length_app, length_drop. simpl. lia.
  - intros y row [Hy Hr]%aget_Some. unfold scrolled in Hr. apply lookup_app_Some in Hr as [Hr|[Hge Hr]].
    + rewrite lookup_drop in Hr. apply (Hrow (1 + y)). apply aget_Some. split; [lia|].
      by replace (Z.to_nat (1 + y)) with (1 + Z.to_nat y)%nat by lia.
    + apply list_lookup_singleton_Some in Hr as [_ <-]. done.
Qed.

Lemma scrolled_cell b y x :
  rect b → 0 ≤ y < 1000 → 0 ≤ x < 80 →
  cell (scrolled b) y x = if decide (y < 999) then cell b (y + 1) x else Some VGA_CLEAR.
Proof.
  intros [Hlen Hrow] Hy Hx. unfold cell, scrolled, aget. rewrite !(decide_True (P := 0 ≤ _)) by lia.
  destruct (decide (y < 999)).
  - rewrite lookup_app_l by (rewrite length_drop; lia). rewrite lookup_drop.
    by replace (1 + Z.to_nat y)%nat with (Z.to_nat (y + 1)) by lia.
  - rewrite lookup_app_r by (rewrite length_drop; lia). rewrite length_drop.
    replace (Z.to_nat y - (length b - 1))%nat with 0%nat by lia. cbn [lookup list_lookup mbind option_bind].
    rewrite (decide_True (P := 0 ≤ x)) by lia. apply lookup_replicate_2. lia.
Qed.

(** The two loops of the scroll. *)
Lemma scroll_loops s (Q : unit → vga → Prop) k :
  rect (terminalBuffer s) →
  wp (k tt) Q (set_terminalBuffer (scrolled (terminalBuffer s)) s) →
  wp (_ ← mfor (range 1 TERMINAL_LINES) (λ y,
            mfor (range 0 VGA_WIDTH) (λ x, e ← load_cell y x; store_cell (y - 1) x e));
      _ ← mfor (range 0 VGA_WIDTH) (λ x, store_cell (TERMINAL_LINES - 1) x VGA_CLEAR); k tt) Q s.
Proof.
  intros Hb HQ. unfold TERMINAL_LINES, VGA_WIDTH. set (b0 := terminalBuffer s) in *.
  (* the cells before line [n - 1], column [k] have been moved *)
  set (I n k s' := ∃ b, s' = set_terminalBuffer b s ∧ rect b ∧
        ∀ y x, 0 ≤ y < 1000 → 0 ≤ x < 80 →
          cell b y x = if decide (y * 80 + x < (n - 1) * 80 + k) then cell b0 (y + 1) x else cell b0 y x).
  wp_step. apply (wp_mfor_range (λ n, I n 0)); [lia| | |].
  - exists b0. split; [by destruct s|]. split; [done|]. intros. by rewrite decide_False by lia.
  - intros n s1 Hn HI. apply (wp_mfor_range (λ k, I n k)); [lia|done| |].
    + intros c s2 Hc (b & -> & Hr & Hcell). wp_step.
      destruct (cell_is_Some b0 n c Hb) as [e He]; [lia|lia|].
      eapply wp_load_cell; [cbn [terminalBuffer set_terminalBuffer];
        rewrite Hcell by lia; rewrite decide_False by lia; exact He|].
      apply wp_store_cell; [done|lia|lia|]. cbn [terminalBuffer set_terminalBuffer].
      eexists. split; [done|]. split; [apply rect_put; [done|lia]|]. intros y x Hy Hx.
      rewrite cell_put by (done || lia). destruct (decide (n - 1 = y ∧ c = x)) as [[<- <-]|Hne].
      * rewrite decide_True by lia. replace (n - 1 + 1) with n by lia. done.
      * rewrite Hcell by done. destruct (decide (y * 80 + x < (n - 1) * 80 + c)).
        -- by rewrite decide_True by lia.
        -- by rewrite decide_False by lia.
    + intros s2 (b & -> & Hr & Hcell). exists b. split; [done|]. split; [done|].
      intros y x Hy Hx. rewrite Hcell by done.
      destruct (decide (y * 80 + x < (n - 1) * 80 + 80)); [by rewrite decide_True by lia|
        by rewrite decide_False by lia].
  - intros s1 (b & -> & Hr & Hcell). wp_step.
    apply (wp_mfor_range (λ k s', ∃ b', s' = set_terminalBuffer b' s ∧ rect b' ∧
       ∀ y x, 0 ≤ y < 1000 → 0 ≤ x < 80 →
         cell b' y x = if decide (y = 999 ∧ x < k) then Some VGA_CLEAR else cell b y x)); [lia| | |].
    + exists b. split; [done|]. split; [done|]. intros. by rewrite decide_False by lia.
    + intros c s2 Hc (b' & -> & Hr' & Hcell').
      apply wp_store_cell; [done|lia|lia|]. cbn [terminalBuffer set_terminalBuffer].
      eexists. split; [done|]. split; [apply rect_put; [done|lia]|]. intros y x Hy Hx.
      rewrite cell_put by (done || lia). rewrite Hcell' by done.
      destruct (decide (1000 - 1 = y ∧ c = x)); [by rewrite decide_True by lia|].
      destruct (decide (y = 999 ∧ x < c)); [by rewrite decide_True by lia|by rewrite decide_False by lia].
    + intros s2 (b' & -> & Hr' & Hcell'). replace b' with (scrolled b0); [done|].
      apply rect_ext; [by apply scrolled_rect|done|]. intros y x Hy Hx.
      rewrite scrolled_cell, Hcell', Hcell by done. destruct (decide (y < 999)).
      * rewrite decide_False by lia. by rewrite decide_True by lia.
      * by rewrite decide_True by lia.
Qed.

(** ** The terminal as a specification

    What a user of the terminal sees, without viewport and text memory: the
    lines and the cursor. *)

Record term : Type := mkTerm { t_lines : list (list Z); t_x : Z; t_y : Z }.

Definition term_of (s : vga) : term := mkTerm (terminalBuffer s) (cursorX s) (cursorY s).

(** The next position after a cell, a new line at the right margin. *)
Definition term_advance (b : list (list Z)) (x y : Z) : term :=
  if decide (80 ≤ x) then mkTerm b 0 (y + 1) else mkTerm b x y.

(** The line that leaves the buffer is lost, the others move up. *)
Definition term_scroll (t : term) : term :=
  if decide (1000 ≤ t_y t) then mkTerm (scrolled (t_lines t)) (t_x t) 999 else t.

Definition term_put (color c : Z) (t : term) : term :=
  let '(mkTerm b x y) := t in
  term_scroll
    (if decide (c = 9) then term_advance b (4 * (x / 4 + 1)) y
     else if decide (c = 10) then mkTerm b 0 (y + 1)
     else if decide (c = 13) then mkTerm b 0 y
     else if decide (c = 8) then
       if decide (0 < x) then mkTerm (put_cell y (x - 1) VGA_CLEAR b) (x - 1) y else t
     else term_advance (put_cell y x (c + 256 * color) b) (x + 1) y).

(** What no output function changes. *)
Definition same_settings (s s' : vga) : Prop :=
  vgaColor s' = vgaColor s ∧ vga_eflags s' = vga_eflags s.

Definition cursor_visible (s : vga) : Prop :=
  viewportY s ≤ cursorY s < viewportY s + 25.

Lemma within_move top s x y :
  vga_within 999 s → 0 ≤ x < 80 → cursorY s ≤ y ≤ top →
  vga_within top (set_cursorY y (set_cursorX x s)).
Proof. intros [] Hx Hy. constructor; simpl; try done; lia. Qed.

Lemma set_cursorY_id s : set_cursorY (cursorY s) s = s.
Proof. by destruct s. Qed.

(** A new line after the cursor has passed the right margin. *)
Lemma advance_spec s x y (Q : unit → vga → Prop) :
  Q tt (if decide (80 ≤ x) then set_cursorY (u32 (y + 1)) (set_cursorX 0 s) else set_cursorX x s) →
  wp (_ ← modify (set_cursorX x);
      x' ← gets cursorX;
      when (VGA_WIDTH <=? x')
        (_ ← modify (set_cursorX 0); modify (set_cursorY (u32 (y + 1))))) Q s.
Proof.
  intros HQ. wp_steps. cbn [cursorX set_cursorX]. unfold VGA_WIDTH.
  destruct (Z.leb_spec 80 x); simpl; wp_steps.
  - rewrite decide_True in HQ by lia. exact HQ.
  - rewrite decide_False in HQ by lia. by apply wp_ret.
Qed.

Lemma tab_stop x : 0 ≤ x < 80 → Z.land (u32 (x + 4)) (u32 (Z.lnot 3)) = 4 * (x / 4 + 1).
Proof.
  intros Hx. rewrite u32_small by lia. change (u32 (Z.lnot 3)) with (2 ^ 32 - 2 ^ 2).
  rewrite land_not_ones by lia. change (2 ^ 2) with 4.
  pose proof (Z.div_mod (x + 4) 4 ltac:(lia)). replace (x + 4) with (x + 1 * 4) in * by lia.
  rewrite Z.div_add in * by lia. lia.
Qed.

Lemma entry_value c color :
  0 ≤ c < 256 → 0 ≤ color < 256 → u16 (Z.lor (u8 c) (Z.shiftl color 8)) = c + 256 * color.
Proof.
  intros Hc Hcol. rewrite u8_small by lia. rewrite lor_shiftl by lia. rewrite u16_small; lia.
Qed.

(** The switch: the cursor may end one line below the buffer. *)
Lemma switch_spec c s :
  vga_ok s → 0 ≤ c < 256 →
  wp (putchar_switch c) (λ _ s', vga_within 1000 s' ∧ same_settings s s' ∧
    term_scroll (term_of s') = term_put (vgaColor s) c (term_of s)) s.
Proof.
  intros Hok Hc. pose proof (ok_x _ _ Hok) as Hx. pose proof (ok_y _ _ Hok) as Hy.
  unfold putchar_switch, term_put, term_of. do 2 wp_step.
  destruct (Z.eqb_spec c 9); [|destruct (Z.eqb_spec c 10); [|destruct (Z.eqb_spec c 13);
    [|destruct (Z.eqb_spec c 8)]]]; decides.
  - apply advance_spec. rewrite tab_stop by done. unfold term_advance.
    pose proof (Z.div_pos (cursorX s) 4 ltac:(lia) ltac:(lia)). rewrite u32_small by lia.
    destruct (decide (80 ≤ 4 * (cursorX s / 4 + 1))).
    + split; [apply within_move; [done|lia|lia]|done].
    + split; [|done]. rewrite <- (set_cursorY_id (set_cursorX _ s)).
      apply within_move; [done|lia|simpl; lia].
  - wp_steps. rewrite u32_small by lia. split; [apply within_move; [done|lia|lia]|done].
  - wp_steps. split; [|done]. rewrite <- (set_cursorY_id (set_cursorX _ s)).
    apply within_move; [done|lia|simpl; lia].
  - destruct (Z.ltb_spec 0 (cursorX s)); [rewrite decide_True by lia|rewrite decide_False by lia]; simpl.
    + wp_step. wp_step. use_wp (write_both (cursorY s) (cursorX s - 1) VGA_CLEAR 1000
        (set_cursorX (cursorX s - 1) s)); [|lia|lia|].
      * rewrite <- (set_cursorY_id (set_cursorX _ s)). apply within_move; [done|lia|simpl; lia].
      * intros _ s' (scr & -> & Hok'). split; [done|]. done.
    + wp_steps. split; [|done]. destruct Hok. constructor; try done; lia.
  - apply wp_assoc. use_wp (write_both (cursorY s) (cursorX s) _ 999 s); [done|lia|lia|].
    intros _ s' (scr & -> & Hok'). rewrite entry_value in * by (done || apply Hok).
    apply advance_spec. unfold term_advance. rewrite !u32_small by lia.
    destruct (decide (80 ≤ cursorX s + 1)).
    + split; [apply within_move; [done|lia|simpl; lia]|done].
    + split; [|done]. rewrite <- (set_cursorY_id (set_cursorX _ _)).
      apply within_move; [done|lia|simpl; lia].
Qed.

Lemma scroll_spec s :
  vga_within 1000 s →
  wp putchar_scroll (λ _ s', vga_ok s' ∧ same_settings s s' ∧
    term_of s' = term_scroll (term_of s)) s.
Proof.
  intros Hok. unfold putchar_scroll, term_scroll. do 2 wp_step. cbn [term_of t_y t_lines t_x].
  pose proof (ok_y _ _ Hok). unfold TERMINAL_LINES at 1. apply wp_when.
  - intros Hge%Z.leb_le. rewrite decide_True by lia.
    apply (scroll_loops s _ (λ _, _ ← modify (set_cursorY (TERMINAL_LINES - 1));
                                   modify (set_renderPending true))); [apply Hok|].
    wp_steps. split; [|done]. destruct Hok. unfold TERMINAL_LINES.
    constructor; simpl; try done; try lia. by apply scrolled_rect.
  - intros Hlt%Z.leb_gt. rewrite decide_False by lia. split; [|done].
    destruct Hok. constructor; try done; lia.
Qed.

Lemma follow_spec s :
  vga_ok s →
  wp vga_follow_cursor (λ _ s', vga_ok s' ∧ same_settings s s' ∧ term_of s' = term_of s ∧
    cursor_visible s') s.
Proof.
  intros Hok. pose proof (ok_y _ _ Hok) as Hy. pose proof (ok_view _ _ Hok) as Hv.
  unfold vga_follow_cursor, VGA_HEIGHT. do 2 wp_step. rewrite u32_small by lia. apply wp_when.
  - intros Hge%Z.leb_le. rewrite (u32_small (cursorY s - 25)), u32_small by lia. wp_steps.
    destruct Hok. split; [constructor; simpl; try done; lia|]. split; [done|]. split; [done|].
    unfold cursor_visible. simpl. lia.
  - intros Hlt%Z.leb_gt. split; [done|]. split; [done|]. split; [done|].
    unfold cursor_visible. lia.
Qed.

(** [vga_putchar_raw] is the terminal's [term_put], keeps the invariant and the
    cursor visible. *)
Lemma putchar_raw_spec c s :
  vga_ok s →
  wp (vga_putchar_raw c) (λ _ s', vga_ok s' ∧ same_settings s s' ∧ cursor_visible s' ∧
    term_of s' = term_put (vgaColor s) (u8 c) (term_of s)) s.
Proof.
  intros Hok. unfold vga_putchar_raw. wp_step. use_wp (switch_spec (u8 c) s Hok (u8_range c)).
  intros _ s1 (H1 & [Hc1 Hf1] & Ht1). wp_step. use_wp (scroll_spec s1 H1).
  intros _ s2 (H2 & [Hc2 Hf2] & Ht2). use_wp (follow_spec s2 H2).
  intros _ s3 (H3 & [Hc3 Hf3] & Ht3 & Hv). split; [done|]. unfold same_settings.
  split; [split; congruence|]. split; [done|]. congruence.
Qed.

(** Printing a sequence of characters. *)
Definition term_puts (color : Z) (cs : list Z) (t : term) : term :=
  foldl (λ t c, term_put color (u8 c) t) t cs.

Lemma term_puts_app color cs cs' t :
  term_puts color (cs ++ cs') t = term_puts color cs' (term_puts color cs t).
Proof. apply foldl_app. Qed.

(** [prints cs s s']: the output functions' common specification. *)
Definition prints (cs : list Z) (s s' : vga) : Prop :=
  vga_ok s' ∧ same_settings s s' ∧ term_of s' = term_puts (vgaColor s) cs (term_of s).

Lemma prints_nil s : vga_ok s → prints [] s s.
Proof. by split. Qed.

Lemma prints_app cs cs' s1 s2 s3 : prints cs s1 s2 → prints cs' s2 s3 → prints (cs ++ cs') s1 s3.
Proof.
  intros (_ & [Hc Hf] & Ht) (Hok & [Hc' Hf'] & Ht'). split; [done|].
  split; [split; congruence|]. rewrite term_puts_app. congruence.
Qed.

Lemma prints_raw c s : vga_ok s → wp (vga_putchar_raw c) (λ _, prints [c] s) s.
Proof. intros Hok. use_wp (putchar_raw_spec c s Hok). by intros _ s' (? & ? & _ & ?). Qed.

Lemma prints_list cs s : vga_ok s → wp (mfor cs vga_putchar_raw) (λ _, prints cs s) s.
Proof.
  intros Hok. apply (wp_mfor (λ dn _ s', prints dn s s')).
  - by apply prints_nil.
  - intros dn c rest s1 _ H1. pose proof H1 as [Hok1 _]. use_wp (prints_raw c s1 Hok1).
    intros _ s2 H2. by eapply prints_app.
  - done.
Qed.

(** ** Numbers *)

(** The digits of a number, the last one first, and a number's value from them. *)
Fixpoint numeral_rev (fuel : nat) (base v : Z) : list Z :=
  match fuel with
  | O => []
  | S fuel => if decide (v = 0) then [] else v `mod` base :: numeral_rev fuel base (v / base)
  end.

Definition numeral (base v : Z) : list Z :=
  if decide (v = 0) then [0] else reverse (numeral_rev 32 base v).

Definition numeral_value (base : Z) (ds : list Z) : Z :=
  foldl (λ acc d, acc * base + d) 0 ds.

Definition digit_char (d : Z) : Z := if decide (d < 10) then 48 + d else 87 + d.

Lemma digits_get d : 0 ≤ d < 16 → aget digits d = Some (digit_char d).
Proof.
  intros Hd. assert (Forall (λ d, aget digits d = Some (digit_char d)) (range 0 16)) as Hall
    by (vm_compute; repeat constructor).
  rewrite Forall_forall in Hall. apply Hall, elem_of_seqZ. lia.
Qed.

(** Dividing by the base leaves one digit less. *)
Lemma digit_step base v n :
  2 ≤ base → 0 ≤ v < base ^ Z.of_nat (S n) → 0 ≤ v / base < base ^ Z.of_nat n.
Proof.
  intros Hb Hv. rewrite Nat2Z.inj_succ, Z.pow_succ_r in Hv by lia. split; [apply Z.div_pos; lia|].
  apply Z.div_lt_upper_bound; lia.
Qed.

Lemma numeral_rev_more n m base v :
  2 ≤ base → 0 ≤ v < base ^ Z.of_nat n → numeral_rev (n + m) base v = numeral_rev n base v.
Proof.
  intros Hb. revert v. induction n as [|n IH]; intros v Hv.
  - simpl in Hv. assert (v = 0) as -> by lia. by destruct m.
  - simpl. destruct (decide (v = 0)); [done|]. f_equal. apply IH. by apply digit_step.
Qed.

Lemma print_digits_spec fuel n base v buf s :
  2 ≤ base ≤ 16 → 0 ≤ v < base ^ Z.of_nat n → (n ≤ fuel)%nat → (length buf + n ≤ 16)%nat →
  print_digits fuel v base buf s = Some (buf ++ (digit_char <$> numeral_rev n base v), s).
Proof.
  intros Hb. revert n v buf. induction fuel as [|fuel IH]; intros n v buf Hv Hn Hl.
  - assert (n = 0%nat) as -> by lia. simpl in Hv. assert (v = 0) as -> by lia.
    simpl. by rewrite app_nil_r.
  - cbn [print_digits]. destruct (Z.eqb_spec v 0) as [->|Hv0].
    { destruct n; simpl; by rewrite app_nil_r. }
    destruct n as [|n]; [simpl in Hv; lia|].
    destruct (Z.leb_spec 16 (Z.of_nat (length buf))); [lia|].
    destruct (Z.eqb_spec base 0); [lia|]. pose proof (Z.mod_pos_bound v base ltac:(lia)).
    rewrite digits_get by lia. unfold mbind, M_bind, lift.
    rewrite (IH n); [|apply digit_step; lia|lia|rewrite length_app; simpl; lia].
    cbn [numeral_rev]. rewrite decide_False by done. by rewrite <- app_assoc.
Qed.

(** The numbers of 32 bits fit in the buffer. *)
Definition max_digits (base : Z) : nat := if decide (base = 10) then 10%nat else 8%nat.

Lemma max_digits_enough base v :
  base = 10 ∨ base = 16 → 0 ≤ v < 2 ^ 32 → 0 ≤ v < base ^ Z.of_nat (max_digits base).
Proof.
  intros [-> | ->] Hv.
  - change (Z.of_nat (max_digits 10)) with 10. lia.
  - change (Z.of_nat (max_digits 16)) with 8. lia.
Qed.

Lemma prints_unsigned v base s :
  vga_ok s → base = 10 ∨ base = 16 → 0 ≤ v < 2 ^ 32 →
  wp (vga_print_unsigned v base) (λ n s', n = Z.of_nat (length (numeral base v)) ∧
    prints (digit_char <$> numeral base v) s s') s.
Proof.
  intros Hok Hb Hv. unfold vga_print_unsigned, numeral.
  destruct (Z.eqb_spec v 0) as [->|H0]; [rewrite decide_True by done|rewrite decide_False by done].
  - wp_step. use_wp (prints_raw 48 s Hok). intros _ s' H. by wp_step.
  - pose proof (max_digits_enough base v Hb Hv) as Hm.
    assert (max_digits base ≤ 10)%nat as Hle by (unfold max_digits; case_decide; lia).
    assert (2 ≤ base ≤ 16) as Hbr by lia.
    replace 32%nat with (max_digits base + (32 - max_digits base))%nat by lia.
    rewrite numeral_rev_more by lia. wp_step.
    eapply wp_eq; [apply (print_digits_spec 17 (max_digits base)); simpl; lia|]. simpl. wp_step.
    use_wp (prints_list _ s Hok). intros _ s' H. wp_step. rewrite fmap_reverse.
    split; [|done]. by rewrite length_fmap, length_reverse.
Qed.

(** What [%d] prints. *)
Definition signed_chars (v : Z) : list Z :=
  if decide (v < 0) then 45 :: (digit_char <$> numeral 10 (- v))
  else digit_char <$> numeral 10 v.

Lemma prints_signed v s :
  vga_ok s → - 2 ^ 31 ≤ v < 2 ^ 31 →
  wp (vga_print_signed v) (λ n s', n = Z.of_nat (length (signed_chars v)) ∧
    prints (signed_chars v) s s') s.
Proof.
  intros Hok Hv. unfold vga_print_signed, signed_chars.
  destruct (Z.ltb_spec v 0); [rewrite decide_True by lia|rewrite decide_False by lia].
  - wp_step. use_wp (prints_raw 45 s Hok). intros _ s1 H1. wp_step.
    rewrite (u32_small (- (v + 1))), u32_small by lia.
    replace (- (v + 1) + 1) with (- v) by lia. pose proof H1 as [Hok1 _].
    use_wp (prints_unsigned (- v) 10 s1 Hok1); [by left|lia|]. intros n s2 [-> H2]. wp_step.
    split; [|by apply (prints_app [45] _ s s1)]. simpl. rewrite length_fmap. lia.
  - rewrite u32_small by lia. use_wp (prints_unsigned v 10 s Hok); [by left|lia|].
    intros n s' [-> H']. by rewrite length_fmap.
Qed.

(** ** Format strings *)

(** The characters a conversion stands for, and the arguments left. *)
Definition conversion_chars (f : Z) (args : list va_arg) : option (list Z * list va_arg) :=
  if decide (f = 37) then Some ([37], args)
  else if decide (f = 99) then
    match args with VWord w :: args => Some ([w], args) | _ => None end
  else if decide (f = 115) then
    match args with VStr p :: args => Some (default (cstr "(null)") p, args) | _ => None end
  else if decide (f = 100 ∨ f = 105) then
    match args with VWord w :: args => Some (signed_chars (i32 w), args) | _ => None end
  else if decide (f = 117) then
    match args with
    | VWord w :: args => Some (digit_char <$> numeral 10 (u32 w), args)
    | _ => None
    end
  else if decide (f = 120) then
    match args with
    | VWord w :: args => Some (cstr "0x" ++ (digit_char <$> numeral 16 (u32 w)), args)
    | _ => None
    end
  else Some ([37; f], args).

(** The text a format string and its arguments stand for; None when an argument
    is missing or of the wrong kind. *)
Fixpoint format (fmt : list Z) (args : list va_arg) : option (list Z) :=
  match fmt with
  | [] => Some []
  | c :: fmt =>
      if decide (c = 37) then
        match fmt with
        | [] => Some []
        | f :: fmt =>
            match conversion_chars f args with
            | Some (cs, args) => (cs ++.) <$> format fmt args
            | None => None
            end
        end
      else (c ::.) <$> format fmt args
  end.

Lemma i32_range w : - 2 ^ 31 ≤ i32 w < 2 ^ 31.
Proof. unfold i32. pose proof (u32_range w). destruct (Z.ltb_spec (u32 w) (2 ^ 31)); lia. Qed.

Lemma conversion_spec f args cs args' s :
  vga_ok s → conversion_chars f args = Some (cs, args') →
  wp (vvga_conversion f args) (λ r s', r = (Z.of_nat (length cs), args') ∧ prints cs s s') s.
Proof.
  intros Hok. unfold conversion_chars, vvga_conversion.
  destruct (Z.eqb_spec f 37); [rewrite decide_True by done|rewrite decide_False by done].
  { intros [= <- <-]. wp_step. use_wp (prints_raw 37 s Hok). intros _ s' H. by wp_step. }
  destruct (Z.eqb_spec f 99); [rewrite decide_True by done|rewrite decide_False by done].
  { destruct args as [|[w|p] args]; [done| |done]. intros [= <- <-]. simpl. wp_step. wp_step.
    wp_step. use_wp (prints_raw w s Hok). intros _ s' H. by wp_step. }
  destruct (Z.eqb_spec f 115); [rewrite decide_True by done|rewrite decide_False by done].
  { destruct args as [|[w|p] args]; [done|done|]. intros [= <- <-]. simpl. wp_step. wp_step.
    wp_step. use_wp (prints_list _ s Hok). intros _ s' H. by wp_step. }
  destruct ((f =? 100) || (f =? 105)) eqn:E; [rewrite decide_True by lia|rewrite decide_False by lia].
  { destruct args as [|[w|p] args]; [done| |done]. intros [= <- <-]. simpl. wp_step. wp_step.
    wp_step. use_wp (prints_signed (i32 w) s Hok (i32_range w)). intros n' s' [-> H]. by wp_step. }
  destruct (Z.eqb_spec f 117); [rewrite decide_True by done|rewrite decide_False by done].
  { destruct args as [|[w|p] args]; [done| |done]. intros [= <- <-]. simpl. wp_step. wp_step.
    wp_step. use_wp (prints_unsigned (u32 w) 10 s Hok (or_introl eq_refl) (u32_range w)).
    intros n' s' [-> H]. wp_step. by rewrite length_fmap. }
  destruct (Z.eqb_spec f 120); [rewrite decide_True by done|rewrite decide_False by done].
  { destruct args as [|[w|p] args]; [done| |done]. intros [= <- <-]. simpl. wp_step. wp_step.
    wp_step. use_wp (prints_raw 48 s Hok). intros _ s1 H1. pose proof H1 as [Hok1 _]. wp_step.
    use_wp (prints_raw 120 s1 Hok1). intros _ s2 H2. pose proof H2 as [Hok2 _]. wp_step.
    use_wp (prints_unsigned (u32 w) 16 s2 Hok2 (or_intror eq_refl) (u32_range w)).
    intros n' s' [-> H]. wp_step. split.
    - f_equal. simpl. rewrite length_fmap. lia.
    - apply (prints_app [48; 120] _ s s2 s'); [|done]. by apply (prints_app [48] [120] s s1 s2). }
  intros [= <- <-]. wp_step. use_wp (prints_raw 37 s Hok). intros _ s1 H1.
  pose proof H1 as [Hok1 _]. wp_step. use_wp (prints_raw f s1 Hok1). intros _ s2 H2. wp_step.
  split; [done|]. by apply (prints_app [37] [f] s s1 s2).
Qed.

Lemma vvga_loop_spec fmt args cnt cs s :
  vga_ok s → format fmt args = Some cs →
  wp (vvga_loop fmt args cnt) (λ n s', n = cnt + Z.of_nat (length cs) ∧ prints cs s s') s.
Proof.
  remember (length fmt) as n eqn:Hn. revert fmt args cnt cs s Hn.
  induction n as [n IH] using lt_wf_ind. intros fmt args cnt cs s Hn Hok Hf.
  destruct fmt as [|c fmt]; simpl in Hf.
  { injection Hf as <-. simpl. wp_step. split; [simpl; lia|by apply prints_nil]. }
  cbn [vvga_loop]. simpl in Hn.
  destruct (Z.eqb_spec c 37); [rewrite decide_True in Hf by done|rewrite decide_False in Hf by done].
  - destruct fmt as [|f fmt].
    { injection Hf as <-. wp_step. split; [simpl; lia|by apply prints_nil]. }
    destruct (conversion_chars f args) as [[cs1 args1]|] eqn:Hconv; [|done].
    destruct (format fmt args1) as [cs2|] eqn:Hf2; [|done]. injection Hf as <-. wp_step.
    use_wp (conversion_spec f args cs1 args1 s Hok Hconv). intros r s1 [-> H1].
    pose proof H1 as [Hok1 _]. use_wp (IH (length fmt)); [simpl in Hn; lia|done|done|done|].
    intros r s2 [-> H2]. split; [rewrite length_app; lia|by eapply prints_app].
  - destruct (format fmt args) as [cs2|] eqn:Hf2; [|done]. injection Hf as <-. wp_step.
    use_wp (prints_raw c s Hok). intros _ s1 H1. pose proof H1 as [Hok1 _].
    use_wp (IH (length fmt)); [lia|done|done|done|].
    intros r s2 [-> H2]. split; [simpl; lia|by apply (prints_app [c] cs2 s s1 s2)].
Qed.

(** ** The public operations *)

(** Between two calls nothing is pending: the text memory shows the viewport. *)
Definition settled (s : vga) : Prop := vga_ok s ∧ renderPending s = false.

Lemma settled_sync s : settled s → in_sync s.
Proof. intros [Hok Hp]. by apply (ok_sync _ _ Hok). Qed.

Lemma set_eflags_ok f s : vga_ok s → vga_ok (set_eflags f s).
Proof. intros []. by constructor. Qed.

(** The end of every output function: flush, then restore the flags. *)
Lemma finish_spec cs s s1 f :
  prints cs (set_eflags f s) s1 →
  wp (_ ← vga_flush; irq_restore (vga_eflags s)) (λ _ s', prints cs s s' ∧ settled s') s1.
Proof.
  intros (Hok & [Hc Hf] & Ht). wp_step. use_wp (flush_spec 999 s1 Hok).
  intros _ s2 (scr & -> & Hok2). apply irq_restore_spec. apply (set_eflags_ok (vga_eflags s)) in Hok2.
  split; [|by split]. split; [done|]. by split.
Qed.

Lemma putchar_spec c s :
  vga_ok s → wp (vga_putchar c) (λ _ s', prints [c] s s' ∧ settled s') s.
Proof.
  intros Hok. unfold vga_putchar. wp_step. apply irq_save_spec. wp_step.
  use_wp (prints_raw c _ (set_eflags_ok _ _ Hok)). intros _ s1 H1. by eapply finish_spec.
Qed.

Lemma write_spec str s :
  vga_ok s → wp (vga_write str) (λ _ s', prints str s s' ∧ settled s') s.
Proof.
  intros Hok. unfold vga_write. wp_step. apply irq_save_spec. wp_step.
  use_wp (prints_list str _ (set_eflags_ok _ _ Hok)). intros _ s1 H1. by eapply finish_spec.
Qed.

Lemma fvga_write_spec fmt args cs s :
  vga_ok s → format fmt args = Some cs →
  wp (fvga_write fmt args) (λ n s', n = Z.of_nat (length cs) ∧ prints cs s s' ∧ settled s') s.
Proof.
  intros Hok Hf. unfold fvga_write. wp_step. apply irq_save_spec. wp_step.
  use_wp (vvga_loop_spec fmt args 0 cs _ (set_eflags_ok _ _ Hok) Hf). intros n s1 [-> H1].
  apply wp_assoc. use_wp (finish_spec cs s s1 _ H1). intros _ s2 [H2 H3]. by wp_step.
Qed.

(** Moving the viewport and rendering. *)
Lemma view_spec v s :
  settled s → 0 ≤ v ≤ Z.max 0 (cursorY s - 24) →
  wp vga_render (λ _ s', settled s' ∧ same_settings s s' ∧ term_of s' = term_of s ∧ viewportY s' = v)
    (set_viewportY v s).
Proof.
  intros [Hok Hp] Hv. pose proof (ok_y _ _ Hok). use_wp render_spec; simpl.
  - apply Hok.
  - apply Hok.
  - lia.
  - intros _ s' (scr & -> & Hl & Hs). split; [|done]. split; [|done].
    destruct Hok. constructor; simpl; try done. lia.
Qed.

Lemma max_viewport_spec s : vga_ok s → max_viewport (cursorY s) = Z.max 0 (cursorY s - 24).
Proof.
  intros Hok. pose proof (ok_y _ _ Hok). unfold max_viewport, VGA_HEIGHT.
  destruct (Z.leb_spec 25 (cursorY s)); [|lia]. rewrite (u32_small (_ - 25)), u32_small by lia. lia.
Qed.

Lemma set_viewportY_id s : set_viewportY (viewportY s) s = s.
Proof. by destruct s. Qed.

(** What a scrolling function does: the viewport moves by [d] lines, as far as
    there are lines, and nothing else changes. *)
Definition scrolls (d : Z) (s s' : vga) : Prop :=
  settled s' ∧ same_settings s s' ∧ term_of s' = term_of s ∧
  viewportY s' = Z.max 0 (Z.min (viewportY s + d) (cursorY s - 24)).

Lemma scroll_up_spec s : settled s → wp vga_scroll_up (λ _, scrolls (-1) s) s.
Proof.
  intros Hs. pose proof (ok_view _ _ (proj1 Hs)) as Hv. pose proof (ok_y _ _ (proj1 Hs)).
  unfold vga_scroll_up, scrolls. wp_steps. apply wp_when.
  - intros Hgt%Z.ltb_lt. wp_steps. use_wp (view_spec (viewportY s - 1) s Hs); [lia|].
    intros _ s' (H1 & H2 & H3 & ->). split_and!; try done. lia.
  - intros Hle%Z.ltb_ge. split_and!; try done. lia.
Qed.

Lemma scroll_down_spec s : settled s → wp vga_scroll_down (λ _, scrolls 1 s) s.
Proof.
  intros Hs. pose proof (ok_view _ _ (proj1 Hs)) as Hv. pose proof (ok_y _ _ (proj1 Hs)).
  unfold vga_scroll_down, scrolls. wp_steps. rewrite max_viewport_spec by apply Hs. apply wp_when.
  - intros Hlt%Z.ltb_lt. rewrite u32_small by lia. wp_steps.
    use_wp (view_spec (viewportY s + 1) s Hs); [lia|].
    intros _ s' (H1 & H2 & H3 & ->). split_and!; try done. lia.
  - intros Hge%Z.ltb_ge. split_and!; try done. lia.
Qed.

Lemma page_up_spec s : settled s → wp vga_page_up (λ _, scrolls (-25) s) s.
Proof.
  intros Hs. pose proof (ok_view _ _ (proj1 Hs)) as Hv. pose proof (ok_y _ _ (proj1 Hs)).
  unfold vga_page_up, scrolls, VGA_HEIGHT. wp_steps.
  - use_wp (view_spec (viewportY s - 25) s Hs); [lia|].
    intros _ s' (H1 & H2 & H3 & ->). split_and!; try done. lia.
  - use_wp (view_spec 0 s Hs); [lia|]. intros _ s' (H1 & H2 & H3 & ->). split_and!; try done. lia.
Qed.

Lemma page_down_spec s : settled s → wp vga_page_down (λ _, scrolls 25 s) s.
Proof.
  intros Hs. pose proof (ok_view _ _ (proj1 Hs)) as Hv. pose proof (ok_y _ _ (proj1 Hs)).
  unfold vga_page_down, scrolls, VGA_HEIGHT. do 7 wp_step. rewrite max_viewport_spec by apply Hs.
  rewrite u32_small by lia. cbn [viewportY set_viewportY]. apply wp_when.
  - intros Hlt%Z.ltb_lt. wp_steps. use_wp (view_spec (Z.max 0 (cursorY s - 24)) s Hs); [lia|].
    intros _ s' (H1 & H2 & H3 & ->). split_and!; try done. lia.
  - intros Hge%Z.ltb_ge. use_wp (view_spec (viewportY s + 25) s Hs); [lia|].
    intros _ s' (H1 & H2 & H3 & ->). split_and!; try done. lia.
Qed.

(** Clearing the buffer and the text memory. *)
Definition blank_buffer : list (list Z) := replicate 1000 blank_line.

Lemma blank_rect : rect blank_buffer.
Proof.
  split; [apply length_replicate|]. intros y row [_ Hr]%aget_Some.
  apply lookup_replicate_1 in Hr as [-> _]. apply length_replicate.
Qed.

Lemma blank_cell y x : 0 ≤ y < 1000 → 0 ≤ x < 80 → cell blank_buffer y x = Some VGA_CLEAR.
Proof.
  intros Hy Hx. unfold cell, aget, blank_buffer. rewrite !(decide_True (P := 0 ≤ _)) by lia.
  rewrite lookup_replicate_2 by lia. cbn [mbind option_bind].
  rewrite (decide_True (P := 0 ≤ x)) by lia. apply lookup_replicate_2. lia.
Qed.

Lemma clear_buffer_spec s (Q : unit → vga → Prop) :
  rect (terminalBuffer s) → Q tt (set_terminalBuffer blank_buffer s) →
  wp (mfor (range 0 TERMINAL_LINES) (λ y,
        mfor (range 0 VGA_WIDTH) (λ x, store_cell y x VGA_CLEAR))) Q s.
Proof.
  intros Hb HQ. unfold TERMINAL_LINES, VGA_WIDTH.
  set (I n k s' := ∃ b, s' = set_terminalBuffer b s ∧ rect b ∧
        ∀ y x, 0 ≤ y < 1000 → 0 ≤ x < 80 → y * 80 + x < n * 80 + k → cell b y x = Some VGA_CLEAR).
  apply (wp_mfor_range (λ n, I n 0)); [lia| | |].
  - exists (terminalBuffer s). split; [by destruct s|]. split; [done|]. lia.
  - intros n s1 Hn HI. apply (wp_mfor_range (λ k, I n k)); [lia|done| |].
    + intros c s2 Hc (b & -> & Hr & Hcell). apply wp_store_cell; [done|lia|lia|].
      cbn [terminalBuffer set_terminalBuffer]. eexists. split; [done|].
      split; [apply rect_put; [done|lia]|]. intros y x Hy Hx Hlt. rewrite cell_put by (done || lia).
      destruct (decide (n = y ∧ c = x)); [done|]. apply Hcell; lia.
    + intros s2 (b & -> & Hr & Hcell). exists b. split; [done|]. split; [done|].
      intros. apply Hcell; lia.
  - intros s1 (b & -> & Hr & Hcell). replace b with blank_buffer; [done|].
    apply rect_ext; [apply blank_rect|done|]. intros y x Hy Hx.
    rewrite blank_cell, Hcell by lia. done.
Qed.

Lemma clear_screen_spec s (Q : unit → vga → Prop) :
  length (screen s) = 2000%nat →
  (∀ scr, length scr = 2000%nat →
     (∀ y x, 0 ≤ y < 25 → 0 ≤ x < 80 → aget scr (y * 80 + x) = Some VGA_CLEAR) →
     Q tt (set_screen scr s)) →
  wp (mfor (range 0 VGA_HEIGHT) (λ y,
        mfor (range 0 VGA_WIDTH) (λ x,
          store_at screen set_screen (y * VGA_WIDTH + x) VGA_CLEAR))) Q s.
Proof.
  intros Hl0 HQ. unfold VGA_HEIGHT, VGA_WIDTH.
  set (I n k s' := ∃ scr, s' = set_screen scr s ∧ length scr = 2000%nat ∧
        ∀ y x, 0 ≤ y < 25 → 0 ≤ x < 80 → y * 80 + x < n * 80 + k →
          aget scr (y * 80 + x) = Some VGA_CLEAR).
  apply (wp_mfor_range (λ n, I n 0)); [lia| | |].
  - exists (screen s). split; [by destruct s|]. split; [done|]. lia.
  - intros n s1 Hn HI. apply (wp_mfor_range (λ k, I n k)); [lia|done| |].
    + intros c s2 Hc (scr & -> & Hl & Hcell). apply wp_store_at; [cbn [screen set_screen]; lia|].
      cbn [screen set_screen]. eexists. split; [done|]. split; [by rewrite length_insert|].
      intros y x Hy Hx Hlt. erewrite aget_aset by (apply aset_in; lia).
      destruct (decide (n * 80 + c = y * 80 + x)); [done|]. apply Hcell; lia.
    + intros s2 (scr & -> & Hl & Hcell). exists scr. split; [done|]. split; [done|].
      intros. apply Hcell; lia.
  - intros s1 (scr & -> & Hl & Hcell). apply HQ; [done|]. intros. apply Hcell; lia.
Qed.

(** The arrays have their sizes: all that holds before [vga_init]. *)
Definition vga_raw (s : vga) : Prop :=
  rect (terminalBuffer s) ∧ length (screen s) = 2000%nat ∧ 0 ≤ vgaColor s < 256 ∧
  renderPending s = false.

Lemma clear_spec s :
  vga_raw s →
  wp vga_clear (λ _ s', settled s' ∧ same_settings s s' ∧ viewportY s' = 0 ∧
    term_of s' = mkTerm blank_buffer 0 0) s.
Proof.
  intros (Hb & Hl & Hc & Hp). unfold vga_clear. wp_step. apply clear_buffer_spec; [done|]. wp_steps.
  apply clear_screen_spec; [done|]. intros scr Hscr Hcells. split; [|done]. split; [|done].
  constructor; simpl; try done; [apply blank_rect|]. intros _ y x Hy Hx. simpl. unfold shown.
  rewrite Hcells by done. rewrite decide_True by lia. by rewrite blank_cell by lia.
Qed.

(** ** Properties *)

(** Any call of the driver's interface.  A format string has to fit its
    arguments. *)
Inductive vga_call : Type :=
| CallPutchar (c : Z)
| CallWrite (str : list Z)
| CallFormat (fmt : list Z) (args : list va_arg)
| CallColor (fg bg : Z)
| CallForeground (fg : Z)
| CallBackground (bg : Z)
| CallClear
| CallScrollUp
| CallScrollDown
| CallPageUp
| CallPageDown.

Definition vga_run (c : vga_call) : M vga unit :=
  match c with
  | CallPutchar c => vga_putchar c
  | CallWrite str => vga_write str
  | CallFormat fmt args => _ ← fvga_write fmt args; mret tt
  | CallColor fg bg => vga_set_color fg bg
  | CallForeground fg => vga_set_foreground fg
  | CallBackground bg => vga_set_background bg
  | CallClear => vga_clear
  | CallScrollUp => vga_scroll_up
  | CallScrollDown => vga_scroll_down
  | CallPageUp => vga_page_up
  | CallPageDown => vga_page_down
  end.

Definition call_ok (c : vga_call) : Prop :=
  match c with CallFormat fmt args => is_Some (format fmt args) | _ => True end.

Lemma set_color_settled c s : settled s → settled (set_vgaColor (u8 c) s).
Proof.
  intros [[] Hp]. split; [|done]. constructor; simpl; try done. apply u8_range.
Qed.

Lemma call_settled c s : settled s → call_ok c → wp (vga_run c) (λ _ s', settled s') s.
Proof.
  intros Hs Hc. pose proof Hs as [Hok Hp].
  destruct c as [c|str|fmt args|fg bg|fg|bg| | | | |]; cbn [vga_run].
  - use_wp (putchar_spec c s Hok). by intros _ s' [_ ?].
  - use_wp (write_spec str s Hok). by intros _ s' [_ ?].
  - destruct Hc as [cs Hcs]. wp_step. use_wp (fvga_write_spec fmt args cs s Hok Hcs).
    intros n s' (_ & _ & ?). by wp_step.
  - unfold vga_set_color. wp_step. by apply set_color_settled.
  - unfold vga_set_foreground. wp_step. by apply set_color_settled.
  - unfold vga_set_background. wp_step. by apply set_color_settled.
  - use_wp (clear_spec s); [split_and!; try apply Hok; done|]. by intros _ s' [? _].
  - use_wp (scroll_up_spec s Hs). by intros _ s' [? _].
  - use_wp (scroll_down_spec s Hs). by intros _ s' [? _].
  - use_wp (page_up_spec s Hs). by intros _ s' [? _].
  - use_wp (page_down_spec s Hs). by intros _ s' [? _].
Qed.

(** The state before [vga_init] (the statics are zero) and after it. *)
Definition zero_vga : vga :=
  mkVga (replicate 1000 (replicate 80 0)) 0 0 0 false (VGA_COLOR VGA_WHITE VGA_BLACK)
    (replicate 2000 0) 0x202.
Definition demo_vga : vga := final vga_init zero_vga.
#[local] Opaque vga_clear.

Lemma zero_vga_raw : vga_raw zero_vga.
Proof.
  split; [split|split; [apply length_replicate|split; [by vm_compute|done]]].
  - apply length_replicate.
  - intros y row [_ Hr]%aget_Some. apply lookup_replicate_1 in Hr as [-> _]. apply length_replicate.
Qed.

Lemma demo_vga_settled : settled demo_vga.
Proof. by destruct (wp_final _ _ _ (clear_spec zero_vga zero_vga_raw)) as (u & _ & ? & _). Qed.

Lemma demo_vga_cursor : cursorX demo_vga = 0.
Proof.
  destruct (wp_final _ _ _ (clear_spec zero_vga zero_vga_raw)) as (u & _ & _ & _ & _ & Ht).
  exact (f_equal t_x Ht).
Qed.

(** Incremental drawing is as good as drawing everything: after [vga_init]
    and any sequence of calls of the driver, all of which return, the 2000 cells
    of the text memory are exactly the 25 lines of the buffer at the viewport,
    the cursor is inside the buffer and the viewport does not pass the last
    page. *)
Theorem vga_stays_in_sync s calls :
  vga_raw s → Forall call_ok calls →
  ∃ s', (_ ← vga_init; mfor calls vga_run) s = Some (tt, s') ∧ in_sync s' ∧
    renderPending s' = false ∧ 0 ≤ cursorX s' < 80 ∧ 0 ≤ cursorY s' < 1000 ∧
    0 ≤ viewportY s' ≤ Z.max 0 (cursorY s' - 24).
Proof.
  intros Hraw Hcalls.
  assert (wp (_ ← vga_init; mfor calls vga_run) (λ _ s', settled s') s) as Hwp.
  { wp_step. use_wp (clear_spec s Hraw). intros _ s1 [H1 _].
    apply (wp_mfor (λ _ _ s', settled s')); [done| |done].
    intros dn c rest s2 Hl H2. apply call_settled; [done|].
    rewrite Forall_forall in Hcalls. apply Hcalls. rewrite Hl. set_solver. }
  apply wp_inv in Hwp as ([] & s' & Hrun & Hs). exists s'. split; [done|].
  pose proof Hs as [[] Hp]. split; [by apply settled_sync|]. split_and!; try done; lia.
Qed.

Lemma vga_stays_in_sync_witness :
  ∃ s', (_ ← vga_init; mfor [CallPutchar 65; CallFormat (cstr "%d") [VWord 7]; CallPageUp] vga_run)
          zero_vga = Some (tt, s') ∧ in_sync s' ∧
    renderPending s' = false ∧ 0 ≤ cursorX s' < 80 ∧ 0 ≤ cursorY s' < 1000 ∧
    0 ≤ viewportY s' ≤ Z.max 0 (cursorY s' - 24).
Proof.
  apply (vga_stays_in_sync zero_vga [CallPutchar 65; CallFormat (cstr "%d") [VWord 7]; CallPageUp]).
  - exact zero_vga_raw.
  - repeat constructor. eexists. vm_compute. reflexivity.
Defined.

(** C30. Writing a character refines the terminal's specification: cursor
    movement, tab stops, line wrap, backspace and the loss of the oldest line
    when the buffer is full are those of [term_put], the flags are restored and
    the cursor's line is on the screen. *)
Theorem vga_putchar_refines s c :
  settled s →
  ∃ s', vga_putchar c s = Some (tt, s') ∧
    term_of s' = term_put (vgaColor s) (u8 c) (term_of s) ∧
    cursor_visible s' ∧ in_sync s' ∧ vga_eflags s' = vga_eflags s ∧ vgaColor s' = vgaColor s.
Proof.
  intros [Hok _].
  assert (wp (vga_putchar c) (λ _ s', settled s' ∧ cursor_visible s' ∧ same_settings s s' ∧
            term_of s' = term_put (vgaColor s) (u8 c) (term_of s)) s) as Hwp.
  { unfold vga_putchar. wp_step. apply irq_save_spec. wp_step.
    use_wp (putchar_raw_spec c _ (set_eflags_ok _ _ Hok)). intros _ s1 (H1 & [Hc Hf] & Hv & Ht).
    wp_step. use_wp (flush_spec 999 s1 H1). intros _ s2 (scr & -> & H2). apply irq_restore_spec.
    apply (set_eflags_ok (vga_eflags s)) in H2. by split_and!. }
  apply wp_inv in Hwp as ([] & s' & Hrun & Hs & Hv & [Hc Hf] & Ht). exists s'.
  split_and!; try done; try apply Hv. by apply settled_sync.
Qed.

Lemma vga_putchar_refines_witness :
  ∃ s', vga_putchar 65 demo_vga = Some (tt, s') ∧
    term_of s' = term_put (vgaColor demo_vga) (u8 65) (term_of demo_vga).
Proof.
  destruct (vga_putchar_refines demo_vga 65 demo_vga_settled) as (s' & Hrun & Ht & _).
  exists s'. exact (conj Hrun Ht).
Defined.

(** C34. Formatted output prints the text the format string stands for: when
    the arguments fit it, [fvga_write] returns its length, leaves the terminal as
    printing its characters one by one does, shows it and restores the flags. *)
Theorem fvga_write_correct s fmt args cs :
  settled s → format fmt args = Some cs →
  ∃ s', fvga_write fmt args s = Some (Z.of_nat (length cs), s') ∧
    term_of s' = term_puts (vgaColor s) cs (term_of s) ∧ in_sync s' ∧
    vga_eflags s' = vga_eflags s ∧ settled s'.
Proof.
  intros [Hok _] Hf. pose proof (fvga_write_spec fmt args cs s Hok Hf) as Hwp.
  apply wp_inv in Hwp as (n & s' & Hrun & -> & (_ & [_ He] & Ht) & Hs).
  exists s'. split; [done|]. split; [done|]. split; [by apply settled_sync|]. by split.
Qed.

Lemma fvga_write_correct_witness :
  ∃ s', fvga_write (cstr "id=%d at %x%c") [VWord (2 ^ 32 - 12); VWord 0xb8000; VWord 33] demo_vga
          = Some (18, s') ∧
    term_of s' = term_puts (vgaColor demo_vga) (cstr "id=-12 at 0xb8000!") (term_of demo_vga) ∧
    in_sync s' ∧ vga_eflags s' = vga_eflags demo_vga ∧ settled s'.
Proof.
  apply (fvga_write_correct demo_vga (cstr "id=%d at %x%c") [VWord (2 ^ 32 - 12); VWord 0xb8000; VWord 33]
           (cstr "id=-12 at 0xb8000!")).
  - exact demo_vga_settled.
  - vm_compute. reflexivity.
Defined.

(** The value of the digits, last one first. *)
Lemma numeral_value_snoc base l d : numeral_value base (l ++ [d]) = numeral_value base l * base + d.
Proof. unfold numeral_value. by rewrite foldl_app. Qed.

Lemma numeral_rev_value n base v :
  2 ≤ base → 0 ≤ v < base ^ Z.of_nat n →
  numeral_value base (reverse (numeral_rev n base v)) = v ∧
  Forall (λ d, 0 ≤ d < base) (numeral_rev n base v) ∧
  (v ≠ 0 → ∃ d, last (numeral_rev n base v) = Some d ∧ d ≠ 0).
Proof.
  intros Hb. revert v. induction n as [|n IH]; intros v Hv.
  { simpl in Hv. assert (v = 0) as -> by lia. done. }
  simpl. destruct (decide (v = 0)) as [->|H0]; [done|].
  destruct (IH (v / base) (digit_step base v n Hb Hv)) as (H1 & H2 & H3).
  pose proof (Z.mod_pos_bound v base ltac:(lia)). pose proof (Z.div_mod v base ltac:(lia)).
  split_and!.
  - rewrite reverse_cons, numeral_value_snoc, H1. lia.
  - by constructor.
  - intros _. destruct (decide (v / base = 0)) as [E|E].
    + assert (numeral_rev n base (v / base) = []) as -> by (rewrite E; by destruct n).
      exists (v `mod` base). split; [done|lia].
    + destruct (H3 E) as (d & Hd & Hd0). exists d. split; [|done]. by rewrite last_cons, Hd.
Qed.

(** Numbers are printed correctly: in base 10 and 16 [vga_print_unsigned]
    prints, most significant first, digits below the base whose value is the
    number, without a leading zero unless the number is 0, and returns how many
    there are; its 16-byte buffer is never overrun. *)
Theorem vga_print_unsigned_correct s v base :
  vga_ok s → base = 10 ∨ base = 16 → 0 ≤ v < 2 ^ 32 →
  ∃ ds s', vga_print_unsigned v base s = Some (Z.of_nat (length ds), s') ∧
    prints (digit_char <$> ds) s s' ∧
    numeral_value base ds = v ∧ Forall (λ d, 0 ≤ d < base) ds ∧
    (v ≠ 0 → ∃ d, head ds = Some d ∧ d ≠ 0).
Proof.
  intros Hok Hb Hv. pose proof (prints_unsigned v base s Hok Hb Hv) as Hwp.
  apply wp_inv in Hwp as (n & s' & Hrun & -> & Hp). exists (numeral base v), s'.
  split; [done|]. split; [done|]. unfold numeral. destruct (decide (v = 0)) as [->|H0].
  { split_and!; [done| |done]. constructor; [lia|done]. }
  destruct (numeral_rev_value 32 base v) as (H1 & H2 & H3); [lia| |].
  { split; [lia|]. eapply Z.lt_le_trans; [apply Hv|]. apply Z.pow_le_mono_l. lia. }
  split_and!; [done|by apply Forall_reverse|]. intros _. rewrite head_reverse. by apply H3.
Qed.

Lemma vga_print_unsigned_correct_witness :
  ∃ ds s', vga_print_unsigned 4095 16 demo_vga = Some (Z.of_nat (length ds), s') ∧
    prints (digit_char <$> ds) demo_vga s' ∧
    numeral_value 16 ds = 4095 ∧ Forall (λ d, 0 ≤ d < 16) ds ∧
    (4095 ≠ 0 → ∃ d, head ds = Some d ∧ d ≠ 0).
Proof.
  apply (vga_print_unsigned_correct demo_vga 4095 16).
  - exact (proj1 demo_vga_settled).
  - right. reflexivity.
  - lia.
Defined.

(** Scrolling: the four viewport functions move the viewport by one line or
    one page and stop at the first line and at the last page; the buffer, the
    cursor and the colour stay as they are and the text memory shows the new
    viewport. *)
Theorem vga_scrolling s c d :
  settled s →
  (c, d) ∈ [(CallScrollUp, -1); (CallScrollDown, 1); (CallPageUp, -25); (CallPageDown, 25)] →
  ∃ s', vga_run c s = Some (tt, s') ∧ in_sync s' ∧ term_of s' = term_of s ∧
    vgaColor s' = vgaColor s ∧
    viewportY s' = Z.max 0 (Z.min (viewportY s + d) (cursorY s - 24)).
Proof.
  intros Hs Hc.
  assert (wp (vga_run c) (λ _, scrolls d s) s) as Hwp.
  { rewrite !elem_of_cons, elem_of_nil in Hc.
    destruct Hc as [[= -> ->]|[[= -> ->]|[[= -> ->]|[[= -> ->]|[]]]]].
    - by apply scroll_up_spec.
    - by apply scroll_down_spec.
    - by apply page_up_spec.
    - by apply page_down_spec. }
  apply wp_inv in Hwp as ([] & s' & Hrun & Hs' & [Hcol _] & Ht & Hv).
  exists s'. split_and!; try done. by apply settled_sync.
Qed.

Lemma vga_scrolling_witness :
  ∃ s', vga_run CallPageDown demo_vga = Some (tt, s') ∧ in_sync s' ∧
    term_of s' = term_of demo_vga ∧ vgaColor s' = vgaColor demo_vga ∧
    viewportY s' = Z.max 0 (Z.min (viewportY demo_vga + 25) (cursorY demo_vga - 24)).
Proof.
  apply (vga_scrolling demo_vga CallPageDown 25 demo_vga_settled).
  right. right. right. left.
Defined.

(** Printing text that fits on the line. *)
Definition printable (c : Z) : Prop := 32 ≤ c < 256.

Lemma term_puts_text color cs b x y :
  rect b → 0 ≤ y < 1000 → 0 ≤ x → x + Z.of_nat (length cs) < 80 → Forall printable cs →
  let t := term_puts color cs (mkTerm b x y) in
  t_x t = x + Z.of_nat (length cs) ∧ t_y t = y ∧ rect (t_lines t) ∧
  ∀ y' x', cell (t_lines t) y' x' =
    if decide (y' = y ∧ x ≤ x' < x + Z.of_nat (length cs))
    then (λ c, c + 256 * color) <$> cs !! Z.to_nat (x' - x) else cell b y' x'.
Proof.
  intros Hb Hy. revert b x Hb. induction cs as [|c cs IH]; intros b x Hb Hx Hlen Hcs.
  { simpl. split; [lia|]. split; [done|]. split; [done|]. intros. by rewrite decide_False by lia. }
  apply Forall_cons in Hcs as [Hc Hcs]. unfold printable in Hc. simpl in Hlen.
  change (term_puts color (c :: cs) (mkTerm b x y))
    with (term_puts color cs (term_put color (u8 c) (mkTerm b x y))).
  assert (term_put color (u8 c) (mkTerm b x y) = mkTerm (put_cell y x (c + 256 * color) b) (x + 1) y) as ->.
  { unfold term_put. rewrite u8_small by lia. decides. unfold term_advance. decides.
    unfold term_scroll. cbn [t_y]. by decides. }
  specialize (IH (put_cell y x (c + 256 * color) b) (x + 1) (rect_put _ _ _ _ Hb Hy)).
  destruct IH as (H1 & H2 & H3 & H4); [lia|lia|done|]. cbv zeta.
  split; [rewrite H1; simpl; lia|]. split; [done|]. split; [done|]. intros y' x'. rewrite H4.
  rewrite cell_put by (done || lia). simpl length.
  destruct (decide (y' = y ∧ x + 1 ≤ x' < x + 1 + Z.of_nat (length cs))).
  - rewrite decide_True by lia. by replace (Z.to_nat (x' - x)) with (S (Z.to_nat (x' - (x + 1)))) by lia.
  - destruct (decide (y = y' ∧ x = x')) as [[-> ->]|].
    + rewrite decide_True by lia. by replace (Z.to_nat (x' - x')) with O by lia.
    + by rewrite decide_False by lia.
Qed.

(** Text that fits on the cursor's line appears there: the cells from the
    cursor on hold the characters of the string in the current colour, the
    cursor is behind them, and no other cell of the buffer has changed. *)
Theorem vga_write_text s str :
  settled s → Forall printable str → cursorX s + Z.of_nat (length str) < 80 →
  ∃ s', vga_write str s = Some (tt, s') ∧ in_sync s' ∧
    cursorX s' = cursorX s + Z.of_nat (length str) ∧ cursorY s' = cursorY s ∧
    ∀ y x, cell (terminalBuffer s') y x =
      if decide (y = cursorY s ∧ cursorX s ≤ x < cursorX s + Z.of_nat (length str))
      then (λ c, c + 256 * vgaColor s) <$> str !! Z.to_nat (x - cursorX s)
      else cell (terminalBuffer s) y x.
Proof.
  intros [Hok _] Hstr Hfit. pose proof (write_spec str s Hok) as Hwp.
  apply wp_inv in Hwp as ([] & s' & Hrun & (_ & _ & Ht) & Hs). exists s'. split; [done|].
  split; [by apply settled_sync|]. pose proof (ok_x _ _ Hok). pose proof (ok_y _ _ Hok).
  destruct (term_puts_text (vgaColor s) str (terminalBuffer s) (cursorX s) (cursorY s))
    as (H1 & H2 & _ & H4); [apply Hok|lia|lia|lia|done|].
  fold (term_of s) in *. rewrite <- Ht in *. done.
Qed.

Lemma vga_write_text_witness :
  ∃ s', vga_write (cstr "Hello") demo_vga = Some (tt, s') ∧ in_sync s' ∧
    cursorX s' = cursorX demo_vga + Z.of_nat (length (cstr "Hello")) ∧ cursorY s' = cursorY demo_vga ∧
    ∀ y x, cell (terminalBuffer s') y x =
      if decide (y = cursorY demo_vga ∧
                 cursorX demo_vga ≤ x < cursorX demo_vga + Z.of_nat (length (cstr "Hello")))
      then (λ c, c + 256 * vgaColor demo_vga) <$> cstr "Hello" !! Z.to_nat (x - cursorX demo_vga)
      else cell (terminalBuffer demo_vga) y x.
Proof.
  apply (vga_write_text demo_vga (cstr "Hello") demo_vga_settled).
  - vm_compute. repeat constructor; discriminate.
  - rewrite demo_vga_cursor. vm_compute. reflexivity.
Defined.

End Vga.
