(* ===== verification/Interfaces.v ===== *)
(** * What the memory manager relies on

    [paging.c] calls [physical_alloc_page] and [fvga_write].  Its model is
    written and verified against what these two promise; the instances at the
    end show that the page allocator and the terminal keep the promises. *)

From S2P Require Import Prelude Physical Vga.

(** ** A source of physical pages

    [pa_rep s F]: the allocator can hand out the pages of [F] (page numbers), at
    least. *)
Class PageAllocator (A : Type) := {
  pa_alloc : M A Z;
  pa_rep : A → gset Z → Prop;
  pa_alloc_spec : ∀ s F, pa_rep s F →
    wp pa_alloc (λ r s',
      (r = 0 ∧ F = ∅ ∧ pa_rep s' F) ∨
      (∃ p, p ∈ F ∧ (∀ q, q ∈ F → p ≤ q) ∧ 0 < p < 2 ^ 20 ∧ r = p * 4096 ∧ pa_rep s' (F ∖ {[p]}))) s
}.

(** ** A console *)

Class Console (C : Type) := {
  con_write : list Z → list Vga.va_arg → M C Z;
  con_ok : C → Prop;
  con_write_spec : ∀ c fmt args, con_ok c → is_Some (Vga.format fmt args) →
    wp (con_write fmt args) (λ _ c', con_ok c') c
}.

(** ** The instances *)

(** The pages below 1 MiB are never free after [physical_init]. *)
Definition phys_pool (s : Physical.phys) (F : gset Z) : Prop :=
  Physical.phys_rep s F ∧ ∀ p, p ∈ F → 256 ≤ p.

Lemma phys_pool_alloc s F :
  phys_pool s F →
  wp Physical.physical_alloc_page (λ r s',
    (r = 0 ∧ F = ∅ ∧ phys_pool s' F) ∨
    (∃ p, p ∈ F ∧ (∀ q, q ∈ F → p ≤ q) ∧ 0 < p < 2 ^ 20 ∧ r = p * 4096 ∧ phys_pool s' (F ∖ {[p]}))) s.
Proof.
  intros [Hrep Hlow]. use_wp (Physical.physical_alloc_page_spec s F Hrep).
  intros r s' (F' & [(-> & -> & Hno)|(p & Hp & H256 & Hmin & -> & ->)] & Hrep').
  - left. split; [done|]. split; [|done]. apply elem_of_equiv_empty_L. intros p Hp.
    specialize (Hno p Hp). specialize (Hlow p Hp). lia.
  - right. exists p. pose proof (Physical.bm_sub _ _ (Physical.rep_bm _ _ Hrep) _ Hp) as Hr.
    apply Physical.elem_of_pages in Hr. change Physical.PHYSICAL_PAGE_COUNT with 16384 in Hr.
    split; [done|]. split; [intros q Hq; apply Hmin; [done|by apply Hlow]|]. split; [lia|].
    split; [done|]. split; [done|]. intros q [Hq _]%elem_of_difference. by apply Hlow.
Qed.

#[global] Instance phys_PageAllocator : PageAllocator Physical.phys := {
  pa_alloc := Physical.physical_alloc_page;
  pa_rep := phys_pool;
  pa_alloc_spec := phys_pool_alloc
}.

Lemma vga_console c fmt args :
  Vga.settled c → is_Some (Vga.format fmt args) →
  wp (Vga.fvga_write fmt args) (λ _ c', Vga.settled c') c.
Proof.
  intros [Hok _] [cs Hcs]. use_wp (Vga.fvga_write_spec fmt args cs c Hok Hcs). by intros n c' (_ & _ & ?).
Qed.

#[global] Instance vga_Console : Console Vga.vga := {
  con_write := Vga.fvga_write;
  con_ok := Vga.settled;
  con_write_spec := vga_console
}.
