(* ===== verification/Paging.v ===== *)
(** * Paging (src/kernel/mm/paging.c)

    The two-level page tables in physical memory, the CPU that walks them (CR0,
    CR3 and the TLB), and the operations of the file, which reach the tables
    through the very translation they are editing. *)

From S2P Require Import Prelude Physical Vga Interfaces.

Module Paging.

(** ** Constants and macros *)

Definition PAGE_SIZE : Z := 4096.
Definition PAGE_PRESENT : Z := 0x1.
Definition PAGE_WRITABLE : Z := 0x2.
Definition PAGE_USER : Z := 0x4.

Definition PAGE_TABLE_ENTRIES : Z := 1024.
Definition PAGE_DIRECTORY_ENTRIES : Z := 1024.
Definition PAGE_ADDRESS_MASK : Z := 0xFFFFF000.

Definition PAGE_DIRECTORY_INDEX (address : Z) : Z := Z.land (Z.shiftr address 22) 0x3FF.
Definition PAGE_TABLE_INDEX (address : Z) : Z := Z.land (Z.shiftr address 12) 0x3FF.
Definition PAGE_OFFSET (address : Z) : Z := Z.land address 0xFFF.

(** [entry & PAGE_PRESENT] as a condition. *)
Definition present (entry : Z) : bool := negb (Z.land entry PAGE_PRESENT =? 0).
(** [entry & PAGE_ADDRESS_MASK] *)
Definition frame (entry : Z) : Z := Z.land entry PAGE_ADDRESS_MASK.

(** ** The machine *)

(** Physical memory by words, the control registers, the TLB (frame by virtual
    page number), and the two components paging.c calls. *)
Record mmu {A C : Type} : Type := mkMmu {
  mem : gmap Z Z;
  cr0 : Z;
  cr3 : Z;
  tlb : gmap Z Z;
  pages_of : A;
  console : C
}.
Arguments mmu : clear implicits.

(** Where the linker puts the two static tables. *)
Record layout : Type := mkLayout {
  pageDirectory : Z;
  firstPageTable : Z
}.

(** The page walk of the CPU: directory entry, table entry; None is a page
    fault.  (Supervisor mode with CR0.WP clear: the access bits are not
    checked; CR4.PSE is clear.) *)
Definition walk (m : gmap Z Z) (pd va : Z) : option Z :=
  let pde := getw m (pd + 4 * PAGE_DIRECTORY_INDEX va) in
  if present pde then
    let pte := getw m (frame pde + 4 * PAGE_TABLE_INDEX va) in
    if present pte then Some pte else None
  else None.

Section operations.
Context {A C : Type} `{PageAllocator A} `{Console C} (L : layout).

Definition set_mem (x : gmap Z Z) (s : mmu A C) : mmu A C :=
  mkMmu _ _ x (cr0 s) (cr3 s) (tlb s) (pages_of s) (console s).
Definition set_cr0 (x : Z) (s : mmu A C) : mmu A C :=
  mkMmu _ _ (mem s) x (cr3 s) (tlb s) (pages_of s) (console s).
Definition set_cr3 (x : Z) (s : mmu A C) : mmu A C :=
  mkMmu _ _ (mem s) (cr0 s) x (tlb s) (pages_of s) (console s).
Definition set_tlb (x : gmap Z Z) (s : mmu A C) : mmu A C :=
  mkMmu _ _ (mem s) (cr0 s) (cr3 s) x (pages_of s) (console s).
Definition set_pages (x : A) (s : mmu A C) : mmu A C :=
  mkMmu _ _ (mem s) (cr0 s) (cr3 s) (tlb s) x (console s).
Definition set_console (x : C) (s : mmu A C) : mmu A C :=
  mkMmu _ _ (mem s) (cr0 s) (cr3 s) (tlb s) (pages_of s) x.

(** The translation of an address: none while CR0.PG is clear, else the TLB,
    else the walk, whose result the TLB then holds. *)
Definition translate (va : Z) : M (mmu A C) Z :=
  s ← gets (λ s, s);
  if negb (Z.testbit (cr0 s) 31) then mret va
  else match tlb s !! (va / 4096) with
       | Some f => mret (f + PAGE_OFFSET va)
       | None =>
           pte ← lift (walk (mem s) (frame (cr3 s)) va);
           _ ← modify (set_tlb (<[va / 4096 := frame pte]> (tlb s)));
           mret (frame pte + PAGE_OFFSET va)
       end.

Definition load (va : Z) : M (mmu A C) Z :=
  pa ← translate va; gets (λ s, getw (mem s) pa).
Definition store (va v : Z) : M (mmu A C) unit :=
  pa ← translate va; modify (λ s, set_mem (<[pa := v]> (mem s)) s).

(** ** The functions of paging.c *)

Definition physical_to_virtual (physicalAddress : Z) : Z := physicalAddress.

Definition page_address_valid (address : Z) : bool := Z.land address (PAGE_SIZE - 1) =? 0.

(** [invlpg] *)
Definition paging_invalidate_page (virtualAddress : Z) : M (mmu A C) unit :=
  modify (λ s, set_tlb (delete (virtualAddress / 4096) (tlb s)) s).

Definition paging_get_cr3 : M (mmu A C) Z := gets cr3.

(** Loading CR3 empties the TLB (there are no global pages). *)
Definition paging_load_cr3 (address : Z) : M (mmu A C) unit :=
  modify (λ s, set_tlb ∅ (set_cr3 address s)).

(** Changing CR0.PG empties it, too. *)
Definition paging_enable : M (mmu A C) unit :=
  modify (λ s, set_tlb ∅ (set_cr0 (Z.lor (cr0 s) 0x80000000) s)).
Definition paging_disable : M (mmu A C) unit :=
  modify (λ s, set_tlb ∅ (set_cr0 (Z.land (cr0 s) (u32 (Z.lnot 0x80000000))) s)).

Definition physical_alloc_page : M (mmu A C) Z := zoom pages_of set_pages pa_alloc.
Definition fvga_write (fmt : list Z) (args : list Vga.va_arg) : M (mmu A C) Z :=
  zoom console set_console (con_write fmt args).

Definition allocate_page_table : M (mmu A C) Z :=
  physicalAddress ← physical_alloc_page;
  if physicalAddress =? 0 then mret 0
  else
    let pageTable := physical_to_virtual physicalAddress in
    _ ← mfor (range 0 PAGE_TABLE_ENTRIES) (λ i, store (pageTable + 4 * i) 0);
    mret physicalAddress.

Definition paging_init : M (mmu A C) unit :=
  _ ← mfor (range 0 PAGE_DIRECTORY_ENTRIES) (λ i, store (pageDirectory L + 4 * i) 0);
  _ ← mfor (range 0 PAGE_TABLE_ENTRIES) (λ i,
        store (firstPageTable L + 4 * i)
          (Z.lor (Z.lor (u32 (i * PAGE_SIZE)) PAGE_PRESENT) PAGE_WRITABLE));
  _ ← store (pageDirectory L + 4 * 0)
        (Z.lor (Z.lor (firstPageTable L) PAGE_PRESENT) PAGE_WRITABLE);
  _ ← paging_load_cr3 (pageDirectory L);
  paging_enable.

Definition bool_word (b : bool) : Vga.va_arg := Vga.VWord (if b then 1 else 0).

(** The table of a directory entry, allocated if there is none; None when that
    fails. *)
Definition find_or_add_table (directoryIdx : Z) : M (mmu A C) (option Z) :=
  directoryEntry ← load (pageDirectory L + 4 * directoryIdx);
  if negb (present directoryEntry) then
    tablePhysicalAddress ← allocate_page_table;
    if tablePhysicalAddress =? 0 then mret None
    else
      _ ← store (pageDirectory L + 4 * directoryIdx)
            (Z.lor (Z.lor (Z.land tablePhysicalAddress PAGE_ADDRESS_MASK) PAGE_PRESENT) PAGE_WRITABLE);
      mret (Some (physical_to_virtual tablePhysicalAddress))
  else mret (Some (physical_to_virtual (Z.land directoryEntry PAGE_ADDRESS_MASK))).

(** The end of [paging_map]: the entry of the table is filled unless it is in
    use. *)
Definition install_mapping (pageTable tableIdx virtualAddress physicalAddress flags : Z)
  : M (mmu A C) Z :=
  e ← load (pageTable + 4 * tableIdx);
  if present e then mret (-3)
  else
    _ ← store (pageTable + 4 * tableIdx)
          (Z.lor (Z.land physicalAddress PAGE_ADDRESS_MASK)
                 (Z.land flags (u32 (Z.lnot PAGE_ADDRESS_MASK))));
    e ← load (pageTable + 4 * tableIdx);
    _ ← store (pageTable + 4 * tableIdx) (Z.lor e PAGE_PRESENT);
    _ ← paging_invalidate_page virtualAddress;
    mret 0.

Definition paging_map (virtualAddress physicalAddress flags : Z) : M (mmu A C) Z :=
  _ ← fvga_write (cstr "paging_map: VA=%x PA=%x\n")
        [Vga.VWord virtualAddress; Vga.VWord physicalAddress];
  _ ← fvga_write (cstr "paging_map: VA valid=%d PA valid=%d\n")
        [bool_word (page_address_valid virtualAddress); bool_word (page_address_valid physicalAddress)];
  if negb (page_address_valid virtualAddress) then
    _ ← fvga_write (cstr "paging_map: INVALID VIRTUAL\n") []; mret (-1)
  else if negb (page_address_valid physicalAddress) then
    _ ← fvga_write (cstr "paging_map: INVALID PHYSICAL\n") []; mret (-1)
  else if negb (page_address_valid virtualAddress) || negb (page_address_valid physicalAddress) then
    mret (-1)
  else
    let directoryIdx := PAGE_DIRECTORY_INDEX virtualAddress in
    let tableIdx := PAGE_TABLE_INDEX virtualAddress in
    table ← find_or_add_table directoryIdx;
    match table with
    | None => mret (-2)
    | Some pageTable => install_mapping pageTable tableIdx virtualAddress physicalAddress flags
    end.

Definition paging_unmap (virtualAddress : Z) : M (mmu A C) Z :=
  if negb (page_address_valid virtualAddress) then mret (-1)
  else
    let directoryIndex := PAGE_DIRECTORY_INDEX virtualAddress in
    let tableIndex := PAGE_TABLE_INDEX virtualAddress in
    directoryEntry ← load (pageDirectory L + 4 * directoryIndex);
    if negb (present directoryEntry) then mret (-2)
    else
      let pageTable := physical_to_virtual (Z.land directoryEntry PAGE_ADDRESS_MASK) in
      e ← load (pageTable + 4 * tableIndex);
      if negb (present e) then mret (-3)
      else
        _ ← store (pageTable + 4 * tableIndex) 0;
        _ ← paging_invalidate_page virtualAddress;
        mret 0.

End operations.

(** ** Addresses and entries *)

Lemma PAGE_DIRECTORY_INDEX_eq va : PAGE_DIRECTORY_INDEX va = (va / 4096 / 1024) `mod` 1024.
Proof.
  unfold PAGE_DIRECTORY_INDEX. change 0x3FF with (2 ^ 10 - 1). rewrite land_ones_mod by lia.
  rewrite Z.shiftr_div_pow2, Z.div_div by lia. done.
Qed.
Lemma PAGE_TABLE_INDEX_eq va : PAGE_TABLE_INDEX va = (va / 4096) `mod` 1024.
Proof.
  unfold PAGE_TABLE_INDEX. change 0x3FF with (2 ^ 10 - 1). rewrite land_ones_mod by lia.
  by rewrite Z.shiftr_div_pow2 by lia.
Qed.
Lemma PAGE_OFFSET_eq va : PAGE_OFFSET va = va `mod` 4096.
Proof. unfold PAGE_OFFSET. change 0xFFF with (2 ^ 12 - 1). by rewrite land_ones_mod by lia. Qed.

Lemma index_range va :
  0 ≤ PAGE_DIRECTORY_INDEX va < 1024 ∧ 0 ≤ PAGE_TABLE_INDEX va < 1024.
Proof.
  rewrite PAGE_DIRECTORY_INDEX_eq, PAGE_TABLE_INDEX_eq. split; apply Z.mod_pos_bound; lia.
Qed.

(** The two indices of a 32-bit address name its page. *)
Lemma index_inj va va' :
  0 ≤ va < 2 ^ 32 → 0 ≤ va' < 2 ^ 32 →
  PAGE_DIRECTORY_INDEX va = PAGE_DIRECTORY_INDEX va' → PAGE_TABLE_INDEX va = PAGE_TABLE_INDEX va' →
  va / 4096 = va' / 4096.
Proof.
  rewrite !PAGE_DIRECTORY_INDEX_eq, !PAGE_TABLE_INDEX_eq. intros Hv Hv'.
  assert (∀ v, 0 ≤ v < 2 ^ 32 → 0 ≤ v / 4096 / 1024 < 1024) as Hr.
  { intros v H. rewrite Z.div_div by lia. split; [apply Z.div_pos; lia|].
    apply Z.div_lt_upper_bound; lia. }
  rewrite (Z.mod_small (va / 4096 / 1024)), (Z.mod_small (va' / 4096 / 1024)) by auto.
  intros E1 E2. rewrite (Z.div_mod (va / 4096) 1024), (Z.div_mod (va' / 4096) 1024) by lia. lia.
Qed.

Lemma frame_eq e : frame e = u32 e - u32 e `mod` 4096.
Proof.
  unfold frame. change 4096 with (2 ^ 12). rewrite <- land_not_ones by (try lia; apply u32_range).
  change PAGE_ADDRESS_MASK with (2 ^ 32 - 2 ^ 12). unfold u32. rewrite <- Z.land_ones by lia.
  by rewrite <- Z.land_assoc.
Qed.

Lemma frame_ok e : 0 ≤ frame e < 2 ^ 32 ∧ frame e `mod` 4096 = 0.
Proof.
  rewrite frame_eq. pose proof (u32_range e). pose proof (Z.mod_pos_bound (u32 e) 4096 ltac:(lia)).
  pose proof (Z.div_mod (u32 e) 4096 ltac:(lia)). split; [lia|].
  replace (u32 e - u32 e `mod` 4096) with ((u32 e / 4096) * 4096) by lia. apply Z_mod_mult.
Qed.

Lemma frame_id f : 0 ≤ f < 2 ^ 32 → f `mod` 4096 = 0 → frame f = f.
Proof. intros Hf Hm. rewrite frame_eq, u32_small by done. lia. Qed.

Lemma frame_lor a b : frame (Z.lor a b) = Z.lor (frame a) (frame b).
Proof. apply Z.land_lor_distr_l. Qed.

Lemma frame_flags e : frame (Z.lor (Z.lor e PAGE_PRESENT) PAGE_WRITABLE) = frame e.
Proof. rewrite !frame_lor. change (frame PAGE_PRESENT) with 0. change (frame PAGE_WRITABLE) with 0. by rewrite !Z.lor_0_r. Qed.

Lemma present_eq e : present e = Z.testbit e 0.
Proof. unfold present. by rewrite <- (test_bit_spec e 0) by lia. Qed.

Lemma present_lor a b : present (Z.lor a b) = present a || present b.
Proof. rewrite !present_eq. apply Z.lor_spec. Qed.

Lemma present_flags e : present (Z.lor (Z.lor e PAGE_PRESENT) PAGE_WRITABLE) = true.
Proof. rewrite !present_lor. change (present PAGE_PRESENT) with true. by rewrite orb_true_r. Qed.

Lemma page_address_valid_eq a : page_address_valid a = bool_decide (a `mod` 4096 = 0).
Proof.
  unfold page_address_valid, PAGE_SIZE. change (4096 - 1) with (2 ^ 12 - 1). rewrite land_ones_mod by lia.
  change (2 ^ 12) with 4096. apply Bool.eq_iff_eq_true. by rewrite Z.eqb_eq, bool_decide_eq_true.
Qed.

(** The words of aligned frames do not overlap. *)
Lemma word_inj f g i j :
  f `mod` 4096 = 0 → g `mod` 4096 = 0 → 0 ≤ i < 1024 → 0 ≤ j < 1024 →
  f + 4 * i = g + 4 * j → f = g ∧ i = j.
Proof.
  intros Hf Hg Hi Hj E. pose proof (Z.div_mod f 4096 ltac:(lia)). pose proof (Z.div_mod g 4096 ltac:(lia)). lia.
Qed.

(** ** The walk *)

Section walk.
Context (pd : Z).
Hypothesis Hpd : 0 ≤ pd < 2 ^ 32 ∧ pd `mod` 4096 = 0.

Definition pde (m : gmap Z Z) (i : Z) : Z := getw m (pd + 4 * i).

(** Two memories with the same translations. *)
Definition same_walk (m m' : gmap Z Z) : Prop := ∀ va, walk m' pd va = walk m pd va.

(** The frame [f] is mapped at its own address. *)
Definition self (m : gmap Z Z) (f : Z) : Prop := ∃ pte, walk m pd f = Some pte ∧ frame pte = f.

(** Writing only inside the frame [f]. *)
Definition only_in (f : Z) (m m' : gmap Z Z) : Prop :=
  ∀ g i, g `mod` 4096 = 0 → 0 ≤ i < 1024 → g ≠ f → getw m' (g + 4 * i) = getw m (g + 4 * i).

(** What holds of the tables: the directory and the tables are frames of their
    own, each mapped at its own address, and none of them is a free page. *)
Record tables_ok (m : gmap Z Z) (F : gset Z) : Prop := {
  tab_pd : self m pd;
  tab_self : ∀ i, 0 ≤ i < 1024 → present (pde m i) = true → self m (frame (pde m i));
  tab_ne : ∀ i, 0 ≤ i < 1024 → present (pde m i) = true → frame (pde m i) ≠ pd;
  tab_inj : ∀ i j, 0 ≤ i < 1024 → 0 ≤ j < 1024 → present (pde m i) = true →
              present (pde m j) = true → frame (pde m i) = frame (pde m j) → i = j;
  tab_pd_used : pd / 4096 ∉ F;
  tab_used : ∀ i, 0 ≤ i < 1024 → present (pde m i) = true → frame (pde m i) / 4096 ∉ F
}.

(** The TLB only holds what the walk gives. *)
Definition coherent (m t : gmap Z Z) : Prop :=
  ∀ n f, t !! n = Some f → 0 ≤ n < 2 ^ 20 ∧ ∃ pte, walk m pd (n * 4096) = Some pte ∧ frame pte = f.

Lemma walk_page m va va' : va / 4096 = va' / 4096 → walk m pd va = walk m pd va'.
Proof.
  intros E. unfold walk. by rewrite !PAGE_DIRECTORY_INDEX_eq, !PAGE_TABLE_INDEX_eq, E.
Qed.

Lemma same_walk_self m m' f : same_walk m m' → self m f → self m' f.
Proof. intros Hw (pte & H1 & H2). exists pte. by rewrite Hw. Qed.

Lemma same_walk_coherent m m' t : same_walk m m' → coherent m t → coherent m' t.
Proof. intros Hw Hc n f Hn. rewrite Hw. by apply Hc. Qed.

(** A walk reads the directory and the tables only. *)
Lemma walk_only_in f m m' :
  only_in f m m' → f ≠ pd →
  (∀ i, 0 ≤ i < 1024 → present (pde m i) = true → frame (pde m i) ≠ f) →
  same_walk m m' ∧ ∀ i, 0 ≤ i < 1024 → pde m' i = pde m i.
Proof.
  intros Hin Hne Htab.
  assert (∀ i, 0 ≤ i < 1024 → pde m' i = pde m i) as Hpde
    by (intros i Hi; apply Hin; [apply Hpd|done|congruence]).
  split; [|done]. intros va. destruct (index_range va) as [Hi Hj]. unfold walk.
  fold (pde m' (PAGE_DIRECTORY_INDEX va)) (pde m (PAGE_DIRECTORY_INDEX va)). rewrite Hpde by done.
  destruct (present (pde m (PAGE_DIRECTORY_INDEX va))) eqn:Hp; [|done].
  rewrite Hin; [done|apply frame_ok|done|by apply Htab].
Qed.

(** Adding an empty table changes no translation. *)
Lemma walk_add_table m i e :
  0 ≤ i < 1024 → present (pde m i) = false →
  (∀ k, 0 ≤ k < 1024 → present (pde m k) = true → frame (pde m k) ≠ pd) →
  present e = true → frame e ≠ pd → (∀ k, 0 ≤ k < 1024 → present (getw m (frame e + 4 * k)) = false) →
  let m' := <[pd + 4 * i := e]> m in
  same_walk m m' ∧ ∀ k, 0 ≤ k < 1024 → pde m' k = if decide (i = k) then e else pde m k.
Proof.
  intros Hi Habs Htab He Hne Hempty m'.
  assert (∀ k, 0 ≤ k < 1024 → pde m' k = if decide (i = k) then e else pde m k) as Hpde.
  { intros k Hk. unfold pde, m'. rewrite getw_insert.
    destruct (decide (i = k)) as [->|]; [by rewrite decide_True|by rewrite decide_False by lia]. }
  assert (∀ f k, f `mod` 4096 = 0 → 0 ≤ k < 1024 → f ≠ pd → getw m' (f + 4 * k) = getw m (f + 4 * k)) as Hoff.
  { intros f k Hf Hk Hfn. unfold m'. rewrite getw_insert. apply decide_False. intros E.
    destruct (word_inj pd f i k) as [E' _]; [apply Hpd|done|done|done|done|congruence]. }
  split; [|done]. intros va. destruct (index_range va) as [Hdi Hti]. unfold walk.
  fold (pde m' (PAGE_DIRECTORY_INDEX va)) (pde m (PAGE_DIRECTORY_INDEX va)). rewrite Hpde by done.
  destruct (decide (i = PAGE_DIRECTORY_INDEX va)) as [->|].
  - rewrite He, Habs, Hoff by (done || apply frame_ok). by rewrite Hempty.
  - destruct (present (pde m (PAGE_DIRECTORY_INDEX va))) eqn:Hp; [|done]. rewrite Hoff; [done|apply frame_ok|done|by apply Htab].
Qed.

(** Writing an entry of a table changes the translation of its page only. *)
Lemma walk_set_entry m F i j v :
  tables_ok m F → 0 ≤ i < 1024 → 0 ≤ j < 1024 → present (pde m i) = true →
  let m' := <[frame (pde m i) + 4 * j := v]> m in
  (∀ va, walk m' pd va =
     if decide (PAGE_DIRECTORY_INDEX va = i ∧ PAGE_TABLE_INDEX va = j)
     then (if present v then Some v else None) else walk m pd va) ∧
  ∀ k, 0 ≤ k < 1024 → pde m' k = pde m k.
Proof.
  intros Hok Hi Hj Hp m'.
  assert (∀ f k, f `mod` 4096 = 0 → 0 ≤ k < 1024 → getw m' (f + 4 * k) =
            if decide (f = frame (pde m i) ∧ k = j) then v else getw m (f + 4 * k)) as Hoff.
  { intros f k Hf Hk. unfold m'. rewrite getw_insert.
    destruct (decide (f = frame (pde m i) ∧ k = j)) as [[-> ->]|Hn]; [by rewrite decide_True|].
    apply decide_False. intros E.
    destruct (word_inj (frame (pde m i)) f j k) as [E1 E2];
      [apply frame_ok|done|done|done|done|by destruct Hn]. }
  assert (∀ k, 0 ≤ k < 1024 → pde m' k = pde m k) as Hpde.
  { intros k Hk. unfold pde at 1. rewrite Hoff by (done || apply Hpd). apply decide_False.
    intros [E _]. by destruct (tab_ne _ _ Hok i Hi Hp). }
  split; [|done]. intros va. destruct (index_range va) as [Hdi Hti]. unfold walk.
  fold (pde m' (PAGE_DIRECTORY_INDEX va)) (pde m (PAGE_DIRECTORY_INDEX va)). rewrite Hpde by done.
  destruct (decide (PAGE_DIRECTORY_INDEX va = i ∧ PAGE_TABLE_INDEX va = j)) as [[-> ->]|Hn].
  - rewrite Hp, Hoff by (done || apply frame_ok). by rewrite decide_True.
  - destruct (present (pde m (PAGE_DIRECTORY_INDEX va))) eqn:Hpv; [|done].
    rewrite Hoff by (done || apply frame_ok). rewrite decide_False; [done|].
    intros [E Ej]. destruct Hn. split; [|done]. by apply (tab_inj _ _ Hok).
Qed.

End walk.

(** ** The operations *)

Section correctness.
Context {A C : Type} `{PageAllocator A} `{Console C} (L : layout).
Abbreviation pd := (pageDirectory L).
Implicit Types s : mmu A C.

(** The static tables are page aligned, in the kernel's image (linker.ld). *)
Record layout_ok : Prop := {
  lay_pd : 0x9000 ≤ pd < 0x98000 ∧ pd `mod` 4096 = 0;
  lay_first : 0x9000 ≤ firstPageTable L < 0x98000 ∧ firstPageTable L `mod` 4096 = 0;
  lay_apart : pd ≠ firstPageTable L
}.
Hypothesis HL : layout_ok.

Lemma pd_aligned : 0 ≤ pd < 2 ^ 32 ∧ pd `mod` 4096 = 0.
Proof. destruct HL as [[? ?] _ _]. split; [lia|done]. Qed.

(** The state between two calls: paging is on, the tables are well formed, the
    TLB is coherent, and [F] are the free pages. *)
Record paging_ok (s : mmu A C) (F : gset Z) : Prop := {
  pg_on : Z.testbit (cr0 s) 31 = true;
  pg_cr3 : cr3 s = pd;
  pg_tables : tables_ok pd (mem s) F;
  pg_tlb : coherent pd (mem s) (tlb s);
  pg_rep : pa_rep (pages_of s) F;
  pg_con : con_ok (console s)
}.

(** [s'] is [s] with another memory and TLB. *)
Definition at_mem (s : mmu A C) (m t : gmap Z Z) : mmu A C := set_mem m (set_tlb t s).

Lemma at_mem_id s : at_mem s (mem s) (tlb s) = s.
Proof. by destruct s. Qed.

Section access.
Context (s : mmu A C) (m t : gmap Z Z) (f : Z).
Hypothesis Hon : Z.testbit (cr0 s) 31 = true.
Hypothesis Hcr3 : cr3 s = pd.
Hypothesis Hc : coherent pd m t.
Hypothesis Hf : 0 ≤ f < 2 ^ 32 ∧ f `mod` 4096 = 0.
Hypothesis Hself : self pd m f.

(** A mapped address is translated as the tables say, also from the TLB. *)
Lemma translate_mapped va pte (Q : Z → mmu A C → Prop) :
  0 ≤ va < 2 ^ 32 → walk m pd va = Some pte →
  (∀ t', coherent pd m t' → Q (frame pte + va `mod` 4096) (at_mem s m t')) →
  wp (translate va) Q (at_mem s m t).
Proof using Hon Hcr3 Hc HL.
  intros Hva Hw HQ. unfold translate. do 2 wp_step. change (cr0 (at_mem s m t)) with (cr0 s).
  change (tlb (at_mem s m t)) with t. change (mem (at_mem s m t)) with m.
  change (cr3 (at_mem s m t)) with (cr3 s). rewrite Hon. simpl. rewrite Hcr3, PAGE_OFFSET_eq.
  rewrite frame_id by apply pd_aligned. destruct (t !! (va / 4096)) as [g|] eqn:Ht.
  - wp_step. destruct (Hc _ _ Ht) as (_ & pte' & Hw' & <-).
    rewrite (walk_page pd m _ va), Hw in Hw' by (rewrite Z.div_mul; lia).
    injection Hw' as <-. by apply HQ.
  - wp_step. eapply wp_lift; [done|]. wp_steps.
    replace (set_tlb _ (at_mem s m t)) with (at_mem s m (<[va / 4096 := frame pte]> t)) by done.
    apply HQ. intros n g Hn. apply lookup_insert_Some in Hn as [[<- <-]|[_ Hn]]; [|by apply Hc].
    split; [split; [apply Z.div_pos; lia|apply Z.div_lt_upper_bound; lia]|].
    exists pte. split; [|done]. by rewrite (walk_page pd m _ va) by (rewrite Z.div_mul; lia).
Qed.

(** A frame mapped at its own address is accessed there. *)
Lemma translate_self va (Q : Z → mmu A C → Prop) :
  f ≤ va < f + 4096 → (∀ t', coherent pd m t' → Q va (at_mem s m t')) →
  wp (translate va) Q (at_mem s m t).
Proof.
  intros Hva HQ. destruct Hself as (pte & Hw & Hpte).
  destruct Hf as [Hfr Hfm]. pose proof (Z.div_mod f 4096 ltac:(lia)) as Ef.
  assert (va / 4096 = f / 4096) as Hpage.
  { symmetry. apply (Z.div_unique va 4096 (f / 4096) (va - f)); lia. }
  assert (va `mod` 4096 = va - f) as Hoff.
  { symmetry. apply (Z.mod_unique va 4096 (f / 4096) (va - f)); lia. }
  apply (translate_mapped va pte); [lia|by rewrite (walk_page pd m va f)|]. intros t' Ht'.
  rewrite Hpte, Hoff. replace (f + (va - f)) with va by lia. by apply HQ.
Qed.

Lemma load_self va (Q : Z → mmu A C → Prop) :
  f ≤ va < f + 4096 → (∀ t', coherent pd m t' → Q (getw m va) (at_mem s m t')) →
  wp (load va) Q (at_mem s m t).
Proof.
  intros Hva HQ. unfold load. wp_step. apply translate_self; [done|].
  intros t' Ht'. wp_steps. by apply HQ.
Qed.

Lemma store_self va v (Q : unit → mmu A C → Prop) :
  f ≤ va < f + 4096 → (∀ t', coherent pd m t' → Q tt (at_mem s (<[va := v]> m) t')) →
  wp (store va v) Q (at_mem s m t).
Proof.
  intros Hva HQ. unfold store. wp_step. apply translate_self; [done|].
  intros t' Ht'. wp_steps. by apply HQ.
Qed.
End access.

(** The page the allocator hands out next. *)
Definition lowest (p : Z) (F : gset Z) : Prop := p ∈ F ∧ ∀ q, q ∈ F → p ≤ q.

(** A free frame is none of the tables in use. *)
Lemma fresh_table m F p :
  tables_ok pd m F → p ∈ F →
  p * 4096 ≠ pd ∧ ∀ k, 0 ≤ k < 1024 → present (pde pd m k) = true → frame (pde pd m k) ≠ p * 4096.
Proof.
  intros Htab Hp. assert (p * 4096 / 4096 = p) as Hfp by (apply Z.div_mul; lia). split.
  - intros E. rewrite E in Hfp. subst p. by destruct (tab_pd_used _ _ _ Htab).
  - intros k Hk Hpk E. rewrite <- E in Hfp. apply (tab_used _ _ _ Htab k Hk Hpk). by rewrite Hfp.
Qed.

(** A new table: the lowest free page, zeroed; nothing else in memory changes. *)
Lemma allocate_spec s m t F :
  Z.testbit (cr0 s) 31 = true → cr3 s = pd → tables_ok pd m F → coherent pd m t →
  pa_rep (pages_of s) F →
  (∀ p, p ∈ F → (∀ q, q ∈ F → p ≤ q) → self pd m (p * 4096)) →
  wp allocate_page_table (λ r s', ∃ pg m' t', s' = at_mem (set_pages pg s) m' t' ∧
    coherent pd m' t' ∧
    ((r = 0 ∧ F = ∅ ∧ m' = m ∧ pa_rep pg F) ∨
     (∃ p, lowest p F ∧ 0 < p < 2 ^ 20 ∧ r = p * 4096 ∧ pa_rep pg (F ∖ {[p]}) ∧
        self pd m (p * 4096) ∧ only_in (p * 4096) m m' ∧
        ∀ k, 0 ≤ k < 1024 → getw m' (p * 4096 + 4 * k) = 0))) (at_mem s m t).
Proof.
  intros Hon Hcr3 Htab Hc Hrep Hlow. unfold allocate_page_table, physical_alloc_page. wp_step. wp_step.
  use_wp (pa_alloc_spec (pages_of s) F Hrep). intros r pg [(-> & HF & Hrep')|Hp].
  { wp_steps; [|done]. exists pg, m, t. split; [done|]. split; [done|]. by left. }
  destruct Hp as (p & Hp & Hmin & Hpr & -> & Hrep').
  destruct (Z.eqb_spec (p * 4096) 0); [lia|]. unfold physical_to_virtual. wp_step.
  change (set_pages pg (at_mem s m t)) with (at_mem (set_pages pg s) m t).
  pose proof (Hlow p Hp Hmin) as Hself. set (f := p * 4096) in *.
  assert (f `mod` 4096 = 0) as Hfm by (apply Z_mod_mult).
  destruct (fresh_table m F p Htab Hp) as [Hfpd Hfn]. fold f in Hfpd, Hfn.
  apply (wp_mfor_range (λ k s', ∃ m' t', s' = at_mem (set_pages pg s) m' t' ∧ coherent pd m' t' ∧
    only_in f m m' ∧ ∀ i, 0 ≤ i < k → getw m' (f + 4 * i) = 0)).
  - unfold PAGE_TABLE_ENTRIES. lia.
  - exists m, t. split; [done|]. split; [done|]. split; [by intros g i _ _ _|]. lia.
  - intros k s' Hk (m' & t' & -> & Hc' & Hin & Hz). unfold PAGE_TABLE_ENTRIES in Hk.
    destruct (walk_only_in pd pd_aligned f m m' Hin Hfpd Hfn) as [Hw _].
    apply (store_self _ _ _ f); [done|done|done|split; [unfold f; lia|done]|by apply (same_walk_self pd m)|lia|].
    intros t'' Hc''. assert (only_in f m (<[f + 4 * k := 0]> m')) as Hin'.
    { intros g i Hg Hi Hgf. rewrite getw_insert, decide_False; [by apply Hin|]. intros E.
      destruct (word_inj f g k i) as [? _]; [done|done|lia|lia|done|congruence]. }
    destruct (walk_only_in pd pd_aligned f m _ Hin' Hfpd Hfn) as [Hw' _].
    eexists _, t''. split; [done|]. split.
    { intros vn g Hn. destruct (Hc'' vn g Hn) as (Hr & pte & H1 & H2). split; [done|].
      exists pte. by rewrite Hw', <- Hw. }
    split; [done|]. intros i Hi. rewrite getw_insert. case_decide; [done|]. apply Hz. lia.
  - intros s' (m' & t' & -> & Hc' & Hin & Hz). wp_step. exists pg, m', t'. split; [done|].
    split; [done|]. right. exists p. split; [by split|]. split; [done|]. split; [done|]. split; [done|].
    split; [done|]. split; [done|]. apply Hz.
Qed.

(** A frame taken from the free pages becomes the table of entry [i]. *)
Lemma tables_ok_add m m2 F i p e :
  tables_ok pd m F → p ∈ F → frame e = p * 4096 → same_walk pd m m2 → self pd m (p * 4096) →
  (∀ k, 0 ≤ k < 1024 → pde pd m2 k = if decide (i = k) then e else pde pd m k) →
  (p * 4096) `mod` 4096 = 0 → 0 < p * 4096 < 2 ^ 32 → tables_ok pd m2 (F ∖ {[p]}).
Proof.
  intros Htab HpF Hfe Hw Hself Hpde Hfm Hr. destruct (fresh_table m F p Htab HpF) as [Hfpd Hfn].
  assert (p * 4096 / 4096 = p) as Hfp by (apply Z.div_mul; lia). constructor.
  - apply (same_walk_self pd m); [done|apply Htab].
  - intros k Hk. rewrite Hpde by done. case_decide; intros Hpk.
    + rewrite Hfe. by apply (same_walk_self pd m).
    + apply (same_walk_self pd m); [done|by apply Htab].
  - intros k Hk. rewrite Hpde by done. case_decide; intros Hpk; [congruence|]. by apply Htab.
  - intros k k' Hk Hk'. rewrite !Hpde by done.
    destruct (decide (i = k)) as [Ek|], (decide (i = k')) as [Ek'|]; intros Hpk Hpk' E; [congruence| | |].
    + rewrite Hfe in E. by destruct (Hfn k' Hk' Hpk').
    + rewrite Hfe in E. by destruct (Hfn k Hk Hpk).
    + by apply (tab_inj _ _ _ Htab).
  - intros Hx%elem_of_difference. by destruct (tab_pd_used _ _ _ Htab), Hx.
  - intros k Hk. rewrite Hpde by done. case_decide; intros Hpk Hx%elem_of_difference.
    + rewrite Hfe, Hfp in Hx. destruct Hx as [_ Hx]. apply Hx. by apply elem_of_singleton.
    + destruct (tab_used _ _ _ Htab k Hk Hpk), Hx. done.
Qed.

(** The frames the tables live in. *)
Definition is_table (m : gmap Z Z) (f : Z) : Prop :=
  f = pd ∨ ∃ k, 0 ≤ k < 1024 ∧ present (pde pd m k) = true ∧ f = frame (pde pd m k).

(** Memory outside the tables is as before. *)
Definition untouched (m m' : gmap Z Z) : Prop :=
  ∀ g i, g `mod` 4096 = 0 → 0 ≤ i < 1024 → ¬ is_table m' g → getw m' (g + 4 * i) = getw m (g + 4 * i).

Lemma untouched_trans m m1 m2 :
  untouched m m1 → untouched m1 m2 → (∀ k, 0 ≤ k < 1024 → pde pd m2 k = pde pd m1 k) → untouched m m2.
Proof.
  intros H1 H2 Hpde g i Hg Hi Hnt. rewrite H2 by done. apply H1; [done|done|]. intros Ht. apply Hnt.
  destruct Ht as [->|(k & Hk & Hp & ->)]; [by left|]. right. exists k. by rewrite Hpde.
Qed.

Lemma untouched_insert m m' f j v :
  untouched m m' → is_table (<[f + 4 * j := v]> m') f → f `mod` 4096 = 0 → 0 ≤ j < 1024 →
  (∀ g, is_table m' g → is_table (<[f + 4 * j := v]> m') g) → untouched m (<[f + 4 * j := v]> m').
Proof.
  intros Hun Hf Hfm Hj Hsub g i Hg Hi Hnt. rewrite getw_insert, decide_False.
  - apply Hun; [done|done|]. intros Ht. by apply Hnt, Hsub.
  - intros E. destruct (word_inj f g j i) as [-> _]; [done|done|done|done|done|]. done.
Qed.

(** Setting one directory entry adds at most one table. *)
Lemma is_table_add m m2 i e f :
  (∀ k, 0 ≤ k < 1024 → pde pd m2 k = if decide (i = k) then e else pde pd m k) →
  is_table m2 f → is_table m f ∨ f = frame e.
Proof.
  intros Hpde [->|(k & Hk & Hp & ->)]; [by left; left|]. rewrite Hpde in * by done.
  case_decide; [by right|]. left. right. by exists k.
Qed.

(** A cleared free frame [p], linked into the directory at entry [i]. *)
Lemma link_table m m1 F i p e :
  tables_ok pd m F → 0 ≤ i < 1024 → present (pde pd m i) = false → p ∈ F → self pd m (p * 4096) →
  0 < p * 4096 < 2 ^ 32 → only_in (p * 4096) m m1 → (∀ k, 0 ≤ k < 1024 → getw m1 (p * 4096 + 4 * k) = 0) →
  present e = true → frame e = p * 4096 →
  let m2 := <[pd + 4 * i := e]> m1 in
  same_walk pd m1 m2 ∧ same_walk pd m m2 ∧ tables_ok pd m2 (F ∖ {[p]}) ∧ untouched m m2 ∧
  (∀ g, is_table m2 g → is_table m g ∨ g = p * 4096) ∧ pde pd m2 i = e.
Proof.
  intros Htab Hi Hp HpF Hself Hr Hin Hz Hpe Hfe m2. destruct (fresh_table m F p Htab HpF) as [Hfpd Hfn].
  assert ((p * 4096) `mod` 4096 = 0) as Hfm by (apply Z_mod_mult). pose proof pd_aligned as Hpda.
  destruct (walk_only_in pd pd_aligned (p * 4096) m m1 Hin Hfpd Hfn) as [Hw Hpde].
  destruct (walk_add_table pd pd_aligned m1 i e) as [Hw2 Hpde2]; [done|by rewrite Hpde| |done|congruence| |].
  { intros k Hk. rewrite Hpde by done. by apply Htab. }
  { intros k Hk. rewrite Hfe, Hz by done. done. }
  fold m2 in Hw2, Hpde2. assert (same_walk pd m m2) as Hw3 by (intros va; by rewrite Hw2).
  assert (∀ k, 0 ≤ k < 1024 → pde pd m2 k = if decide (i = k) then e else pde pd m k) as Hpde3
    by (intros k Hk; rewrite Hpde2 by done; by rewrite Hpde by done).
  split; [done|]. split; [done|]. split; [by apply (tables_ok_add m m2 F i p e)|]. split_and!.
  - intros g k Hg Hk Hnt. unfold m2. rewrite getw_insert, decide_False.
    + apply Hin; [done|done|]. intros ->. apply Hnt. right. exists i.
      rewrite Hpde3 by done. by rewrite decide_True.
    + intros E. destruct (word_inj pd g i k) as [Eg _]; [apply Hpda|done|done|done|done|]. apply Hnt. by left.
  - intros g Hg. destruct (is_table_add m m2 i e g Hpde3 Hg) as [?| ->]; [by left|by right].
  - rewrite Hpde3 by done. by rewrite decide_True.
Qed.

Lemma find_or_add_spec s m t F i :
  Z.testbit (cr0 s) 31 = true → cr3 s = pd → tables_ok pd m F → coherent pd m t →
  pa_rep (pages_of s) F → 0 ≤ i < 1024 →
  present (pde pd m i) = true ∨
    (∀ p, p ∈ F → (∀ q, q ∈ F → p ≤ q) → self pd m (p * 4096)) →
  wp (find_or_add_table L i) (λ r s', ∃ pg m' t' F', s' = at_mem (set_pages pg s) m' t' ∧
    coherent pd m' t' ∧ tables_ok pd m' F' ∧ pa_rep pg F' ∧ F' ⊆ F ∧ same_walk pd m m' ∧
    untouched m m' ∧ (∀ f, is_table m' f → is_table m f ∨ (present (pde pd m i) = false ∧ lowest (f / 4096) F)) ∧
    (∀ q, q ∈ F → q ∈ F' ∨ lowest q F) ∧
    match r with
    | None => present (pde pd m i) = false ∧ F = ∅
    | Some f => present (pde pd m' i) = true ∧ f = frame (pde pd m' i) ∧
                (present (pde pd m i) = true ∨ F ≠ ∅)
    end) (at_mem s m t).
Proof.
  intros Hon Hcr3 Htab Hc Hrep Hi Hor. unfold find_or_add_table. wp_step.
  pose proof pd_aligned as Hpda.
  apply (load_self _ _ _ pd); [done|done|done|done|apply Htab|lia|].
  intros t1 Hc1. fold (pde pd m i). destruct (present (pde pd m i)) eqn:Hp; simpl.
  { wp_step. exists (pages_of s), m, t1, F. split; [by destruct s|].
    split; [done|]. split; [done|]. split; [done|]. split; [done|]. split; [by intros va|].
    split; [by intros g k|]. split; [by left|]. split; [by left|]. split; [done|]. split; [done|by left]. }
  destruct Hor as [?|Hlow]; [done|]. wp_step.
  use_wp (allocate_spec s m t1 F Hon Hcr3 Htab Hc1 Hrep Hlow).
  intros r s' (pg & m' & t' & -> & Hc' & [(-> & HF & -> & Hrep')|Hnew]).
  { wp_steps; [|done]. exists pg, m, t', F. split; [done|]. split; [done|]. split; [done|].
    split; [done|]. split; [done|]. split; [by intros va|]. split; [by intros g k|]. split; [by left|]. split; [by left|done]. }
  destruct Hnew as (p & [HpF Hmin] & Hpr & -> & Hrep' & Hself & Hin & Hz).
  destruct (Z.eqb_spec (p * 4096) 0); [lia|]. destruct (fresh_table m F p Htab HpF) as [Hfpd Hfn].
  destruct (walk_only_in pd pd_aligned (p * 4096) m m' Hin Hfpd Hfn) as [Hw _].
  wp_step. apply (store_self _ _ _ pd); [done|done|done|done| |lia|].
  { apply (same_walk_self pd m); [done|apply Htab]. }
  intros t2 Hc2. wp_step. fold (frame (p * 4096)). rewrite (frame_id (p * 4096)) by (apply Z_mod_mult || lia).
  set (e := Z.lor (Z.lor (p * 4096) PAGE_PRESENT) PAGE_WRITABLE).
  assert (frame e = p * 4096) as Hfe by (unfold e; rewrite frame_flags; apply frame_id; [lia|apply Z_mod_mult]).
  destruct (link_table m m' F i p e) as (Hw2 & Hw3 & Htab2 & Hun & Hadd & He);
    [done|done|done|done|done|lia|done|done|apply present_flags|done|].
  exists pg, (<[pd + 4 * i := e]> m'), t2, (F ∖ {[p]}). split; [done|]. split; [by apply (same_walk_coherent pd m')|].
  split; [done|]. split; [done|]. split; [set_solver|]. split; [done|]. split; [done|]. split; [|split].
  - intros g Hg. destruct (Hadd g Hg) as [?| ->]; [by left|right]. rewrite Z.div_mul by lia. by split; [|split].
  - intros q Hq. destruct (decide (q = p)) as [->|]; [right; by split|left; set_solver].
  - rewrite He, Hfe. split; [apply present_flags|]. split; [done|]. right. intros ->. by apply elem_of_empty in HpF.
Qed.

Lemma is_table_self m F f : tables_ok pd m F → is_table m f → self pd m f.
Proof. intros Htab [->|(k & Hk & Hp & ->)]; [apply Htab|by apply Htab]. Qed.

Lemma tables_set_entry m F i j v :
  tables_ok pd m F → 0 ≤ i < 1024 → 0 ≤ j < 1024 → present (pde pd m i) = true →
  (∀ f, is_table m f → ¬ (PAGE_DIRECTORY_INDEX f = i ∧ PAGE_TABLE_INDEX f = j)) →
  tables_ok pd (<[frame (pde pd m i) + 4 * j := v]> m) F.
Proof.
  intros Htab Hi Hj Hp Hnot.
  destruct (walk_set_entry pd pd_aligned m F i j v Htab Hi Hj Hp) as [Hw Hpde].
  set (m' := <[_ := v]> m) in *.
  assert (∀ f, is_table m f → self pd m' f) as Hself.
  { intros f Hf. destruct (is_table_self m F f Htab Hf) as (pte & H1 & H2). exists pte.
    split; [|done]. rewrite Hw, decide_False by (by apply Hnot). done. }
  constructor.
  - apply Hself. by left.
  - intros k Hk. rewrite Hpde by done. intros Hpk. apply Hself. right. by exists k.
  - intros k Hk. rewrite Hpde by done. by apply Htab.
  - intros k k' Hk Hk'. rewrite !Hpde by done. by apply Htab.
  - apply Htab.
  - intros k Hk. rewrite Hpde by done. by apply Htab.
Qed.

(** The entry [paging_map] installs. *)
Definition map_entry (pa flags : Z) : Z :=
  Z.lor (Z.lor (Z.land pa PAGE_ADDRESS_MASK) (Z.land flags (u32 (Z.lnot PAGE_ADDRESS_MASK)))) PAGE_PRESENT.

Lemma map_entry_present pa flags : present (map_entry pa flags) = true.
Proof. unfold map_entry. rewrite present_lor. apply orb_true_r. Qed.

Lemma map_entry_frame pa flags : 0 ≤ pa < 2 ^ 32 → pa `mod` 4096 = 0 → frame (map_entry pa flags) = pa.
Proof.
  intros Hpa Hm. unfold map_entry. rewrite !frame_lor. change (frame PAGE_PRESENT) with 0.
  change (Z.land pa PAGE_ADDRESS_MASK) with (frame pa). rewrite !(frame_id pa) by done.
  unfold frame. rewrite <- Z.land_assoc.
  change (Z.land (u32 (Z.lnot PAGE_ADDRESS_MASK)) PAGE_ADDRESS_MASK) with 0.
  by rewrite Z.land_0_r, !Z.lor_0_r.
Qed.

(** Filling an entry that is not present: what the last part of [paging_map]
    does to the tables and to the TLB. *)
Lemma fill_entry m t F va v :
  tables_ok pd m F → coherent pd m t → present (pde pd m (PAGE_DIRECTORY_INDEX va)) = true →
  walk m pd va = None →
  let m' := <[frame (pde pd m (PAGE_DIRECTORY_INDEX va)) + 4 * PAGE_TABLE_INDEX va := v]> m in
  tables_ok pd m' F ∧ coherent pd m' t.
Proof.
  intros Htab Hc Hp Hnone. destruct (index_range va) as [Hi Hj].
  assert (∀ va', PAGE_DIRECTORY_INDEX va' = PAGE_DIRECTORY_INDEX va →
            PAGE_TABLE_INDEX va' = PAGE_TABLE_INDEX va → walk m pd va' = None) as Hsame.
  { intros va' E1 E2. rewrite <- Hnone. unfold walk. by rewrite E1, E2. }
  destruct (walk_set_entry pd pd_aligned m F _ _ v Htab Hi Hj Hp) as [Hw _]. split.
  - apply tables_set_entry; try done. intros f Hf [E1 E2].
    destruct (is_table_self m F f Htab Hf) as (pte & H1 & _). rewrite Hsame in H1 by done. done.
  - intros n g Hn. destruct (Hc n g Hn) as (Hr & pte & H1 & H2). split; [done|]. exists pte. split; [|done].
    rewrite Hw, decide_False; [done|]. intros [E1 E2]. rewrite Hsame in H1 by done. done.
Qed.

Lemma coherent_delete m t n : coherent pd m t → coherent pd m (delete n t).
Proof. intros Hc k f [_ Hk]%lookup_delete_Some. by apply Hc. Qed.

Lemma console_spec s fmt args (Q : Z → mmu A C → Prop) :
  con_ok (console s) → is_Some (Vga.format fmt args) →
  (∀ n c, con_ok c → Q n (set_console c s)) → wp (fvga_write fmt args) Q s.
Proof.
  intros Hok Hf HQ. unfold fvga_write. wp_step. use_wp (con_write_spec (console s) fmt args Hok Hf).
  intros n c Hc. by apply HQ.
Qed.

(** What [paging_map] promises, by its result. *)
Definition map_result (s : mmu A C) (F : gset Z) (va pa flags r : Z) (s' : mmu A C) : Prop :=
  if decide (va `mod` 4096 = 0 ∧ pa `mod` 4096 = 0) then
    if decide (present (pde pd (mem s) (PAGE_DIRECTORY_INDEX va)) = false ∧ F = ∅) then
      r = -2 ∧ same_walk pd (mem s) (mem s')
    else match walk (mem s) pd va with
         | Some _ => r = -3 ∧ same_walk pd (mem s) (mem s')
         | None => r = 0 ∧ ∀ va', 0 ≤ va' < 2 ^ 32 → walk (mem s') pd va' =
             if decide (va' / 4096 = va / 4096) then Some (map_entry pa flags) else walk (mem s) pd va'
         end
  else r = -1 ∧ same_walk pd (mem s) (mem s').

(** The page [paging_map] would take for a new table can be reached. *)
Definition table_reachable (s : mmu A C) (F : gset Z) (va : Z) : Prop :=
  present (pde pd (mem s) (PAGE_DIRECTORY_INDEX va)) = true ∨
  ∀ p, p ∈ F → (∀ q, q ∈ F → p ≤ q) → self pd (mem s) (p * 4096).

(** Setting the present bit of the entry just stored. *)
Lemma reentry m t F va v :
  tables_ok pd m F → present (pde pd m (PAGE_DIRECTORY_INDEX va)) = true →
  let a := frame (pde pd m (PAGE_DIRECTORY_INDEX va)) + 4 * PAGE_TABLE_INDEX va in
  let m' := <[a := Z.lor v PAGE_PRESENT]> m in
  coherent pd (<[a := v]> m) t →
  coherent pd m' t ∧
  (0 ≤ va < 2 ^ 32 → ∀ va', 0 ≤ va' < 2 ^ 32 → walk m' pd va' =
     if decide (va' / 4096 = va / 4096) then Some (Z.lor v PAGE_PRESENT) else walk m pd va').
Proof.
  intros Htab Hp a m' Hc. destruct (index_range va) as [Hi Hj].
  destruct (walk_set_entry pd pd_aligned m F _ _ v Htab Hi Hj Hp) as [Hw1 _].
  destruct (walk_set_entry pd pd_aligned m F _ _ (Z.lor v PAGE_PRESENT) Htab Hi Hj Hp) as [Hw2 _].
  assert (present (Z.lor v PAGE_PRESENT) = true) as Hpr by (rewrite present_lor; apply orb_true_r).
  cbv zeta in *. fold a in Hw1, Hw2. fold m' in Hw2. split.
  - intros n g Hn. destruct (Hc n g Hn) as (Hr & pte & H1' & H2'). split; [done|].
    rewrite Hw1 in H1'. rewrite Hw2. case_decide; [|by exists pte].
    rewrite Hpr. eexists. split; [done|]. destruct (present v); [|done].
    injection H1' as <-. rewrite <- H2', frame_lor. apply Z.lor_0_r.
  - intros Hva va' Hva'. rewrite Hw2, Hpr.
    destruct (decide (va' / 4096 = va / 4096)) as [E|E].
    + rewrite decide_True; [done|]. by rewrite !PAGE_DIRECTORY_INDEX_eq, !PAGE_TABLE_INDEX_eq, E.
    + rewrite decide_False; [done|]. intros [E1 E2]. apply E. by apply index_inj.
Qed.

(** Installing an entry in the table of a directory entry. *)
(** Writing an entry of a table changes no memory outside the tables. *)
Lemma entry_untouched m F i j v :
  tables_ok pd m F → 0 ≤ i < 1024 → 0 ≤ j < 1024 → present (pde pd m i) = true →
  untouched m (<[frame (pde pd m i) + 4 * j := v]> m).
Proof.
  intros Htab Hi Hj Hp. destruct (walk_set_entry pd pd_aligned m F i j v Htab Hi Hj Hp) as [_ Hpde].
  apply untouched_insert; [by intros g k| |apply frame_ok|done|].
  - right. exists i. by rewrite Hpde.
  - intros g [->|(k & Hk & Hpk & ->)]; [by left|]. right. exists k. by rewrite Hpde.
Qed.

Lemma install_spec s m t F va pa flags :
  Z.testbit (cr0 s) 31 = true → cr3 s = pd → tables_ok pd m F → coherent pd m t → 0 ≤ va < 2 ^ 32 →
  present (pde pd m (PAGE_DIRECTORY_INDEX va)) = true →
  wp (install_mapping (frame (pde pd m (PAGE_DIRECTORY_INDEX va))) (PAGE_TABLE_INDEX va) va pa flags)
    (λ r s', ∃ m' t', s' = at_mem s m' t' ∧ tables_ok pd m' F ∧ coherent pd m' t' ∧
       (∀ k, 0 ≤ k < 1024 → pde pd m' k = pde pd m k) ∧ untouched m m' ∧
       match walk m pd va with
       | Some _ => r = -3 ∧ same_walk pd m m'
       | None => r = 0 ∧ ∀ va', 0 ≤ va' < 2 ^ 32 → walk m' pd va' =
           if decide (va' / 4096 = va / 4096) then Some (map_entry pa flags) else walk m pd va'
       end) (at_mem s m t).
Proof.
  intros Hon Hcr3 Htab Hc Hva Hp. destruct (index_range va) as [Hi Hj].
  set (f := frame (pde pd m (PAGE_DIRECTORY_INDEX va))). set (a := f + 4 * PAGE_TABLE_INDEX va).
  assert (self pd m f) as Hself by (by apply Htab).
  assert (0 ≤ f < 2 ^ 32 ∧ f `mod` 4096 = 0) as Hfm by apply frame_ok.
  assert (f ≤ a < f + 4096) as Har by (unfold a; lia).
  assert (walk m pd va = if present (getw m a) then Some (getw m a) else None) as Hwalk.
  { unfold walk. fold (pde pd m (PAGE_DIRECTORY_INDEX va)). by rewrite Hp. }
  unfold install_mapping. fold a. wp_step.
  apply (load_self _ _ _ f); [done|done|done|done|done|done|]. intros t1 Ht1.
  destruct (present (getw m a)) eqn:Hpe.
  { wp_step. exists m, t1. rewrite Hwalk. by split_and!. }
  rewrite Hwalk. wp_step. apply (store_self _ _ _ f); [done|done|done|done|done|done|]. intros t2 Ht2.
  match goal with |- context [<[a := ?v]> m] => set (v1 := v) end.
  destruct (fill_entry m t2 F va v1 Htab Ht2 Hp Hwalk) as [Htab2 Hc2]. fold f a in Htab2, Hc2.
  assert (self pd (<[a := v1]> m) f) as Hself2.
  { apply (is_table_self _ F); [done|]. right. exists (PAGE_DIRECTORY_INDEX va). split; [done|].
    destruct (walk_set_entry pd pd_aligned m F _ _ v1 Htab Hi Hj Hp) as [_ Hpde].
    fold f a in Hpde. by rewrite Hpde. }
  wp_step. apply (load_self _ _ _ f); [done|done|done|done|done|done|]. intros t3 Ht3.
  rewrite getw_insert, decide_True by done.
  wp_step. apply (store_self _ _ _ f); [done|done|done|done|done|done|]. intros t4 Ht4.
  rewrite insert_insert_eq. change (Z.lor v1 PAGE_PRESENT) with (map_entry pa flags).
  unfold paging_invalidate_page. wp_steps.
  eexists (<[a := map_entry pa flags]> m), (delete (va / 4096) t4). split; [done|].
  destruct (fill_entry m t2 F va (map_entry pa flags) Htab Ht2 Hp Hwalk) as [Htab3 _].
  destruct (walk_set_entry pd pd_aligned m F _ _ (map_entry pa flags) Htab Hi Hj Hp) as [_ Hpde].
  split; [done|]. destruct (reentry m t4 F va v1 Htab Hp Ht4) as [Hc4 Hw4].
  split; [by apply coherent_delete|]. split; [done|]. split; [|split; [done|]; by apply Hw4].
  by apply (entry_untouched m F).
Qed.

(** The messages of [paging_map] change the console only. *)
Lemma map_messages s F va pa (k : M (mmu A C) Z) (Q : Z → mmu A C → Prop) :
  paging_ok s F → (∀ s', paging_ok s' F → mem s' = mem s → wp k Q s') →
  wp (_ ← fvga_write (cstr "paging_map: VA=%x PA=%x\n") [Vga.VWord va; Vga.VWord pa];
      _ ← fvga_write (cstr "paging_map: VA valid=%d PA valid=%d\n")
            [bool_word (page_address_valid va); bool_word (page_address_valid pa)]; k) Q s.
Proof.
  intros Hok Hk. pose proof Hok as [Hon Hcr3 Htab Hc Hrep Hcon]. wp_step.
  apply console_spec; [done|by eexists|]. intros _ c1 Hc1. wp_step.
  apply console_spec; [done|by eexists|]. intros _ c2 Hc2. apply Hk; [|done]. by constructor.
Qed.

Lemma paging_map_spec s F va pa flags :
  paging_ok s F → 0 ≤ va < 2 ^ 32 → table_reachable s F va →
  wp (paging_map L va pa flags) (λ r s', ∃ F', F' ⊆ F ∧ paging_ok s' F' ∧
    map_result s F va pa flags r s' ∧ untouched (mem s) (mem s') ∧ (∀ q, q ∈ F → q ∈ F' ∨ lowest q F) ∧
    ∀ f, is_table (mem s') f → self pd (mem s) f ∧ (is_table (mem s) f ∨
      (present (pde pd (mem s) (PAGE_DIRECTORY_INDEX va)) = false ∧ lowest (f / 4096) F))) s.
Proof.
  intros Hok Hva Hreach. unfold paging_map. apply (map_messages s F); [done|].
  clear Hok. intros s0 Hok Hmem. unfold map_result, table_reachable in *. rewrite <- Hmem in *. clear Hmem s.
  pose proof Hok as [Hon Hcr3 Htab Hc Hrep Hcon]. rewrite !page_address_valid_eq.
  assert (∀ c, con_ok c → paging_ok (set_console c s0) F) as Hset by (intros c Hcc; by constructor).
  destruct (decide (va `mod` 4096 = 0 ∧ pa `mod` 4096 = 0)) as [[Ha Hb]|Hab].
  2:{ case_bool_decide; [rewrite bool_decide_eq_false_2 by tauto|]; simpl; wp_step;
        (apply console_spec; [done|by eexists|]); intros _ c Hcc; wp_step;
        (exists F; split; [done|]; split; [by apply Hset|]; split; [by split|];
         split; [by intros g k|]; split; [by left|]; by intros f Hf; split; [by apply (is_table_self _ F)|left]). }
  rewrite !bool_decide_eq_true_2 by done. simpl. destruct (index_range va) as [Hi Hj].
  wp_step. pose proof (find_or_add_spec s0 (mem s0) (tlb s0) F (PAGE_DIRECTORY_INDEX va)
    Hon Hcr3 Htab Hc Hrep Hi Hreach) as Hspec. rewrite at_mem_id in Hspec. use_wp Hspec. clear Hspec.
  intros r s1 (pg & m & t & F' & -> & Hc1 & Htab1 & Hrep1 & Hsub & Hw & Hun & Hnew & Htaken & Hr).
  assert (∀ m' t', tables_ok pd m' F' → coherent pd m' t' → paging_ok (at_mem (set_pages pg s0) m' t') F')
    as Hok' by (intros; by constructor).
  assert (∀ f, is_table m f → self pd (mem s0) f ∧ (is_table (mem s0) f ∨
    (present (pde pd (mem s0) (PAGE_DIRECTORY_INDEX va)) = false ∧ lowest (f / 4096) F))) as Hold.
  { intros f Hf. split; [|by apply Hnew].
    destruct (is_table_self m F' f Htab1 Hf) as (pte & Hp1 & Hp2). exists pte. by rewrite <- Hw. }
  destruct r as [f|].
  2:{ wp_step. destruct Hr as [Hr1 Hr2]. exists F'. split; [done|]. split; [by apply Hok'|].
      split; [by rewrite decide_True|]. by split_and!. }
  destruct Hr as (Hp & -> & Hor). set (f := frame (pde pd m (PAGE_DIRECTORY_INDEX va))) in *.
  assert (¬ (present (pde pd (mem s0) (PAGE_DIRECTORY_INDEX va)) = false ∧ F = ∅)) as Hnot
    by (intros [H1' H2']; destruct Hor; congruence).
  use_wp (install_spec (set_pages pg s0) m t F' va pa flags Hon Hcr3 Htab1 Hc1 Hva Hp).
  intros r s1 (m' & t' & -> & Htab2 & Hc2 & Hpde & Hun2 & Hres). exists F'. split; [done|]. split; [by apply Hok'|].
  split; [|split; [by apply (untouched_trans (mem s0) m)|split; [done|]]].
  2:{ intros f' Hf'. apply Hold. destruct Hf' as [->|(k & Hk & Hpk & ->)]; [by left|right]. exists k. by rewrite <- Hpde. }
  rewrite decide_False by done. rewrite <- (Hw va).
  destruct (walk m pd va); destruct Hres as [-> Hres].
  - split; [done|]. intros va'. simpl. by rewrite Hres, Hw.
  - split; [done|]. intros va' Hva'. simpl. rewrite Hres, Hw by done. done.
Qed.

(** What [paging_unmap] promises, by its result. *)
Definition unmap_result (s : mmu A C) (va r : Z) (s' : mmu A C) : Prop :=
  if decide (va `mod` 4096 = 0) then
    if present (pde pd (mem s) (PAGE_DIRECTORY_INDEX va)) then
      match walk (mem s) pd va with
      | None => r = -3 ∧ same_walk pd (mem s) (mem s')
      | Some _ => r = 0 ∧ tlb s' !! (va / 4096) = None ∧
          ∀ va', 0 ≤ va' < 2 ^ 32 → walk (mem s') pd va' =
            if decide (va' / 4096 = va / 4096) then None else walk (mem s) pd va'
      end
    else r = -2 ∧ same_walk pd (mem s) (mem s')
  else r = -1 ∧ same_walk pd (mem s) (mem s').

(** Clearing an entry, with the TLB entry of its page dropped. *)
Lemma clear_entry m t F va :
  tables_ok pd m F → coherent pd m t → 0 ≤ va < 2 ^ 32 →
  present (pde pd m (PAGE_DIRECTORY_INDEX va)) = true →
  (∀ f, is_table m f → f / 4096 ≠ va / 4096) →
  let m' := <[frame (pde pd m (PAGE_DIRECTORY_INDEX va)) + 4 * PAGE_TABLE_INDEX va := 0]> m in
  tables_ok pd m' F ∧ coherent pd m' (delete (va / 4096) t) ∧
  ∀ va', 0 ≤ va' < 2 ^ 32 → walk m' pd va' =
    if decide (va' / 4096 = va / 4096) then None else walk m pd va'.
Proof.
  intros Htab Hc Hva Hp Hnot m'. destruct (index_range va) as [Hi Hj].
  destruct (walk_set_entry pd pd_aligned m F _ _ 0 Htab Hi Hj Hp) as [Hw _]. fold m' in Hw.
  assert (∀ va', 0 ≤ va' < 2 ^ 32 → walk m' pd va' =
            if decide (va' / 4096 = va / 4096) then None else walk m pd va') as Hw'.
  { intros va' Hva'. rewrite Hw. destruct (decide (va' / 4096 = va / 4096)) as [E|E].
    - rewrite decide_True; [done|]. by rewrite !PAGE_DIRECTORY_INDEX_eq, !PAGE_TABLE_INDEX_eq, E.
    - rewrite decide_False; [done|]. intros [E1 E2]. apply E. by apply index_inj. }
  split; [|split; [|done]].
  - apply tables_set_entry; try done. intros f Hf [E1 E2]. destruct (Hnot f Hf).
    apply index_inj; try done. destruct Hf as [->|(k & _ & _ & ->)]; [apply pd_aligned|apply frame_ok].
  - intros n g [Hne Hn]%lookup_delete_Some. destruct (Hc n g Hn) as (Hr & pte & H1' & H2').
    split; [done|]. exists pte. split; [|done]. rewrite Hw' by lia. rewrite Z.div_mul by lia.
    by rewrite decide_False.
Qed.

Lemma paging_unmap_spec s F va :
  paging_ok s F → 0 ≤ va < 2 ^ 32 → (∀ f, is_table (mem s) f → f / 4096 ≠ va / 4096) →
  wp (paging_unmap L va) (λ r s', paging_ok s' F ∧ unmap_result s va r s' ∧ untouched (mem s) (mem s') ∧
    ∀ f, is_table (mem s') f → is_table (mem s) f) s.
Proof.
  intros Hok Hva Hnot. pose proof Hok as [Hon Hcr3 Htab Hc Hrep Hcon].
  unfold paging_unmap, unmap_result. rewrite page_address_valid_eq.
  destruct (decide (va `mod` 4096 = 0)) as [Ha|Ha].
  2:{ rewrite bool_decide_eq_false_2 by done. simpl. by wp_step. }
  rewrite bool_decide_eq_true_2 by done. simpl. destruct (index_range va) as [Hi Hj].
  wp_step. rewrite <- (at_mem_id s). set (m := mem s) in *. set (t := tlb s) in *.
  assert (∀ m' t', tables_ok pd m' F → coherent pd m' t' → paging_ok (at_mem s m' t') F)
    as Hok' by (intros; by constructor).
  change (mem (at_mem s m t)) with m.
  apply (load_self _ _ _ pd); [done|done|done|apply pd_aligned|apply Htab|lia|]. intros t1 Ht1.
  fold (pde pd m (PAGE_DIRECTORY_INDEX va)). set (f := frame (pde pd m (PAGE_DIRECTORY_INDEX va))).
  destruct (present (pde pd m (PAGE_DIRECTORY_INDEX va))) eqn:Hp; simpl.
  2:{ wp_step. split; [by apply Hok'|]. by split. }
  change (physical_to_virtual _) with f. set (a := f + 4 * PAGE_TABLE_INDEX va).
  assert (self pd m f) as Hself by (by apply Htab).
  assert (0 ≤ f < 2 ^ 32 ∧ f `mod` 4096 = 0) as Hfm by apply frame_ok.
  assert (f ≤ a < f + 4096) as Har by (unfold a; lia).
  assert (walk m pd va = if present (getw m a) then Some (getw m a) else None) as Hwalk.
  { unfold walk. fold (pde pd m (PAGE_DIRECTORY_INDEX va)). by rewrite Hp. }
  wp_step. apply (load_self _ _ _ f); [done|done|done|done|done|done|]. intros t2 Ht2.
  destruct (present (getw m a)) eqn:Hpe; simpl; rewrite Hwalk.
  2:{ wp_step. split; [by apply Hok'|]. by split. }
  wp_step. apply (store_self _ _ _ f); [done|done|done|done|done|done|]. intros t3 Ht3.
  unfold paging_invalidate_page. wp_steps.
  destruct (clear_entry m t3 F va Htab Ht3 Hva Hp Hnot) as (Htab2 & Hc2 & Hw2). fold f a in Htab2, Hc2, Hw2.
  destruct (walk_set_entry pd pd_aligned m F _ _ 0 Htab Hi Hj Hp) as [_ Hpde]. fold f a in Hpde.
  split; [|split; [split; [done|]|split]].
  { change (paging_ok (at_mem s (<[a := 0]> m) (delete (va / 4096) t3)) F). by apply Hok'. }
  { split; [apply lookup_delete_eq|done]. }
  { by apply (entry_untouched m F). }
  intros g [->|(k & Hk & Hpk & ->)]; [by left|]. right. exists k. cbn in *. by rewrite Hpde in *.
Qed.

(** With a coherent TLB the CPU translates as the tables say. *)
Lemma translate_walk s F va :
  paging_ok s F → 0 ≤ va < 2 ^ 32 →
  match walk (mem s) pd va with
  | Some pte => wp (translate va) (λ pa s', pa = frame pte + va `mod` 4096 ∧ paging_ok s' F ∧ mem s' = mem s) s
  | None => translate va s = None
  end.
Proof.
  intros Hok Hva. pose proof Hok as [Hon Hcr3 Htab Hc Hrep Hcon].
  assert (0 ≤ va / 4096 < 2 ^ 20) as Hvn
    by (split; [apply Z.div_pos; lia|apply Z.div_lt_upper_bound; lia]).
  assert (walk (mem s) pd va = walk (mem s) pd (va / 4096 * 4096)) as Hpage
    by (apply walk_page; by rewrite Z.div_mul by lia).
  destruct (tlb s !! (va / 4096)) as [f|] eqn:Ht.
  - destruct (Hc _ _ Ht) as (_ & pte & Hw & <-). rewrite Hpage, Hw.
    unfold translate. do 2 wp_step. rewrite Hon. simpl. rewrite Ht. wp_step. by rewrite PAGE_OFFSET_eq.
  - destruct (walk (mem s) pd va) as [pte|] eqn:Hw.
    + unfold translate. do 2 wp_step. rewrite Hon. simpl. rewrite Ht, Hcr3, frame_id by apply pd_aligned.
      wp_step. eapply wp_lift; [exact Hw|]. wp_steps. rewrite PAGE_OFFSET_eq. split; [done|]. split; [|done].
      constructor; try done. intros n f Hn. cbn [tlb set_tlb] in Hn.
      apply lookup_insert_Some in Hn as [[<- <-]|[_ Hn]]; [|by apply Hc].
      split; [done|]. exists pte. cbn [mem set_tlb]. by rewrite <- Hpage.
    + unfold translate, mbind, M_bind, gets. rewrite Hon. simpl. rewrite Ht, Hcr3, frame_id by apply pd_aligned.
      unfold lift. by rewrite Hw.
Qed.

(** ** Initialisation *)

Lemma store_off s va v (Q : unit → mmu A C → Prop) :
  Z.testbit (cr0 s) 31 = false → Q tt (set_mem (<[va := v]> (mem s)) s) → wp (store va v) Q s.
Proof.
  intros Hoff HQ. unfold store, translate. do 3 wp_step. rewrite Hoff. simpl. by wp_steps.
Qed.

(** Filling the words of a frame with paging off. *)
Lemma fill_frame_off s f (g : Z → Z) (Q : unit → mmu A C → Prop) :
  Z.testbit (cr0 s) 31 = false → f `mod` 4096 = 0 →
  (∀ m, only_in f (mem s) m → (∀ i, 0 ≤ i < 1024 → getw m (f + 4 * i) = g i) → Q tt (set_mem m s)) →
  wp (mfor (range 0 1024) (λ i, store (f + 4 * i) (g i))) Q s.
Proof.
  intros Hoff Hf HQ. apply (wp_mfor_range (λ k s', ∃ m, s' = set_mem m s ∧ only_in f (mem s) m ∧
    ∀ i, 0 ≤ i < k → getw m (f + 4 * i) = g i)).
  - lia.
  - exists (mem s). split; [by destruct s|]. split; [by intros ? ? _ _ _|]. lia.
  - intros k s' Hk (m & -> & Hin & Hg). apply store_off; [done|]. eexists. split; [done|].
    cbn [mem set_mem]. split.
    + intros h i Hh Hi Hne. rewrite getw_insert, decide_False; [by apply Hin|]. intros E.
      destruct (word_inj f h k i) as [? _]; [done|done|lia|lia|done|congruence].
    + intros i Hi. rewrite getw_insert. destruct (decide (f + 4 * k = f + 4 * i)).
      * by replace i with k by lia.
      * apply Hg. lia.
  - intros s' (m & -> & Hin & Hg). by apply HQ.
Qed.

(** The memory [paging_init] leaves: one table that maps the first 4 MiB to
    themselves. *)
Definition identity_tables (m : gmap Z Z) : Prop :=
  (∀ i, 0 ≤ i < 1024 → pde pd m i =
     if decide (i = 0) then Z.lor (Z.lor (firstPageTable L) PAGE_PRESENT) PAGE_WRITABLE else 0) ∧
  (∀ i, 0 ≤ i < 1024 → getw m (firstPageTable L + 4 * i) =
     Z.lor (Z.lor (i * 4096) PAGE_PRESENT) PAGE_WRITABLE).

Lemma identity_walk m va :
  identity_tables m → 0 ≤ va < 2 ^ 32 →
  walk m pd va = if decide (va < 0x400000)
    then Some (Z.lor (Z.lor (va / 4096 * 4096) PAGE_PRESENT) PAGE_WRITABLE) else None.
Proof.
  intros [Hpde Htab] Hva. destruct (index_range va) as [Hi Hj]. unfold walk.
  fold (pde pd m (PAGE_DIRECTORY_INDEX va)). rewrite Hpde by done.
  destruct HL as [_ [Hf1 Hf2] _].
  assert (PAGE_DIRECTORY_INDEX va = va / 4096 / 1024) as Hdi.
  { rewrite PAGE_DIRECTORY_INDEX_eq. apply Z.mod_small. rewrite Z.div_div by lia.
    split; [apply Z.div_pos; lia|apply Z.div_lt_upper_bound; lia]. }
  pose proof (Z.div_mod (va / 4096) 1024 ltac:(lia)). pose proof (Z.div_mod va 4096 ltac:(lia)).
  pose proof (Z.mod_pos_bound va 4096 ltac:(lia)). rewrite PAGE_TABLE_INDEX_eq in *.
  destruct (decide (va < 0x400000)).
  - rewrite decide_True by lia. rewrite present_flags, frame_flags, frame_id by (done || lia).
    rewrite Htab by done. rewrite present_flags. do 4 f_equal. lia.
  - rewrite decide_False by lia. done.
Qed.

Lemma identity_tables_ok m F :
  identity_tables m → (∀ p, p ∈ F → 0x98 ≤ p) → tables_ok pd m F.
Proof.
  intros Hid HF. pose proof Hid as [Hpde Htab]. destruct HL as [[Hp1 Hp2] [Hf1 Hf2] Hne].
  assert (∀ f, 0 ≤ f < 0x98000 → f `mod` 4096 = 0 → self pd m f) as Hself.
  { intros f Hf Hfm. eexists. rewrite identity_walk by (done || lia). rewrite decide_True by lia.
    split; [done|]. rewrite frame_flags. pose proof (Z.div_mod f 4096 ltac:(lia)).
    rewrite frame_id; [lia|lia|apply Z_mod_mult]. }
  assert (∀ i, 0 ≤ i < 1024 → present (pde pd m i) = true → i = 0) as Hzero.
  { intros i Hi. rewrite Hpde by done. by case_decide. }
  assert (frame (pde pd m 0) = firstPageTable L) as Hfr.
  { rewrite Hpde by lia. rewrite decide_True by done. rewrite frame_flags. apply frame_id; [lia|done]. }
  constructor.
  - apply Hself; [lia|done].
  - intros i Hi Hp. rewrite (Hzero i Hi Hp), Hfr. apply Hself; [lia|done].
  - intros i Hi Hp. rewrite (Hzero i Hi Hp), Hfr. congruence.
  - intros i k Hi Hk Hp Hp' _. by rewrite (Hzero i Hi Hp), (Hzero k Hk Hp').
  - intros Hx%HF. pose proof (Z.div_lt_upper_bound pd 4096 0x98). lia.
  - intros i Hi Hp. rewrite (Hzero i Hi Hp), Hfr. intros Hx%HF.
    pose proof (Z.div_lt_upper_bound (firstPageTable L) 4096 0x98). lia.
Qed.

Lemma paging_init_spec s F :
  Z.testbit (cr0 s) 31 = false → pa_rep (pages_of s) F → con_ok (console s) →
  (∀ p, p ∈ F → 0x98 ≤ p) →
  wp (paging_init L) (λ _ s', paging_ok s' F ∧ identity_tables (mem s') ∧ console s' = console s) s.
Proof.
  intros Hoff Hrep Hcon HF. destruct HL as [[Hp1 Hp2] [Hf1 Hf2] Hne].
  unfold paging_init, PAGE_DIRECTORY_ENTRIES, PAGE_TABLE_ENTRIES, PAGE_SIZE. wp_step.
  apply fill_frame_off; [done|done|]. intros m1 Hin1 Hz1. wp_step.
  apply (fill_frame_off _ _ (λ i, Z.lor (Z.lor (u32 (i * 4096)) PAGE_PRESENT) PAGE_WRITABLE)); [done|done|].
  cbn [mem set_mem]. intros m2 Hin2 Hg2. wp_step. apply store_off; [done|]. cbn [mem set_mem].
  unfold paging_load_cr3, paging_enable. wp_steps.
  set (e := Z.lor (Z.lor (firstPageTable L) PAGE_PRESENT) PAGE_WRITABLE). cbn [mem set_mem set_tlb set_cr3 set_cr0].
  assert (identity_tables (<[pd + 4 * 0 := e]> m2)) as Hid.
  { split; intros i Hi.
    - unfold pde. rewrite getw_insert. destruct (decide (i = 0)) as [->|]; [by rewrite decide_True|].
      rewrite decide_False by lia. rewrite Hin2 by done. by apply Hz1.
    - rewrite getw_insert, decide_False.
      + rewrite Hg2 by done. by rewrite u32_small by lia.
      + intros E. destruct (word_inj pd (firstPageTable L) 0 i) as [? _]; [done|done|lia|done|done|done]. }
  split; [|by split]. constructor.
  - cbn [cr0 set_tlb set_cr0 set_cr3 set_mem]. rewrite Z.lor_spec. apply orb_true_r.
  - done.
  - by apply identity_tables_ok.
  - intros n f Hn. cbn [tlb set_tlb] in Hn. by rewrite lookup_empty in Hn.
  - done.
  - done.
Qed.

Lemma load_pde s F i :
  paging_ok s F → 0 ≤ i < 1024 →
  wp (load (pd + 4 * i)) (λ e s', e = pde pd (mem s) i ∧ ∃ t, s' = set_tlb t s ∧ paging_ok s' F) s.
Proof.
  intros Hok Hi. pose proof Hok as [Hon Hcr3 Htab Hc Hrep Hcon].
  refine (eq_rect _ (λ s0, wp _ _ s0) _ _ (at_mem_id s)).
  apply (load_self _ _ _ pd); [done|done|done|apply pd_aligned|apply Htab|lia|].
  intros t Ht. split; [done|]. exists t. split; [by destruct s|]. by constructor.
Qed.

(** A table that cannot be reached: the fault in [allocate_page_table]. *)
Lemma allocate_faults s F p :
  paging_ok s F → p ∈ F → (∀ q, q ∈ F → p ≤ q) → walk (mem s) pd (p * 4096) = None →
  allocate_page_table s = None.
Proof.
  intros Hok Hp Hmin Hw. pose proof Hok as [Hon Hcr3 Htab Hc Hrep Hcon].
  pose proof (pa_alloc_spec (pages_of s) F Hrep) as Ha. apply wp_inv in Ha as (r & pg & Ha & Hr).
  unfold allocate_page_table, physical_alloc_page, zoom, mbind, M_bind. rewrite Ha.
  destruct Hr as [(_ & -> & _)|(p' & Hp' & Hmin' & Hpr & -> & Hrep')]; [by apply elem_of_empty in Hp|].
  assert (p' = p) as -> by (specialize (Hmin _ Hp'); specialize (Hmin' _ Hp); lia).
  destruct (Z.eqb_spec (p * 4096) 0); [lia|].
  assert (paging_ok (set_pages pg s) (F ∖ {[p]})) as Hok'.
  { constructor; try done. destruct Htab. constructor; try done; set_solver. }
  pose proof (translate_walk (set_pages pg s) _ (p * 4096 + 4 * 0) Hok' ltac:(lia)) as Ht.
  rewrite (walk_page pd _ _ (p * 4096)) in Ht by (f_equal; lia).
  cbn [mem set_pages] in Ht. rewrite Hw in Ht. unfold physical_to_virtual, PAGE_TABLE_ENTRIES, range.
  rewrite seqZ_cons by lia. cbn [mfor]. unfold mbind, M_bind. unfold store at 1. unfold mbind, M_bind.
  by rewrite Ht.
Qed.

End correctness.

(** ** Properties *)

#[local] Opaque Physical.boot_phys Physical.usable_pages Vga.demo_vga.

Section demo.
Import Physical Vga.

(** The kernel's machine: the page allocator of physical.c after boot, the
    terminal after [vga_init], protected mode with paging off. *)
Definition demo_tables_layout : layout := mkLayout 0x20000 0x21000.
Definition machine (p : phys) : mmu phys vga := mkMmu _ _ ∅ 0x11 0 ∅ p demo_vga.
Definition demo_mmu : mmu phys vga := final (paging_init demo_tables_layout) (machine boot_phys).

Lemma demo_tables_layout_ok : layout_ok demo_tables_layout.
Proof. by constructor. Qed.

Lemma machine_init p F :
  phys_pool p F →
  paging_ok demo_tables_layout (final (paging_init demo_tables_layout) (machine p)) F ∧
  identity_tables demo_tables_layout (mem (final (paging_init demo_tables_layout) (machine p))).
Proof.
  intros Hp. assert (wp (paging_init demo_tables_layout) (λ _ s', paging_ok demo_tables_layout s' F ∧
    identity_tables demo_tables_layout (mem s')) (machine p)) as Hwp.
  { eapply wp_mono.
    - apply (paging_init_spec demo_tables_layout demo_tables_layout_ok (machine p) F); [done|exact Hp|exact demo_vga_settled|].
      intros q Hq. apply Hp in Hq. lia.
    - intros u s' (? & ? & _). by split. }
  destruct (wp_final _ _ _ Hwp) as (u & _ & H). exact H.
Qed.

Lemma boot_pool : phys_pool boot_phys usable_pages.
Proof. split; [exact boot_phys_rep|]. intros p Hp%usable_range. lia. Qed.

Lemma demo_mmu_ok : paging_ok demo_tables_layout demo_mmu usable_pages.
Proof. exact (proj1 (machine_init boot_phys usable_pages boot_pool)). Qed.

Lemma demo_mmu_tables : identity_tables demo_tables_layout (mem demo_mmu).
Proof. exact (proj2 (machine_init boot_phys usable_pages boot_pool)). Qed.

(** The lowest usable page is below 4 MiB, hence mapped at its own address. *)
Lemma identity_reachable p F va :
  phys_pool p F → (∃ q, q ∈ F ∧ q < 1024) →
  table_reachable demo_tables_layout (final (paging_init demo_tables_layout) (machine p)) F va.
Proof.
  intros Hp (q & Hq & Hlt). right. intros r Hr Hmin. specialize (Hmin q Hq).
  destruct (machine_init p F Hp) as [_ Hid]. apply Hp in Hr.
  eexists. rewrite (identity_walk demo_tables_layout demo_tables_layout_ok _ _ Hid) by lia. rewrite decide_True by lia.
  split; [done|]. rewrite frame_flags, Z.div_mul by lia. apply frame_id; [lia|apply Z_mod_mult].
Qed.
End demo.

(** Paging starts with the first 4 MiB mapped to themselves: [paging_init]
    returns with paging on and a coherent TLB, every address below 4 MiB
    translates to itself and every other address faults. *)
Theorem paging_init_identity {A C} `{PageAllocator A} `{Console C} L (s : mmu A C) F va :
  layout_ok L → Z.testbit (cr0 s) 31 = false → pa_rep (pages_of s) F → con_ok (console s) →
  (∀ p, p ∈ F → 0x98 ≤ p) → 0 ≤ va < 2 ^ 32 →
  ∃ s', paging_init L s = Some (tt, s') ∧ paging_ok L s' F ∧
    option_map fst (translate va s') = if decide (va < 0x400000) then Some va else None.
Proof.
  intros HL Hoff Hrep Hcon HF Hva. pose proof (paging_init_spec L HL s F Hoff Hrep Hcon HF) as Hwp.
  apply wp_inv in Hwp as ([] & s' & Hrun & Hok & Hid & _). exists s'. split; [done|]. split; [done|].
  pose proof (translate_walk L HL s' F va Hok Hva) as Ht. rewrite (identity_walk L HL) in Ht by done.
  destruct (decide (va < 0x400000)); [|by rewrite Ht].
  apply wp_inv in Ht as (pa & s2 & -> & -> & _). simpl. f_equal. rewrite frame_flags.
  pose proof (Z.div_mod va 4096 ltac:(lia)). pose proof (Z.mod_pos_bound va 4096 ltac:(lia)).
  rewrite frame_id; [lia|lia|apply Z_mod_mult].
Qed.

Lemma paging_init_identity_witness :
  ∃ s', paging_init demo_tables_layout (machine Physical.boot_phys) = Some (tt, s') ∧
    paging_ok demo_tables_layout s' Physical.usable_pages ∧
    option_map fst (translate 0xB8000 s') = if decide (0xB8000 < 0x400000) then Some 0xB8000 else None.
Proof.
  apply (paging_init_identity demo_tables_layout (machine Physical.boot_phys) Physical.usable_pages 0xB8000
           demo_tables_layout_ok).
  - reflexivity.
  - exact boot_pool.
  - exact Vga.demo_vga_settled.
  - intros p Hp%Physical.usable_range. lia.
  - lia.
Defined.

(** C10. [paging_map] on every path, when the page for a new table can be
    reached: -1 exactly for addresses that are not page aligned, -2 when a table
    is needed and there is no free page, -3 when the page is mapped already, and
    then no translation changes; otherwise 0, the page translates to the given
    frame with the given flags, every other page translates as before, and the
    tables stay well formed and the TLB coherent. *)
Theorem paging_map_correct {A C} `{PageAllocator A} `{Console C} L (s : mmu A C) F va pa flags :
  layout_ok L → paging_ok L s F → 0 ≤ va < 2 ^ 32 → 0 ≤ pa < 2 ^ 32 → table_reachable L s F va →
  ∃ r s' F', paging_map L va pa flags s = Some (r, s') ∧ F' ⊆ F ∧ paging_ok L s' F' ∧
    map_result L s F va pa flags r s' ∧
    (r = 0 → ∀ o, 0 ≤ o < 4096 → option_map fst (translate (va + o) s') = Some (pa + o)).
Proof.
  intros HL Hok Hva Hpa Hreach. pose proof (paging_map_spec L HL s F va pa flags Hok Hva Hreach) as Hwp.
  apply wp_inv in Hwp as (r & s' & Hrun & F' & Hsub & Hok' & Hres & _).
  exists r, s', F'. split; [done|]. split; [done|]. split; [done|]. split; [done|]. intros -> o Ho.
  unfold map_result in Hres. destruct (decide (_ ∧ _)) as [[Ha Hb]|]; [|by destruct Hres].
  destruct (decide (_ ∧ _)); [by destruct Hres|]. destruct (walk (mem s) _ va); [by destruct Hres|].
  destruct Hres as [_ Hw]. pose proof (Z.div_mod va 4096 ltac:(lia)) as Hdm.
  assert ((va + o) / 4096 = va / 4096) as Hpage
    by (symmetry; apply (Z.div_unique (va + o) 4096 (va / 4096) o); lia).
  assert (va + o < 2 ^ 32) as Hlt.
  { assert (va / 4096 < 2 ^ 20) by (apply Z.div_lt_upper_bound; lia). lia. }
  pose proof (translate_walk L HL s' F' (va + o) Hok' ltac:(lia)) as Ht.
  rewrite Hw in Ht by lia. rewrite decide_True in Ht by done.
  apply wp_inv in Ht as (pa' & s2 & -> & -> & _). simpl. f_equal.
  rewrite map_entry_frame by done. f_equal.
  symmetry. apply (Z.mod_unique (va + o) 4096 (va / 4096) o); lia.
Qed.

Lemma paging_map_correct_witness :
  ∃ r s' F', paging_map demo_tables_layout 0x800000 0x300000 2 demo_mmu = Some (r, s') ∧
    F' ⊆ Physical.usable_pages ∧ paging_ok demo_tables_layout s' F' ∧
    map_result demo_tables_layout demo_mmu Physical.usable_pages 0x800000 0x300000 2 r s' ∧
    (r = 0 → ∀ o, 0 ≤ o < 4096 → option_map fst (translate (0x800000 + o) s') = Some (0x300000 + o)).
Proof.
  apply (paging_map_correct demo_tables_layout demo_mmu Physical.usable_pages 0x800000 0x300000 2
           demo_tables_layout_ok demo_mmu_ok); [lia|lia|].
  apply (identity_reachable Physical.boot_phys Physical.usable_pages 0x800000 boot_pool).
  exists 512. split; [apply Physical.usable_range|]; lia.
Defined.

(** C11. [paging_unmap] on every path: -1 for an unaligned address, -2 without a
    table, -3 without a mapping, and then no translation changes; otherwise 0,
    the page faults from then on, also in the TLB, and every other page
    translates as before.  (The page must not be the one through which the
    kernel reaches one of the tables.) *)
Theorem paging_unmap_correct {A C} `{PageAllocator A} `{Console C} L (s : mmu A C) F va :
  layout_ok L → paging_ok L s F → 0 ≤ va < 2 ^ 32 →
  (∀ f, is_table L (mem s) f → f / 4096 ≠ va / 4096) →
  ∃ r s', paging_unmap L va s = Some (r, s') ∧ paging_ok L s' F ∧ unmap_result L s va r s' ∧
    (r = 0 → translate va s' = None).
Proof.
  intros HL Hok Hva Hnot. pose proof (paging_unmap_spec L HL s F va Hok Hva Hnot) as Hwp.
  apply wp_inv in Hwp as (r & s' & Hrun & Hok' & Hres & _). exists r, s'. split; [done|]. split; [done|].
  split; [done|]. intros ->. unfold unmap_result in Hres.
  destruct (decide (va `mod` 4096 = 0)); [|by destruct Hres]. destruct (present _); [|by destruct Hres].
  destruct (walk (mem s) _ va); [|by destruct Hres]. destruct Hres as (_ & _ & Hw).
  pose proof (translate_walk L HL s' F va Hok' Hva) as Ht. rewrite Hw in Ht by done.
  by rewrite decide_True in Ht.
Qed.

Lemma paging_unmap_correct_witness :
  ∃ r s', paging_unmap demo_tables_layout 0x300000 demo_mmu = Some (r, s') ∧
    paging_ok demo_tables_layout s' Physical.usable_pages ∧ unmap_result demo_tables_layout demo_mmu 0x300000 r s' ∧
    (r = 0 → translate 0x300000 s' = None).
Proof.
  apply (paging_unmap_correct demo_tables_layout demo_mmu Physical.usable_pages 0x300000
           demo_tables_layout_ok demo_mmu_ok); [lia|].
  intros f [->|(k & Hk & Hp & ->)]; [vm_compute; discriminate|].
  rewrite (proj1 demo_mmu_tables k Hk) in Hp |- *.
  destruct (decide (k = 0)); [vm_compute; discriminate|discriminate Hp].
Defined.

(** C37. Mapping a page and unmapping it again is a round trip: when
    [paging_map] succeeds, [paging_unmap] of the same page succeeds too, and
    every address then translates as it did before. *)
Theorem paging_map_unmap {A C} `{PageAllocator A} `{Console C} L (s : mmu A C) F va pa flags s1 :
  layout_ok L → paging_ok L s F → 0 ≤ va < 2 ^ 32 → table_reachable L s F va →
  paging_map L va pa flags s = Some (0, s1) →
  ∃ s2, paging_unmap L va s1 = Some (0, s2) ∧
    ∀ va', 0 ≤ va' < 2 ^ 32 → walk (mem s2) (pageDirectory L) va' = walk (mem s) (pageDirectory L) va'.
Proof.
  intros HL Hok Hva Hreach Hrun. pose proof (paging_map_spec L HL s F va pa flags Hok Hva Hreach) as Hwp.
  apply (wp_run _ _ _ _ _ Hwp) in Hrun as (F' & _ & Hok1 & Hres & _ & _ & Htab). unfold map_result in Hres.
  destruct (decide (_ ∧ _)) as [[Ha _]|]; [|by destruct Hres].
  destruct (decide (_ ∧ _)); [by destruct Hres|].
  destruct (walk (mem s) _ va) eqn:Hw0; [by destruct Hres|]. destruct Hres as [_ Hw].
  assert (∀ f, is_table L (mem s1) f → f / 4096 ≠ va / 4096) as Hnot.
  { intros f Hf E. destruct (Htab f Hf) as [(pte & Hpte & _) _].
    rewrite (walk_page _ _ f va E) in Hpte. congruence. }
  pose proof (paging_unmap_spec L HL s1 F' va Hok1 Hva Hnot) as Hun.
  apply wp_inv in Hun as (r & s2 & Hrun2 & _ & Hres & _). unfold unmap_result in Hres.
  rewrite decide_True in Hres by done.
  assert (walk (mem s1) (pageDirectory L) va = Some (map_entry pa flags)) as Hw1
    by (rewrite Hw by done; by rewrite decide_True).
  rewrite Hw1 in Hres.
  destruct (present (pde (pageDirectory L) (mem s1) (PAGE_DIRECTORY_INDEX va))) eqn:Hp.
  - destruct Hres as (-> & _ & Hw2). exists s2. split; [done|]. intros va' Hva'.
    rewrite Hw2, Hw by done. destruct (decide (va' / 4096 = va / 4096)) as [E|]; [|done].
    by rewrite (walk_page _ _ va' va E).
  - unfold walk in Hw1. unfold pde in Hp. by rewrite Hp in Hw1.
Qed.

Lemma paging_map_succeeds {A C} `{PageAllocator A} `{Console C} L (s : mmu A C) F va pa flags p :
  layout_ok L → paging_ok L s F → 0 ≤ va < 2 ^ 32 → table_reachable L s F va → p ∈ F →
  va `mod` 4096 = 0 → pa `mod` 4096 = 0 → walk (mem s) (pageDirectory L) va = None →
  ∃ s1, paging_map L va pa flags s = Some (0, s1).
Proof.
  intros HL Hok Hva Hr Hp Ha Hb Hw. pose proof (paging_map_spec L HL s F va pa flags Hok Hva Hr) as Hwp.
  apply wp_inv in Hwp as (r & s' & Hrun & F' & _ & _ & Hres & _). exists s'. rewrite Hrun.
  unfold map_result in Hres. rewrite (decide_True (P := _ ∧ _)) in Hres by done.
  rewrite decide_False in Hres by (intros [_ ->]; by apply elem_of_empty in Hp).
  rewrite Hw in Hres. by destruct Hres as [-> _].
Qed.

Lemma demo_map : ∃ s1, paging_map demo_tables_layout 0x800000 0x300000 2 demo_mmu = Some (0, s1).
Proof.
  apply (paging_map_succeeds demo_tables_layout demo_mmu Physical.usable_pages 0x800000 0x300000 2 512
           demo_tables_layout_ok demo_mmu_ok); [lia| | |done|done|].
  - apply (identity_reachable Physical.boot_phys Physical.usable_pages 0x800000 boot_pool).
    exists 512. split; [apply Physical.usable_range|]; lia.
  - apply Physical.usable_range. lia.
  - rewrite (identity_walk _ demo_tables_layout_ok _ _ demo_mmu_tables) by lia. by rewrite decide_False by lia.
Qed.

Lemma paging_map_unmap_witness :
  ∃ s1 s2, paging_map demo_tables_layout 0x800000 0x300000 2 demo_mmu = Some (0, s1) ∧
    paging_unmap demo_tables_layout 0x800000 s1 = Some (0, s2) ∧
    ∀ va', 0 ≤ va' < 2 ^ 32 →
      walk (mem s2) (pageDirectory demo_tables_layout) va' = walk (mem demo_mmu) (pageDirectory demo_tables_layout) va'.
Proof.
  destruct demo_map as [s1 Hs1].
  destruct (paging_map_unmap demo_tables_layout demo_mmu Physical.usable_pages 0x800000 0x300000 2 s1
              demo_tables_layout_ok demo_mmu_ok ltac:(lia)) as (s2 & H2 & H3).
  - apply (identity_reachable Physical.boot_phys Physical.usable_pages 0x800000 boot_pool).
    exists 512. split; [apply Physical.usable_range|]; lia.
  - exact Hs1.
  - exists s1, s2. exact (conj Hs1 (conj H2 H3)).
Defined.

(** C39. A limit of [paging_map]: it clears a new page table at the table's
    physical address, so when a table is needed and the lowest free page is not
    mapped there (after [paging_init]: when every page below 4 MiB is taken) the
    call ends in a page fault instead of an error code. *)
Theorem paging_map_table_fault {A C} `{PageAllocator A} `{Console C} L (s : mmu A C) F p va pa flags :
  layout_ok L → paging_ok L s F → 0 ≤ va < 2 ^ 32 → va `mod` 4096 = 0 → pa `mod` 4096 = 0 →
  present (pde (pageDirectory L) (mem s) (PAGE_DIRECTORY_INDEX va)) = false →
  p ∈ F → (∀ q, q ∈ F → p ≤ q) → walk (mem s) (pageDirectory L) (p * 4096) = None →
  paging_map L va pa flags s = None.
Proof.
  intros HL Hok Hva Ha Hb Habs Hp Hmin Hw.
  assert (∀ s0 fmt args, paging_ok L s0 F → is_Some (Vga.format fmt args) →
            ∃ n c, fvga_write fmt args s0 = Some (n, set_console c s0) ∧ paging_ok L (set_console c s0) F) as Hmsg.
  { intros s0 fmt args Hok0 Hf. pose proof (pg_con _ _ _ Hok0) as Hcon.
    pose proof (con_write_spec (console s0) fmt args Hcon Hf) as Hw0.
    apply wp_inv in Hw0 as (n & c & Hrun & Hc). exists n, c. unfold fvga_write, zoom. rewrite Hrun.
    split; [done|]. destruct Hok0. by constructor. }
  unfold paging_map. unfold mbind, M_bind.
  destruct (Hmsg s (cstr "paging_map: VA=%x PA=%x\n") [Vga.VWord va; Vga.VWord pa] Hok)
    as (n1 & c1 & -> & Hok1); [by eexists|].
  destruct (Hmsg _ (cstr "paging_map: VA valid=%d PA valid=%d\n")
    [bool_word (page_address_valid va); bool_word (page_address_valid pa)] Hok1)
    as (n2 & c2 & -> & Hok2); [by eexists|].
  rewrite !page_address_valid_eq, !bool_decide_eq_true_2 by done. simpl.
  set (s2 := set_console c2 (set_console c1 s)) in *.
  pose proof (load_pde L HL s2 F (PAGE_DIRECTORY_INDEX va) Hok2 (proj1 (index_range va))) as Hl.
  apply wp_inv in Hl as (e & s3 & Hl & -> & t & -> & Hok3).
  unfold find_or_add_table, mbind, M_bind. rewrite Hl. change (mem s2) with (mem s). rewrite Habs. simpl.
  by rewrite (allocate_faults L HL (set_tlb t s2) F p Hok3 Hp Hmin Hw).
Qed.

(** A machine whose pages below 4 MiB have all been handed out. *)
Definition full_phys : Physical.phys :=
  final (Physical.reserve_range 0 0x400000) Physical.boot_phys.

Definition full_pages : gset Z := Physical.spec_reserve 0 0x400000 Physical.usable_pages.

Lemma full_pages_range p : p ∈ full_pages ↔ 1024 ≤ p < 16384.
Proof.
  unfold full_pages, Physical.spec_reserve.
  rewrite elem_of_difference, Physical.usable_range, Physical.elem_of_pages.
  change ((0x400000 + Physical.PAGE_SIZE - 1) / Physical.PAGE_SIZE) with 1024.
  change (0 / Physical.PAGE_SIZE) with 0. lia.
Qed.

Lemma full_pool : phys_pool full_phys full_pages.
Proof.
  destruct (wp_final _ _ _ (Physical.reserve_range_spec 0 0x400000 Physical.boot_phys
    Physical.usable_pages Physical.boot_phys_rep ltac:(lia) ltac:(vm_compute; split; discriminate))) as (u & _ & H).
  split; [exact H|]. intros p Hp%full_pages_range. lia.
Qed.

Lemma paging_map_table_fault_witness :
  paging_map demo_tables_layout 0x800000 0x300000 2 (final (paging_init demo_tables_layout) (machine full_phys)) = None.
Proof.
  destruct (machine_init full_phys _ full_pool) as [Hok Hid].
  apply (paging_map_table_fault demo_tables_layout _ _ 1024 0x800000 0x300000 2 demo_tables_layout_ok Hok).
  - lia.
  - reflexivity.
  - reflexivity.
  - rewrite (proj1 Hid) by (apply index_range). reflexivity.
  - apply full_pages_range. lia.
  - intros q Hq%full_pages_range. lia.
  - rewrite (identity_walk _ demo_tables_layout_ok _ _ Hid) by lia. reflexivity.
Defined.

End Paging.
