(* ===== verification/Drivers.v ===== *)
(** * The interrupt controller, the timer and the keyboard
      (src/kernel/arch/x86/pic.c, src/kernel/drivers/timer/pit.c,
       src/kernel/drivers/keyboard/keyboard.c)

    The drivers that talk to devices through ports.  What a device answers is a
    parameter ([Io.device]); what a driver writes is in the trace of port
    accesses. *)

From S2P Require Import Prelude Io Vga.
Import Io.

(** ** The 8259 interrupt controllers *)

Module Pic.

Definition PIC1_COMMAND : Z := 0x20.
Definition PIC1_DATA : Z := 0x20 + 1.
Definition PIC2_COMMAND : Z := 0xA0.
Definition PIC2_DATA : Z := 0xA0 + 1.
Definition PIC_EOI : Z := 0x20.

Section pic.
Context {S : Type} `{HasPorts S}.

Definition pic_init : M S unit :=
  _ ← outb PIC1_COMMAND 0x11;
  _ ← outb PIC2_COMMAND 0x11;
  _ ← outb PIC1_DATA 0x20;
  _ ← outb PIC2_DATA 0x28;
  _ ← outb PIC1_DATA 0x04;
  _ ← outb PIC2_DATA 0x02;
  _ ← outb PIC1_DATA 0x01;
  _ ← outb PIC2_DATA 0x01;
  _ ← outb PIC1_DATA 0xFC;
  outb PIC2_DATA 0xFF.

Definition pic_send_eoi (irq : Z) : M S unit :=
  _ ← when (8 <=? u8 irq) (outb PIC2_COMMAND PIC_EOI);
  outb PIC1_COMMAND PIC_EOI.

End pic.

(** The accesses [pic_send_eoi] makes, last one first. *)
Definition eoi_events (irq : Z) : list io_event :=
  OutB 0x20 0x20 :: (if decide (8 ≤ irq) then [OutB 0xA0 0x20] else []).

Lemma pic_send_eoi_spec {S} `{HasPorts S} irq (Q : unit → S → Prop) s :
  (∀ (t t' : list io_event) s, set_trace t (set_trace t' s) = set_trace t s) →
  (∀ t s, get_trace (set_trace t s) = t) → 0 ≤ irq < 256 →
  Q tt (set_trace (eoi_events irq ++ get_trace s) s) → wp (pic_send_eoi irq) Q s.
Proof.
  intros Hss Hgs Hirq HQ. unfold pic_send_eoi, outb. rewrite (u8_small irq) by lia. wp_step. unfold eoi_events in HQ.
  apply wp_when; intros E.
  - wp_steps. rewrite decide_True in HQ by lia. by rewrite Hgs, Hss.
  - wp_steps. rewrite decide_False in HQ by lia. done.
Qed.

End Pic.

(** ** The 8253 timer *)

Module Pit.

Definition PIT_CHANNEL0 : Z := 0x40.
Definition PIT_COMMAND : Z := 0x43.
Definition PIT_BASE_FREQUENCY : Z := 1193182.
Definition PIT_FREQUENCY : Z := 1000.

(** [PIT_BASE_FREQUENCY / frequency] is a division of unsigned numbers; by zero
    it is undefined. *)
Definition pit_init {S} `{HasPorts S} (frequency : Z) : M S unit :=
  if frequency =? 0 then undef
  else
    let divisor := PIT_BASE_FREQUENCY / frequency in
    _ ← outb PIT_COMMAND 0x36;
    _ ← outb PIT_CHANNEL0 (Z.land divisor 0xFF);
    outb PIT_CHANNEL0 (Z.land (Z.shiftr divisor 8) 0xFF).

(** The counter [ticks] is the state. *)
Definition pit_tick : M Z unit := modify (λ ticks, u32 (ticks + 1)).
Definition pit_get_ticks : M Z Z := gets (λ ticks, ticks).
Definition timer_ms : M Z Z :=
  if PIT_FREQUENCY =? 1000 then pit_get_ticks
  else t ← pit_get_ticks; mret ((t * 1000) `mod` 2 ^ 64 / PIT_FREQUENCY).

(** The ports alone. *)
#[local] Instance trace_HasPorts : HasPorts (list io_event) := {
  get_trace t := t;
  set_trace t _ := t
}.

(** Programming the timer: for frequencies of at least 19 Hz the two bytes
    written to channel 0 after the command byte are the low and the high byte of
    the divisor, which is at least 1; below that the divisor does not fit in the
    16 bits of the counter, and its upper part is lost. *)
Theorem pit_init_divisor {S} `{HasPorts S} frequency (s : S) :
  (∀ t t' s, set_trace t (set_trace t' s) = set_trace t s) → (∀ t s, get_trace (set_trace t s) = t) →
  1 ≤ frequency ≤ PIT_BASE_FREQUENCY →
  ∃ lo hi, pit_init frequency s =
      Some (tt, set_trace (OutB 0x40 hi :: OutB 0x40 lo :: OutB 0x43 0x36 :: get_trace s) s) ∧
    lo + 256 * hi = (PIT_BASE_FREQUENCY / frequency) `mod` 65536 ∧
    (19 ≤ frequency → 1 ≤ lo + 256 * hi ∧ lo + 256 * hi = PIT_BASE_FREQUENCY / frequency).
Proof.
  intros Hss Hgs Hf. set (d := PIT_BASE_FREQUENCY / frequency).
  assert (1 ≤ d) by (unfold d; apply Z.div_le_lower_bound; lia).
  exists (d `mod` 256), ((d / 256) `mod` 256). split_and!.
  - unfold pit_init. destruct (Z.eqb_spec frequency 0); [lia|]. fold d.
    change 0xFF with (2 ^ 8 - 1). rewrite !land_ones_mod by lia. rewrite Z.shiftr_div_pow2 by lia.
    unfold outb, modify, mbind, M_bind. rewrite !Hgs, !Hss.
    by rewrite !u8_small by (try lia; apply Z.mod_pos_bound; lia).
  - change 65536 with (256 * 256). by rewrite Z.rem_mul_r by lia.
  - intros H19. assert (d < 65536) by (unfold d, PIT_BASE_FREQUENCY; apply Z.div_lt_upper_bound; lia).
    pose proof (Z.div_mod d 256 ltac:(lia)). rewrite (Z.mod_small (d / 256)); [lia|].
    split; [apply Z.div_pos; lia|apply Z.div_lt_upper_bound; lia].
Qed.

Lemma pit_init_divisor_witness :
  ∃ lo hi, @pit_init _ trace_HasPorts 1000 [] = Some (tt, [OutB 0x40 hi; OutB 0x40 lo; OutB 0x43 0x36]) ∧
    lo + 256 * hi = (PIT_BASE_FREQUENCY / 1000) `mod` 65536 ∧
    (19 ≤ 1000 → 1 ≤ lo + 256 * hi ∧ lo + 256 * hi = PIT_BASE_FREQUENCY / 1000).
Proof.
  apply (@pit_init_divisor _ trace_HasPorts 1000 []); [done|done|unfold PIT_BASE_FREQUENCY; lia].
Defined.

End Pit.

(** ** The keyboard *)

Module Keyboard.

Definition KEYBOARD_DATA_PORT : Z := 0x60.
Definition KEYBOARD_STATUS_PORT : Z := 0x64.
Definition KEYBOARD_SCANCODE_COUNT : Z := 128.
Definition SCANCODE_LEFT_SHIFT : Z := 42.
Definition SCANCODE_CAPS_LOCK : Z := 58.
Definition SCANCODE_RIGHT_SHIFT : Z := 54.
Definition SCANCODE_EXTENDED : Z := 0xE0.
Definition SCANCODE_UP : Z := 0x48.
Definition SCANCODE_PAGE_UP : Z := 0x49.
Definition SCANCODE_DOWN : Z := 0x50.
Definition SCANCODE_PAGE_DOWN : Z := 0x51.

(** An array of 128 characters; the initialisers not given are 0. *)
Definition char_table (l : list Z) : list Z := l ++ replicate (128 - length l) 0.
Definition keyboardMap : list Z := char_table (
  [0; 27] ++ cstr "1234567890-=\b\tqwertyuiop[]\n" ++ [0] ++ cstr "asdfghjkl;'`" ++ [0] ++
  cstr "\\zxcvbnm,./" ++ [0] ++ cstr "*" ++ [0] ++ cstr " ").
Definition keyboardShiftMap : list Z := char_table (
  [0; 27] ++ cstr "!@#$%^&*()_+\b\tQWERTYUIOP{}\n" ++ [0] ++ cstr "ASDFGHJKL:" ++ [34] ++ cstr "~" ++ [0] ++
  cstr "|ZXCVBNM<>?" ++ [0] ++ cstr "*" ++ [0] ++ cstr " ").

(** The static variables of keyboard.c. *)
Record kbd : Type := mkKbd {
  extendedScancode : bool;
  leftShiftPressed : bool;
  rightShiftPressed : bool;
  capsLockEnabled : bool
}.

Definition set_extended (b : bool) (k : kbd) : kbd :=
  mkKbd b (leftShiftPressed k) (rightShiftPressed k) (capsLockEnabled k).
Definition set_left (b : bool) (k : kbd) : kbd :=
  mkKbd (extendedScancode k) b (rightShiftPressed k) (capsLockEnabled k).
Definition set_right (b : bool) (k : kbd) : kbd :=
  mkKbd (extendedScancode k) (leftShiftPressed k) b (capsLockEnabled k).
Definition set_caps (b : bool) (k : kbd) : kbd :=
  mkKbd (extendedScancode k) (leftShiftPressed k) (rightShiftPressed k) b.

(** The driver's state with the terminal it writes to and the ports. *)
Record console : Type := mkConsole {
  c_kbd : kbd;
  c_vga : Vga.vga;
  c_trace : list io_event
}.
Definition set_kbd (k : kbd) (s : console) : console := mkConsole k (c_vga s) (c_trace s).
Definition set_vga (v : Vga.vga) (s : console) : console := mkConsole (c_kbd s) v (c_trace s).

#[global] Instance console_HasPorts : HasPorts console := {
  get_trace := c_trace;
  set_trace t s := mkConsole (c_kbd s) (c_vga s) t
}.

Definition on_kbd (f : kbd → kbd) : M console unit := modify (λ s, set_kbd (f (c_kbd s)) s).
Definition on_vga {A} (m : M Vga.vga A) : M console A := zoom c_vga set_vga m.

Section operations.
Context (dev : device).

Definition keyboard_wait_input_clear : M console bool :=
  r ← mfor_ret (range 0 100000) (λ _,
        v ← inb dev KEYBOARD_STATUS_PORT;
        mret (if negb (Z.land v 0x02 =? 0) then Some true else None));
  mret (default false r).

(** The loop that waits for the acknowledgement: [Some false] is its [return],
    [Some true] its [break]. *)
Definition led_acknowledged : M console (option bool) :=
  mfor_ret (range 0 100000) (λ _,
    v ← inb dev KEYBOARD_STATUS_PORT;
    if negb (Z.land v 0x01 =? 0) then
      w ← inb dev KEYBOARD_STATUS_PORT;
      if negb (Z.land w 0xFA =? 0) then mret (Some false) else mret (Some true)
    else mret None).

Definition keyboard_set_caps_lock_led : M console unit :=
  ok ← keyboard_wait_input_clear;
  if negb ok then mret tt
  else
    _ ← outb KEYBOARD_DATA_PORT 0xED;
    r ← led_acknowledged;
    match r with
    | Some false => mret tt
    | _ =>
        let acknowledged := default false r in
        if negb acknowledged then mret tt
        else
          ok ← keyboard_wait_input_clear;
          if negb ok then mret tt
          else
            k ← gets c_kbd;
            outb KEYBOARD_DATA_PORT (if capsLockEnabled k then 0x04 else 0x00)
    end.

Definition keyboard_handler_extended (scancode : Z) : M console unit :=
  if negb (Z.land scancode 0x80 =? 0) then mret tt
  else if scancode =? SCANCODE_UP then on_vga Vga.vga_scroll_up
  else if scancode =? SCANCODE_PAGE_UP then on_vga Vga.vga_page_up
  else if scancode =? SCANCODE_DOWN then on_vga Vga.vga_scroll_down
  else if scancode =? SCANCODE_PAGE_DOWN then on_vga Vga.vga_page_down
  else mret tt.

Definition keyboard_init : M console unit :=
  mask ← inb dev Pic.PIC1_DATA;
  outb Pic.PIC1_DATA (Z.land mask (u8 (Z.lnot (Z.shiftl 1 1)))).

(** The key that is not a shift, caps lock or extended key. *)
Definition keyboard_type (scancode : Z) : M console unit :=
  k ← gets c_kbd;
  let shiftPressed := leftShiftPressed k || rightShiftPressed k in
  when (scancode <? KEYBOARD_SCANCODE_COUNT)
    (c ← lift (aget (if shiftPressed then keyboardShiftMap else keyboardMap) scancode);
     when (negb (c =? 0)) (on_vga (Vga.vga_putchar c))).

Definition keyboard_handler : M console unit :=
  scancode ← inb dev KEYBOARD_DATA_PORT;
  k ← gets c_kbd;
  if scancode =? SCANCODE_EXTENDED then
    _ ← on_kbd (set_extended true); Pic.pic_send_eoi 1
  else if extendedScancode k then
    _ ← on_kbd (set_extended false);
    _ ← keyboard_handler_extended scancode;
    Pic.pic_send_eoi 1
  else if negb (Z.land scancode 0x80 =? 0) then
    let scancode := Z.land scancode 0x7F in
    _ ← when (scancode =? SCANCODE_LEFT_SHIFT) (on_kbd (set_left false));
    _ ← when (scancode =? SCANCODE_RIGHT_SHIFT) (on_kbd (set_right false));
    Pic.pic_send_eoi 1
  else if scancode =? SCANCODE_LEFT_SHIFT then
    _ ← on_kbd (set_left true); Pic.pic_send_eoi 1
  else if scancode =? SCANCODE_RIGHT_SHIFT then
    _ ← on_kbd (set_right true); Pic.pic_send_eoi 1
  else if scancode =? SCANCODE_CAPS_LOCK then
    _ ← on_kbd (λ k, set_caps (negb (capsLockEnabled k)) k);
    _ ← keyboard_set_caps_lock_led;
    Pic.pic_send_eoi 1
  else
    _ ← keyboard_type scancode;
    Pic.pic_send_eoi 1.

End operations.

(** ** The keyboard as a state machine *)

Inductive key_action : Type :=
| ActNone
| ActCall (c : Vga.vga_call)
| ActLed.

(** The character of a key, under the shift state of the keyboard. *)
Definition key_char (k : kbd) (sc : Z) : Z :=
  default 0 (aget (if leftShiftPressed k || rightShiftPressed k then keyboardShiftMap else keyboardMap) sc).

Definition extended_action (sc : Z) : key_action :=
  if decide (sc = 0x48) then ActCall Vga.CallScrollUp
  else if decide (sc = 0x49) then ActCall Vga.CallPageUp
  else if decide (sc = 0x50) then ActCall Vga.CallScrollDown
  else if decide (sc = 0x51) then ActCall Vga.CallPageDown
  else ActNone.

(** The new state and what to do for a scan code. *)
Definition key_step (k : kbd) (sc : Z) : kbd * key_action :=
  if decide (sc = 0xE0) then (set_extended true k, ActNone)
  else if extendedScancode k then (set_extended false k, extended_action sc)
  else if decide (128 ≤ sc) then
    (if decide (sc = 128 + 42) then set_left false k
     else if decide (sc = 128 + 54) then set_right false k else k, ActNone)
  else if decide (sc = 42) then (set_left true k, ActNone)
  else if decide (sc = 54) then (set_right true k, ActNone)
  else if decide (sc = 58) then (set_caps (negb (capsLockEnabled k)) k, ActLed)
  else (k, let c := key_char k sc in if decide (c = 0) then ActNone else ActCall (Vga.CallPutchar c)).

(** What the actions do to the terminal. *)
Definition action_vga (a : key_action) (v v' : Vga.vga) : Prop :=
  match a with
  | ActNone | ActLed => v' = v
  | ActCall c => Vga.vga_run c v = Some (tt, v')
  end.

Section proofs.
Context (dev : device).

Lemma inb_spec port s (Q : Z → console → Prop) :
  let v := u8 (dev (c_trace s) (u16 port)) in
  Q v (set_trace (InB (u16 port) v :: c_trace s) s) → wp (inb dev port) Q s.
Proof. intros v HQ. unfold inb. by wp_steps. Qed.

Lemma eoi_spec s (Q : unit → console → Prop) :
  Q tt (set_trace (OutB 0x20 0x20 :: c_trace s) s) → wp (Pic.pic_send_eoi 1) Q s.
Proof. intros HQ. by apply Pic.pic_send_eoi_spec. Qed.

(** [only_ports s s']: the keyboard state and the terminal are as before. *)
Definition only_ports (s s' : console) : Prop :=
  c_kbd s' = c_kbd s ∧ c_vga s' = c_vga s ∧ ∃ l, c_trace s' = l ++ c_trace s.

Lemma only_ports_refl s : only_ports s s.
Proof. split_and!; [done|done|by exists []]. Qed.
Lemma only_ports_trans s1 s2 s3 : only_ports s1 s2 → only_ports s2 s3 → only_ports s1 s3.
Proof.
  intros (Hk & Hv & l & Hl) (Hk' & Hv' & l' & Hl'). split_and!; [congruence|congruence|].
  exists (l' ++ l). by rewrite Hl', Hl, app_assoc.
Qed.
Lemma only_ports_event e s : only_ports s (set_trace (e :: c_trace s) s).
Proof. split_and!; [done|done|by exists [e]]. Qed.
#[local] Hint Resolve only_ports_refl only_ports_event : neil.

Lemma outb_ports port v s : wp (outb port v) (λ _, only_ports s) s.
Proof. unfold outb. wp_steps. auto with neil. Qed.
Lemma inb_ports port s : wp (inb dev port) (λ _, only_ports s) s.
Proof. apply inb_spec. auto with neil. Qed.

(** A polling loop: it ends, and only reads the ports. *)
Lemma poll_ports {R} (body : Z → M console (option R)) n s :
  0 ≤ n → (∀ i s0, wp (body i) (λ _, only_ports s0) s0) →
  wp (mfor_ret (range 0 n) body) (λ _, only_ports s) s.
Proof.
  intros Hn Hbody. apply (wp_mfor_ret_range (λ _ s', only_ports s s')); [done|auto with neil| |done].
  intros i s1 _ H1. use_wp Hbody. intros [r|] s2 H2; by eapply only_ports_trans.
Qed.

Lemma wait_ports s : wp (keyboard_wait_input_clear dev) (λ _, only_ports s) s.
Proof.
  unfold keyboard_wait_input_clear. wp_step. use_wp poll_ports; [lia| |].
  - intros i s0. wp_step. use_wp inb_ports. intros v s1 H1. by wp_steps.
  - intros r s1 H1. by wp_step.
Qed.

Lemma led_ports s : wp (keyboard_set_caps_lock_led dev) (λ _, only_ports s) s.
Proof.
  unfold keyboard_set_caps_lock_led. wp_step. use_wp wait_ports. intros ok s1 H1.
  destruct ok; simpl; [|by wp_step]. wp_step. use_wp outb_ports. intros _ s2 H2.
  pose proof (only_ports_trans _ _ _ H1 H2) as H12. wp_step. use_wp poll_ports; [lia| |].
  - intros i s0. wp_step. use_wp inb_ports. intros v s3 H3. wp_step; [|by wp_step].
    wp_step. use_wp inb_ports. intros w s4 H4. wp_step; wp_step; by eapply only_ports_trans.
  - intros r s3 H3. pose proof (only_ports_trans _ _ _ H12 H3) as H13.
    destruct r as [[]|]; simpl; [|by wp_step|by wp_step]. wp_step. use_wp wait_ports. intros ok s4 H4.
    pose proof (only_ports_trans _ _ _ H13 H4) as H14.
    destruct ok; simpl; [|by wp_step]. do 2 wp_step. use_wp outb_ports. intros _ s5 H5.
    by eapply only_ports_trans.
Qed.

(** Bit 7 of a scan code is the release bit. *)
Lemma release_bit sc :
  0 ≤ sc < 256 →
  negb (Z.land sc 0x80 =? 0) = bool_decide (128 ≤ sc) ∧ Z.land sc 0x7F = sc `mod` 128.
Proof.
  intros Hsc. assert (Forall (λ sc, negb (Z.land sc 0x80 =? 0) = bool_decide (128 ≤ sc) ∧
                                    Z.land sc 0x7F = sc `mod` 128) (range 0 256)) as Hall.
  { apply (bool_decide_unpack _). vm_compute. exact I. }
  rewrite Forall_forall in Hall. apply Hall, elem_of_seqZ. lia.
Qed.

Lemma call_spec c s (Q : unit → console → Prop) :
  Vga.settled (c_vga s) → Vga.call_ok c →
  (∀ v, Vga.vga_run c (c_vga s) = Some (tt, v) → Vga.settled v → Q tt (set_vga v s)) →
  wp (on_vga (Vga.vga_run c)) Q s.
Proof.
  intros Hs Hc HQ. unfold on_vga. wp_step. pose proof (Vga.call_settled c (c_vga s) Hs Hc) as Hwp.
  apply wp_inv in Hwp as ([] & v & Hrun & Hv). eapply wp_eq; [exact Hrun|]. by apply HQ.
Qed.

(** The last step of every path: acknowledging the interrupt. *)
Definition handled (s0 : console) (sc : Z) (k : kbd) (a : key_action) (s : console) : Prop :=
  c_kbd s = k ∧ action_vga a (c_vga s0) (c_vga s) ∧ Vga.settled (c_vga s) ∧
  ∃ mid, c_trace s = OutB 0x20 0x20 :: mid ++ InB 0x60 sc :: c_trace s0 ∧ (a ≠ ActLed → mid = []).

Lemma finish_eoi s0 sc a s mid :
  action_vga a (c_vga s0) (c_vga s) → Vga.settled (c_vga s) →
  c_trace s = mid ++ InB 0x60 sc :: c_trace s0 → (a ≠ ActLed → mid = []) →
  wp (Pic.pic_send_eoi 1) (λ _, handled s0 sc (c_kbd s) a) s.
Proof.
  intros Ha Hs Ht Hm. apply eoi_spec. split; [done|]. split; [done|]. split; [done|].
  exists mid. split; [|done]. simpl. by rewrite Ht.
Qed.

Lemma extended_spec s0 sc s k :
  Vga.settled (c_vga s) → c_vga s = c_vga s0 → 0 ≤ sc < 256 → c_kbd s = k →
  c_trace s = InB 0x60 sc :: c_trace s0 →
  wp (_ ← keyboard_handler_extended sc; Pic.pic_send_eoi 1) (λ _, handled s0 sc k (extended_action sc)) s.
Proof.
  intros Hs Hv Hsc <- Ht. unfold keyboard_handler_extended, extended_action.
  destruct (release_bit sc Hsc) as [-> _]. wp_step.
  assert (∀ c, Vga.call_ok c → wp (on_vga (Vga.vga_run c))
            (λ _, wp (Pic.pic_send_eoi 1) (λ _, handled s0 sc (c_kbd s) (ActCall c))) s) as Hcall.
  { intros c Hc. apply call_spec; [done|done|]. intros v Hrun Hvs. rewrite Hv in Hrun.
    by apply (finish_eoi s0 sc (ActCall c) (set_vga v s) []). }
  destruct (bool_decide_reflect (128 ≤ sc)).
  { wp_step. decides. by apply (finish_eoi s0 sc ActNone s []). }
  destruct (Z.eqb_spec sc SCANCODE_UP) as [->|H1]; [by apply (Hcall Vga.CallScrollUp)|].
  destruct (Z.eqb_spec sc SCANCODE_PAGE_UP) as [->|H2]; [by apply (Hcall Vga.CallPageUp)|].
  destruct (Z.eqb_spec sc SCANCODE_DOWN) as [->|H3]; [by apply (Hcall Vga.CallScrollDown)|].
  destruct (Z.eqb_spec sc SCANCODE_PAGE_DOWN) as [->|H4]; [by apply (Hcall Vga.CallPageDown)|].
  unfold SCANCODE_UP, SCANCODE_PAGE_UP, SCANCODE_DOWN, SCANCODE_PAGE_DOWN in *.
  wp_step. decides. by apply (finish_eoi s0 sc ActNone s []).
Qed.

Lemma type_spec s0 sc s :
  Vga.settled (c_vga s) → c_vga s = c_vga s0 → 0 ≤ sc < 128 →
  c_trace s = InB 0x60 sc :: c_trace s0 →
  wp (_ ← keyboard_type sc; Pic.pic_send_eoi 1)
    (λ _, handled s0 sc (c_kbd s) (let c := key_char (c_kbd s) sc in
                                   if decide (c = 0) then ActNone else ActCall (Vga.CallPutchar c))) s.
Proof.
  intros Hs Hv Hsc Ht. unfold keyboard_type, key_char. do 3 wp_step.
  set (map := if _ || _ then keyboardShiftMap else keyboardMap).
  assert (length map = 128%nat) as Hlen by (unfold map; by destruct (_ || _)).
  destruct (aget_is_Some map sc) as [c Hc]; [lia|]. rewrite Hc. simpl.
  apply wp_when; intros E; [|unfold KEYBOARD_SCANCODE_COUNT in E; lia].
  wp_step. eapply wp_lift; [done|]. apply wp_when; intros E0.
  - apply negb_true_iff, Z.eqb_neq in E0. rewrite decide_False by done.
    apply (call_spec (Vga.CallPutchar c)); [done|done|]. intros v Hrun Hvs. rewrite Hv in Hrun.
    by apply (finish_eoi s0 sc (ActCall (Vga.CallPutchar c)) (set_vga v s) []).
  - apply negb_false_iff, Z.eqb_eq in E0. rewrite decide_True by done.
    by apply (finish_eoi s0 sc ActNone s []).
Qed.

Lemma handler_spec s :
  Vga.settled (c_vga s) →
  let sc := u8 (dev (c_trace s) 0x60) in
  wp (keyboard_handler dev) (λ _, handled s sc (key_step (c_kbd s) sc).1 (key_step (c_kbd s) sc).2) s.
Proof.
  intros Hs sc. unfold keyboard_handler. wp_step. apply inb_spec.
  change (u16 KEYBOARD_DATA_PORT) with 0x60. fold sc. pose proof (u8_range (dev (c_trace s) 0x60)) as Hsc.
  fold sc in Hsc. clearbody sc. do 2 wp_step. set (s1 := set_trace _ s). change (c_kbd s1) with (c_kbd s).
  assert (Vga.settled (c_vga s1)) as Hs1 by done. unfold key_step.
  assert (∀ f, wp (_ ← on_kbd f; Pic.pic_send_eoi 1) (λ _, handled s sc (f (c_kbd s)) ActNone) s1) as Hset.
  { intros f. unfold on_kbd. wp_steps. by apply (finish_eoi s sc ActNone (set_kbd (f (c_kbd s1)) s1) []). }
  destruct (Z.eqb_spec sc SCANCODE_EXTENDED) as [->|H0]; [apply Hset|].
  unfold SCANCODE_EXTENDED in H0. rewrite (decide_False (P := sc = 0xE0)) by done.
  destruct (extendedScancode (c_kbd s)) eqn:Hext.
  { unfold on_kbd. wp_step. wp_step. by apply extended_spec. }
  destruct (release_bit sc Hsc) as [-> ->].
  destruct (bool_decide_reflect (128 ≤ sc)) as [Hrel|Hpress].
  { rewrite (decide_True (P := 128 ≤ sc)) by done.
    assert (sc `mod` 128 = sc - 128) as -> by (symmetry; apply (Z.mod_unique sc 128 1); lia).
    unfold SCANCODE_LEFT_SHIFT, SCANCODE_RIGHT_SHIFT, on_kbd.
    destruct (Z.eqb_spec (sc - 128) 42); [|destruct (Z.eqb_spec (sc - 128) 54)]; decides; simpl; wp_steps.
    - destruct (Z.eqb_spec (sc - 128) 54); [lia|]. wp_steps.
      by apply (finish_eoi s sc ActNone (set_kbd (set_left false (c_kbd s1)) s1) []).
    - by apply (finish_eoi s sc ActNone (set_kbd (set_right false (c_kbd s1)) s1) []).
    - by apply (finish_eoi s sc ActNone s1 []). }
  rewrite (decide_False (P := 128 ≤ sc)) by done.
  destruct (Z.eqb_spec sc SCANCODE_LEFT_SHIFT) as [->|H1]; [apply Hset|].
  unfold SCANCODE_LEFT_SHIFT in H1. rewrite (decide_False (P := sc = 42)) by done.
  destruct (Z.eqb_spec sc SCANCODE_RIGHT_SHIFT) as [->|H2]; [apply Hset|].
  unfold SCANCODE_RIGHT_SHIFT in H2. rewrite (decide_False (P := sc = 54)) by done.
  destruct (Z.eqb_spec sc SCANCODE_CAPS_LOCK) as [->|H3].
  { unfold on_kbd. wp_step. wp_step. wp_step. use_wp led_ports. intros _ s2 (Hk & Hv & l & Hl).
    apply eoi_spec. split; [done|]. split; [exact Hv|]. split; [simpl; by rewrite Hv|].
    exists l. split; [|done]. simpl. by rewrite Hl. }
  unfold SCANCODE_CAPS_LOCK in H3. rewrite (decide_False (P := sc = 58)) by done.
  apply type_spec; [done|done|lia|done].
Qed.

End proofs.

(** ** Properties *)

(** A console after boot, and a controller that offers one scan code. *)
Definition demo_console : console := mkConsole (mkKbd false false false false) Vga.demo_vga [].
Definition one_key (sc : Z) : device := λ _ port, if decide (port = 0x60) then sc else 0.

(** C31. The keyboard driver is the state machine [key_step]: for any device and
    any scan code the handler returns, moves to the machine's next state (prefix,
    shift and caps lock keys), performs its action on the terminal (the character
    under the shift state, or scrolling) and nothing else, keeps the terminal in
    order, and acknowledges the interrupt as its last port access, having read
    the data port exactly once. *)
Theorem keyboard_handler_refines dev s :
  Vga.settled (c_vga s) →
  let sc := u8 (dev (c_trace s) 0x60) in
  ∃ s' mid, keyboard_handler dev s = Some (tt, s') ∧
    c_kbd s' = (key_step (c_kbd s) sc).1 ∧
    action_vga (key_step (c_kbd s) sc).2 (c_vga s) (c_vga s') ∧ Vga.settled (c_vga s') ∧
    c_trace s' = OutB 0x20 0x20 :: mid ++ InB 0x60 sc :: c_trace s ∧
    ((key_step (c_kbd s) sc).2 ≠ ActLed → mid = []).
Proof.
  intros Hs sc. pose proof (handler_spec dev s Hs) as Hwp. cbv zeta in Hwp. fold sc in Hwp.
  apply wp_inv in Hwp as ([] & s' & Hrun & Hk & Ha & Hs' & mid & Ht & Hm).
  exists s', mid. by split_and!.
Qed.

Lemma keyboard_handler_refines_witness :
  let sc := u8 (one_key 30 (c_trace demo_console) 0x60) in
  ∃ s' mid, keyboard_handler (one_key 30) demo_console = Some (tt, s') ∧
    c_kbd s' = (key_step (c_kbd demo_console) sc).1 ∧
    action_vga (key_step (c_kbd demo_console) sc).2 (c_vga demo_console) (c_vga s') ∧
    Vga.settled (c_vga s') ∧
    c_trace s' = OutB 0x20 0x20 :: mid ++ InB 0x60 sc :: c_trace demo_console ∧
    ((key_step (c_kbd demo_console) sc).2 ≠ ActLed → mid = []).
Proof.
  apply (keyboard_handler_refines (one_key 30) demo_console). exact Vga.demo_vga_settled.
Defined.

(** The scan codes of a sequence of key presses and releases. *)
Definition run_keys (k : kbd) (scs : list Z) : kbd * list key_action :=
  foldl (λ '(k, acts) sc, let '(k', a) := key_step k sc in (k', acts ++ [a])) (k, []) scs.

Fixpoint actions_vga (acts : list key_action) (v v' : Vga.vga) : Prop :=
  match acts with
  | [] => v' = v
  | a :: acts => ∃ w, action_vga a v w ∧ actions_vga acts w v'
  end.

Lemma actions_vga_snoc acts a v w v' :
  actions_vga acts v w → action_vga a w v' → actions_vga (acts ++ [a]) v v'.
Proof.
  revert v. induction acts as [|a0 acts IH]; intros v; simpl.
  - intros -> Ha. by exists v'.
  - intros (w0 & H0 & H1) Ha. exists w0. split; [done|]. by apply IH.
Qed.

(** The handler called for one key after the other. *)
Definition type_keys (scs : list Z) : M console unit :=
  mfor scs (λ sc, keyboard_handler (one_key sc)).

Lemma type_keys_spec scs s :
  Vga.settled (c_vga s) → Forall (λ sc, 0 ≤ sc < 256) scs →
  wp (type_keys scs) (λ _ s', c_kbd s' = (run_keys (c_kbd s) scs).1 ∧ Vga.settled (c_vga s') ∧
    actions_vga (run_keys (c_kbd s) scs).2 (c_vga s) (c_vga s')) s.
Proof.
  intros Hs Hscs. unfold type_keys. apply (wp_mfor (λ dn _ s', c_kbd s' = (run_keys (c_kbd s) dn).1 ∧
    Vga.settled (c_vga s') ∧ actions_vga (run_keys (c_kbd s) dn).2 (c_vga s) (c_vga s'))); [done| |done].
  intros dn sc rest s1 Hl (Hk & Hs1 & Hv). rewrite Hl in Hscs.
  assert (u8 (one_key sc (c_trace s1) 0x60) = sc) as Esc.
  { unfold one_key. rewrite decide_True by done. apply u8_small.
    apply Forall_app in Hscs as [_ Hscs]. by apply Forall_cons in Hscs as [? _]. }
  use_wp (handler_spec (one_key sc) s1 Hs1). rewrite Esc. intros _ s2 (Hk2 & Ha2 & Hs2 & _).
  unfold run_keys in *. rewrite foldl_app. cbn [foldl].
  destruct (foldl _ _ dn) as [k acts]. cbn [fst snd] in *. subst k.
  destruct (key_step (c_kbd s1) sc) as [k' a]. cbn [fst snd] in *.
  split; [done|]. split; [done|]. by eapply actions_vga_snoc.
Qed.

(** For every printable character a key and a shift state that give it. *)
Lemma ascii_key c :
  32 ≤ c ≤ 126 →
  ∃ sc, 0 ≤ sc < 128 ∧ sc ≠ 42 ∧ sc ≠ 54 ∧ sc ≠ 58 ∧ sc ≠ 96 ∧
    (key_char (mkKbd false false false false) sc = c ∨ key_char (mkKbd false true false false) sc = c).
Proof.
  intros Hc.
  assert (Forall (λ c, Exists (λ sc,
    key_char (mkKbd false false false false) sc = c ∨ key_char (mkKbd false true false false) sc = c)
    (filter (λ sc, sc ∉ [42; 54; 58; 96]) (range 0 128))) (range 32 127)) as Hall
    by (apply (bool_decide_unpack _); vm_compute; exact I).
  rewrite Forall_forall in Hall. specialize (Hall c ltac:(apply elem_of_seqZ; lia)).
  apply Exists_exists in Hall as (sc & [Hn Hsc%elem_of_seqZ]%list_elem_of_filter & Hor).
  exists sc. rewrite !not_elem_of_cons in Hn. destruct Hn as (? & ? & ? & ? & _).
  split; [lia|]. by split_and!.
Qed.

Definition kbd_idle : kbd := mkKbd false false false false.

(** Every printable ASCII character can be typed: for each there is a
    sequence of scan codes (a key pressed and released, for some of them while
    the left shift key is held) after which the terminal is as [vga_putchar] of
    that character leaves it and the keyboard is back in its initial state. *)
Theorem keyboard_types_ascii c s :
  32 ≤ c ≤ 126 → Vga.settled (c_vga s) → c_kbd s = kbd_idle →
  ∃ scs s', type_keys scs s = Some (tt, s') ∧ c_kbd s' = kbd_idle ∧
    Vga.vga_putchar c (c_vga s) = Some (tt, c_vga s').
Proof.
  intros Hc Hs Hk. destruct (ascii_key c Hc) as (sc & Hsc & H1 & H2 & H3 & H4 & Hor).
  assert (∀ k, extendedScancode k = false → key_char k sc = c → key_step k sc =
            (k, ActCall (Vga.CallPutchar c))) as Hkey.
  { intros k He E. unfold key_step. rewrite He, E. by decides. }
  assert (∀ k, extendedScancode k = false → key_step k (128 + sc) = (k, ActNone)) as Hrel.
  { intros k He. unfold key_step. rewrite He. by decides. }
  set (scs := if decide (key_char kbd_idle sc = c) then [sc; 128 + sc] else [42; sc; 128 + sc; 128 + 42]).
  assert (Forall (λ sc, 0 ≤ sc < 256) scs) as Hscs
    by (unfold scs; case_decide; repeat constructor; lia).
  pose proof (type_keys_spec scs s Hs Hscs) as Hwp. rewrite Hk in Hwp.
  apply wp_inv in Hwp as ([] & s' & Hrun & Hk' & _ & Hv). exists scs, s'. split; [done|].
  revert Hk' Hv. unfold scs, run_keys. case_decide as E; cbn [foldl].
  - rewrite Hkey, Hrel by done. simpl. intros -> (w & Hw & w' & -> & ->). done.
  - change (key_step kbd_idle 42) with (mkKbd false true false false, ActNone). cbv beta iota.
    rewrite Hkey by (done || by destruct Hor). rewrite Hrel by done. simpl.
    intros -> (w & -> & w1 & Hw & w2 & -> & w3 & -> & ->). done.
Qed.

Lemma keyboard_types_ascii_witness :
  ∃ scs s', type_keys scs demo_console = Some (tt, s') ∧ c_kbd s' = kbd_idle ∧
    Vga.vga_putchar 65 (c_vga demo_console) = Some (tt, c_vga s').
Proof.
  apply (keyboard_types_ascii 65 demo_console); [lia|exact Vga.demo_vga_settled|reflexivity].
Defined.

(** The caps lock LED: [keyboard_wait_input_clear] waits until the controller's
    input buffer is full, so with a controller that is ready for input nothing is
    ever sent to the keyboard. *)
Lemma caps_lock_led_silent dev s :
  (∀ tr, Z.testbit (u8 (dev tr 0x64)) 1 = false) →
  wp (keyboard_set_caps_lock_led dev) (λ _ s', ∃ l, c_trace s' = l ++ c_trace s ∧
    ∀ port v, OutB port v ∉ l) s.
Proof.
  intros Hdev. unfold keyboard_set_caps_lock_led. wp_step.
  eapply (wp_mono _ (λ ok s', ok = false ∧ ∃ l, c_trace s' = l ++ c_trace s ∧ ∀ port v, OutB port v ∉ l)).
  2:{ intros ok s' [-> H]. by wp_step. }
  unfold keyboard_wait_input_clear. wp_step.
  apply (wp_mfor_ret_range (λ _ s', ∃ l, c_trace s' = l ++ c_trace s ∧ ∀ port v, OutB port v ∉ l)).
  - lia.
  - exists []. split; [done|]. intros port v. apply not_elem_of_nil.
  - intros i s1 _ (l & Hl & Hno). wp_step. apply inb_spec. change (u16 KEYBOARD_STATUS_PORT) with 0x64.
    wp_step. rewrite (test_bit_spec _ 1) by lia. rewrite Hdev. eexists (_ :: l). split; [by rewrite Hl|].
    intros port v. apply not_elem_of_cons. by split.
  - intros s1 H1. by wp_step.
Qed.

End Keyboard.
