(* ===== verification/Idt.v ===== *)
(** * The interrupt descriptor table (src/kernel/arch/x86/idt.c)

    The 256 gates, [idt_set_gate] and [idt_init].  The addresses of the stubs of
    isr.asm that the gates point to are the linker's: a parameter of
    [idt_init]. *)

From S2P Require Import Prelude.

Module Idt.

Definition IDT_ENTRIES : Z := 256.

(** [struct idt_entry] and [struct idt_ptr] *)
Record idt_entry : Type := mkEntry {
  offset_low : Z;
  selector : Z;
  zero : Z;
  type_attr : Z;
  offset_high : Z
}.
Record idt_ptr : Type := mkPtr { limit : Z; base : Z }.

(** The static variables of idt.c and the IDTR register. *)
Record idt_state : Type := mkIdt {
  idt : list idt_entry;
  idtp : idt_ptr;
  idtr : idt_ptr
}.
Definition set_idt (x : list idt_entry) (s : idt_state) : idt_state := mkIdt x (idtp s) (idtr s).
Definition set_idtp (x : idt_ptr) (s : idt_state) : idt_state := mkIdt (idt s) x (idtr s).

Definition idt_set_gate (n ptr : Z) : M idt_state unit :=
  let handler := u32 ptr in
  store_at idt set_idt (u8 n)
    (mkEntry (Z.land handler 0xFFFF) 0x08 0 0x8E (Z.land (Z.shiftr handler 16) 0xFFFF)).

(** The vectors that get a gate, in the order of the calls. *)
Definition gates : list Z := range 0 48 ++ [49; 50].

(** [isr n] is the address of [isr<n>], [addr] that of the table. *)
Definition idt_init (isr : Z → Z) (addr : Z) : M idt_state unit :=
  _ ← mfor (range 0 IDT_ENTRIES) (λ i, store_at idt set_idt i (mkEntry 0 0 0 0 0));
  _ ← mfor gates (λ n, idt_set_gate n (isr n));
  _ ← modify (set_idtp (mkPtr (IDT_ENTRIES * 8 - 1) addr));
  modify (λ s, mkIdt (idt s) (idtp s) (idtp s)).

(** ** What the CPU finds in the table *)

(** A present 32-bit interrupt gate of ring 0 in the kernel's code segment, and
    the address it leads to. *)
Definition gate_handler (g : idt_entry) : option Z :=
  if decide (type_attr g = 0x8E ∧ selector g = 0x08) then Some (offset_low g + 65536 * offset_high g)
  else None.
Definition vector_handler (s : idt_state) (n : Z) : option Z := aget (idt s) n ≫= gate_handler.

Definition gate (isr : Z → Z) (n : Z) : idt_entry :=
  mkEntry (Z.land (u32 (isr n)) 0xFFFF) 0x08 0 0x8E (Z.land (Z.shiftr (u32 (isr n)) 16) 0xFFFF).

Lemma gate_target isr n : 0 ≤ isr n < 2 ^ 32 → gate_handler (gate isr n) = Some (isr n).
Proof.
  intros Hn. unfold gate_handler, gate. simpl. f_equal. rewrite u32_small by done.
  change 0xFFFF with (2 ^ 16 - 1). rewrite !land_ones_mod by lia. rewrite Z.shiftr_div_pow2 by lia.
  change (2 ^ 16) with 65536. rewrite (Z.mod_small (isr n / 65536)).
  - pose proof (Z.div_mod (isr n) 65536 ltac:(lia)). lia.
  - split; [apply Z.div_pos; lia|apply Z.div_lt_upper_bound; lia].
Qed.

(** The table after the gates [done] have been set. *)
Lemma set_gates_spec isr l s (Q : unit → idt_state → Prop) :
  length (idt s) = 256%nat → Forall (λ n, 0 ≤ n < 256) l →
  (∀ t, length t = 256%nat →
     (∀ n, aget t n = if decide (n ∈ l) then Some (gate isr n) else aget (idt s) n) → Q tt (set_idt t s)) →
  wp (mfor l (λ n, idt_set_gate n (isr n))) Q s.
Proof.
  intros Hlen Hl HQ.
  apply (wp_mfor (λ dn _ s', ∃ t, s' = set_idt t s ∧ length t = 256%nat ∧
    ∀ n, aget t n = if decide (n ∈ dn) then Some (gate isr n) else aget (idt s) n)).
  - exists (idt s). split; [by destruct s|]. split; [done|]. intros n.
    rewrite decide_False; [done|apply not_elem_of_nil].
  - intros dn x rest s1 E (t & -> & Ht & Hg). rewrite E in Hl.
    apply Forall_app in Hl as [_ Hl]. apply Forall_cons in Hl as [Hx _].
    unfold idt_set_gate. rewrite (u8_small x) by lia. fold (gate isr x).
    apply wp_store_at; [simpl; lia|]. simpl. exists (<[Z.to_nat x := gate isr x]> t).
    split; [done|]. split; [by rewrite length_insert|]. intros n.
    rewrite (aget_aset t x (gate isr x)) by (apply aset_in; lia). rewrite Hg.
    destruct (decide (x = n)) as [->|Hne].
    + rewrite decide_True; [done|]. apply elem_of_app. right. left.
    + destruct (decide (n ∈ dn)).
      * rewrite decide_True; [done|]. apply elem_of_app. by left.
      * rewrite decide_False; [done|]. rewrite elem_of_app, list_elem_of_singleton. intros [?|?]; congruence.
  - intros s1 (t & -> & Ht & Hg). by apply HQ.
Qed.

Lemma idt_init_spec isr addr s :
  length (idt s) = 256%nat →
  wp (idt_init isr addr) (λ _ s', length (idt s') = 256%nat ∧ idtr s' = mkPtr 2047 addr ∧
    ∀ n, 0 ≤ n < 256 →
      aget (idt s') n = Some (if decide (n ∈ gates) then gate isr n else mkEntry 0 0 0 0 0)) s.
Proof.
  intros Hlen. unfold idt_init. wp_step.
  apply (wp_fill idt set_idt) with (f := λ _, mkEntry 0 0 0 0 0);
    [done|done|by intros []|by rewrite Hlen|]. wp_step.
  apply set_gates_spec.
  - cbn [idt set_idt]. rewrite length_fmap. unfold range. by rewrite length_seqZ.
  - apply (bool_decide_unpack _). by vm_compute.
  - intros t Ht Hg. wp_steps. cbn [idt idtr idtp set_idt set_idtp]. split; [done|]. split; [done|].
    intros n Hn. rewrite Hg. destruct (decide (n ∈ gates)); [done|]. cbn [idt set_idt]. apply aget_Some. split; [lia|].
    rewrite list_lookup_fmap. unfold range. rewrite (lookup_seqZ_lt 0 _ (Z.to_nat n)); [done|].
    unfold IDT_ENTRIES. lia.
Qed.

(** The vectors with a gate. *)
Lemma elem_of_gates n : n ∈ gates ↔ 0 ≤ n < 48 ∨ n = 49 ∨ n = 50.
Proof.
  unfold gates, range. rewrite elem_of_app, elem_of_seqZ, !elem_of_cons. split.
  - intros [?|[?|[?|[]%elem_of_nil]]]; lia.
  - intros [?|[?|?]]; [left; lia|by right; left|by right; right; left].
Qed.

Lemma gates_handlers isr s :
  (∀ n, 0 ≤ isr n < 2 ^ 32) →
  (∀ n, 0 ≤ n < 256 →
     aget (idt s) n = Some (if decide (n ∈ gates) then gate isr n else mkEntry 0 0 0 0 0)) →
  ∀ n, 0 ≤ n < 256 →
    vector_handler s n = if decide (0 ≤ n < 48 ∨ n = 49 ∨ n = 50) then Some (isr n) else None.
Proof.
  intros Hisr Hg n Hn. unfold vector_handler. rewrite (Hg n Hn). simpl.
  destruct (decide (n ∈ gates)) as [Hin|Hin]; rewrite elem_of_gates in Hin.
  - rewrite decide_True by done. by apply gate_target.
  - by rewrite decide_False.
Qed.

(** After [idt_init] the CPU finds a handler for exactly the vectors 0 to 47, 49
    and 50, each the stub of its own number, whatever the table held before; and
    the IDTR covers the 256 gates. *)
Theorem idt_init_gates isr addr s :
  length (idt s) = 256%nat → (∀ n, 0 ≤ isr n < 2 ^ 32) →
  ∃ s', idt_init isr addr s = Some (tt, s') ∧ idtr s' = mkPtr 2047 addr ∧
    ∀ n, 0 ≤ n < 256 →
      vector_handler s' n = if decide (0 ≤ n < 48 ∨ n = 49 ∨ n = 50) then Some (isr n) else None.
Proof.
  intros Hlen Hisr. destruct (proj1 (wp_inv _ _ _) (idt_init_spec isr addr s Hlen)) as ([] & s' & E & _ & Hr & Hg).
  exists s'. split; [done|]. split; [done|]. by apply gates_handlers.
Qed.

Lemma idt_init_gates_witness :
  ∃ s', idt_init (λ n, 0xA000 + 12 * n `mod` 256) 0x15000 (mkIdt (replicate 256 (mkEntry 1 2 3 4 5)) (mkPtr 0 0) (mkPtr 0 0))
        = Some (tt, s') ∧ vector_handler s' 33 = Some (0xA000 + 12 * 33).
Proof.
  destruct (idt_init_gates (λ n, 0xA000 + 12 * n `mod` 256) 0x15000
              (mkIdt (replicate 256 (mkEntry 1 2 3 4 5)) (mkPtr 0 0) (mkPtr 0 0))) as (s' & E & _ & Hv).
  - reflexivity.
  - intros n. pose proof (Z.mod_pos_bound n 256). lia.
  - exists s'. split; [exact E|]. rewrite (Hv 33) by lia. reflexivity.
Defined.

End Idt.
