(* ===== verification/X86.v ===== *)
(** * The instructions the kernel's assembly uses

    main.asm, gdt.asm and isr.asm are sequences of x86 instructions.  This file
    gives the machine they run on: the registers, memory, segment descriptors and
    the instructions that occur, with an executable step function.  Code lies where
    the linker puts it: a [linker] places the instructions of each label, and knows
    which instruction is at an address. *)

From S2P Require Import Prelude Io.
Import Io.

Module X86.

(** ** The machine *)

Inductive reg : Type := EAX | ECX | EDX | EBX | ESP | EBP | ESI | EDI.
Inductive sreg : Type := CS | DS | ES | FS | GS | SS.

Record gprs : Type := mkGprs {
  g_eax : Z; g_ecx : Z; g_edx : Z; g_ebx : Z; g_esp : Z; g_ebp : Z; g_esi : Z; g_edi : Z
}.
Definition get_reg (r : reg) (g : gprs) : Z :=
  match r with
  | EAX => g_eax g | ECX => g_ecx g | EDX => g_edx g | EBX => g_ebx g
  | ESP => g_esp g | EBP => g_ebp g | ESI => g_esi g | EDI => g_edi g
  end.
Definition set_reg (r : reg) (v : Z) (g : gprs) : gprs :=
  let '(mkGprs a c d b sp bp si di) := g in
  match r with
  | EAX => mkGprs v c d b sp bp si di | ECX => mkGprs a v d b sp bp si di
  | EDX => mkGprs a c v b sp bp si di | EBX => mkGprs a c d v sp bp si di
  | ESP => mkGprs a c d b v bp si di | EBP => mkGprs a c d b sp v si di
  | ESI => mkGprs a c d b sp bp v di | EDI => mkGprs a c d b sp bp si v
  end.

Record segs : Type := mkSegs { s_cs : Z; s_ds : Z; s_es : Z; s_fs : Z; s_gs : Z; s_ss : Z }.
Definition set_seg (r : sreg) (v : Z) (s : segs) : segs :=
  let '(mkSegs c d e f g t) := s in
  match r with
  | CS => mkSegs v d e f g t | DS => mkSegs c v e f g t | ES => mkSegs c d v f g t
  | FS => mkSegs c d e v g t | GS => mkSegs c d e f v t | SS => mkSegs c d e f g v
  end.

(** [gdtr] is (limit, base). *)
Record x86 : Type := mkX86 {
  gp : gprs;
  sg : segs;
  eip : Z;
  flags : Z;
  gdtr : Z * Z;
  mem : gmap Z Z;
  trace : list io_event
}.
Definition set_gp (g : gprs) (s : x86) : x86 := mkX86 g (sg s) (eip s) (flags s) (gdtr s) (mem s) (trace s).
Definition set_sg (g : segs) (s : x86) : x86 := mkX86 (gp s) g (eip s) (flags s) (gdtr s) (mem s) (trace s).
Definition set_eip (a : Z) (s : x86) : x86 := mkX86 (gp s) (sg s) a (flags s) (gdtr s) (mem s) (trace s).
Definition set_flags (f : Z) (s : x86) : x86 := mkX86 (gp s) (sg s) (eip s) f (gdtr s) (mem s) (trace s).
Definition set_gdtr (g : Z * Z) (s : x86) : x86 := mkX86 (gp s) (sg s) (eip s) (flags s) g (mem s) (trace s).
Definition set_mem (m : gmap Z Z) (s : x86) : x86 := mkX86 (gp s) (sg s) (eip s) (flags s) (gdtr s) m (trace s).

#[global] Instance x86_HasPorts : HasPorts x86 := {
  get_trace := trace;
  set_trace t s := mkX86 (gp s) (sg s) (eip s) (flags s) (gdtr s) (mem s) t
}.

(** ** Memory: aligned words, and the bytes in them (little-endian) *)

Definition byte_at (m : gmap Z Z) (a : Z) : Z :=
  Z.land (Z.shiftr (getw m (a - a `mod` 4)) (8 * (a `mod` 4))) 0xFF.
Definition put_byte (m : gmap Z Z) (a v : Z) : gmap Z Z :=
  let w := a - a `mod` 4 in
  <[w := Z.lor (Z.ldiff (getw m w) (Z.shiftl 0xFF (8 * (a `mod` 4)))) (Z.shiftl (Z.land v 0xFF) (8 * (a `mod` 4)))]> m.

(** [n] bytes from [a] on, as a number. *)
Fixpoint bytes_at (m : gmap Z Z) (a : Z) (n : nat) : Z :=
  match n with
  | O => 0
  | S n => byte_at m a + 256 * bytes_at m (a + 1) n
  end.

(** ** Segment descriptors *)

Record descriptor : Type := mkDescriptor {
  d_base : Z;
  d_limit : Z;
  d_present : bool;
  d_dpl : Z;
  d_system : bool;
  d_code : bool;
  d_rw : bool;
  d_big : bool
}.

(** The fields of a descriptor, as the CPU reads them; with the granularity bit the
    limit counts pages of 4 KiB. *)
Definition decode_descriptor (q : Z) : descriptor :=
  let limit := Z.lor (Z.land q 0xFFFF) (Z.land (Z.shiftr q 32) 0xF0000) in
  mkDescriptor
    (Z.lor (Z.land (Z.shiftr q 16) 0xFFFFFF) (Z.shiftl (Z.land (Z.shiftr q 56) 0xFF) 24))
    (if Z.testbit q 55 then limit * 4096 + 4095 else limit)
    (Z.testbit q 47)
    (Z.land (Z.shiftr q 45) 3)
    (negb (Z.testbit q 44))
    (Z.testbit q 43)
    (Z.testbit q 41)
    (Z.testbit q 54).

(** The descriptor a selector names: not the null one, and within the limit. *)
Definition find_descriptor (m : gmap Z Z) (g : Z * Z) (sel : Z) : option descriptor :=
  let off := Z.ldiff sel 7 in
  if (off =? 0) || (g.1 <? off + 7) then None
  else Some (decode_descriptor (bytes_at m (g.2 + off) 8)).

(** Loading CS needs a present code segment, the others a present segment of data,
    SS a writable one; the privilege levels are all 0. *)
Definition code_ok (sel : Z) (d : descriptor) : bool :=
  d_present d && negb (d_system d) && d_code d && (d_dpl d =? 0) && (Z.land sel 3 =? 0).
Definition data_ok (d : descriptor) : bool :=
  d_present d && negb (d_system d) && negb (d_code d) && d_rw d && (d_dpl d =? 0).

(** ** Code *)

Inductive label : Type :=
| Sym (s : string)
| IsrN (n : Z).

Inductive instr : Type :=
| Cli | Cld | Hlt
| MovRI (r : reg) (v : Z)            (* mov r32, imm32 *)
| MovRR (d s : reg)                  (* mov r32, r32 *)
| MovWI (r : reg) (v : Z)            (* mov r16, imm16 *)
| MovAL (v : Z)                      (* mov al, imm8 *)
| MovSeg (s : sreg)                  (* mov sreg, ax *)
| LoadR (d b : reg) (off : Z)        (* mov r32, [r32 + off] *)
| AddRI (r : reg) (v : Z)            (* add r32, imm *)
| SubRR (d s : reg)                  (* sub r32, r32 *)
| XorRR (d s : reg)                  (* xor r32, r32 *)
| TestAL (v : Z)                     (* test al, imm8 *)
| TestALAL                           (* test al, al *)
| PushI (v : Z) | PushR (r : reg) | PopR (r : reg)
| Pusha | Popa
| Jmp (l : label) | Jz (l : label)
| JmpFar (sel : Z) (l : label)       (* jmp sel:l *)
| JmpR (r : reg)                     (* jmp r32 *)
| MovMW (a v : Z)                    (* mov word [a], imm16 *)
| Call (l : label) | Ret | Iretd
| Lgdt (r : reg)                     (* lgdt [r32] *)
| RepStosb | Lodsb
| OutDX | InDX                       (* out dx, al / in al, dx *)
| Fall (l : label).                  (* no instruction: the code of [l] follows *)

(** A program gives the instructions from each label on; the linker their
    addresses. *)
Definition program : Type := label → list instr.
Record linker : Type := mkLinker {
  addr : label → nat → Z;
  loc : Z → option (label * nat);
  loc_addr : ∀ l i, loc (addr l i) = Some (l, i)
}.

(** ** Instructions *)

Definition rd (r : reg) : M x86 Z := gets (λ s, get_reg r (gp s)).
Definition wr (r : reg) (v : Z) : M x86 unit := modify (λ s, set_gp (set_reg r v (gp s)) s).

(** The low 16 and the low 8 bits of a register. *)
Definition wr16 (r : reg) (v : Z) : M x86 unit :=
  x ← rd r; wr r (Z.lor (Z.land x 0xFFFF0000) (Z.land v 0xFFFF)).
Definition wr_al (v : Z) : M x86 unit :=
  x ← rd EAX; wr EAX (Z.lor (Z.land x 0xFFFFFF00) (Z.land v 0xFF)).
Definition rd_al : M x86 Z := x ← rd EAX; mret (Z.land x 0xFF).
Definition rd_dx : M x86 Z := x ← rd EDX; mret (Z.land x 0xFFFF).

Definition ZF : Z := 0x40.
Definition IF : Z := 0x200.
Definition DF : Z := 0x400.
Definition clear_flag (f : Z) : M x86 unit := modify (λ s, set_flags (Z.ldiff (flags s) f) s).
(** ZF of a result (the other arithmetic flags are never read). *)
Definition set_zf (v : Z) : M x86 unit :=
  modify (λ s, set_flags (if v =? 0 then Z.lor (flags s) ZF else Z.ldiff (flags s) ZF) s).

(** Words are accessed at multiples of four; the model has no other word accesses. *)
Definition aligned (a : Z) : M x86 unit := if a `mod` 4 =? 0 then mret tt else undef.
Definition push (v : Z) : M x86 unit :=
  sp ← rd ESP;
  _ ← aligned sp;
  _ ← wr ESP (u32 (sp - 4));
  modify (λ s, set_mem (<[u32 (sp - 4) := v]> (mem s)) s).
Definition pop : M x86 Z :=
  sp ← rd ESP;
  _ ← aligned sp;
  v ← gets (λ s, getw (mem s) sp);
  _ ← wr ESP (u32 (sp + 4));
  mret v.
Definition load_cs (sel : Z) : M x86 unit :=
  s ← gets id;
  match find_descriptor (mem s) (gdtr s) sel with
  | Some d => if code_ok sel d then modify (λ s, set_sg (set_seg CS sel (sg s)) s) else undef
  | None => undef
  end.

(** [rep stosb] with ECX = [n]: forward, as DF is clear. *)
Fixpoint fill_bytes (n : nat) (a v : Z) (m : gmap Z Z) : gmap Z Z :=
  match n with
  | O => m
  | S n => fill_bytes n (u32 (a + 1)) v (put_byte m a v)
  end.

Lemma mod4_u32 x : u32 x `mod` 4 = x `mod` 4.
Proof. unfold u32. apply Z.mod_mod_divide. by exists (2 ^ 30). Qed.
Lemma mod4_add x k : k `mod` 4 = 0 → (x + k) `mod` 4 = x `mod` 4.
Proof. intros Hk. by rewrite Z.add_mod, Hk, Z.add_0_r, Z.mod_mod by lia. Qed.
Lemma mod4_sub x : (x - 4) `mod` 4 = x `mod` 4.
Proof. exact (mod4_add x (-4) eq_refl). Qed.

Section exec.
Context (dev : device) (K : linker) (P : program).

Definition goto (l : label) : M x86 unit := modify (set_eip (addr K l 0)).

Definition exec (i : instr) : M x86 unit :=
  match i with
  | Cli => clear_flag IF
  | Cld => clear_flag DF
  | Hlt => undef
  | MovRI r v => wr r (u32 v)
  | MovRR d s => v ← rd s; wr d v
  | MovWI r v => wr16 r v
  | MovAL v => wr_al v
  | MovSeg r =>
      ax ← rd EAX;
      let sel := Z.land ax 0xFFFF in
      s ← gets id;
      match find_descriptor (mem s) (gdtr s) sel with
      | Some d => if data_ok d then modify (λ s, set_sg (set_seg r sel (sg s)) s) else undef
      | None => undef
      end
  | LoadR d b off => a ← rd b; _ ← aligned (u32 (a + off)); v ← gets (λ s, getw (mem s) (u32 (a + off))); wr d v
  | AddRI r v => x ← rd r; _ ← set_zf (u32 (x + v)); wr r (u32 (x + v))
  | SubRR d s => x ← rd d; y ← rd s; _ ← set_zf (u32 (x - y)); wr d (u32 (x - y))
  | XorRR d s => x ← rd d; y ← rd s; _ ← set_zf (Z.lxor x y); wr d (Z.lxor x y)
  | TestAL v => al ← rd_al; set_zf (Z.land al v)
  | TestALAL => al ← rd_al; set_zf al
  | PushI v => push (u32 v)
  | PushR r => v ← rd r; push v
  | PopR r => v ← pop; wr r v
  | Pusha =>
      g ← gets gp;
      _ ← push (g_eax g); _ ← push (g_ecx g); _ ← push (g_edx g); _ ← push (g_ebx g);
      _ ← push (g_esp g); _ ← push (g_ebp g); _ ← push (g_esi g); push (g_edi g)
  | Popa =>
      di ← pop; si ← pop; bp ← pop; _ ← pop;
      b ← pop; d ← pop; c ← pop; a ← pop;
      modify (λ s, set_gp (mkGprs a c d b (g_esp (gp s)) bp si di) s)
  | Jmp l | Fall l => goto l
  | Jz l => f ← gets flags; if Z.testbit f 6 then goto l else mret tt
  | JmpFar sel l => _ ← load_cs sel; goto l
  | JmpR r => a ← rd r; modify (set_eip a)
  | MovMW a v => modify (λ s, set_mem (put_byte (put_byte (mem s) a v) (a + 1) (Z.shiftr v 8)) s)
  | Call l => a ← gets eip; _ ← push a; goto l
  | Ret => a ← pop; modify (set_eip a)
  | Iretd =>
      a ← pop; c ← pop; f ← pop;
      _ ← load_cs c;
      _ ← modify (set_eip a);
      modify (set_flags f)
  | Lgdt r =>
      a ← rd r;
      modify (λ s, set_gdtr (bytes_at (mem s) a 2, bytes_at (mem s) (a + 2) 4) s)
  | RepStosb =>
      n ← rd ECX; a ← rd EDI; v ← rd_al; f ← gets flags;
      if Z.testbit f 10 then undef
      else
        _ ← modify (λ s, set_mem (fill_bytes (Z.to_nat n) a v (mem s)) s);
        _ ← wr ECX 0;
        wr EDI (u32 (a + n))
  | Lodsb =>
      a ← rd ESI; f ← gets flags;
      if Z.testbit f 10 then undef
      else
        v ← gets (λ s, byte_at (mem s) a);
        _ ← wr_al v;
        wr ESI (u32 (a + 1))
  | OutDX => d ← rd_dx; v ← rd_al; outb d v
  | InDX => d ← rd_dx; v ← inb dev d; wr_al v
  end.

(** One instruction: EIP is on the next one while it executes.  ([Hlt] ends the
    run: it waits for an interrupt.) *)
Definition step : M x86 unit :=
  a ← gets eip;
  match loc K a with
  | Some (l, n) =>
      match P l !! n with
      | Some i => _ ← modify (set_eip (addr K l (S n))); exec i
      | None => undef
      end
  | None => undef
  end.

(** Running for some number of instructions. *)
Definition stepR (s s' : x86) : Prop := step s = Some (tt, s').
Definition reaches : x86 → (x86 → Prop) → Prop := eventually stepR.

Lemma reaches_here s (Q : x86 → Prop) : Q s → reaches s Q.
Proof. apply eventually_here. Qed.

Lemma wp_aligned a (Q : unit → x86 → Prop) s : a `mod` 4 = 0 → Q tt s → wp (aligned a) Q s.
Proof. intros Ha HQ. unfold aligned. rewrite Ha. by apply wp_ret. Qed.

(** The instruction at [l], [n]. *)
Lemma reaches_exec l n i s (Q : x86 → Prop) :
  eip s = addr K l n → P l !! n = Some i →
  wp (exec i) (λ _ s', reaches s' Q) (set_eip (addr K l (S n)) s) → reaches s Q.
Proof.
  intros Hip Hi Hwp. apply wp_inv in Hwp as ([] & s1 & E & Hs).
  eapply eventually_step; [|exact Hs]. unfold stepR, step, mbind, M_bind, gets.
  by rewrite Hip, (loc_addr K), Hi.
Qed.

(** A segment register loaded with a data selector. *)
Lemma reaches_mov_seg r l n d s (Q : x86 → Prop) :
  let sel := Z.land (g_eax (gp s)) 0xFFFF in
  eip s = addr K l n → P l !! n = Some (MovSeg r) →
  find_descriptor (mem s) (gdtr s) sel = Some d → data_ok d = true →
  reaches (mkX86 (gp s) (set_seg r sel (sg s)) (addr K l (S n)) (flags s) (gdtr s) (mem s) (trace s)) Q →
  reaches s Q.
Proof.
  intros sel Hip Hi Hd Hok HQ. eapply reaches_exec; [exact Hip|exact Hi|]. cbn [exec]. unfold rd. do 4 wp_step.
  change (get_reg EAX (gp (set_eip _ s))) with (g_eax (gp s)). fold sel.
  change (find_descriptor (mem (id (set_eip (addr K l (S n)) s))) (gdtr (id (set_eip (addr K l (S n)) s))) sel)
    with (find_descriptor (mem s) (gdtr s) sel). rewrite Hd, Hok. by wp_step.
Qed.
End exec.

(** Code runs the same in a larger program. *)
Lemma stepR_mono dev K (P P' : program) s s' :
  (∀ l n i, P l !! n = Some i → P' l !! n = Some i) → stepR dev K P s s' → stepR dev K P' s s'.
Proof.
  intros HP. unfold stepR, step, mbind, M_bind, gets. destruct (loc K (eip s)) as [[l n]|]; [|done].
  destruct (P l !! n) as [i|] eqn:Hi; [|done]. by rewrite (HP _ _ _ Hi).
Qed.

(** ** Lemmas on bytes *)

Lemma byte_bit m a n :
  0 ≤ n → Z.testbit (byte_at m a) n = (n <? 8) && Z.testbit (getw m (a - a `mod` 4)) (n + 8 * (a `mod` 4)).
Proof.
  intros Hn. pose proof (Z.mod_pos_bound a 4). unfold byte_at. change 0xFF with (Z.ones 8).
  rewrite Z.land_spec, Z.shiftr_spec, Z.testbit_ones_nonneg by lia. apply andb_comm.
Qed.

Lemma byte_put m a v x : byte_at (put_byte m a v) x = if decide (a = x) then Z.land v 0xFF else byte_at m x.
Proof.
  pose proof (Z.mod_pos_bound a 4). pose proof (Z.mod_pos_bound x 4).
  apply Z.bits_inj'. intros n Hn. rewrite byte_bit by done.
  unfold put_byte. rewrite getw_insert.
  destruct (decide (a - a `mod` 4 = x - x `mod` 4)) as [E|E].
  2:{ rewrite decide_False by congruence. by rewrite byte_bit by done. }
  rewrite Z.lor_spec, Z.ldiff_spec, !Z.shiftl_spec, E by lia. change 0xFF with (Z.ones 8).
  rewrite Z.land_spec.
  destruct (decide (a = x)) as [->|Hne].
  - replace (n + 8 * (x `mod` 4) - 8 * (x `mod` 4)) with n by lia.
    rewrite Z.land_spec, Z.testbit_ones_nonneg by lia.
    destruct (n <? 8); simpl; [by rewrite andb_false_r|by rewrite andb_false_r].
  - rewrite byte_bit by done. destruct (Z.ltb_spec n 8); [|done]. cbn [andb].
    assert (n + 8 * (x `mod` 4) - 8 * (a `mod` 4) < 0 ∨ 8 ≤ n + 8 * (x `mod` 4) - 8 * (a `mod` 4)) as [Ho|Ho].
    { assert (a `mod` 4 ≠ x `mod` 4) by lia. lia. }
    + rewrite !(Z.testbit_neg_r _ (n + 8 * (x `mod` 4) - 8 * (a `mod` 4))) by done.
      by rewrite andb_true_r, orb_false_r.
    + rewrite Z.testbit_ones_nonneg by lia.
      destruct (Z.ltb_spec (n + 8 * (x `mod` 4) - 8 * (a `mod` 4)) 8); [lia|].
      by rewrite andb_true_r, andb_false_r, orb_false_r.
Qed.

(** [rep stosb] sets the bytes of its range. *)
Lemma byte_fill n a v m x :
  0 ≤ a → a + Z.of_nat n ≤ 2 ^ 32 - 1 →
  byte_at (fill_bytes n a v m) x = if decide (a ≤ x < a + Z.of_nat n) then Z.land v 0xFF else byte_at m x.
Proof.
  revert a m. induction n as [|n IH]; intros a m Ha Hn; cbn [fill_bytes].
  - by rewrite decide_False by lia.
  - rewrite u32_small by lia. rewrite IH by lia. rewrite byte_put.
    repeat case_decide; done || lia.
Qed.

(** Words that hold the bytes of a memory by bytes. *)
Definition words (m : gmap Z Z) : gmap Z Z := map_fold (λ a v w, put_byte w a v) ∅ m.
Lemma byte_words m x : byte_at (words m) x = Z.land (getw m x) 0xFF.
Proof.
  unfold words. apply (map_fold_weak_ind (λ w m, byte_at w x = Z.land (getw m x) 0xFF)).
  - unfold byte_at, getw. rewrite !lookup_empty. simpl. by rewrite Z.shiftr_0_l.
  - intros a v m' w _ IH. rewrite byte_put, getw_insert. by case_decide.
Qed.

(** The number that a list of bytes stands for. *)
Fixpoint of_bytes (bs : list Z) : Z :=
  match bs with
  | [] => 0
  | b :: bs => b + 256 * of_bytes bs
  end.

(** The bytes [bs] stand at [a]. *)
Definition bytes_in (m : gmap Z Z) (a : Z) (bs : list Z) : Prop :=
  ∀ i b, bs !! i = Some b → byte_at m (a + Z.of_nat i) = b.

Lemma bytes_in_cons m a b bs : bytes_in m a (b :: bs) ↔ byte_at m a = b ∧ bytes_in m (a + 1) bs.
Proof.
  split.
  - intros H. split.
    + rewrite <- (H 0%nat b eq_refl). f_equal. lia.
    + intros i c Hi. rewrite <- (H (S i) c Hi). f_equal. lia.
  - intros [H1 H2] [|i] c Hi.
    + injection Hi as <-. rewrite <- H1. f_equal. lia.
    + rewrite <- (H2 i c Hi). f_equal. lia.
Qed.

Lemma bytes_in_app m a bs cs :
  bytes_in m a (bs ++ cs) ↔ bytes_in m a bs ∧ bytes_in m (a + Z.of_nat (length bs)) cs.
Proof.
  revert a. induction bs as [|b bs IH]; intros a; cbn [app length].
  - rewrite Z.add_0_r. split; [|by intros [_ ?]]. intros H. split; [by intros i b Hi|done].
  - rewrite !bytes_in_cons, IH. replace (a + 1 + Z.of_nat (length bs)) with (a + Z.of_nat (S (length bs))) by lia.
    tauto.
Qed.

Lemma bytes_at_in m a bs : bytes_in m a bs → bytes_at m a (length bs) = of_bytes bs.
Proof.
  revert a. induction bs as [|b bs IH]; intros a; [done|]. rewrite bytes_in_cons. intros [H1 H2].
  cbn [length bytes_at of_bytes]. by rewrite H1, IH.
Qed.

(** A linker that numbers the instructions. *)
#[global] Instance label_eq_dec : EqDecision label.
Proof. solve_decision. Defined.
#[global] Instance label_countable : Countable label.
Proof.
  apply (inj_countable' (λ l, match l with Sym s => inl s | IsrN n => inr n end)
                        (λ x, match x with inl s => Sym s | inr n => IsrN n end)).
  by intros [].
Defined.
Definition demo_linker : linker.
Proof.
  refine (mkLinker (λ l i, Z.pos (encode (l, i)))
    (λ a, match a with Z.pos p => decode p | _ => None end) _).
  intros l i. apply decode_encode.
Defined.

(** A linker with a table of addresses, and others far above for what is not in
    it. *)
Definition FAR : Z := 2 ^ 40.
Definition table : Type := list (Z * (label * nat)).
Definition table_ok (T : table) : bool :=
  bool_decide (NoDup T.*1) && bool_decide (NoDup T.*2) && forallb (λ p, p.1 <? FAR) T.
Definition table_addr (T : table) (l : label) (i : nat) : Z :=
  match List.find (λ p, bool_decide (p.2 = (l, i))) T with
  | Some p => p.1
  | None => FAR + Z.pos (encode (l, i))
  end.
Definition table_loc (T : table) (a : Z) : option (label * nat) :=
  if a <? FAR then snd <$> List.find (λ p, p.1 =? a) T else decode (Z.to_pos (a - FAR)).

Lemma find_key {A B} (f : A → B) (T : list A) x (P : A → bool) :
  NoDup (f <$> T) → x ∈ T → (∀ y, P y = true ↔ f y = f x) → List.find P T = Some x.
Proof.
  intros Hnd Hx HP. induction T as [|y T IH]; [by apply elem_of_nil in Hx|]. cbn [List.find].
  cbn [fmap list_fmap] in Hnd. apply NoDup_cons in Hnd as [Hy Hnd]. apply elem_of_cons in Hx as [->|Hx].
  - by rewrite (proj2 (HP y) eq_refl).
  - destruct (P y) eqn:E; [|by apply IH]. apply HP in E. destruct Hy. rewrite E. by apply list_elem_of_fmap_2.
Qed.

Lemma table_loc_addr T l i : table_ok T = true → table_loc T (table_addr T l i) = Some (l, i).
Proof.
  unfold table_ok. rewrite !andb_true_iff, !bool_decide_eq_true, forallb_forall. intros [[H1 H2] H3].
  unfold table_addr, table_loc. destruct (List.find _ T) as [[a p]|] eqn:E.
  - apply List.find_some in E as [Hin E]. apply bool_decide_eq_true in E. cbn [snd] in E. subst p. cbn [fst].
    pose proof (H3 _ Hin) as Ha. cbn [fst] in Ha. rewrite Ha.
    rewrite (find_key fst T (a, (l, i))); [done|done|by apply list_elem_of_In|].
    intros y. cbn [fst]. by rewrite Z.eqb_eq.
  - destruct (Z.ltb_spec (FAR + Z.pos (encode (l, i))) FAR); [lia|].
    replace (FAR + Z.pos (encode (l, i)) - FAR) with (Z.pos (encode (l, i))) by lia. apply decode_encode.
Qed.

Definition table_linker (T : table) (H : table_ok T = true) : linker :=
  mkLinker (table_addr T) (table_loc T) (λ l i, table_loc_addr T l i H).

Lemma table_addr_in T H a l i : (a, (l, i)) ∈ T → addr (table_linker T H) l i = a.
Proof.
  intros Hin. cbn [addr table_linker]. unfold table_addr. unfold table_ok in H.
  rewrite !andb_true_iff, !bool_decide_eq_true in H. destruct H as [[_ H2] _].
  rewrite (find_key snd T (a, (l, i))); [done|done|done|]. intros y. cbn [snd]. apply bool_decide_eq_true.
Qed.

(** Code laid out from [a] on, one address for each instruction. *)
Definition place (a : Z) (l : label) (n : nat) : table := (λ i, (a + Z.of_nat i, (l, i))) <$> seq 0 n.
Fixpoint lay (a : Z) (ls : list (label * nat)) : table :=
  match ls with
  | [] => []
  | (l, n) :: ls => place a l n ++ lay (a + Z.of_nat n) ls
  end.
Lemma lay_in a ls l n i :
  (l, n) ∈ ls → (i < n)%nat →
  ∃ x, (x, (l, i)) ∈ lay a ls ∧ a ≤ x < a + Z.of_nat (list_sum (snd <$> ls)).
Proof.
  intros Hin Hi. revert a. induction ls as [|[l' n'] ls IH]; intros a; [by apply elem_of_nil in Hin|].
  cbn [lay fmap list_fmap snd list_sum foldr]. apply elem_of_cons in Hin as [[= <- <-]|Hin].
  - exists (a + Z.of_nat i). split; [|lia]. apply elem_of_app. left. apply list_elem_of_fmap. exists i.
    split; [done|]. apply elem_of_seq. lia.
  - destruct (IH Hin (a + Z.of_nat n')) as (x & Hx & Hlo & Hhi). exists x.
    split; [apply elem_of_app; by right|]. unfold list_sum in Hhi. lia.
Qed.

End X86.
