(* ===== verification/Entry.v ===== *)
(** * The kernel's assembly (src/kernel/main.asm, arch/x86/gdt.asm, gdt.h, isr.asm)

    The instruction sequences of the three files, on the machine of X86.v: the
    segment descriptors and [gdt_flush], the entry point [_start] up to the call of
    [kmain], and the interrupt stubs, which are shown to do what Isr.v says. *)

From S2P Require Import Prelude Isr Io X86.
Import Io X86.

Module Entry.

(** ** gdt.asm and gdt.h *)

Definition GDT_KERNEL_CODE : Z := 0x08.
Definition GDT_KERNEL_DATA : Z := 0x10.
Definition GDT_USER_CODE : Z := 0x1B.
Definition GDT_USER_DATA : Z := 0x23.

Definition kernel_gdt : list Z :=
  [0x0000000000000000; 0x00CF9A000000FFFF; 0x00CF92000000FFFF; 0x00CFFA000000FFFF; 0x00CFF2000000FFFF].

(** The bytes of a number, little-endian. *)
Fixpoint le_bytes (n : nat) (x : Z) : list Z :=
  match n with
  | O => []
  | S n => x `mod` 256 :: le_bytes n (x / 256)
  end.

(** [kernel_gdt] at address [a], and [kernel_gdtr] ([struct gdt_ptr]) behind it. *)
Definition gdt_image (a : Z) : list Z :=
  (kernel_gdt ≫= le_bytes 8) ++ le_bytes 2 (8 * Z.of_nat (length kernel_gdt) - 1) ++ le_bytes 4 a.

Definition gdt_flush : list instr :=
  [LoadR EAX ESP 4; Lgdt EAX; MovWI EAX 0x10;
   MovSeg DS; MovSeg ES; MovSeg FS; MovSeg GS; MovSeg SS;
   JmpFar 0x08 (Sym "gdt_flush.reload_cs")].

(** ** main.asm *)

(** The addresses the linker gives to data. *)
Record symbols : Type := mkSymbols {
  y_kernel_gdt : Z;
  y_bss_start : Z;
  y_bss_end : Z;
  y_msg_kernel : Z
}.
Definition y_kernel_gdtr (Y : symbols) : Z := y_kernel_gdt Y + 8 * Z.of_nat (length kernel_gdt).

Definition COM1 : Z := 0x03F8.
Definition DATA_SEL : Z := 0x10.

Definition msg_kernel : list Z := cstr "Kernel reached!\r\n".

Definition start (Y : symbols) : list instr :=
  [Cli;
   PushI (y_kernel_gdtr Y); Call (Sym "gdt_flush"); AddRI ESP 4;
   MovWI EAX DATA_SEL; MovSeg DS; MovSeg ES; MovSeg FS; MovSeg GS; MovSeg SS;
   MovRI ESP 0x9E000;
   Cld;
   MovRI EDI (y_bss_start Y); MovRI ECX (y_bss_end Y); SubRR ECX EDI; XorRR EAX EAX; RepStosb;
   Call (Sym "serial_init");
   MovRI ESI (y_msg_kernel Y); Call (Sym "serial_puts");
   Call (Sym "kmain"); Fall (Sym "_start.hang")].

Definition serial_init : list instr :=
  [MovWI EDX (COM1 + 1); MovAL 0x00; OutDX;
   MovWI EDX (COM1 + 3); MovAL 0x80; OutDX;
   MovWI EDX (COM1 + 0); MovAL 0x0C; OutDX;
   MovWI EDX (COM1 + 1); MovAL 0x00; OutDX;
   MovWI EDX (COM1 + 3); MovAL 3; OutDX;
   MovWI EDX (COM1 + 2); MovAL 0xC7; OutDX;
   MovWI EDX (COM1 + 4); MovAL 0x0B; OutDX;
   Ret].

Definition serial_putc : list instr := [PushR EAX; PushR EDX; Fall (Sym "serial_putc.wait")].
Definition serial_putc_wait : list instr :=
  [MovWI EDX (COM1 + 5); InDX; TestAL 0x20; Jz (Sym "serial_putc.wait");
   PopR EDX; PopR EAX; MovWI EDX COM1; OutDX; Ret].

Definition serial_puts : list instr := [PushR ESI; PushR EAX; Fall (Sym "serial_puts.loop")].
Definition serial_puts_loop : list instr :=
  [Lodsb; TestALAL; Jz (Sym "serial_puts.done"); Call (Sym "serial_putc"); Jmp (Sym "serial_puts.loop")].
Definition serial_puts_done : list instr := [PopR EAX; PopR ESI; Ret].

(** ** isr.asm *)

Definition isr_common : list instr :=
  [Pusha; PushR ESP; Call (Sym "interrupt_handler"); AddRI ESP 4; MovRR ESP EAX; Popa; AddRI ESP 8; Iretd].

Definition ISR_NOERROR (n : Z) : list instr := [PushI 0; PushI n; Jmp (Sym "isr_common")].
Definition ISR_ERROR (n : Z) : list instr := [PushI n; Jmp (Sym "isr_common")].

(** The vectors made with ISR_ERROR; all others up to 255 are made with ISR_NOERROR. *)
Definition isr_error_vectors : list Z := [8; 10; 11; 12; 13; 14; 17; 21; 30].
Definition isr_stub (n : Z) : list instr :=
  if negb ((0 <=? n) && (n <? 256)) then []
  else if bool_decide (n ∈ isr_error_vectors) then ISR_ERROR n else ISR_NOERROR n.

(** The file uses ISR_ERROR exactly where the CPU pushes an error code. *)
Lemma isr_stub_macro n :
  0 ≤ n < 256 → isr_stub n = if Isr.has_error_code n then ISR_ERROR n else ISR_NOERROR n.
Proof. intros Hn. unfold isr_stub. by replace ((0 <=? n) && (n <? 256)) with true by lia. Qed.

Definition kernel_asm (Y : symbols) : program := λ l,
  match l with
  | IsrN n => isr_stub n
  | Sym s =>
      if decide (s = "_start") then start Y
      else if decide (s = "_start.hang") then [Cli; Hlt; Jmp (Sym "_start.hang")]
      else if decide (s = "gdt_flush") then gdt_flush
      else if decide (s = "gdt_flush.reload_cs") then [Ret]
      else if decide (s = "serial_init") then serial_init
      else if decide (s = "serial_putc") then serial_putc
      else if decide (s = "serial_putc.wait") then serial_putc_wait
      else if decide (s = "serial_puts") then serial_puts
      else if decide (s = "serial_puts.loop") then serial_puts_loop
      else if decide (s = "serial_puts.done") then serial_puts_done
      else if decide (s = "isr_common") then isr_common
      else []
  end%string.

(** ** The descriptors *)

(** A flat segment: all of the 4 GiB, 32-bit. *)
Definition flat (d : descriptor) : bool :=
  (d_base d =? 0) && (d_limit d =? 0xFFFFFFFF) && d_present d && negb (d_system d) && d_rw d && d_big d.

(** The entry a selector names. *)
Definition gdt_entry (sel : Z) : option descriptor :=
  decode_descriptor <$> aget kernel_gdt (Z.shiftr sel 3).

(** ** Running code

    The state is kept as a record of its parts. *)
Ltac x86_norm :=
  cbv beta iota zeta delta [id gp sg eip flags gdtr mem trace set_gp set_sg set_eip set_flags set_gdtr set_mem get_reg set_reg set_seg
       g_eax g_ecx g_edx g_ebx g_esp g_ebp g_esi g_edi s_cs s_ds s_es s_fs s_gs s_ss
       get_trace set_trace x86_HasPorts].
(** The next instruction. *)
Ltac x86_fetch := eapply reaches_exec; [reflexivity|reflexivity|cbn [exec]].
(** An aligned access. *)
Ltac solve_aligned :=
  solve [repeat first [done | rewrite mod4_u32 | rewrite mod4_sub | rewrite (mod4_add _ 4) by done | rewrite (mod4_add _ 8) by done]].
Ltac x86_wp :=
  lazymatch goal with
  | |- wp (aligned _) _ _ => apply wp_aligned; [solve_aligned|cbv beta]
  | _ => wp_step
  end; x86_norm.
Ltac x86_exec :=
  cbn [exec]; unfold push, pop, wr16, wr_al, rd_al, rd_dx, rd, wr, clear_flag, set_zf, goto, outb, inb;
  repeat x86_wp.
Ltac x86_step := x86_fetch; x86_exec.
(** Stack addresses do not wrap: innermost first. *)
Ltac u32_steps :=
  repeat match goal with
  | |- context [u32 ?x] => lazymatch x with context [u32 _] => fail | _ => rewrite (u32_small x) by lia end
  end.

(** *** Interrupts *)

(** What the CPU does on interrupt [n]: flags, CS, EIP and for some exceptions the
    error code are pushed, IF is cleared, and the stub starts. *)
Definition deliver (K : linker) (n e : Z) : M x86 unit :=
  s ← gets id;
  _ ← push (flags s);
  _ ← push (s_cs (sg s));
  _ ← push (eip s);
  _ ← when (Isr.has_error_code n) (push e);
  _ ← clear_flag IF;
  goto K (IsrN n).

(** The part of the state that a task has. *)
Definition cpu_of (s : x86) : Isr.cpu :=
  let g := gp s in
  Isr.mkCpu (g_edi g) (g_esi g) (g_ebp g) (g_ebx g) (g_edx g) (g_ecx g) (g_eax g)
    (eip s) (s_cs (sg s)) (flags s) (g_esp g).

Section code.
Context (dev : device) (K : linker) (Y : symbols).
Abbreviation runs_to := (reaches dev K (kernel_asm Y)).

(** The stub of vector [n], from the moment the CPU starts it. *)
Lemma stub_enters n e s (Q : x86 → Prop) :
  60 ≤ g_esp (gp s) < 2 ^ 32 → g_esp (gp s) `mod` 4 = 0 → 0 ≤ n < 256 →
  (let '(m, p) := Isr.isr_enter n e (mem s) (cpu_of s) in
   Q (mkX86 (set_reg ESP (p - 8) (gp s)) (sg s) (addr K (Sym "interrupt_handler") 0)
        (Z.ldiff (flags s) IF) (gdtr s)
        (<[p - 8 := addr K (Sym "isr_common") 3]> (<[p - 4 := p]> m)) (trace s))) →
  wp (deliver K n e) (λ _ s1, runs_to s1 Q) s.
Proof.
  destruct s as [[a c d b sp bp si di] [cs ds es fs gs ss] ip fl gd m tr]. x86_norm. intros Hsp Hal Hn.
  unfold Isr.isr_enter, cpu_of, deliver, when. x86_norm. cbn [Isr.push_words Isr.r_esp Isr.r_eflags Isr.r_cs Isr.r_eip
    Isr.r_eax Isr.r_ecx Isr.r_edx Isr.r_ebx Isr.r_ebp Isr.r_esi Isr.r_edi].
  intros HQ. replace (sp - 20) with (sp - 4 - 4 - 4 - 4 - 4) in HQ by lia.
  match type of HQ with context [?p - 8] => replace (p - 8) with (p - 4 - 4) in HQ by lia end.
  unfold push, clear_flag, goto, rd, wr.
  destruct (Isr.has_error_code n) eqn:He; repeat x86_wp.
  - apply (reaches_exec _ _ _ (IsrN n) 0 (PushI n)); [done|by cbn; rewrite isr_stub_macro, He|]. x86_exec.
    apply (reaches_exec _ _ _ (IsrN n) 1 (Jmp (Sym "isr_common"))); [done|by cbn; rewrite isr_stub_macro, He|].
    x86_exec. do 3 x86_step. rewrite !(u32_small n) by lia. u32_steps.
    by apply reaches_here.
  - apply (reaches_exec _ _ _ (IsrN n) 0 (PushI 0)); [done|by cbn; rewrite isr_stub_macro, He|]. x86_exec.
    apply (reaches_exec _ _ _ (IsrN n) 1 (PushI n)); [done|by cbn; rewrite isr_stub_macro, He|]. x86_exec.
    apply (reaches_exec _ _ _ (IsrN n) 2 (Jmp (Sym "isr_common"))); [done|by cbn; rewrite isr_stub_macro, He|].
    x86_exec. do 3 x86_step. rewrite !(u32_small n) by lia. u32_steps.
    by apply reaches_here.
Qed.

(** The epilogue of [isr_common], when [interrupt_handler] has returned [q]. *)
Lemma stub_returns s q d (Q : x86 → Prop) :
  eip s = addr K (Sym "isr_common") 3 → g_eax (gp s) = q → 0 ≤ q → q + 52 < 2 ^ 32 → q `mod` 4 = 0 →
  find_descriptor (mem s) (gdtr s) (Isr.cs (Isr.frame_at (mem s) q)) = Some d →
  code_ok (Isr.cs (Isr.frame_at (mem s) q)) d = true →
  (∀ s', cpu_of s' = Isr.isr_return (mem s) q → mem s' = mem s → gdtr s' = gdtr s → Q s') → runs_to s Q.
Proof.
  destruct s as [[a c dx b sp bp si di] [cs ds es fs gs ss] ip fl gd m tr]. x86_norm.
  intros -> -> Hq Hq' Hal Hd Hok HQ. x86_step. x86_step. x86_step. x86_step. u32_steps. x86_fetch.
  unfold pop, rd, wr, load_cs. repeat x86_wp. u32_steps.
  replace (q + 4 + 4 + 4 + 4 + 4 + 4 + 4 + 4 + 8) with (q + 40) in * by lia.
  replace (q + 40 + 4) with (q + 44) in * by lia. cbn [Isr.cs Isr.frame_at] in Hd, Hok.
  rewrite Hd, Hok. repeat x86_wp. apply reaches_here. apply HQ; [|done|done].
  unfold cpu_of, Isr.isr_return, Isr.frame_at. x86_norm.
  replace (q + 4 + 4) with (q + 8) by lia. replace (q + 8 + 4) with (q + 12) by lia.
  replace (q + 12 + 4) with (q + 16) by lia. replace (q + 16 + 4) with (q + 20) by lia.
  replace (q + 20 + 4) with (q + 24) by lia. replace (q + 24 + 4) with (q + 28) by lia.
  replace (q + 44 + 4) with (q + 48) by lia. replace (q + 48 + 4) with (q + 52) by lia.
  rewrite u32_small by lia. reflexivity.
Qed.

(** *** The serial port *)

(** Reading the line status until the transmitter is empty, and the accesses made. *)
Definition LSR : Z := 0x3FD.
Definition poll (t : list io_event) : io_event := InB LSR (u8 (dev t LSR)).
Inductive polled : list io_event → list io_event → Prop :=
| polled_ready t : Z.testbit (dev t LSR) 5 = true → polled t (poll t :: t)
| polled_wait t t' : Z.testbit (dev t LSR) 5 = false → polled (poll t :: t) t' → polled t t'.

(** The bytes sent, the last one first. *)
Definition data_byte (ev : io_event) : option Z :=
  match ev with OutB p v => if decide (p = COM1) then Some v else None | InB _ _ => None end.

Lemma polled_reads t t' : polled t t' → ∃ r, t' = r ++ t ∧ omap data_byte r = [].
Proof.
  induction 1 as [t H|t t' H _ (r & -> & Hr)]; [by exists [poll t]|].
  exists (r ++ [poll t]). split; [by rewrite <- app_assoc|]. by rewrite omap_app, Hr.
Qed.

Lemma land_low8 x v : Z.land (Z.lor (Z.land x 0xFFFFFF00) (Z.land v 0xFF)) 0xFF = Z.land v 0xFF.
Proof.
  rewrite Z.land_lor_distr_l, <- !Z.land_assoc. change (Z.land 0xFFFFFF00 0xFF) with 0.
  by rewrite Z.land_0_r, Z.lor_0_l.
Qed.
Lemma land_low16 x v : Z.land (Z.lor (Z.land x 0xFFFF0000) (Z.land v 0xFFFF)) 0xFFFF = Z.land v 0xFFFF.
Proof.
  rewrite Z.land_lor_distr_l, <- !Z.land_assoc. change (Z.land 0xFFFF0000 0xFFFF) with 0.
  by rewrite Z.land_0_r, Z.lor_0_l.
Qed.

(** All flags but ZF. *)
Definition same_flags (f f' : Z) : Prop := ∀ b, 0 ≤ b → b ≠ 6 → Z.testbit f' b = Z.testbit f b.

Lemma same_flags_lor f : same_flags f (Z.lor f ZF).
Proof.
  intros b Hb Hb6. change ZF with (2 ^ 6). rewrite Z.lor_spec, Z.pow2_bits_eqb by lia.
  destruct (Z.eqb_spec 6 b); [lia|apply orb_false_r].
Qed.
Lemma same_flags_ldiff f : same_flags f (Z.ldiff f ZF).
Proof.
  intros b Hb Hb6. change ZF with (2 ^ 6). rewrite Z.ldiff_spec, Z.pow2_bits_eqb by lia.
  destruct (Z.eqb_spec 6 b); [lia|apply andb_true_r].
Qed.
Lemma same_flags_zf f v : same_flags f (if v =? 0 then Z.lor f ZF else Z.ldiff f ZF).
Proof. destruct (v =? 0); [apply same_flags_lor|apply same_flags_ldiff]. Qed.
Lemma same_flags_trans f g h : same_flags f g → same_flags g h → same_flags f h.
Proof. intros H1 H2 b Hb Hb6. by rewrite H2, H1. Qed.

(** What the serial routines leave alone: memory outside the stack they use, the
    segments, and the flags that matter. *)
Record calm (lo hi : Z) (s s' : x86) : Prop := {
  calm_mem : ∀ a, a < lo ∨ hi ≤ a → mem s' !! a = mem s !! a;
  calm_sg : sg s' = sg s;
  calm_gdtr : gdtr s' = gdtr s;
  calm_flags : same_flags (flags s) (flags s')
}.

Lemma testbit5 v : (Z.land (Z.land (u8 v) 0xFF) 0x20 =? 0) = negb (Z.testbit v 5).
Proof.
  rewrite <- Z.land_assoc. change (Z.land 0xFF 0x20) with (u32 (Z.shiftl 1 5)).
  rewrite <- (negb_involutive (_ =? 0)), test_bit_spec by lia. unfold u8. by rewrite Z.mod_pow2_bits_low by lia.
Qed.

(** The loop of [serial_putc]. *)
Lemma wait_spec t t' g sgs fl gd m (Q : x86 → Prop) :
  polled t t' →
  (∀ a d f, same_flags fl f →
     runs_to (mkX86 (set_reg EAX a (set_reg EDX d g)) sgs (addr K (Sym "serial_putc.wait") 4) f gd m t') Q) →
  runs_to (mkX86 g sgs (addr K (Sym "serial_putc.wait") 0) fl gd m t) Q.
Proof.
  assert (u16 (Z.land (COM1 + 5) 0xFFFF) = LSR) as Hport by done.
  intros Hp. revert g fl. induction Hp as [t Hr|t t' Hr _ IH]; intros g fl HQ; destruct g as [a c d b sp bp si di];
    do 2 x86_step; rewrite !land_low16, !Hport; fold (poll t);
    x86_step; rewrite land_low8, testbit5, Hr; cbn [negb];
    x86_fetch; do 2 (wp_step; x86_norm).
  - destruct (Z.testbit (Z.ldiff fl ZF) 6) eqn:E; [by rewrite Z.ldiff_spec, andb_false_r in E|].
    wp_step. apply HQ, same_flags_ldiff.
  - destruct (Z.testbit (Z.lor fl ZF) 6) eqn:E; [|by rewrite Z.lor_spec, orb_true_r in E].
    unfold goto. wp_step. x86_norm. apply IH. intros a' d' f Hf. apply (HQ a' d' f).
    by eapply same_flags_trans; [apply same_flags_lor|].
Qed.

(** [serial_putc] sends AL and returns; EAX is restored, EDX is not. *)
Lemma putc_spec s t' (Q : x86 → Prop) :
  eip s = addr K (Sym "serial_putc") 0 → 8 ≤ g_esp (gp s) < 2 ^ 32 - 4 → g_esp (gp s) `mod` 4 = 0 → polled (trace s) t' →
  (∀ s' d, gp s' = set_reg EDX d (set_reg ESP (g_esp (gp s) + 4) (gp s)) →
     eip s' = getw (mem s) (g_esp (gp s)) → calm (g_esp (gp s) - 8) (g_esp (gp s)) s s' →
     trace s' = OutB COM1 (Z.land (g_eax (gp s)) 0xFF) :: t' → runs_to s' Q) →
  runs_to s Q.
Proof.
  destruct s as [[a c d b sp bp si di] sgs ip fl gd m tr]. x86_norm. intros -> Hsp Hal Hp HQ.
  do 3 x86_step. u32_steps. eapply wait_spec; [exact Hp|]. intros a' d' f Hf. x86_norm.
  do 3 x86_step. u32_steps. do 2 x86_step. u32_steps. rewrite !land_low16.
  assert (getw (<[sp - 4 - 4 := d]> (<[sp - 4 := a]> m)) (sp - 4 - 4 + 4) = a) as ->.
  { rewrite !getw_insert, decide_False, decide_True by lia. done. }
  assert (getw (<[sp - 4 - 4 := d]> (<[sp - 4 := a]> m)) (sp - 4 - 4 + 4 + 4) = getw m sp) as ->.
  { rewrite !getw_insert, !decide_False by lia. f_equal. lia. }
  replace (sp - 4 - 4 + 4 + 4 + 4) with (sp + 4) by lia.
  eapply HQ; [reflexivity|reflexivity| |].
  - split; x86_norm; [|done|done|done]. intros x Hx. rewrite !lookup_insert_ne by lia. done.
  - x86_norm. do 2 f_equal. apply u8_small. rewrite Z.land_comm. apply (land_range _ _ 8); lia.
Qed.

Lemma byte_at_mem m m' a : m' !! (a - a `mod` 4) = m !! (a - a `mod` 4) → byte_at m' a = byte_at m a.
Proof. intros E. unfold byte_at, getw. by rewrite E. Qed.

(** Memory below [lo] is as it was. *)
Lemma bytes_in_below m m' lo a bs :
  (∀ x, x < lo → m' !! x = m !! x) → a + Z.of_nat (length bs) ≤ lo → bytes_in m a bs → bytes_in m' a bs.
Proof.
  intros Hm Hlo Hbs i b Hi. rewrite <- (Hbs i b Hi). apply byte_at_mem, Hm.
  apply lookup_lt_Some in Hi. pose proof (Z.mod_pos_bound (a + Z.of_nat i) 4). lia.
Qed.

Lemma byte_at_range m a : 0 ≤ byte_at m a < 256.
Proof. unfold byte_at. rewrite Z.land_comm. apply (land_range _ _ 8); lia. Qed.

(** The test of [serial_puts]: the next byte goes to AL, and a zero ends the loop. *)
Lemma puts_test c s (Q : x86 → Prop) :
  eip s = addr K (Sym "serial_puts.loop") 0 → 0 ≤ g_esi (gp s) < 2 ^ 32 - 1 → byte_at (mem s) (g_esi (gp s)) = c →
  Z.testbit (flags s) 10 = false →
  (∀ a f, Z.land a 0xFF = c → same_flags (flags s) f →
     runs_to (mkX86 (set_reg EAX a (set_reg ESI (g_esi (gp s) + 1) (gp s))) (sg s)
       (if c =? 0 then addr K (Sym "serial_puts.done") 0 else addr K (Sym "serial_puts.loop") 3)
       f (gdtr s) (mem s) (trace s)) Q) →
  runs_to s Q.
Proof.
  destruct s as [[a cx d b sp bp si di] sgs ip fl gd m tr]. cbn [eip gp g_esi mem flags].
  intros -> Hsi Hc Hdf HQ. pose proof (byte_at_range m si) as Hcr. rewrite Hc in Hcr.
  assert (Z.land c 0xFF = c) as Hcl by (change 0xFF with (2 ^ 8 - 1); rewrite land_ones_mod by lia; by apply Z.mod_small).
  x86_fetch. unfold wr_al, rd, wr. do 4 (wp_step; x86_norm). rewrite Hdf. repeat x86_wp. rewrite Hc.
  rewrite u32_small by lia. x86_step. rewrite land_low8, Hcl. x86_fetch. do 2 (wp_step; x86_norm).
  destruct (c =? 0).
  - destruct (Z.testbit (Z.lor fl ZF) 6) eqn:E; [|by rewrite Z.lor_spec, orb_true_r in E].
    unfold goto. wp_step. x86_norm. apply HQ; [by rewrite <- Hcl, land_low8|apply same_flags_lor].
  - destruct (Z.testbit (Z.ldiff fl ZF) 6) eqn:E; [by rewrite Z.ldiff_spec, andb_false_r in E|].
    wp_step. apply HQ; [by rewrite <- Hcl, land_low8|apply same_flags_ldiff].
Qed.

(** The loop of [serial_puts] on the rest [bs] of a string. *)
Lemma puts_loop_spec bs s (Q : x86 → Prop) :
  (∀ t, ∃ t', polled t t') →
  eip s = addr K (Sym "serial_puts.loop") 0 → 0x9D000 ≤ g_esp (gp s) ≤ 0x9E000 → g_esp (gp s) `mod` 4 = 0 →
  0 ≤ g_esi (gp s) → g_esi (gp s) + Z.of_nat (length bs) + 1 ≤ 0x98000 →
  bytes_in (mem s) (g_esi (gp s)) (bs ++ [0]) → 0 ∉ bs → Z.testbit (flags s) 10 = false →
  (∀ s' a d i r, gp s' = set_reg EAX a (set_reg EDX d (set_reg ESI i (gp s))) →
     eip s' = addr K (Sym "serial_puts.done") 0 → calm (g_esp (gp s) - 12) (g_esp (gp s)) s s' →
     trace s' = r ++ trace s → omap data_byte r = rev bs → runs_to s' Q) →
  runs_to s Q.
Proof.
  intros Hser. revert s. induction bs as [|c bs IH]; intros s Hip Hsp Hal Hsi Hlen Hbs Hnz Hdf HQ;
    destruct s as [[a cx d b sp bp si di] sgs ip fl gd m tr]; cbn [eip gp g_esp g_esi mem flags length] in *; subst ip;
    pose proof (Hbs 0%nat _ eq_refl) as Hc; rewrite Z.add_0_r in Hc;
    (eapply puts_test; [reflexivity|x86_norm; lia|exact Hc|done|]); intros a1 f1 Ha1 Hf1; x86_norm.
  - eapply (HQ _ _ d _ []); [reflexivity|reflexivity| |reflexivity|reflexivity].
    by split; x86_norm.
  - assert (c ≠ 0) as Hc0 by (intros ->; apply Hnz; left). apply Z.eqb_neq in Hc0. rewrite Hc0.
    x86_step. u32_steps.
    destruct (Hser tr) as [t' Hp]. eapply putc_spec; [reflexivity|x86_norm; lia|x86_norm; solve_aligned|exact Hp|].
    intros s' d' Hgp Hip [Hm Hsg Hgd Hfl] Htr. revert Hgp Hip Hm Hsg Hgd Hfl Htr.
    destruct s' as [gp' sg' ip' fl' gd' m' tr']. x86_norm. rewrite Ha1. intros -> -> Hm -> -> Hfl ->.
    rewrite getw_insert, decide_True by done. x86_step.
    destruct (polled_reads _ _ Hp) as (r0 & -> & Hr0).
    assert (∀ x, x < sp - 12 ∨ sp ≤ x → m' !! x = m !! x) as Hm'.
    { intros x Hx. rewrite Hm by lia. rewrite lookup_insert_ne by lia. done. }
    apply IH; [reflexivity|x86_norm; lia|x86_norm; solve_aligned|x86_norm; lia|x86_norm; lia| |by intros Hin; apply Hnz; right| |].
    + x86_norm. apply (bytes_in_below m m' (sp - 12)); [intros x Hx; apply Hm'; lia| |].
      * rewrite length_app. simpl. lia.
      * by apply bytes_in_cons in Hbs as [_ Hbs].
    + x86_norm. by rewrite Hfl, Hf1 by lia.
    + intros s' a2 d2 i2 r2 Hgp2 Hip2 [Hm2 Hsg2 Hgd2 Hfl2] Htr2 Hr2.
      apply (HQ s' a2 d2 i2 (r2 ++ OutB COM1 c :: r0)); [|done| | |].
      * rewrite Hgp2. replace (sp - 4 + 4) with sp by lia. done.
      * split; [|done|done|by eapply same_flags_trans, same_flags_trans].
        intros x Hx. rewrite Hm2 by (x86_norm; lia). by apply Hm'.
      * rewrite Htr2. x86_norm. by rewrite <- app_assoc.
      * rewrite omap_app, Hr2. change (omap data_byte (OutB COM1 c :: r0)) with (c :: omap data_byte r0). by rewrite Hr0.
Qed.

(** [serial_puts] sends the string at ESI and restores EAX and ESI. *)
Lemma puts_spec bs s (Q : x86 → Prop) :
  (∀ t, ∃ t', polled t t') →
  eip s = addr K (Sym "serial_puts") 0 → 0x9D008 ≤ g_esp (gp s) ≤ 0x9E000 → g_esp (gp s) `mod` 4 = 0 →
  0 ≤ g_esi (gp s) → g_esi (gp s) + Z.of_nat (length bs) + 1 ≤ 0x98000 →
  bytes_in (mem s) (g_esi (gp s)) (bs ++ [0]) → 0 ∉ bs → Z.testbit (flags s) 10 = false →
  (∀ s' d r, gp s' = set_reg EDX d (set_reg ESP (g_esp (gp s) + 4) (gp s)) →
     eip s' = getw (mem s) (g_esp (gp s)) → calm (g_esp (gp s) - 20) (g_esp (gp s)) s s' →
     trace s' = r ++ trace s → omap data_byte r = rev bs → runs_to s' Q) →
  runs_to s Q.
Proof.
  intros Hser. destruct s as [[a c d b sp bp si di] sgs ip fl gd m tr]. cbn [eip gp g_esp g_esi mem flags].
  intros -> Hsp Hal Hsi Hlen Hbs Hnz Hdf HQ. do 3 x86_step. u32_steps.
  set (m1 := <[sp - 4 - 4 := a]> (<[sp - 4 := si]> m)).
  assert (∀ x, x < sp - 8 ∨ sp ≤ x → m1 !! x = m !! x) as Hm1
    by (intros x Hx; unfold m1; rewrite !lookup_insert_ne by lia; done).
  eapply (puts_loop_spec bs); [done|reflexivity|x86_norm; lia|x86_norm; solve_aligned|x86_norm; lia|x86_norm; lia| |done|done|].
  { x86_norm. apply (bytes_in_below m m1 0x98001); [intros x Hx; apply Hm1; lia| |done].
    rewrite length_app. simpl. lia. }
  intros s' a' d' i' r Hgp Hip [Hm Hsg Hgd Hfl] Htr Hr. revert Hgp Hip Hm Hsg Hgd Hfl Htr.
  destruct s' as [gp' sg' ip' fl' gd' m' tr']. x86_norm. intros -> -> Hm -> -> Hfl ->.
  do 3 x86_step. u32_steps.
  assert (∀ x, sp - 8 ≤ x → getw m' x = getw m1 x) as Hg by (intros x Hx; unfold getw; rewrite Hm by lia; done).
  rewrite !Hg by lia. replace (sp - 4 - 4 + 4 + 4 + 4) with (sp + 4) by lia.
  assert (getw m1 (sp - 4 - 4) = a) as -> by (unfold m1; rewrite getw_insert; by rewrite decide_True).
  assert (getw m1 (sp - 4 - 4 + 4) = si) as ->
    by (unfold m1; rewrite !getw_insert, decide_False, decide_True by lia; done).
  assert (getw m1 (sp - 4 - 4 + 4 + 4) = getw m sp) as ->
    by (unfold m1; rewrite !getw_insert, !decide_False by lia; f_equal; lia).
  eapply HQ; [reflexivity|reflexivity| |reflexivity|done].
  split; x86_norm; [|done|done|done]. intros x Hx. rewrite Hm by lia. apply Hm1. lia.
Qed.

(** The accesses of [serial_init], the last one first. *)
Definition serial_events : list io_event :=
  [OutB 0x3FC 0x0B; OutB 0x3FA 0xC7; OutB 0x3FB 3; OutB 0x3F9 0; OutB 0x3F8 0x0C; OutB 0x3FB 0x80; OutB 0x3F9 0].

Lemma serial_init_spec s (Q : x86 → Prop) :
  eip s = addr K (Sym "serial_init") 0 → 0 ≤ g_esp (gp s) < 2 ^ 32 - 4 → g_esp (gp s) `mod` 4 = 0 →
  (∀ a d, runs_to (mkX86 (set_reg EAX a (set_reg EDX d (set_reg ESP (g_esp (gp s) + 4) (gp s)))) (sg s)
     (getw (mem s) (g_esp (gp s))) (flags s) (gdtr s) (mem s) (serial_events ++ trace s)) Q) →
  runs_to s Q.
Proof.
  destruct s as [[a c d b sp bp si di] sgs ip fl gd m tr]. x86_norm. intros -> Hsp Hal HQ.
  do 21 (x86_step; rewrite ?land_low16, ?land_low8). x86_step. u32_steps. apply HQ.
Qed.

(** *** The segments *)

Lemma of_le_bytes n x : 0 ≤ x < 256 ^ Z.of_nat n → of_bytes (le_bytes n x) = x.
Proof.
  revert x. induction n as [|n IH]; intros x Hx; cbn [le_bytes of_bytes]; [change (256 ^ Z.of_nat 0) with 1 in Hx; lia|].
  rewrite Nat2Z.inj_succ, Z.pow_succ_r in Hx by lia.
  rewrite IH; [pose proof (Z.div_mod x 256 ltac:(lia)); lia|].
  split; [apply Z.div_pos; lia|apply Z.div_lt_upper_bound; lia].
Qed.

Lemma le_bytes_length n x : length (le_bytes n x) = n.
Proof. revert x. induction n as [|n IH]; intros x; [done|]. simpl. by rewrite IH. Qed.

Lemma read_le m a n x : 0 ≤ x < 256 ^ Z.of_nat n → bytes_in m a (le_bytes n x) → bytes_at m a n = x.
Proof.
  intros Hx Hin. apply bytes_at_in in Hin. rewrite le_bytes_length in Hin. by rewrite Hin, of_le_bytes.
Qed.

Definition gdt_in (m : gmap Z Z) : Prop := bytes_in m (y_kernel_gdt Y) (gdt_image (y_kernel_gdt Y)).
Definition the_gdtr : Z * Z := (39, y_kernel_gdt Y).

Lemma gdt_reads m :
  gdt_in m → 0 ≤ y_kernel_gdt Y < 2 ^ 32 →
  find_descriptor m the_gdtr 0x08 = gdt_entry 0x08 ∧ find_descriptor m the_gdtr 0x10 = gdt_entry 0x10 ∧
  bytes_at m (y_kernel_gdtr Y) 2 = 39 ∧ bytes_at m (y_kernel_gdtr Y + 2) 4 = y_kernel_gdt Y.
Proof.
  intros Hin Hr. unfold gdt_in in Hin. set (g := y_kernel_gdt Y) in *.
  change (gdt_image g) with (le_bytes 8 0 ++ le_bytes 8 0x00CF9A000000FFFF ++ le_bytes 8 0x00CF92000000FFFF ++
    (le_bytes 8 0x00CFFA000000FFFF ++ le_bytes 8 0x00CFF2000000FFFF) ++ le_bytes 2 39 ++ le_bytes 4 g) in Hin.
  rewrite !bytes_in_app, !length_app, !le_bytes_length in Hin. destruct Hin as (_ & H1 & H2 & _ & H3 & H4).
  unfold y_kernel_gdtr, find_descriptor, the_gdtr. change (length kernel_gdt) with 5%nat. cbn [fst snd].
  fold g. change (Z.ldiff 8 7) with 8. change (Z.ldiff 16 7) with 16. cbn [Z.eqb Z.ltb orb].
  split_and!.
  - rewrite (read_le m (g + 8) 8 0x00CF9A000000FFFF); [done|lia|exact H1].
  - rewrite (read_le m (g + 16) 8 0x00CF92000000FFFF); [done|lia|].
    replace (g + 16) with (g + Z.of_nat 8 + Z.of_nat 8) by lia. exact H2.
  - apply read_le; [lia|]. replace (g + 8 * Z.of_nat 5) with (g + Z.of_nat 8 + Z.of_nat 8 + Z.of_nat 8 + Z.of_nat (8 + 8)) by lia.
    exact H3.
  - apply read_le; [lia|].
    replace (g + 8 * Z.of_nat 5 + 2)
      with (g + Z.of_nat 8 + Z.of_nat 8 + Z.of_nat 8 + Z.of_nat (8 + 8) + Z.of_nat 2) by lia. exact H4.
Qed.

Lemma code_entry : ∃ d, gdt_entry 0x08 = Some d ∧ code_ok 0x08 d = true.
Proof. eexists. split; [vm_compute; reflexivity|reflexivity]. Qed.
Lemma data_entry : ∃ d, gdt_entry 0x10 = Some d ∧ data_ok d = true.
Proof. eexists. split; [vm_compute; reflexivity|reflexivity]. Qed.

(** A segment register loaded with the data selector. *)
Lemma mov_seg_spec r l n s (Q : x86 → Prop) :
  eip s = addr K l n → kernel_asm Y l !! n = Some (MovSeg r) →
  gdt_in (mem s) → 0 ≤ y_kernel_gdt Y < 2 ^ 32 → gdtr s = the_gdtr → Z.land (g_eax (gp s)) 0xFFFF = 0x10 →
  runs_to (mkX86 (gp s) (set_seg r 0x10 (sg s)) (addr K l (S n)) (flags s) (gdtr s) (mem s) (trace s)) Q →
  runs_to s Q.
Proof.
  intros Hip Hi Hin Hr Hg Hax HQ. destruct (gdt_reads _ Hin Hr) as (_ & Hd & _).
  destruct data_entry as (d & Ed & Hdata).
  eapply (reaches_mov_seg _ _ _ r l n d); [done|done|by rewrite Hg, Hax, Hd|done|by rewrite Hax].
Qed.

(** [gdt_flush] loads the table and every segment register, and returns. *)
Lemma gdt_flush_spec s (Q : x86 → Prop) :
  eip s = addr K (Sym "gdt_flush") 0 → 0 ≤ g_esp (gp s) < 2 ^ 32 - 8 → g_esp (gp s) `mod` 4 = 0 →
  getw (mem s) (g_esp (gp s) + 4) = y_kernel_gdtr Y → gdt_in (mem s) → 0 ≤ y_kernel_gdt Y < 2 ^ 32 →
  (∀ a, runs_to (mkX86 (set_reg EAX a (set_reg ESP (g_esp (gp s) + 4) (gp s))) (mkSegs 8 16 16 16 16 16)
     (getw (mem s) (g_esp (gp s))) (flags s) the_gdtr (mem s) (trace s)) Q) →
  runs_to s Q.
Proof.
  destruct s as [[a c d b sp bp si di] [cs ds es fs gs ss] ip fl gd m tr]. x86_norm. intros -> Hsp Hal Harg Hin Hr HQ.
  destruct (gdt_reads m Hin Hr) as (Hc & _ & Hl & Hb). destruct code_entry as (dc & Edc & Hcode).
  x86_step. u32_steps. rewrite Harg. x86_step. rewrite Hl, Hb. x86_step.
  do 5 (eapply mov_seg_spec; [reflexivity|reflexivity|done|done|done|x86_norm; by rewrite land_low16|x86_norm]).
  x86_fetch. unfold load_cs. do 3 wp_step. x86_norm. fold the_gdtr. rewrite Hc, Edc, Hcode.
  unfold goto. repeat x86_wp. x86_step. u32_steps. apply HQ.
Qed.

(** *** The entry point *)

(** What the loader leaves, and the layout the linker script asserts: the image
    with the descriptors and the message in memory (they lie before .bss), and a
    stack above it.  [ms] is the message up to the first zero byte. *)
Record entry_ok (ms : list Z) (s : x86) : Prop := {
  en_eip : eip s = addr K (Sym "_start") 0;
  en_stack : 0x98010 ≤ g_esp (gp s) ≤ 0xA0000 ∧ g_esp (gp s) `mod` 4 = 0;
  en_gdt : 0x9000 ≤ y_kernel_gdt Y ∧ y_kernel_gdt Y + 46 ≤ y_bss_start Y;
  en_bss : y_bss_start Y ≤ y_bss_end Y ≤ 0x98000;
  en_msg : 0x9000 ≤ y_msg_kernel Y ∧ y_msg_kernel Y + Z.of_nat (length ms) + 1 ≤ y_bss_start Y;
  en_gdt_mem : gdt_in (mem s);
  en_msg_mem : bytes_in (mem s) (y_msg_kernel Y) (ms ++ [0]) ∧ 0 ∉ ms
}.

Definition at_kmain (ms : list Z) (s s' : x86) : Prop :=
  eip s' = addr K (Sym "kmain") 0 ∧ g_esp (gp s') = 0x9DFFC ∧
  sg s' = mkSegs 8 16 16 16 16 16 ∧ gdtr s' = the_gdtr ∧ gdt_in (mem s') ∧
  Z.testbit (flags s') 9 = false ∧ Z.testbit (flags s') 10 = false ∧
  (∀ x, y_bss_start Y ≤ x < y_bss_end Y → byte_at (mem s') x = 0) ∧
  (∀ x, 0 ≤ x < y_bss_start Y ∨ y_bss_end Y ≤ x < 0x98000 → byte_at (mem s') x = byte_at (mem s) x) ∧
  ∃ r, trace s' = r ++ serial_events ++ trace s ∧ omap data_byte r = rev ms.

(** Bytes below the stacks. *)
Lemma low_byte m m' x :
  (∀ a, a < 0x98000 → m' !! a = m !! a) → x < 0x98000 → byte_at m' x = byte_at m x.
Proof. intros Hm Hx. apply byte_at_mem, Hm. pose proof (Z.mod_pos_bound x 4). lia. Qed.

Lemma bytes_in_same m m' lo a bs :
  (∀ x, 0 ≤ x < lo → byte_at m' x = byte_at m x) → 0 ≤ a → a + Z.of_nat (length bs) ≤ lo →
  bytes_in m a bs → bytes_in m' a bs.
Proof.
  intros Hm Ha Hlo Hbs i b Hi. rewrite <- (Hbs i b Hi). apply Hm. apply lookup_lt_Some in Hi. lia.
Qed.

Lemma gdt_image_length a : length (gdt_image a) = 46%nat.
Proof. unfold gdt_image. rewrite !length_app, !le_bytes_length. reflexivity. Qed.

(** From [_start] to the end of [rep stosb]. *)
Lemma start_setup ms s (Q : x86 → Prop) :
  entry_ok ms s →
  (∀ g f m, g_esp g = 0x9E000 →
     Z.testbit f 9 = false → Z.testbit f 10 = false →
     (∀ x, 0 ≤ x < 0x98000 → byte_at m x = if decide (y_bss_start Y ≤ x < y_bss_end Y) then 0 else byte_at (mem s) x) →
     runs_to (mkX86 g (mkSegs 8 16 16 16 16 16) (addr K (Sym "_start") 17) f the_gdtr m (trace s)) Q) →
  runs_to s Q.
Proof.
  intros [Hip [Hsp Hal] Hg Hbss Hmsg Hgin [Hms Hnz]] HQ. revert Hip Hsp Hal Hgin Hms HQ.
  destruct s as [[a c d b sp bp si di] [cs ds es fs gs ss] ip fl gd m tr]. cbn [eip gp g_esp mem trace].
  intros -> Hsp Hal Hgin Hms HQ. do 3 x86_step. u32_steps.
  assert (0 ≤ y_kernel_gdtr Y < 2 ^ 32) as Hgr by (unfold y_kernel_gdtr; change (length kernel_gdt) with 5%nat; lia).
  rewrite (u32_small (y_kernel_gdtr Y)) by done. set (m2 := <[_ := _]> (<[_ := _]> m)).
  assert (∀ x, 0 ≤ x < 0x98000 → byte_at m2 x = byte_at m x) as Hm2.
  { intros x Hx. apply low_byte; [|lia]. intros y Hy. unfold m2. rewrite !lookup_insert_ne by lia. done. }
  assert (gdt_in m2) as Hgin2.
  { apply (bytes_in_same m m2 0x98000); [done|lia|rewrite gdt_image_length; lia|done]. }
  eapply gdt_flush_spec; [reflexivity|x86_norm; lia|x86_norm; solve_aligned| |done|lia|].
  { x86_norm. unfold m2. rewrite !getw_insert, decide_False, decide_True by lia. done. }
  intros a1. x86_norm. assert (getw m2 (sp - 4 - 4) = addr K (Sym "_start") 3) as ->.
  { unfold m2. rewrite getw_insert. by rewrite decide_True. }
  do 2 x86_step.
  do 5 (eapply mov_seg_spec; [reflexivity|reflexivity|done|lia|done|x86_norm; by rewrite land_low16|x86_norm]).
  do 6 x86_step. u32_steps. rewrite Z.lxor_nilpotent.
  match goal with |- context [mkX86 _ _ _ ?f _ _ _] => set (f1 := f) end.
  assert (∀ b, b = 9 ∨ b = 10 → Z.testbit f1 b = false) as Hf1.
  { intros b' Hb'. unfold f1. rewrite !(same_flags_zf _ _ b') by lia. rewrite Z.ldiff_spec, (same_flags_zf _ _ b') by lia.
    rewrite Z.ldiff_spec. destruct Hb' as [->| ->]; [rewrite andb_false_r|]; by rewrite ?andb_false_r. }
  x86_fetch. unfold rd_al, rd, wr. do 10 (wp_step; x86_norm). rewrite Hf1 by lia.
  repeat x86_wp. eapply HQ; [reflexivity|by apply Hf1; left|by apply Hf1; right|].
  intros x Hx. change (Z.land 0 0xFF) with 0. rewrite byte_fill by lia.
  rewrite Z2Nat.id by lia. replace (y_bss_start Y + (y_bss_end Y - y_bss_start Y)) with (y_bss_end Y) by lia.
  change (Z.land 0 0xFF) with 0. case_decide; [done|]. by apply Hm2.
Qed.

Lemma start_spec ms s :
  (∀ t, ∃ t', polled t t') → entry_ok ms s → runs_to s (at_kmain ms s).
Proof.
  intros Hser Hen. apply (start_setup ms s); [done|]. intros g f m Hesp Hif Hdf Hm.
  destruct Hen as [_ _ Hg Hbss Hmsg Hgin [Hms Hnz]].
  destruct g as [a c d b sp bp si di]. cbn [g_esp] in Hesp. subst sp. x86_step. u32_steps.
  set (m1 := <[0x9E000 - 4 := _]> m).
  eapply serial_init_spec; [reflexivity|x86_norm; lia|done|]. x86_norm. intros a1 d1.
  assert (getw m1 (0x9E000 - 4) = addr K (Sym "_start") 18) as ->
    by (unfold m1; rewrite getw_insert; by rewrite decide_True).
  do 2 x86_step. u32_steps. set (m2 := <[0x9E000 - 4 + 4 - 4 := _]> m1).
  assert (∀ x, 0 ≤ x < 0x98000 → byte_at m2 x = byte_at m x) as Hm2.
  { intros x Hx. apply low_byte; [|lia]. intros y Hy. unfold m2, m1. rewrite !lookup_insert_ne by lia. done. }
  eapply (puts_spec ms); [done|reflexivity|x86_norm; lia|done|x86_norm; lia|x86_norm; lia| |done|done|].
  { x86_norm. apply (bytes_in_same (mem s) m2 (y_bss_start Y)); [|lia|rewrite length_app; simpl; lia|done].
    intros x Hx. rewrite Hm2, Hm, decide_False by lia. done. }
  intros s' d' r Hgp Hip [Hmm Hsg Hgd Hfl] Htr Hr. revert Hgp Hip Hmm Hsg Hgd Hfl Htr.
  destruct s' as [gp' sg' ip' fl' gd' m' tr']. x86_norm. intros -> -> Hmm -> -> Hfl ->.
  assert (getw m2 (0x9E000 - 4 + 4 - 4) = addr K (Sym "_start") 20) as ->
    by (unfold m2; rewrite getw_insert; by rewrite decide_True).
  x86_step. u32_steps. apply reaches_here. set (m3 := <[_ := _]> m').
  assert (∀ x, 0 ≤ x < 0x98000 → byte_at m3 x = byte_at m x) as Hm3.
  { intros x Hx. rewrite <- Hm2 by done. apply low_byte; [|lia]. intros y Hy. unfold m3.
    rewrite lookup_insert_ne by lia. apply Hmm. lia. }
  split; [reflexivity|]. split; [x86_norm; lia|]. split; [reflexivity|]. split; [reflexivity|].
  split_and!; x86_norm.
  - apply (bytes_in_same (mem s) m3 (y_bss_start Y)); [|lia|rewrite gdt_image_length; lia|done].
    intros x Hx. rewrite Hm3, Hm, decide_False by lia. done.
  - by rewrite Hfl by lia.
  - by rewrite Hfl by lia.
  - intros x Hx. rewrite Hm3, Hm by lia. by rewrite decide_True by lia.
  - intros x Hx. rewrite Hm3, Hm by lia. by rewrite decide_False by lia.
  - by exists r.
Qed.

End code.

(** A return reads the frame only. *)
Lemma isr_return_frame m m' p :
  (∀ a, p ≤ a → m' !! a = m !! a) → Isr.isr_return m' p = Isr.isr_return m p.
Proof.
  intros Hm. unfold Isr.isr_return, Isr.frame_at, getw. rewrite !Hm by lia. done.
Qed.

(** ** Properties *)

(** C9. The entry point: from any state with the image in memory and an aligned
    stack above it, with a serial port that becomes ready again and again, [_start] reaches the
    call of [kmain].  By then interrupts are off, all segment registers hold the
    kernel's flat segments from the kernel's own table, the stack starts at 0x9E000,
    every byte of .bss is zero and every other byte of the image is as loaded; the
    serial port has been initialised and was sent the message up to the first zero
    byte. *)
Theorem kernel_entry_reaches_kmain dev K Y ms s :
  (∀ t, ∃ t', polled dev t t') → entry_ok K Y ms s →
  ∃ s', rtc (stepR dev K (kernel_asm Y)) s s' ∧
    eip s' = addr K (Sym "kmain") 0 ∧ g_esp (gp s') = 0x9E000 - 4 ∧
    sg s' = mkSegs GDT_KERNEL_CODE GDT_KERNEL_DATA GDT_KERNEL_DATA GDT_KERNEL_DATA GDT_KERNEL_DATA GDT_KERNEL_DATA ∧
    gdtr s' = (39, y_kernel_gdt Y) ∧ gdt_in Y (mem s') ∧
    Z.testbit (flags s') 9 = false ∧
    (∀ x, y_bss_start Y ≤ x < y_bss_end Y → byte_at (mem s') x = 0) ∧
    (∀ x, 0 ≤ x < y_bss_start Y ∨ y_bss_end Y ≤ x < 0x98000 → byte_at (mem s') x = byte_at (mem s) x) ∧
    ∃ r, trace s' = r ++ serial_events ++ trace s ∧ omap data_byte r = rev ms.
Proof.
  intros Hser Hen. destruct (start_spec dev K Y ms s Hser Hen) as (s' & Hs & H1 & H2 & H3 & H4 & H5 & H6 & _ & H7 & H8 & H9).
  exists s'. split_and!; done.
Qed.

(** A machine with the image at 0x9000: a table, the message and a zero byte behind
    it, and some junk in .bss. *)
Definition put_bytes (a : Z) (bs : list Z) (m : gmap Z Z) : gmap Z Z :=
  foldr (λ '(i, b) m, put_byte m (a + Z.of_nat i) b) m (zip (seq 0 (length bs)) bs).
Definition demo_symbols : symbols := mkSymbols 0x9100 0x9200 0x9210 0x9180.
Definition demo_mem : gmap Z Z :=
  put_bytes 0x9100 (gdt_image 0x9100) (put_bytes 0x9180 (msg_kernel ++ [0]) (put_bytes 0x9200 [1; 2; 3] ∅)).
Definition demo_x86 : x86 :=
  mkX86 (mkGprs 1 2 3 4 0x9F000 5 6 7) (mkSegs 8 16 16 16 16 16) (addr demo_linker (Sym "_start") 0)
    0x646 (0, 0) demo_mem [].
Definition ready_port : device := λ _ _, 0x60.

Definition check_bytes (m : gmap Z Z) (a : Z) (bs : list Z) : bool :=
  forallb (λ '(i, b), byte_at m (a + Z.of_nat i) =? b) (zip (seq 0 (length bs)) bs).
Lemma check_bytes_in m a bs : check_bytes m a bs = true → bytes_in m a bs.
Proof.
  unfold check_bytes. rewrite forallb_forall. intros H i b Hi. apply Z.eqb_eq.
  apply (H (i, b)). apply list_elem_of_In, list_elem_of_lookup. exists i.
  apply lookup_zip_with_Some. exists i, b. split; [done|]. split; [|done].
  apply lookup_seq. split; [done|]. by apply lookup_lt_Some in Hi.
Qed.

Lemma demo_entry : entry_ok demo_linker demo_symbols msg_kernel demo_x86.
Proof.
  split; [reflexivity|split; [simpl; lia|reflexivity]|simpl; lia|simpl; lia|vm_compute; split; [intros [=]|intros [=]]| |].
  - apply check_bytes_in. vm_compute. reflexivity.
  - split; [apply check_bytes_in; vm_compute; reflexivity|].
    intros H. apply (bool_decide_eq_true_2 _) in H. vm_compute in H. discriminate H.
Qed.

Lemma kernel_entry_witness :
  ∃ s' r, rtc (stepR ready_port demo_linker (kernel_asm demo_symbols)) demo_x86 s' ∧
    eip s' = addr demo_linker (Sym "kmain") 0 ∧
    trace s' = r ++ serial_events ++ [] ∧ omap data_byte r = rev msg_kernel.
Proof.
  destruct (kernel_entry_reaches_kmain ready_port demo_linker demo_symbols msg_kernel demo_x86)
    as (s' & Hs & Hip & _ & _ & _ & _ & _ & _ & _ & r & Ht & Hr).
  - intros t. exists (poll ready_port t :: t). apply polled_ready. reflexivity.
  - exact demo_entry.
  - exists s', r. split; [exact Hs|]. split; [exact Hip|]. split; [exact Ht|exact Hr].
Defined.

(** The kernel's segments: each selector of gdt.h names a present 32-bit segment of
    all 4 GiB at base 0, code or data as it says, of the privilege level the selector
    asks for. *)
Theorem gdt_segments_flat :
  Forall (λ '(sel, code, level),
      ∃ d, gdt_entry sel = Some d ∧ flat d = true ∧ d_code d = code ∧ d_dpl d = level ∧ Z.land sel 3 = level)
    [(GDT_KERNEL_CODE, true, 0); (GDT_KERNEL_DATA, false, 0); (GDT_USER_CODE, true, 3); (GDT_USER_DATA, false, 3)].
Proof. repeat constructor; eexists; (split; [vm_compute; reflexivity|]); by split_and!. Qed.

(** C8. The interrupt stubs do what Isr.v says.  Entering: when the CPU takes
    interrupt [n] on an aligned stack, the stub and [isr_common] arrive at [interrupt_handler] with
    interrupts off, the frame of [Isr.isr_enter] on the stack of the interrupted code
    and its address as the argument.  Returning: when the handler returns the address
    [q] of any aligned frame whose CS names a code segment, the rest of [isr_common] resumes
    exactly the state of [Isr.isr_return]; so if the handler returns the frame it was
    given, unchanged, the interrupted code goes on as it was. *)
Theorem isr_stubs_refine dev K Y n e s :
  60 ≤ g_esp (gp s) < 2 ^ 32 → g_esp (gp s) `mod` 4 = 0 → 0 ≤ n < 256 →
  let '(m, p) := Isr.isr_enter n e (mem s) (cpu_of s) in
  ∃ s0 s1, deliver K n e s = Some (tt, s0) ∧ rtc (stepR dev K (kernel_asm Y)) s0 s1 ∧
    eip s1 = addr K (Sym "interrupt_handler") 0 ∧ Z.testbit (flags s1) 9 = false ∧
    getw (mem s1) (g_esp (gp s1) + 4) = p ∧ (∀ a, p ≤ a → mem s1 !! a = m !! a) ∧
    ∀ s2 q d,
      eip s2 = getw (mem s1) (g_esp (gp s1)) → g_eax (gp s2) = q → 0 ≤ q → q + 52 < 2 ^ 32 → q `mod` 4 = 0 →
      find_descriptor (mem s2) (gdtr s2) (Isr.cs (Isr.frame_at (mem s2) q)) = Some d →
      code_ok (Isr.cs (Isr.frame_at (mem s2) q)) d = true →
      ∃ s3, rtc (stepR dev K (kernel_asm Y)) s2 s3 ∧ mem s3 = mem s2 ∧
        cpu_of s3 = Isr.isr_return (mem s2) q ∧
        (q = p → (∀ a, p ≤ a → mem s2 !! a = mem s1 !! a) → cpu_of s3 = cpu_of s).
Proof.
  intros Hsp Hal Hn. pose proof (Isr.isr_enter_frame n e (mem s) (cpu_of s)) as Hframe.
  destruct (Isr.isr_enter n e (mem s) (cpu_of s)) as [m p] eqn:Hent.
  destruct Hframe as (Hp & _ & _ & Hret). change (Isr.r_esp (cpu_of s)) with (g_esp (gp s)) in *.
  pose proof (stub_enters dev K Y n e s (λ s1, s1 = mkX86 (set_reg ESP (p - 8) (gp s)) (sg s)
    (addr K (Sym "interrupt_handler") 0) (Z.ldiff (flags s) IF) (gdtr s)
    (<[p - 8 := addr K (Sym "isr_common") 3]> (<[p - 4 := p]> m)) (trace s)) Hsp Hal ltac:(lia)) as Hwp.
  rewrite Hent in Hwp. specialize (Hwp eq_refl). apply wp_inv in Hwp as ([] & s0 & E & s1 & Hs & ->).
  assert (g_esp (set_reg ESP (p - 8) (gp s)) = p - 8) as Hesp by by destruct (gp s).
  exists s0. eexists. split; [done|]. split; [exact Hs|]. cbn [eip flags mem gp]. rewrite Hesp.
  split; [done|]. split; [apply irq_save_disables|]. split; [|split].
  - rewrite !getw_insert, decide_False, decide_True by lia. done.
  - intros a Ha. rewrite !lookup_insert_ne by lia. done.
  - intros s2 q d Hip Hq Hq0 Hq1 Hqa Hd Hok. rewrite getw_insert, decide_True in Hip by done.
    destruct (stub_returns dev K Y s2 q d (λ s3, cpu_of s3 = Isr.isr_return (mem s2) q ∧ mem s3 = mem s2)
      Hip Hq Hq0 Hq1 Hqa Hd Hok) as (s3 & Hs3 & Hc & Hm); [by intros|].
    exists s3. split; [done|]. split; [done|]. split; [done|]. intros -> Hkeep. rewrite Hc.
    rewrite <- (Hret ltac:(lia)). apply isr_return_frame. intros a Ha. rewrite Hkeep by done.
    rewrite !lookup_insert_ne by lia. done.
Qed.

(** A key press in the demo machine. *)
Lemma isr_stubs_refine_witness :
  ∃ s0 s1, deliver demo_linker 33 0 demo_x86 = Some (tt, s0) ∧
    rtc (stepR ready_port demo_linker (kernel_asm demo_symbols)) s0 s1 ∧
    eip s1 = addr demo_linker (Sym "interrupt_handler") 0.
Proof.
  pose proof (isr_stubs_refine ready_port demo_linker demo_symbols 33 0 demo_x86) as H.
  destruct (Isr.isr_enter 33 0 (mem demo_x86) (cpu_of demo_x86)) as [m p].
  destruct H as (s0 & s1 & E & Hs & Hip & _); [simpl; lia|reflexivity|lia|].
  exists s0, s1. split; [exact E|]. split; [exact Hs|exact Hip].
Defined.

End Entry.
