(* ===== verification/Kernel.v ===== *)
(** * The kernel (src/kernel/kernel.c and [interrupt_handler] of
      src/kernel/arch/x86/idt.c)

    The components put together: one state with the statics of every file, the
    CPU's registers and the ports; [kmain], which starts them; and the interrupt
    handler, through which everything else happens. *)

From S2P Require Import Prelude Physical Kmalloc Isr Io Scheduler Vga Interfaces Paging Drivers Idt.
Import Io Isr.

Module Kernel.

(** ** The state *)

(** There is one EFLAGS register: the copies in the states of the scheduler and
    the terminal are set from [k_eflags] when one of their functions runs, and
    read back when it returns. *)
Record kernel : Type := mkKernel {
  k_eflags : Z;
  k_phys : Physical.phys;
  k_heap : Kmalloc.heap;
  k_idt : Idt.idt_state;
  k_ticks : Z;
  k_console : Keyboard.console;
  k_sched : Scheduler.sched;
  k_pmem : gmap Z Z;
  k_cr0 : Z;
  k_cr3 : Z;
  k_tlb : gmap Z Z
}.

Definition k_vga (k : kernel) : Vga.vga := Keyboard.c_vga (k_console k).
Definition k_trace (k : kernel) : list io_event := Keyboard.c_trace (k_console k).

Definition with_eflags (f : Z) (k : kernel) : kernel :=
  mkKernel f (k_phys k) (k_heap k) (k_idt k) (k_ticks k) (k_console k) (k_sched k)
    (k_pmem k) (k_cr0 k) (k_cr3 k) (k_tlb k).
Definition with_phys (p : Physical.phys) (k : kernel) : kernel :=
  mkKernel (k_eflags k) p (k_heap k) (k_idt k) (k_ticks k) (k_console k) (k_sched k)
    (k_pmem k) (k_cr0 k) (k_cr3 k) (k_tlb k).
Definition with_heap (h : Kmalloc.heap) (k : kernel) : kernel :=
  mkKernel (k_eflags k) (k_phys k) h (k_idt k) (k_ticks k) (k_console k) (k_sched k)
    (k_pmem k) (k_cr0 k) (k_cr3 k) (k_tlb k).
Definition with_idt (i : Idt.idt_state) (k : kernel) : kernel :=
  mkKernel (k_eflags k) (k_phys k) (k_heap k) i (k_ticks k) (k_console k) (k_sched k)
    (k_pmem k) (k_cr0 k) (k_cr3 k) (k_tlb k).
Definition with_ticks (t : Z) (k : kernel) : kernel :=
  mkKernel (k_eflags k) (k_phys k) (k_heap k) (k_idt k) t (k_console k) (k_sched k)
    (k_pmem k) (k_cr0 k) (k_cr3 k) (k_tlb k).
Definition with_console (c : Keyboard.console) (k : kernel) : kernel :=
  mkKernel (k_eflags k) (k_phys k) (k_heap k) (k_idt k) (k_ticks k) c (k_sched k)
    (k_pmem k) (k_cr0 k) (k_cr3 k) (k_tlb k).
Definition with_sched (s : Scheduler.sched) (k : kernel) : kernel :=
  mkKernel (k_eflags k) (k_phys k) (k_heap k) (k_idt k) (k_ticks k) (k_console k) s
    (k_pmem k) (k_cr0 k) (k_cr3 k) (k_tlb k).
Definition with_vga (v : Vga.vga) (k : kernel) : kernel :=
  with_console (Keyboard.set_vga v (k_console k)) k.

#[global] Instance kernel_HasPorts : HasPorts kernel := {
  get_trace := k_trace;
  set_trace t k := with_console (set_trace t (k_console k)) k
}.

(** ** The components' functions on the kernel's state *)

Definition on_phys {A} (m : M Physical.phys A) : M kernel A := zoom k_phys with_phys m.
Definition on_heap {A} (m : M Kmalloc.heap A) : M kernel A := zoom k_heap with_heap m.
Definition on_idt {A} (m : M Idt.idt_state A) : M kernel A := zoom k_idt with_idt m.
Definition on_ticks {A} (m : M Z A) : M kernel A := zoom k_ticks with_ticks m.

Definition on_vga {A} (m : M Vga.vga A) : M kernel A :=
  zoom (λ k, set_eflags (k_eflags k) (k_vga k))
       (λ v k, with_eflags (get_eflags v) (with_vga v k)) m.
Definition on_console {A} (m : M Keyboard.console A) : M kernel A :=
  zoom (λ k, Keyboard.set_vga (set_eflags (k_eflags k) (k_vga k)) (k_console k))
       (λ c k, with_eflags (get_eflags (Keyboard.c_vga c)) (with_console c k)) m.
Definition on_sched {A} (m : M Scheduler.sched A) : M kernel A :=
  zoom (λ k, set_eflags (k_eflags k) (k_sched k))
       (λ s k, with_eflags (get_eflags s) (with_sched s k)) m.

(** The view of paging.c: memory, the registers, the page allocator and the
    terminal. *)
Definition the_mmu (k : kernel) : Paging.mmu Physical.phys Vga.vga :=
  Paging.mkMmu _ _ (k_pmem k) (k_cr0 k) (k_cr3 k) (k_tlb k) (k_phys k) (set_eflags (k_eflags k) (k_vga k)).
Definition with_mmu (p : Paging.mmu Physical.phys Vga.vga) (k : kernel) : kernel :=
  let v := Paging.console p in
  mkKernel (get_eflags v) (Paging.pages_of p) (k_heap k) (k_idt k) (k_ticks k)
    (Keyboard.set_vga v (k_console k)) (k_sched k) (Paging.mem p) (Paging.cr0 p) (Paging.cr3 p) (Paging.tlb p).
Definition on_mmu {A} (m : M (Paging.mmu Physical.phys Vga.vga) A) : M kernel A := zoom the_mmu with_mmu m.

(** ** [interrupt_handler] *)

(** The message for an exception. *)
Definition exception_message (n : Z) : list Z :=
  match n with
  | 0 => cstr "EXCEPTION: DIVIDE BY ZERO\n"
  | 1 => cstr "EXCEPTION: DEBUG\n"
  | 2 => cstr "EXCEPTION: NMI\n"
  | 3 => cstr "EXCEPTION: BREAKPOINT\n"
  | 4 => cstr "EXCEPTION: OVERFLOW\n"
  | 5 => cstr "EXCEPTION: BOUND RANGE EXCEEDED\n"
  | 6 => cstr "EXCEPTION: INVALID OPCODE\n"
  | 7 => cstr "EXCEPTION: DEVICE NOT AVAILABLE\n"
  | 8 => cstr "EXCEPTION: DOUBLE FAULT\n"
  | 9 => cstr "EXCEPTION: COPROCESSOR SEGMENT OVERRUN\n"
  | 10 => cstr "EXCEPTION: INVALID TSS\n"
  | 11 => cstr "EXCEPTION: SEGMENT NOT PRESENT\n"
  | 12 => cstr "EXCEPTION: STACK-SEGMENT FAULT\n"
  | 13 => cstr "EXCEPTION: GENERAL PROTECTION FAULT\n"
  | 14 => cstr "EXCEPTION: PAGE FAULT\n"
  | 16 => cstr "EXCEPTION: x87 FLOATING-POINT\n"
  | 17 => cstr "EXCEPTION: ALIGNMENT CHECK\n"
  | 18 => cstr "EXCEPTION: MACHINE CHECK\n"
  | 19 => cstr "EXCEPTION: SIMD FLOATING-POINT\n"
  | 20 => cstr "EXCEPTION: VIRTUALIZATION\n"
  | 21 => cstr "EXCEPTION: CONTROL PROTECTION\n"
  | 28 => cstr "EXCEPTION: HYPERVISOR INJECTION\n"
  | 29 => cstr "EXCEPTION: VMM COMMUNICATION\n"
  | 30 => cstr "EXCEPTION: SECURITY\n"
  | _ => cstr "UNKNOWN INTERRUPT\n"
  end.

Section operations.
Context (dev : device).

(** [regs] is the address of the frame; the result is that of the frame to
    return to. *)
Definition interrupt_handler (regs : Z) : M kernel Z :=
  n ← gets (λ k, int_no (frame_at (Scheduler.stacks (k_sched k)) regs));
  if n =? 32 then
    _ ← on_ticks Pit.pit_tick;
    _ ← Pic.pic_send_eoi 0;
    on_sched (Scheduler.scheduler_tick regs)
  else if n =? 33 then
    _ ← on_console (Keyboard.keyboard_handler dev);
    _ ← Pic.pic_send_eoi 1;
    mret regs
  else if n =? 49 then on_sched (Scheduler.scheduler_schedule regs)
  else if n =? 50 then on_sched (Scheduler.scheduler_exit regs)
  else if (34 <=? n) && (n <=? 47) then
    _ ← Pic.pic_send_eoi (n - 32);
    mret regs
  else
    _ ← on_vga (Vga.vga_write (exception_message n));
    mret regs.

(** ** [kmain] *)

(** What the linker decides: the end of the kernel's image, and the addresses of
    stacks, functions, page tables, interrupt stubs and the IDT. *)
Record image : Type := mkImage {
  kernel_end : Z;
  sched_layout : Scheduler.layout;
  page_layout : Paging.layout;
  isr_addr : Z → Z;
  idt_addr : Z
}.
Context (I : image).

Definition kwrite (str : string) : M kernel unit :=
  _ ← on_vga (Vga.fvga_write (cstr str) []); mret tt.

(** [kmain] up to its endless [hlt] loop, without KERNEL_TESTS. *)
Definition kmain : M kernel unit :=
  _ ← on_vga Vga.vga_init;
  _ ← kwrite "Hello, from neilOS!\n";
  _ ← on_phys (Physical.physical_init (kernel_end I));
  _ ← kwrite "Physical memory initialized!\n";
  _ ← on_heap Kmalloc.kmalloc_init;
  _ ← on_idt (Idt.idt_init (isr_addr I) (idt_addr I));
  _ ← kwrite "IDT initialized!\n";
  _ ← Pic.pic_init;
  _ ← kwrite "PIC initialized!\n";
  _ ← Pit.pit_init Pit.PIT_FREQUENCY;
  _ ← kwrite "PIT initialized!\n";
  _ ← on_console (Keyboard.keyboard_init dev);
  _ ← kwrite "Keyboard initialized!\n";
  _ ← on_sched (Scheduler.scheduler_init (sched_layout I));
  _ ← kwrite "Scheduler initialized!\n";
  _ ← kwrite "Interrupts enabled!\n";
  _ ← kwrite "Tasks created!\n";
  _ ← on_mmu (Paging.paging_init (page_layout I));
  _ ← kwrite "Paging created!\n";
  modify (λ k, with_eflags (Z.lor (k_eflags k) 0x200) k).

End operations.

(** ** The invariant *)

Lemma settled_eflags f v : Vga.settled v → Vga.settled (set_eflags f v).
Proof. intros [[] ?]. by split. Qed.

Lemma sched_inv_eflags L f s : Scheduler.sched_inv L s → Scheduler.sched_inv L (set_eflags f s).
Proof. intros [[] ?]. by split. Qed.

Lemma sched_inv_stacks L m s : Scheduler.sched_inv L s → Scheduler.sched_inv L (Scheduler.set_stacks m s).
Proof. intros [[] ?]. by split. Qed.

(** Between two interrupts: the scheduler and the terminal are in order, the gates
    are set, the tick counter is in range, the heap is a list of blocks, and
    paging is on with the free pages [F] and a coherent TLB. *)
Record kernel_inv (I : image) (F : gset Z) (k : kernel) : Prop := {
  ki_sched : Scheduler.sched_inv (sched_layout I) (k_sched k);
  ki_vga : Vga.settled (k_vga k);
  ki_ticks : 0 ≤ k_ticks k < 2 ^ 32;
  ki_idt : ∀ n, 0 ≤ n < 256 →
    Idt.vector_handler (k_idt k) n
    = if decide (0 ≤ n < 48 ∨ n = 49 ∨ n = 50) then Some (isr_addr I n) else None;
  ki_heap : ∃ bs, Kmalloc.heap_rep (k_heap k) bs;
  ki_paging : Paging.paging_ok (page_layout I) (the_mmu k) F
}.

(** [quiet k k']: memory management and the gates are as before. *)
Definition quiet (k k' : kernel) : Prop :=
  k_phys k' = k_phys k ∧ k_heap k' = k_heap k ∧ k_idt k' = k_idt k ∧ k_pmem k' = k_pmem k ∧
  k_cr0 k' = k_cr0 k ∧ k_cr3 k' = k_cr3 k ∧ k_tlb k' = k_tlb k.

Lemma quiet_inv I F k k' :
  kernel_inv I F k → quiet k k' →
  Scheduler.sched_inv (sched_layout I) (k_sched k') → Vga.settled (k_vga k') → 0 ≤ k_ticks k' < 2 ^ 32 →
  kernel_inv I F k'.
Proof.
  intros [_ _ _ Hidt Hheap [H1 H2 H3 H4 H5 _]] (E1 & E2 & E3 & E4 & E5 & E6 & E7) Hs Hv Ht.
  split; [done|done|done|by rewrite E3|by rewrite E2|].
  unfold the_mmu in *. simpl in *. split; simpl; rewrite ?E1, ?E4, ?E5, ?E6, ?E7; try done.
  by apply settled_eflags.
Qed.

Section handler.
Context (dev : device) (I : image) (F : gset Z).
Hypothesis HL : Scheduler.layout_ok (sched_layout I).

(** The accesses that acknowledge interrupt [n]; [mid] is what a driver did before. *)
Definition acknowledged (n : Z) (k k' : kernel) : Prop :=
  if decide (32 ≤ n < 48) then
    ∃ mid, k_trace k' = Pic.eoi_events (n - 32) ++ mid ++ k_trace k ∧ (n ≠ 33 → mid = [])
  else k_trace k' = k_trace k.

(** What the handler owes for vector [n]. *)
Definition served (n regs : Z) (k : kernel) (p : Z) (k' : kernel) : Prop :=
  kernel_inv I F k' ∧ quiet k k' ∧
  (∃ cur, Scheduler.curTask (k_sched k') = Some cur ∧ Scheduler.on_stack (sched_layout I) cur p) ∧
  acknowledged n k k' ∧
  (n ∉ [32; 49; 50] → p = regs ∧ k_sched k' = k_sched k) ∧
  k_ticks k' = (if decide (n = 32) then u32 (k_ticks k + 1) else k_ticks k).

Lemma eoi_kernel irq (Q : unit → kernel → Prop) k :
  0 ≤ irq < 256 → Q tt (set_trace (Pic.eoi_events irq ++ k_trace k) k) → wp (Pic.pic_send_eoi irq) Q k.
Proof. intros Hirq HQ. by apply Pic.pic_send_eoi_spec. Qed.

(** A scheduler function that switches, on the kernel's state. *)
Lemma on_sched_resumes (m : M Scheduler.sched Z) k (Q : Z → kernel → Prop) :
  wp m (Scheduler.resumes (sched_layout I)) (set_eflags (k_eflags k) (k_sched k)) →
  (∀ p s, Scheduler.resumes (sched_layout I) p s → Q p (with_eflags (get_eflags s) (with_sched s k))) →
  wp (on_sched m) Q k.
Proof. intros Hm HQ. unfold on_sched. wp_step. eapply wp_mono; [exact Hm|]. intros p s Hr. by apply HQ. Qed.

Context (k : kernel) (regs : Z) (cur : Scheduler.task_ref).
Hypothesis Hk : kernel_inv I F k.
Hypothesis Hcur : Scheduler.curTask (k_sched k) = Some cur.
Hypothesis Hregs : Scheduler.on_stack (sched_layout I) cur regs.

(** The paths that return to the interrupted frame. *)
Lemma served_same n k' :
  quiet k k' → k_sched k' = k_sched k → k_ticks k' = k_ticks k → Vga.settled (k_vga k') →
  acknowledged n k k' → n ≠ 32 → served n regs k regs k'.
Proof.
  intros Hq Hs Ht Hv Ha Hn. split; [|split; [done|split; [|split; [done|split; [done|]]]]].
  - apply (quiet_inv I F k); [done|done|by rewrite Hs; apply Hk|done|by rewrite Ht; apply Hk].
  - exists cur. by rewrite Hs.
  - by rewrite decide_False.
Qed.

Lemma timer_served : wp (_ ← on_ticks Pit.pit_tick; _ ← Pic.pic_send_eoi 0; on_sched (Scheduler.scheduler_tick regs))
  (served 32 regs k) k.
Proof.
  unfold on_ticks, Pit.pit_tick. do 3 wp_step. wp_step. apply eoi_kernel; [lia|].
  apply on_sched_resumes.
  - eapply Scheduler.tick_resumes; [done|apply sched_inv_eflags, (ki_sched _ _ _ Hk)|exact Hcur|done].
  - intros p s [Hinv (cur' & Hcur' & Hon)]. split; [|split; [done|split; [|split; [|split]]]].
    + apply (quiet_inv I F k); [done|done|done|apply (ki_vga _ _ _ Hk)|apply u32_range].
    + by exists cur'.
    + unfold acknowledged. rewrite decide_True by lia. by exists [].
    + intros Hn. destruct Hn. left.
    + by rewrite decide_True.
Qed.

Lemma software_served n (m : M Scheduler.sched Z) :
  n ∈ [49; 50] → wp m (Scheduler.resumes (sched_layout I)) (set_eflags (k_eflags k) (k_sched k)) →
  wp (on_sched m) (served n regs k) k.
Proof.
  intros Hn Hm. assert (n = 49 ∨ n = 50) as Hn'.
  { apply elem_of_cons in Hn as [?|Hn]; [by left|]. right. by apply list_elem_of_singleton in Hn. }
  apply on_sched_resumes; [done|]. intros p s [Hinv (cur' & Hcur' & Hon)].
  split; [|split; [done|split; [|split; [|split]]]].
  - apply (quiet_inv I F k); [done|done|done|apply (ki_vga _ _ _ Hk)|apply (ki_ticks _ _ _ Hk)].
  - by exists cur'.
  - unfold acknowledged. by rewrite decide_False by lia.
  - intros Hno. destruct Hno. by right.
  - by rewrite decide_False by lia.
Qed.

Lemma keyboard_served :
  wp (_ ← on_console (Keyboard.keyboard_handler dev); _ ← Pic.pic_send_eoi 1; mret regs) (served 33 regs k) k.
Proof.
  unfold on_console. wp_step. wp_step.
  set (c0 := Keyboard.set_vga _ _). assert (Vga.settled (Keyboard.c_vga c0)) as Hc0
    by apply settled_eflags, (ki_vga _ _ _ Hk).
  use_wp (Keyboard.handler_spec dev c0 Hc0). intros _ c1 (_ & _ & Hv & mid & Ht & _). wp_step.
  apply eoi_kernel; [lia|]. wp_step. apply served_same; try done.
  unfold acknowledged. rewrite decide_True by lia. eexists (OutB 32 32 :: mid ++ [InB 96 _]). split; [|done].
  cbn. unfold k_trace. simpl. rewrite Ht. simpl. by rewrite <- app_assoc.
Qed.

Lemma handler_served n :
  int_no (frame_at (Scheduler.stacks (k_sched k)) regs) = n → 0 ≤ n < 48 ∨ n = 49 ∨ n = 50 →
  (n = 50 → Scheduler.has_state (k_sched k) cur Scheduler.TASK_RUNNING ∧ cur ≠ Scheduler.Idle) →
  wp (interrupt_handler dev regs) (served n regs k) k.
Proof.
  intros Hn Hgate Hexit. unfold interrupt_handler. wp_step. wp_step. rewrite Hn.
  pose proof (ki_sched _ _ _ Hk) as [Hb (c & t & Hc & Ht & Hst)]. assert (c = cur) as -> by congruence.
  pose proof (sched_inv_eflags _ (k_eflags k) _ (ki_sched _ _ _ Hk)) as [Hb' _].
  destruct (Z.eqb_spec n 32) as [->|H32]; [exact timer_served|].
  destruct (Z.eqb_spec n 33) as [->|H33]; [exact keyboard_served|].
  destruct (Z.eqb_spec n 49) as [->|H49].
  { apply software_served; [left|]. eapply Scheduler.schedule_resumes; [done|exact Hb'|exact Hcur|exact Ht|done]. }
  destruct (Z.eqb_spec n 50) as [->|H50].
  { destruct (Hexit eq_refl) as [(t' & Ht' & Hrun) Hidle]. assert (t' = t) as -> by congruence.
    apply software_served; [by right; left|].
    eapply Scheduler.exit_resumes; [done|exact Hb'|exact Hcur|exact Ht|done|done|done]. }
  destruct (Z.leb_spec 34 n); [destruct (Z.leb_spec n 47)|]; cbn [andb].
  - wp_step. apply eoi_kernel; [lia|]. wp_step. apply served_same; try done.
    + apply (ki_vga _ _ _ Hk).
    + unfold acknowledged. rewrite decide_True by lia. by exists [].
  - lia.
  - unfold on_vga. wp_step. wp_step.
    use_wp (Vga.write_spec (exception_message n) (set_eflags (k_eflags k) (k_vga k)));
      [apply settled_eflags, (ki_vga _ _ _ Hk)|].
    intros _ v [_ Hv]. wp_step. apply served_same; try done. unfold acknowledged. by rewrite decide_False by lia.
Qed.

End handler.

(** ** Booting *)

(** The image the linker script makes: it asserts the end of the kernel, and the
    stacks and tables are apart inside it. *)
Record image_ok (I : image) : Prop := {
  img_end : Physical.kernel_start ≤ kernel_end I ≤ 0x98000;
  img_sched : Scheduler.layout_ok (sched_layout I);
  img_pages : Paging.layout_ok (page_layout I);
  img_isr : ∀ n, 0 ≤ isr_addr I n < 2 ^ 32
}.

(** What the loader leaves: arrays of their sizes with any contents, and paging
    off. *)
Record power_on (k : kernel) : Prop := {
  po_vga : Vga.vga_raw (k_vga k);
  po_phys : Z.of_nat (length (Physical.pageBitMap (k_phys k))) = Physical.BITMAP_WORD_COUNT;
  po_idt : length (Idt.idt (k_idt k)) = 256%nat;
  po_tasks : length (Scheduler.tasks (k_sched k)) = 16%nat;
  po_ticks : k_ticks k = 0;
  po_paging : Z.testbit (k_cr0 k) 31 = false
}.

Lemma format_plain cs args : 37 ∉ cs → Vga.format cs args = Some cs.
Proof.
  induction cs as [|c cs IH]; intros Hn; simpl; [done|]. apply not_elem_of_cons in Hn as [Hc Hn].
  rewrite decide_False by congruence. by rewrite IH.
Qed.

Lemma with_vga_eflags v k : get_eflags v = k_eflags k → with_eflags (get_eflags v) (with_vga v k) = with_vga v k.
Proof. intros E. rewrite E. by destruct k. Qed.

Lemma wp_kwrite str (Q : unit → kernel → Prop) k :
  37 ∉ cstr str → Vga.settled (k_vga k) →
  (∀ v, Vga.settled v → Vga.vgaColor v = Vga.vgaColor (k_vga k) →
     Vga.term_of v = Vga.term_puts (Vga.vgaColor (k_vga k)) (cstr str) (Vga.term_of (k_vga k)) →
     Q tt (with_vga v k)) →
  wp (kwrite str) Q k.
Proof.
  intros Hn Hs HQ. unfold kwrite, on_vga. wp_step. wp_step.
  use_wp (Vga.fvga_write_spec (cstr str) [] (cstr str) (set_eflags (k_eflags k) (k_vga k)));
    [apply settled_eflags, Hs|by apply format_plain|].
  intros n v (_ & (_ & [Hcol Hfl] & Hterm) & Hv). wp_step.
  rewrite with_vga_eflags by exact Hfl. by apply HQ.
Qed.

(** The port accesses of the three drivers' initialisation, last one first. *)
Definition pic_events : list io_event :=
  [OutB 0xA1 0xFF; OutB 0x21 0xFC; OutB 0xA1 0x01; OutB 0x21 0x01; OutB 0xA1 0x02; OutB 0x21 0x04;
   OutB 0xA1 0x28; OutB 0x21 0x20; OutB 0xA0 0x11; OutB 0x20 0x11].
Definition pit_events : list io_event := [OutB 0x40 0x04; OutB 0x40 0xA9; OutB 0x43 0x36].
Definition keyboard_events (dev : device) (t : list io_event) : list io_event :=
  let mask := u8 (dev t 0x21) in [OutB 0x21 (Z.land mask 0xFD); InB 0x21 mask].

Lemma wp_pic_init (Q : unit → kernel → Prop) k :
  Q tt (set_trace (pic_events ++ k_trace k) k) → wp Pic.pic_init Q k.
Proof. intros HQ. unfold Pic.pic_init, outb. by wp_steps. Qed.

Lemma wp_pit_init (Q : unit → kernel → Prop) k :
  Q tt (set_trace (pit_events ++ k_trace k) k) → wp (Pit.pit_init Pit.PIT_FREQUENCY) Q k.
Proof.
  intros HQ. unfold Pit.pit_init. change (Pit.PIT_FREQUENCY =? 0) with false. cbv iota zeta. unfold outb. by wp_steps.
Qed.

Lemma land_FD_range v : 0 ≤ Z.land (u8 v) 0xFD < 256.
Proof. apply (land_range _ _ 8); [lia|apply u8_range]. Qed.

Lemma wp_keyboard_init dev (Q : unit → kernel → Prop) k :
  (∀ f, Q tt (with_eflags (k_eflags k) (set_trace (keyboard_events dev (k_trace k) ++ k_trace k)
          (with_vga (set_eflags f (k_vga k)) k)))) →
  wp (on_console (Keyboard.keyboard_init dev)) Q k.
Proof.
  intros HQ. unfold on_console. wp_step. unfold Keyboard.keyboard_init, inb, outb. wp_steps.
  change (u8 (Z.lnot (1 ≪ 1))) with 0xFD. change (u16 Pic.PIC1_DATA) with 0x21.
  rewrite (u8_small (Z.land _ _)) by apply land_FD_range. exact (HQ (k_eflags k)).
Qed.

(** What stands on the screen after booting. *)
Definition boot_text : list Z :=
  cstr "Hello, from neilOS!\n" ++ cstr "Physical memory initialized!\n" ++ cstr "IDT initialized!\n" ++
  cstr "PIC initialized!\n" ++ cstr "PIT initialized!\n" ++ cstr "Keyboard initialized!\n" ++
  cstr "Scheduler initialized!\n" ++ cstr "Interrupts enabled!\n" ++ cstr "Tasks created!\n" ++
  cstr "Paging created!\n".

Definition boot_trace (dev : device) (t : list io_event) : list io_event :=
  let t' := pit_events ++ pic_events ++ t in keyboard_events dev t' ++ t'.

(** [shows color cs k]: the terminal is settled and holds the text [cs], typed on
    an empty screen. *)
Definition shows (color : Z) (cs : list Z) (k : kernel) : Prop :=
  Vga.settled (k_vga k) ∧ Vga.vgaColor (k_vga k) = color ∧
  Vga.term_of (k_vga k) = Vga.term_puts color cs (Vga.mkTerm Vga.blank_buffer 0 0).

Lemma shows_kwrite str color cs (Q : unit → kernel → Prop) k :
  37 ∉ cstr str → shows color cs k →
  (∀ v, shows color (cs ++ cstr str) (with_vga v k) → Q tt (with_vga v k)) → wp (kwrite str) Q k.
Proof.
  intros Hn (Hs & Hc & Ht) HQ. apply wp_kwrite; [done|done|]. intros v Hv Hcol Hterm. apply HQ.
  split; [done|]. split; [by rewrite <- Hc|]. rewrite Vga.term_puts_app, <- Ht, <- Hc. done.
Qed.

Lemma shows_eflags color cs f k k' :
  shows color cs k → k_vga k' = set_eflags f (k_vga k) → shows color cs k'.
Proof. intros (Hs & Hc & Ht) E. unfold shows. rewrite E. split; [by apply settled_eflags|done]. Qed.

(** The next message, on a screen as in [S]. *)
Ltac write_line S :=
  wp_step; eapply shows_kwrite; [by apply (bool_decide_unpack _)|exact S|].

Lemma kmain_spec dev I k :
  image_ok I → power_on k →
  wp (kmain dev I) (λ _ k', kernel_inv I Physical.usable_pages k' ∧
    Kmalloc.heap_rep (k_heap k') [(Kmalloc.HEAP_SIZE - 16, true)] ∧
    Scheduler.curTask (k_sched k') = Some (Scheduler.Slot 0) ∧
    Paging.identity_tables (page_layout I) (k_pmem k') ∧
    k_trace k' = boot_trace dev (k_trace k) ∧
    shows (Vga.vgaColor (k_vga k)) boot_text k' ∧
    k_eflags k' = Z.lor (k_eflags k) 0x200 ∧
    Scheduler.has_state (k_sched k') (Scheduler.Slot 0) Scheduler.TASK_RUNNING ∧
    ∀ i, 1 ≤ i < 16 → Scheduler.has_state (k_sched k') (Scheduler.Slot i) Scheduler.TASK_TERMINATED) k.
Proof.
  intros [Hend HLs HLp Hisr] [Hvga Hphys Hidt Htasks Hticks Hpg]. unfold kmain.
  set (color := Vga.vgaColor (k_vga k)).
  wp_step. unfold on_vga at 1. wp_step.
  use_wp (Vga.clear_spec (set_eflags (k_eflags k) (k_vga k))); [exact Hvga|].
  intros _ v0 (Hs0 & [Hcol0 Hfl0] & _ & Hterm0).
  rewrite with_vga_eflags by exact Hfl0. assert (shows color [] (with_vga v0 k)) as S0 by done.
  write_line S0. intros v1 S1. wp_step. unfold on_phys. wp_step. set (k1 := with_vga v1 _) in *.
  use_wp (Physical.physical_init_spec (kernel_end I) (k_phys k1)); [done|done|]. intros _ ph Hph.
  write_line S1. intros v2 S2. set (k2 := with_vga v2 _) in *.
  wp_step. unfold on_heap. wp_step. use_wp (Kmalloc.heap_rep_init (k_heap k2)). intros _ h Hh.
  wp_step. unfold on_idt. wp_step.
  use_wp (Idt.idt_init_spec (isr_addr I) (idt_addr I) (k_idt k2)); [done|]. intros _ it (_ & _ & Hgates).
  write_line S2. intros v3 S3. set (k3 := with_vga v3 _) in *. wp_step. apply wp_pic_init.
  write_line S3. intros v4 S4. set (k4 := with_vga v4 _) in *. wp_step. apply wp_pit_init.
  write_line S4. intros v5 S5. set (k5 := with_vga v5 _) in *. wp_step. apply wp_keyboard_init. intros f.
  set (k5' := with_eflags _ _).
  pose proof (shows_eflags color _ f k5 k5' S5 eq_refl) as S5'.
  write_line S5'. intros v6 S6. set (k6 := with_vga v6 _) in *. wp_step. unfold on_sched. wp_step.
  use_wp (Scheduler.scheduler_init_spec (sched_layout I) (set_eflags (k_eflags k6) (k_sched k6))); [done|].
  intros _ sc ->. set (sc := Scheduler.sched_initial _ _).
  write_line S6. intros v7 S7. set (k7 := with_vga v7 _) in *.
  write_line S7. intros v8 S8. set (k8 := with_vga v8 _) in *.
  write_line S8. intros v9 S9. set (k9 := with_vga v9 _) in *. wp_step. unfold on_mmu. wp_step.
  use_wp (Paging.paging_init_spec (page_layout I) HLp (the_mmu k9) Physical.usable_pages).
  { exact Hpg. }
  { split; [exact Hph|]. intros p Hp%Physical.usable_range. lia. }
  { apply settled_eflags, S9. }
  { intros p Hp%Physical.usable_range. lia. }
  intros _ mm (Hpag & Hident & Hcon).
  pose proof (shows_eflags color _ _ k9 (with_mmu mm k9) S9 Hcon) as S9'.
  write_line S9'. intros v10 S10. wp_step. split_and!; [|done|done|done|done|done| |by eexists|].
  - split.
    + apply Scheduler.initial_inv.
    + apply S10.
    + simpl. rewrite Hticks. lia.
    + by apply Idt.gates_handlers.
    + by exists [(Kmalloc.HEAP_SIZE - 16, true)].
    + destruct Hpag as [H1 H2 H3 H4 H5 _]. split; [done|done|done|done|done|]. apply settled_eflags, S10.
  - change (Z.lor (get_eflags (Paging.console mm)) 0x200 = Z.lor (k_eflags k) 0x200). by rewrite Hcon.
  - exact (Scheduler.initial_free (sched_layout I) _).
Qed.

(** ** The running system

    A step is an interrupt taken by the current task, a call of the scheduler that
    runs with interrupts off, or a call of the terminal.  An interrupt of vector
    [n] (with error code [e]) finds the CPU in the state [c], pushes its frame on
    the stack of the current task, and runs the handler. *)

Definition push_frame (n e : Z) (c : cpu) (k : kernel) : kernel :=
  with_sched (Scheduler.set_stacks (isr_enter n e (Scheduler.stacks (k_sched k)) c).1 (k_sched k)) k.
Definition take_interrupt (dev : device) (n e : Z) (c : cpu) : M kernel Z := λ k,
  interrupt_handler dev (isr_enter n e (Scheduler.stacks (k_sched k)) c).2 (push_frame n e c k).

(** When the CPU can take it: there is a gate, the frame fits on the stack of the
    current task, and [task_exit] is called by a running task. *)
Definition can_take (I : image) (n : Z) (c : cpu) (k : kernel) : Prop :=
  0 ≤ n < 256 ∧ is_Some (Idt.vector_handler (k_idt k) n) ∧
  ∃ cur, Scheduler.curTask (k_sched k) = Some cur ∧
    Scheduler.on_stack (sched_layout I) cur (r_esp c - 52) ∧
    (n = 50 → Scheduler.has_state (k_sched k) cur Scheduler.TASK_RUNNING ∧ cur ≠ Scheduler.Idle).

Inductive kernel_step (dev : device) (I : image) (k : kernel) : kernel → Prop :=
| step_interrupt n e c q k' :
    can_take I n c k → take_interrupt dev n e c k = Some (q, k') → kernel_step dev I k k'
| step_task ev v k' :
    Scheduler.enabled (sched_layout I) (k_sched k) ev → Scheduler.switches ev = false →
    on_sched (Scheduler.run_event (sched_layout I) ev) k = Some (v, k') → kernel_step dev I k k'
| step_print c k' :
    Vga.call_ok c → on_vga (Vga.vga_run c) k = Some (tt, k') → kernel_step dev I k k'.

Inductive running (dev : device) (I : image) : kernel → Prop :=
| running_boot k k' : power_on k → kmain dev I k = Some (tt, k') → running dev I k'
| running_step k k' : running dev I k → kernel_step dev I k k' → running dev I k'.

Section system.
Context (dev : device) (I : image) (HI : image_ok I).

Section step.
Context (F : gset Z).

Lemma push_frame_inv n e c k : kernel_inv I F k → kernel_inv I F (push_frame n e c k).
Proof.
  intros Hk. apply (quiet_inv I F k); [done|done| |apply (ki_vga _ _ _ Hk)|apply (ki_ticks _ _ _ Hk)].
  apply sched_inv_stacks, (ki_sched _ _ _ Hk).
Qed.

Lemma interrupt_served n e c k :
  kernel_inv I F k → can_take I n c k →
  wp (take_interrupt dev n e c) (λ q k',
    served I F n (r_esp c - 52) (push_frame n e c k) q k' ∧
    (n ∉ [32; 49; 50] → 0 ≤ r_esp c < 2 ^ 32 → isr_return (Scheduler.stacks (k_sched k')) q = c)) k.
Proof.
  intros Hk (Hn & [h Hgate] & cur & Hcur & Hon & Hexit). unfold take_interrupt.
  pose proof (isr_enter_frame n e (Scheduler.stacks (k_sched k)) c) as Hframe.
  pose proof (push_frame_inv n e c k Hk) as Hk1. unfold wp. unfold push_frame in *.
  destruct (isr_enter n e _ c) as [m p]. cbn [fst snd] in *. destruct Hframe as (-> & Hno & _ & Hret).
  set (k1 := with_sched _ k) in *.
  assert (0 ≤ n < 48 ∨ n = 49 ∨ n = 50) as Hvec.
  { rewrite (ki_idt _ _ _ Hk n Hn) in Hgate. by case_decide. }
  pose proof (handler_served dev I F (img_sched _ HI) k1 (r_esp c - 52) cur Hk1 Hcur Hon n Hno Hvec Hexit) as Hwp.
  unfold wp in Hwp. destruct (interrupt_handler _ _ _) as [[q k']|]; [|done]. split; [done|].
  intros Hsw Hesp. destruct Hwp as (_ & _ & _ & _ & Hsame & _). destruct (Hsame Hsw) as [-> ->].
  by apply Hret.
Qed.

Lemma task_call_inv ev k :
  kernel_inv I F k → Scheduler.enabled (sched_layout I) (k_sched k) ev →
  wp (on_sched (Scheduler.run_event (sched_layout I) ev)) (λ _ k', kernel_inv I F k' ∧ quiet k k') k.
Proof.
  intros Hk Hen. set (s := set_eflags (k_eflags k) (k_sched k)).
  assert (Scheduler.sched_inv (sched_layout I) s) as Hs by apply sched_inv_eflags, (ki_sched _ _ _ Hk).
  assert (Scheduler.enabled (sched_layout I) s ev) as Hen' by by destruct ev.
  unfold on_sched. wp_step. use_wp (Scheduler.event_inv (sched_layout I) (img_sched _ HI) ev s Hs Hen').
  intros v' s' [Hs' _]. split; [|done].
  apply (quiet_inv I F k); [done|done|done|apply (ki_vga _ _ _ Hk)|apply (ki_ticks _ _ _ Hk)].
Qed.

Lemma print_inv c k :
  kernel_inv I F k → Vga.call_ok c →
  wp (on_vga (Vga.vga_run c)) (λ _ k', kernel_inv I F k' ∧ quiet k k') k.
Proof.
  intros Hk Hc. unfold on_vga. wp_step.
  use_wp (Vga.call_settled c (set_eflags (k_eflags k) (k_vga k))); [apply settled_eflags, (ki_vga _ _ _ Hk)|done|].
  intros _ v' Hv'. split; [|done].
  apply (quiet_inv I F k); [done|done|apply (ki_sched _ _ _ Hk)|done|apply (ki_ticks _ _ _ Hk)].
Qed.

(** The frame an interrupt returns to. *)
Lemma interrupt_resumes n e c k :
  kernel_inv I F k → can_take I n c k →
  ∃ q k', take_interrupt dev n e c k = Some (q, k') ∧
    (∃ cur, Scheduler.curTask (k_sched k') = Some cur ∧ Scheduler.on_stack (sched_layout I) cur q ∧
       ∀ r, r ≠ cur → is_Some (Scheduler.task_of (k_sched k') r) → ¬ Scheduler.on_stack (sched_layout I) r q) ∧
    (n ∉ [32; 49; 50] → 0 ≤ r_esp c < 2 ^ 32 → isr_return (Scheduler.stacks (k_sched k')) q = c).
Proof.
  intros Hk Hcan. destruct (proj1 (wp_inv _ _ _) (interrupt_served n e c k Hk Hcan))
    as (q & k' & E & (Hk' & _ & (cur & Hcur & Hon) & _) & Hret).
  exists q, k'. split; [done|]. split; [|done]. exists cur. split; [done|]. split; [done|].
  destruct (ki_sched _ _ _ Hk') as [Hb (cu & t & Hcu & Ht & _)]. assert (cu = cur) as -> by congruence.
  intros r Hne [tr Htr] Hon'. apply Hne.
  by apply (Scheduler.stacks_apart _ (img_sched _ HI) (k_sched k') r cur tr t q (Scheduler.inv_len _ _ Hb)).
Qed.

(** No step of the kernel touches memory management. *)
Lemma step_inv k k' : kernel_inv I F k → kernel_step dev I k k' → kernel_inv I F k' ∧ quiet k k'.
Proof.
  intros Hk Hstep. destruct Hstep as [n e c q k' Hcan Hrun|ev v k' Hen Hsw Hrun|c k' Hc Hrun].
  - by apply (wp_run _ _ _ _ _ (interrupt_served n e c k Hk Hcan)) in Hrun as [(? & ? & _) _].
  - exact (wp_run _ _ _ _ _ (task_call_inv ev k Hk Hen) Hrun).
  - exact (wp_run _ _ _ _ _ (print_inv c k Hk Hc) Hrun).
Qed.
End step.

Lemma running_inv k : running dev I k → kernel_inv I Physical.usable_pages k.
Proof.
  induction 1 as [k k' Hpo Hrun|k k' _ IH Hstep]; [|by apply (step_inv _ _ _ IH Hstep)].
  by apply (wp_run _ _ _ _ _ (kmain_spec dev I k HI Hpo)) in Hrun as [? _].
Qed.

End system.

(** ** Properties *)

(** An image and a machine that has just been switched on. *)
Definition demo_image : image :=
  mkImage 0x40000 Scheduler.demo_layout (Paging.mkLayout 0x32000 0x33000) (λ n, 0xA000 + 12 * n `mod` 256) 0x31000.
Definition demo_kernel : kernel :=
  mkKernel 2 Physical.zero_phys (Kmalloc.mkHeap ∅ 0)
    (Idt.mkIdt (replicate 256 (Idt.mkEntry 0 0 0 0 0)) (Idt.mkPtr 0 0) (Idt.mkPtr 0 0)) 0
    (Keyboard.mkConsole (Keyboard.mkKbd false false false false) Vga.zero_vga []) Scheduler.zero_sched
    ∅ 0x11 0 ∅.
Definition demo_device : device := Keyboard.one_key 30.

Lemma demo_image_ok : image_ok demo_image.
Proof.
  split; [unfold Physical.kernel_start; simpl; lia|exact Scheduler.demo_layout_ok|by constructor|].
  intros n. simpl. pose proof (Z.mod_pos_bound n 256). lia.
Qed.

Lemma demo_power_on : power_on demo_kernel.
Proof.
  split; [exact Vga.zero_vga_raw|exact Physical.zero_phys_length|apply length_replicate|reflexivity|reflexivity|reflexivity].
Qed.

(** C5. Booting: on any machine with paging off, whatever the statics contain,
    [kmain] reaches its idle loop.  Then every component is in order (the
    kernel's invariant holds with all pages from 2 MiB to 64 MiB free), the heap
    is one free block, the kernel task runs in slot 0, the page tables map the
    first 4 MiB to themselves, the PICs, the timer (1000 Hz) and the keyboard have
    been programmed with exactly the given port accesses, the screen shows the ten
    messages, and interrupts are enabled. *)
Theorem kmain_boots dev I k :
  image_ok I → power_on k →
  ∃ k', kmain dev I k = Some (tt, k') ∧ kernel_inv I Physical.usable_pages k' ∧
    Kmalloc.heap_rep (k_heap k') [(Kmalloc.HEAP_SIZE - 16, true)] ∧
    Scheduler.curTask (k_sched k') = Some (Scheduler.Slot 0) ∧
    Paging.identity_tables (page_layout I) (k_pmem k') ∧
    k_trace k' = boot_trace dev (k_trace k) ∧
    shows (Vga.vgaColor (k_vga k)) boot_text k' ∧
    Z.testbit (k_eflags k') 9 = true.
Proof.
  intros HI Hpo.
  destruct (proj1 (wp_inv _ _ _) (kmain_spec dev I k HI Hpo)) as ([] & k' & E & H1 & H2 & H3 & H4 & H5 & H6 & H7 & _).
  exists k'. split_and!; try done. rewrite H7, Z.lor_spec. apply orb_true_r.
Qed.

Lemma kmain_boots_witness :
  image_ok demo_image ∧ power_on demo_kernel ∧
  ∃ k', kmain demo_device demo_image demo_kernel = Some (tt, k') ∧ Z.testbit (k_eflags k') 9 = true.
Proof.
  split; [exact demo_image_ok|]. split; [exact demo_power_on|].
  destruct (kmain_boots demo_device demo_image demo_kernel demo_image_ok demo_power_on)
    as (k' & E & _ & _ & _ & _ & _ & _ & H).
  exact (ex_intro _ k' (conj E H)).
Defined.

(** The booted machine. *)
Definition demo_running : kernel := final (kmain demo_device demo_image) demo_kernel.

Lemma demo_running_ok :
  running demo_device demo_image demo_running ∧ kernel_inv demo_image Physical.usable_pages demo_running ∧
  Scheduler.curTask (k_sched demo_running) = Some (Scheduler.Slot 0).
Proof.
  destruct (wp_final _ _ _ (kmain_spec demo_device demo_image demo_kernel demo_image_ok demo_power_on))
    as ([] & E & Hinv & _ & Hcur & _).
  split; [|exact (conj Hinv Hcur)]. exact (running_boot _ _ _ _ demo_power_on E).
Qed.
#[local] Opaque demo_running.

(** C4. The interrupt handler, for every vector with a gate, in every state of the
    invariant: it returns, keeps the invariant, leaves memory management and the
    gates alone, and the frame it returns lies on
    the stack of the task that is then current.  Hardware interrupts (32 to 47)
    are acknowledged at the right controllers as the last port access, and no
    other vector touches a port; a timer interrupt counts one tick; and every
    vector but 32, 49 and 50 returns to the interrupted frame and leaves the
    scheduler alone. *)
Theorem interrupt_handler_safe dev I F k cur regs n :
  Scheduler.layout_ok (sched_layout I) → kernel_inv I F k →
  Scheduler.curTask (k_sched k) = Some cur → Scheduler.on_stack (sched_layout I) cur regs →
  int_no (frame_at (Scheduler.stacks (k_sched k)) regs) = n → 0 ≤ n < 48 ∨ n = 49 ∨ n = 50 →
  (n = 50 → Scheduler.has_state (k_sched k) cur Scheduler.TASK_RUNNING ∧ cur ≠ Scheduler.Idle) →
  ∃ p k', interrupt_handler dev regs k = Some (p, k') ∧ kernel_inv I F k' ∧ quiet k k' ∧
    (∃ cur', Scheduler.curTask (k_sched k') = Some cur' ∧ Scheduler.on_stack (sched_layout I) cur' p) ∧
    (if decide (32 ≤ n < 48) then
       ∃ mid, k_trace k' = Pic.eoi_events (n - 32) ++ mid ++ k_trace k ∧ (n ≠ 33 → mid = [])
     else k_trace k' = k_trace k) ∧
    (n ∉ [32; 49; 50] → p = regs ∧ k_sched k' = k_sched k) ∧
    k_ticks k' = (if decide (n = 32) then u32 (k_ticks k + 1) else k_ticks k).
Proof.
  intros HL Hk Hcur Hon Hn Hvec Hexit.
  destruct (proj1 (wp_inv _ _ _) (handler_served dev I F HL k regs cur Hk Hcur Hon n Hn Hvec Hexit))
    as (p & k' & E & H). exists p, k'. split; [done|exact H].
Qed.

(** A divide error in the kernel task. *)
Definition demo_cpu : cpu := mkCpu 1 2 3 4 5 6 7 0x9100 8 0x202 0x9E000.

Lemma interrupt_handler_safe_witness :
  let k := push_frame 0 0 demo_cpu demo_running in
  ∃ p k', interrupt_handler demo_device (0x9E000 - 52) k = Some (p, k') ∧ p = 0x9E000 - 52.
Proof.
  pose proof demo_running_ok as Hdemo. revert Hdemo. generalize demo_running. intros k0 (_ & Hinv & Hcur) k.
  pose proof (isr_enter_frame 0 0 (Scheduler.stacks (k_sched k0)) demo_cpu) as Hframe.
  assert (int_no (frame_at (Scheduler.stacks (k_sched k)) (0x9E000 - 52)) = 0) as Hno.
  { unfold k, push_frame. destruct (isr_enter _ _ _ _) as [m p]. destruct Hframe as (-> & Hno & _). exact Hno. }
  destruct (interrupt_handler_safe demo_device demo_image Physical.usable_pages k (Scheduler.Slot 0) (0x9E000 - 52) 0)
    as (p & k' & E & _ & _ & _ & _ & Hsame & _).
  - exact Scheduler.demo_layout_ok.
  - exact (push_frame_inv demo_image _ 0 0 demo_cpu k0 Hinv).
  - exact Hcur.
  - vm_compute. split; [intros [=]|reflexivity].
  - exact Hno.
  - left. lia.
  - intros [=].
  - exists p, k'. split; [exact E|]. apply Hsame. intros Hin. apply (bool_decide_eq_true_2 _) in Hin. done.
Defined.

(** The running system never gets stuck: in every state it can reach from
    booting by interrupts, scheduler calls and output, any interrupt the CPU can
    take is handled to the end; the system is then again in such a state, and the
    frame that is resumed lies on the stack of the task that is then current and
    on no other; and after an exception or a device interrupt other than the
    timer's, the interrupted code goes on with every register as it was. *)
Theorem kernel_runs_safely dev I k n e c :
  image_ok I → running dev I k → can_take I n c k →
  ∃ q k', take_interrupt dev n e c k = Some (q, k') ∧ running dev I k' ∧
    (∃ cur, Scheduler.curTask (k_sched k') = Some cur ∧ Scheduler.on_stack (sched_layout I) cur q ∧
       ∀ r, r ≠ cur → is_Some (Scheduler.task_of (k_sched k') r) → ¬ Scheduler.on_stack (sched_layout I) r q) ∧
    (n ∉ [32; 49; 50] → 0 ≤ r_esp c < 2 ^ 32 → isr_return (Scheduler.stacks (k_sched k')) q = c).
Proof.
  intros HI Hrun Hcan. pose proof (running_inv dev I HI k Hrun) as Hk.
  destruct (interrupt_resumes dev I HI _ n e c k Hk Hcan) as (q & k' & E & Hon & Hret).
  exists q, k'. split; [done|]. split; [by eapply running_step, step_interrupt|]. by split.
Qed.

(** A key is pressed while the kernel task runs. *)
Lemma demo_can_take k :
  kernel_inv demo_image Physical.usable_pages k → Scheduler.curTask (k_sched k) = Some (Scheduler.Slot 0) →
  can_take demo_image 33 demo_cpu k.
Proof.
  intros Hinv Hcur. split; [lia|]. split; [exists (isr_addr demo_image 33); exact (ki_idt _ _ _ Hinv 33 ltac:(lia))|].
  exists (Scheduler.Slot 0). split; [exact Hcur|]. split; [|intros [=]].
  vm_compute. split; [intros [=]|reflexivity].
Qed.
Lemma kernel_runs_safely_witness :
  running demo_device demo_image demo_running ∧ can_take demo_image 33 demo_cpu demo_running ∧
  ∃ q k', take_interrupt demo_device 33 0 demo_cpu demo_running = Some (q, k') ∧
          isr_return (Scheduler.stacks (k_sched k')) q = demo_cpu.
Proof.
  pose proof demo_running_ok as Hdemo. revert Hdemo. generalize demo_running. intros k (Hrun & Hinv & Hcur).
  pose proof (demo_can_take k Hinv Hcur) as Hcan. split; [exact Hrun|]. split; [exact Hcan|].
  destruct (kernel_runs_safely demo_device demo_image k 33 0 demo_cpu demo_image_ok Hrun Hcan)
    as (q & k' & E & _ & _ & Hret).
  exists q, k'. split; [exact E|]. apply Hret.
  - intros Hin. apply (bool_decide_eq_true_2 _) in Hin. done.
  - simpl. lia.
Defined.

End Kernel.
