(* ===== verification/System.v ===== *)
(** * The whole system: tasks that use the memory manager

    Kernel.v runs the kernel's own steps: interrupts, scheduler calls and output.
    Here the tasks also allocate and free heap blocks and physical pages, map and
    unmap pages outside the kernel's 4 MiB, and write to the memory they own.
    The invariant keeps free pages, page tables and the tasks' memory apart, and
    the kernel mapped at its own addresses. *)

From S2P Require Import Prelude Physical Kmalloc Isr Io Scheduler Vga Interfaces Paging Drivers Idt Kernel.
Import Io Isr Kernel.

Module System.

(** What the tasks hold: the addresses of physical pages and of heap blocks they
    were given and have not returned. *)
Record holdings : Type := mkHoldings {
  h_pages : gset Z;
  h_blocks : gset Z
}.

(** The space [paging_init] maps to itself: code, stacks, tables and heap of the
    kernel lie in it. *)
Definition KERNEL_SPACE : Z := 0x400000.

(** A new page table would come from a page that the kernel can reach. *)
Definition low_page_free (k : kernel) : Prop :=
  ∃ p, 512 ≤ p < 1024 ∧ Physical.page_free (Physical.pageBitMap (k_phys k)) p = true.
Definition has_table (I : image) (va : Z) (k : kernel) : bool :=
  Paging.present (Paging.pde (Paging.pageDirectory (page_layout I)) (k_pmem k) (Paging.PAGE_DIRECTORY_INDEX va)).

Definition store_word (a v : Z) (k : kernel) : kernel :=
  mkKernel (k_eflags k) (k_phys k) (k_heap k) (k_idt k) (k_ticks k) (k_console k) (k_sched k)
    (<[a := v]> (k_pmem k)) (k_cr0 k) (k_cr3 k) (k_tlb k).

(** A call of the memory manager by a task, when the rules allow it, and what the
    task holds after it. *)
Inductive call : Type :=
| CMalloc (size : Z)
| CFree (p : Z)
| CAllocPage
| CFreePage (a : Z)
| CMap (va pa flags : Z)
| CUnmap (va : Z).

Definition run_call (I : image) (c : call) : M kernel Z :=
  match c with
  | CMalloc size => on_heap (Kmalloc.kmalloc size)
  | CFree p => _ ← on_heap (Kmalloc.kfree p); mret 0
  | CAllocPage => on_phys Physical.physical_alloc_page
  | CFreePage a => _ ← on_phys (Physical.physical_free_page a); mret 0
  | CMap va pa flags => on_mmu (Paging.paging_map (page_layout I) va pa flags)
  | CUnmap va => on_mmu (Paging.paging_unmap (page_layout I) va)
  end.

Definition may_call (I : image) (c : call) (k : kernel) (h : holdings) : Prop :=
  match c with
  | CMalloc size => 0 ≤ size < 2 ^ 32
  | CFree p => p ∈ h_blocks h ∨ p = Kmalloc.NULL
  | CAllocPage => True
  | CFreePage a => a ∈ h_pages h
  | CMap va pa flags => KERNEL_SPACE ≤ va < 2 ^ 32 ∧ (has_table I va k = true ∨ low_page_free k)
  | CUnmap va => KERNEL_SPACE ≤ va < 2 ^ 32
  end.

Definition after_call (c : call) (r : Z) (h : holdings) : holdings :=
  match c with
  | CMalloc _ => if decide (r = Kmalloc.NULL) then h else mkHoldings (h_pages h) ({[r]} ∪ h_blocks h)
  | CFree p => mkHoldings (h_pages h) (h_blocks h ∖ {[p]})
  | CAllocPage => if decide (r = 0) then h else mkHoldings ({[r]} ∪ h_pages h) (h_blocks h)
  | CFreePage a => mkHoldings (h_pages h ∖ {[a]}) (h_blocks h)
  | CMap _ _ _ | CUnmap _ => h
  end.

(** A step of the system: one of the kernel's, a call, or a task's write to a block
    or a page it holds. *)
Inductive sys_step (dev : device) (I : image) : kernel * holdings → kernel * holdings → Prop :=
| sys_kernel k k' h : kernel_step dev I k k' → sys_step dev I (k, h) (k', h)
| sys_call c r k k' h :
    may_call I c k h → run_call I c k = Some (r, k') → sys_step dev I (k, h) (k', after_call c r h)
| sys_write_block k h bs x v :
    Kmalloc.heap_rep (k_heap k) bs → Kmalloc.in_payload Kmalloc.heap_start bs x →
    sys_step dev I (k, h) (with_heap (Kmalloc.set_mem (<[x := v]> (Kmalloc.mem (k_heap k))) (k_heap k)) k, h)
| sys_write_page k h a i v :
    a ∈ h_pages h → 0 ≤ i < 1024 → sys_step dev I (k, h) (store_word (a + 4 * i) v k, h).

(** From booting on, with nothing handed out. *)
Definition reachable (dev : device) (I : image) (s : kernel * holdings) : Prop :=
  ∃ k0 k1, power_on k0 ∧ kmain dev I k0 = Some (tt, k1) ∧
    rtc (sys_step dev I) (k1, mkHoldings ∅ ∅) s.

(** ** The invariant *)

Section invariant.
Context (dev : device) (I : image) (HI : image_ok I).
Abbreviation L := (page_layout I).
Abbreviation pd := (Paging.pageDirectory L).

(** [F] are the free pages. *)
Record sys_inv (F : gset Z) (k : kernel) (h : holdings) : Prop := {
  si_kernel : kernel_inv I F k;
  si_free : ∀ p, p ∈ F → 512 ≤ p < 16384;
  si_pages : ∀ a, a ∈ h_pages h → ∃ p, 512 ≤ p < 16384 ∧ a = p * 4096 ∧ p ∉ F;
  si_tables : ∀ a, a ∈ h_pages h → ¬ Paging.is_table L (k_pmem k) a;
  si_tables_low : ∀ f, Paging.is_table L (k_pmem k) f → f < KERNEL_SPACE;
  si_low : ∀ va, 0 ≤ va < KERNEL_SPACE →
    ∃ pte, Paging.walk (k_pmem k) pd va = Some pte ∧ Paging.frame pte = va / 4096 * 4096;
  si_heap : Kmalloc.kclient_inv (k_heap k, h_blocks h)
}.

(** The memory the tasks hold is as before: the words of the pages held in [h], and
    those of the heap blocks that are allocated before and after. *)
Definition pages_kept (h : holdings) (k k' : kernel) : Prop :=
  ∀ a i, a ∈ h_pages h → 0 ≤ i < 1024 → getw (k_pmem k') (a + 4 * i) = getw (k_pmem k) (a + 4 * i).
Definition blocks_kept (k k' : kernel) : Prop :=
  ∀ bs bs' w, Kmalloc.heap_rep (k_heap k) bs → Kmalloc.heap_rep (k_heap k') bs' →
    Kmalloc.in_payload Kmalloc.heap_start bs w → Kmalloc.in_payload Kmalloc.heap_start bs' w →
    Kmalloc.mem (k_heap k') !! w = Kmalloc.mem (k_heap k) !! w.
Definition kept (h : holdings) (k k' : kernel) : Prop := pages_kept h k k' ∧ blocks_kept k k'.

Lemma kept_same h k k' : k_pmem k' = k_pmem k → k_heap k' = k_heap k → kept h k k'.
Proof. intros Ep Eh. split; [intros a i _ _; by rewrite Ep|intros bs bs' w _ _ _ _; by rewrite Eh]. Qed.

Lemma heap_rep_unique hp bs bs' : Kmalloc.heap_rep hp bs → Kmalloc.heap_rep hp bs' → bs = bs'.
Proof.
  intros [_ _ H1] [_ _ H2]. by eapply Kmalloc.rep_unique; [exact H1|exact H2| |].
Qed.

(** *** The kernel's invariant after a change of one component *)

Lemma kernel_with_heap F k hp bs :
  kernel_inv I F k → Kmalloc.heap_rep hp bs → kernel_inv I F (with_heap hp k).
Proof. intros [H1 H2 H3 H4 _ H6] Hrep. split; try done. by exists bs. Qed.

Lemma kernel_with_phys F F' k ph :
  kernel_inv I F k → phys_pool ph F' → Paging.tables_ok pd (k_pmem k) F' → kernel_inv I F' (with_phys ph k).
Proof.
  intros [H1 H2 H3 H4 H5 [P1 P2 P3 P4 P5 P6]] Hpool Htab. by split; [| | | | |split].
Qed.

Lemma kernel_with_mmu F F' k mm :
  kernel_inv I F k → Paging.paging_ok L mm F' → kernel_inv I F' (with_mmu mm k).
Proof.
  intros [H1 H2 H3 H4 H5 _] [P1 P2 P3 P4 P5 P6].
  split; [done|exact P6|done|done|done|]. split; [done|done|done|done|done|]. apply settled_eflags. exact P6.
Qed.

(** Free pages and tables may trade places as long as they stay apart. *)
Lemma tables_ok_free m F F' :
  Paging.tables_ok pd m F → (∀ p, p ∈ F' → p ∈ F ∨ ¬ Paging.is_table L m (p * 4096)) →
  Paging.tables_ok pd m F'.
Proof.
  intros Htab HF. pose proof Htab as [T1 T2 T3 T4 T5 T6].
  pose proof (Paging.pd_aligned L (img_pages _ HI)) as Hpd.
  assert (∀ f, f `mod` 4096 = 0 → Paging.is_table L m f → f / 4096 ∉ F → f / 4096 ∉ F') as Hout.
  { intros f Hf Ht Hno Hin. destruct (HF _ Hin) as [?|Hnt]; [done|]. apply Hnt.
    replace (f / 4096 * 4096) with f; [done|]. pose proof (Z.div_mod f 4096 ltac:(lia)). lia. }
  constructor; try done.
  - apply Hout; [apply Hpd|by left|done].
  - intros i Hi Hp. apply Hout; [apply Paging.frame_ok|right; by exists i|by apply T6].
Qed.

Lemma same_walk_tables m m' F :
  Paging.tables_ok pd m F → Paging.same_walk pd m m' →
  (∀ i, 0 ≤ i < 1024 → Paging.pde pd m' i = Paging.pde pd m i) → Paging.tables_ok pd m' F.
Proof.
  intros [T1 T2 T3 T4 T5 T6] Hw Hpde. constructor; [by apply (Paging.same_walk_self pd m)| | | |done|].
  - intros i Hi. rewrite Hpde by done. intros Hp. apply (Paging.same_walk_self pd m); [done|by apply T2].
  - intros i Hi. rewrite Hpde by done. by apply T3.
  - intros i j Hi Hj. rewrite !Hpde by done. by apply T4.
  - intros i Hi. rewrite Hpde by done. by apply T6.
Qed.

(** *** The calls *)

Lemma sys_with_heap F k h hp bl :
  sys_inv F k h → Kmalloc.kclient_inv (hp, bl) → sys_inv F (with_heap hp k) (mkHoldings (h_pages h) bl).
Proof.
  intros [H1 H2 H3 H4 H5 H6 _] Hc. pose proof Hc as (bs & Hrep & _).
  split; [by apply (kernel_with_heap F k hp bs)|exact H2|exact H3|exact H4|exact H5|exact H6|exact Hc].
Qed.

Lemma malloc_safe F k h size :
  sys_inv F k h → 0 ≤ size < 2 ^ 32 →
  wp (run_call I (CMalloc size)) (λ r k', sys_inv F k' (after_call (CMalloc size) r h) ∧ kept h k k') k.
Proof.
  intros Hinv Hs. pose proof (si_heap _ _ _ Hinv) as Hc0. pose proof Hc0 as (bs & Hrep & _).
  unfold run_call, on_heap. wp_step.
  destruct (proj1 (wp_inv _ _ _) (Kmalloc.kmalloc_spec size (k_heap k) bs Hrep Hs))
    as (r & hp & E & Hpay & _).
  eapply wp_eq; [exact E|]. split.
  2:{ split; [by intros a i|]. intros bs0 bs' w H0 _ Hw _. apply Hpay. by rewrite (heap_rep_unique _ _ _ Hrep H0). }
  pose proof (Kmalloc.kclient_step_inv _ _ Hc0 (Kmalloc.kclient_malloc _ _ size r (h_blocks h) Hs E)) as Hc.
  apply (sys_with_heap F k h hp _ Hinv) in Hc. unfold after_call. destruct (decide (r = Kmalloc.NULL)); [|exact Hc].
  by destruct h.
Qed.

Lemma free_safe F k h p :
  sys_inv F k h → p ∈ h_blocks h ∨ p = Kmalloc.NULL →
  wp (run_call I (CFree p)) (λ r k', sys_inv F k' (after_call (CFree p) r h) ∧ kept h k k') k.
Proof.
  intros Hinv Hp. pose proof (si_heap _ _ _ Hinv) as Hc0. unfold run_call, on_heap. wp_step. wp_step.
  assert (∃ hp, Kmalloc.kfree p (k_heap k) = Some (tt, hp) ∧ blocks_kept k (with_heap hp k)) as (hp & E & Hkept).
  { destruct Hp as [Hp| ->]; [|eexists; split; [done|by apply (kept_same h)]].
    destruct Hc0 as (bs & Hrep & _ & Hown). apply Hown in Hp.
    destruct (proj1 (wp_inv _ _ _) (Kmalloc.kfree_spec p _ bs Hrep (Kmalloc.alloc_has_block _ _ _ Hp)))
      as ([] & hp & E & Hrep' & Hpay). exists hp. split; [done|]. intros bs0 bs' w _ H' _ Hw. apply Hpay.
    apply Kmalloc.in_payload_coalesce. fold (Kmalloc.spec_kfree p bs). by rewrite (heap_rep_unique _ _ _ Hrep' H'). }
  eapply wp_eq; [exact E|]. wp_step. split; [|by split; [intros a i|]].
  apply (sys_with_heap F k h hp _ Hinv).
  exact (Kmalloc.kclient_step_inv _ _ Hc0 (Kmalloc.kclient_free _ _ p (h_blocks h) Hp E)).
Qed.

Lemma page_table_apart F k h p :
  sys_inv F k h → p ∈ F → ¬ Paging.is_table L (k_pmem k) (p * 4096).
Proof.
  intros Hinv Hp. pose proof (Paging.pg_tables _ _ _ (ki_paging _ _ _ (si_kernel _ _ _ Hinv))) as Htab.
  destruct (Paging.fresh_table L _ F p Htab Hp) as [Hne Hn].
  intros [E|(i & Hi & Hpr & E)]; [done|]. by destruct (Hn i Hi Hpr).
Qed.

Lemma alloc_page_safe F k h :
  sys_inv F k h →
  wp (run_call I CAllocPage) (λ r k', ∃ F', sys_inv F' k' (after_call CAllocPage r h) ∧ kept h k k' ∧
    (r = 0 ∧ F = ∅ ∧ F' = ∅ ∨ ∃ p, Paging.lowest p F ∧ r = p * 4096 ∧ F' = F ∖ {[p]})) k.
Proof.
  intros Hinv. pose proof Hinv as [H1 H2 H3 H4 H5 H6 H7]. unfold run_call, on_phys. wp_step.
  pose proof (ki_paging _ _ _ H1) as [_ _ Htab _ Hpool _].
  use_wp (phys_pool_alloc (k_phys k) F Hpool).
  intros r ph [(-> & -> & Hpool')|(p & Hp & Hmin & Hr & -> & Hpool')].
  - exists ∅. split; [|split; [by apply kept_same|by left]]. simpl. split; try done. by apply (kernel_with_phys ∅).
  - exists (F ∖ {[p]}). split; [|split; [by apply kept_same|right; by exists p]]. simpl. rewrite decide_False by lia. split; simpl; try done.
    + apply (kernel_with_phys F); [done|done|]. apply (tables_ok_free _ F); [done|]. set_solver.
    + intros q Hq. apply H2. set_solver.
    + intros a [->%elem_of_singleton|Ha]%elem_of_union; [exists p; split; [by apply H2|]; set_solver|].
      destruct (H3 a Ha) as (q & ? & ? & ?). exists q. set_solver.
    + intros a [->%elem_of_singleton|Ha]%elem_of_union; [by apply (page_table_apart F k h)|by apply H4].
Qed.

Lemma free_page_safe F k h a :
  sys_inv F k h → a ∈ h_pages h →
  wp (run_call I (CFreePage a)) (λ r k',
    sys_inv ({[a / 4096]} ∪ F) k' (after_call (CFreePage a) r h) ∧ kept h k k') k.
Proof.
  intros Hinv Ha. pose proof Hinv as [H1 H2 H3 H4 H5 H6 H7]. unfold run_call, on_phys. wp_step. wp_step.
  pose proof (ki_paging _ _ _ H1) as [_ _ Htab _ [Hrep Hlow] _]. destruct (H3 a Ha) as (p & Hp & -> & HpF).
  use_wp (Physical.physical_free_page_spec (p * 4096) (k_phys k) F Hrep); [lia|].
  intros _ ph Hrep'. change (p * 4096) with (p * Physical.PAGE_SIZE) in Hrep'.
  rewrite Physical.spec_free_usable in Hrep' by lia. rewrite Z.div_mul by lia. wp_step.
  split; [|by apply kept_same]. split; simpl; try done.
  - apply (kernel_with_phys F); [done| |].
    + split; [done|]. intros q [->%elem_of_singleton|Hq]%elem_of_union; [lia|by apply Hlow].
    + apply (tables_ok_free _ F); [done|]. intros q [->%elem_of_singleton|Hq]%elem_of_union; [right|by left].
      by apply H4.
  - intros q [->%elem_of_singleton|Hq]%elem_of_union; [done|by apply H2].
  - intros b [Hb Hne]%elem_of_difference. destruct (H3 b Hb) as (q & Hq & -> & HqF). exists q.
    split; [done|]. split; [done|]. intros [->%elem_of_singleton|?]%elem_of_union; [|done].
    apply Hne. by apply elem_of_singleton.
  - intros b [Hb _]%elem_of_difference. by apply H4.
Qed.

(** Below [KERNEL_SPACE] a frame is mapped at its own address. *)
Lemma low_self F k h p : sys_inv F k h → 0 ≤ p < 1024 → Paging.self pd (k_pmem k) (p * 4096).
Proof.
  intros Hinv Hp. destruct (si_low _ _ _ Hinv (p * 4096)) as (pte & Hw & Hf); [unfold KERNEL_SPACE; lia|].
  exists pte. split; [done|]. by rewrite Hf, Z.div_mul by lia.
Qed.

Lemma lowest_low F k h p :
  sys_inv F k h → low_page_free k → Paging.lowest p F → 0 ≤ p < 1024.
Proof.
  intros Hinv (q & Hq & Hfree) [Hp Hmin].
  pose proof (ki_paging _ _ _ (si_kernel _ _ _ Hinv)) as [_ _ _ _ [Hrep _] _].
  rewrite (Physical.bm_free _ _ (Physical.rep_bm _ _ Hrep)) in Hfree
    by (change Physical.PHYSICAL_PAGE_COUNT with 16384; lia).
  apply bool_decide_eq_true in Hfree. specialize (Hmin q Hfree).
  pose proof (si_free _ _ _ Hinv p Hp). lia.
Qed.

(** Mapping outside [KERNEL_SPACE] keeps what is below. *)
Lemma same_page_high va va' :
  KERNEL_SPACE ≤ va → 0 ≤ va' < KERNEL_SPACE → va' / 4096 ≠ va / 4096.
Proof.
  unfold KERNEL_SPACE. intros Hva Hva' E.
  assert (va' / 4096 < 1024) by (apply Z.div_lt_upper_bound; lia).
  assert (1024 ≤ va / 4096) by (apply Z.div_le_lower_bound; lia). lia.
Qed.

Lemma map_keeps_low (s s' : Paging.mmu Physical.phys Vga.vga) F va pa flags r va' :
  Paging.map_result L s F va pa flags r s' → KERNEL_SPACE ≤ va < 2 ^ 32 → 0 ≤ va' < KERNEL_SPACE →
  Paging.walk (Paging.mem s') pd va' = Paging.walk (Paging.mem s) pd va'.
Proof.
  intros Hres Hva Hva'. unfold Paging.map_result in Hres.
  destruct (decide (_ ∧ _)); [|by apply Hres]. destruct (decide (_ ∧ _)); [by apply Hres|].
  destruct (Paging.walk (Paging.mem s) pd va); [by apply Hres|]. destruct Hres as [_ Hw].
  rewrite Hw by (unfold KERNEL_SPACE in *; lia). rewrite decide_False; [done|]. apply same_page_high; lia.
Qed.

(** A paging call leaves the pages of the tasks alone. *)
Lemma mmu_kept F k h mm :
  sys_inv F k h → Paging.untouched L (k_pmem k) (Paging.mem mm) →
  (∀ a, a ∈ h_pages h → ¬ Paging.is_table L (Paging.mem mm) a) → kept h k (with_mmu mm k).
Proof.
  intros Hinv Hun Hnt. split; [|by intros bs bs' w].
  intros a i Ha Hi. apply Hun; [|done|by apply Hnt].
  destruct (si_pages _ _ _ Hinv a Ha) as (p & _ & -> & _). apply Z_mod_mult.
Qed.

Lemma map_safe F k h va pa flags :
  sys_inv F k h → may_call I (CMap va pa flags) k h →
  wp (run_call I (CMap va pa flags)) (λ r k', ∃ F', sys_inv F' k' h ∧ kept h k k' ∧
    Paging.map_result L (the_mmu k) F va pa flags r (the_mmu k') ∧ ∀ q, q ∈ F → q ∈ F' ∨ Paging.lowest q F) k.
Proof.
  intros Hinv [Hva Hreach]. pose proof Hinv as [H1 H2 H3 H4 H5 H6 H7]. unfold run_call, on_mmu. wp_step.
  assert (Paging.table_reachable L (the_mmu k) F va) as Hr.
  { destruct Hreach as [?|Hlow]; [by left|right]. intros p Hp Hmin. apply (low_self F k h); [done|].
    apply (lowest_low F k h); [done|done|by split]. }
  use_wp (Paging.paging_map_spec L (img_pages _ HI) (the_mmu k) F va pa flags);
    [apply (ki_paging _ _ _ H1)|unfold KERNEL_SPACE in Hva; lia|exact Hr|].
  intros r mm (F' & Hsub & Hok & Hres & Hun & Htaken & Htab). exists F'.
  assert (∀ a, a ∈ h_pages h → ¬ Paging.is_table L (Paging.mem mm) a) as Hnt.
  { intros a Ha Ht. destruct (Htab a Ht) as [_ [Ht'|(_ & Hin & _)]]; [by apply (H4 a Ha)|].
    destruct (H3 a Ha) as (p & _ & -> & Hp). by rewrite Z.div_mul in Hin. }
  split; [|by split; [apply (mmu_kept F)|]].
  split; [by apply (kernel_with_mmu F)| | |exact Hnt| | |exact H7].
  - intros p Hp. by apply H2, Hsub.
  - intros a Ha. destruct (H3 a Ha) as (p & ? & ? & ?). exists p. set_solver.
  - intros f Hf. destruct (Htab f Hf) as [_ [Ht'|[Hno Hlow]]]; [by apply H5|].
    destruct Hreach as [Hhas|Hfree]; [unfold has_table in Hhas; cbn in Hno; congruence|].
    apply (lowest_low F k h _ Hinv Hfree) in Hlow. unfold KERNEL_SPACE.
    pose proof (Z.div_mod f 4096 ltac:(lia)). pose proof (Z.mod_pos_bound f 4096). lia.
  - intros va' Hva'. change (k_pmem (with_mmu mm k)) with (Paging.mem mm).
    rewrite (map_keeps_low _ _ _ _ _ _ _ _ Hres Hva Hva'). by apply H6.
Qed.

Lemma unmap_keeps_low (s s' : Paging.mmu Physical.phys Vga.vga) va r va' :
  Paging.unmap_result L s va r s' → KERNEL_SPACE ≤ va < 2 ^ 32 → 0 ≤ va' < KERNEL_SPACE →
  Paging.walk (Paging.mem s') pd va' = Paging.walk (Paging.mem s) pd va'.
Proof.
  intros Hres Hva Hva'. unfold Paging.unmap_result in Hres.
  destruct (decide _); [|by apply Hres]. destruct (Paging.present _); [|by apply Hres].
  destruct (Paging.walk (Paging.mem s) pd va); [|by apply Hres]. destruct Hres as (_ & _ & Hw).
  rewrite Hw by (unfold KERNEL_SPACE in *; lia). rewrite decide_False; [done|]. apply same_page_high; lia.
Qed.

Lemma table_nonneg m f : Paging.is_table L m f → 0 ≤ f.
Proof.
  intros [->|(i & _ & _ & ->)]; [apply (Paging.pd_aligned L (img_pages _ HI))|apply Paging.frame_ok].
Qed.

Lemma unmap_safe F k h va :
  sys_inv F k h → KERNEL_SPACE ≤ va < 2 ^ 32 →
  wp (run_call I (CUnmap va)) (λ r k', sys_inv F k' h ∧ kept h k k' ∧
    Paging.unmap_result L (the_mmu k) va r (the_mmu k')) k.
Proof.
  intros Hinv Hva. pose proof Hinv as [H1 H2 H3 H4 H5 H6 H7]. unfold run_call, on_mmu. wp_step.
  use_wp (Paging.paging_unmap_spec L (img_pages _ HI) (the_mmu k) F va);
    [apply (ki_paging _ _ _ H1)|unfold KERNEL_SPACE in Hva; lia| |].
  { intros f Hf. apply same_page_high; [lia|]. split; [by apply (table_nonneg _ _ Hf)|by apply H5]. }
  intros r mm (Hok & Hres & Hun & Htab).
  assert (∀ a, a ∈ h_pages h → ¬ Paging.is_table L (Paging.mem mm) a) as Hnt
    by (intros a Ha Ht; by apply (H4 a Ha), Htab).
  split; [|by split; [apply (mmu_kept F)|]].
  split; [by apply (kernel_with_mmu F)|exact H2|exact H3|exact Hnt| | |exact H7].
  - intros f Hf. by apply H5, Htab.
  - intros va' Hva'. change (k_pmem (with_mmu mm k)) with (Paging.mem mm).
    rewrite (unmap_keeps_low _ _ _ _ _ Hres Hva Hva'). by apply H6.
Qed.

(** Every call a task may make returns, keeps the invariant and changes nothing
    that the tasks hold. *)
Lemma call_safe F k h c :
  sys_inv F k h → may_call I c k h →
  wp (run_call I c) (λ r k', ∃ F', sys_inv F' k' (after_call c r h) ∧ kept h k k') k.
Proof.
  intros Hinv Hmay. destruct c as [size|p| |a|va pa flags|va].
  - use_wp (malloc_safe F k h size Hinv Hmay). eauto.
  - use_wp (free_safe F k h p Hinv Hmay). eauto.
  - use_wp (alloc_page_safe F k h Hinv). intros r k' (F' & ? & ? & _). by exists F'.
  - use_wp (free_page_safe F k h a Hinv Hmay). eauto.
  - use_wp (map_safe F k h va pa flags Hinv Hmay). intros r k' (F' & ? & ? & _). by exists F'.
  - use_wp (unmap_safe F k h va Hinv Hmay). intros r k' (? & ? & _). by exists F.
Qed.

(** *** The other steps *)

(** Writing to a page that holds no table. *)
Lemma write_word_walk m f i v :
  f `mod` 4096 = 0 → ¬ Paging.is_table L m f → 0 ≤ i < 1024 →
  Paging.same_walk pd m (<[f + 4 * i := v]> m) ∧
  ∀ j, 0 ≤ j < 1024 → Paging.pde pd (<[f + 4 * i := v]> m) j = Paging.pde pd m j.
Proof.
  intros Hfm Hnt Hi. apply (Paging.walk_only_in pd (Paging.pd_aligned L (img_pages _ HI)) f).
  - intros g j Hg Hj Hne. rewrite getw_insert, decide_False; [done|]. intros E.
    destruct (Paging.word_inj f g i j) as [? _]; [done|done|lia|lia|done|congruence].
  - intros E. apply Hnt. by left.
  - intros j Hj Hpj E. apply Hnt. right. by exists j.
Qed.

Lemma write_word_safe F k h f i v :
  sys_inv F k h → f `mod` 4096 = 0 → ¬ Paging.is_table L (k_pmem k) f → 0 ≤ i < 1024 →
  sys_inv F (store_word (f + 4 * i) v k) h.
Proof.
  intros Hinv Hfm Hnt Hi. pose proof Hinv as [H1 H2 H3 H4 H5 H6 H7].
  set (m' := <[f + 4 * i := v]> (k_pmem k)).
  destruct (write_word_walk (k_pmem k) f i v Hfm Hnt Hi) as [Hw Hpde]. fold m' in Hw, Hpde.
  assert (∀ g, Paging.is_table L m' g → Paging.is_table L (k_pmem k) g) as Ht.
  { intros g [->|(j & Hj & Hpj & ->)]; [by left|right]. exists j. by rewrite <- Hpde. }
  pose proof H1 as [K1 K2 K3 K4 K5 [P1 P2 P3 P4 P5 P6]].
  split; [|exact H2|exact H3| | | |exact H7].
  - split; [exact K1|exact K2|exact K3|exact K4|exact K5|].
    split; [exact P1|exact P2| | |exact P5|exact P6].
    + by apply (same_walk_tables (k_pmem k)).
    + by apply (Paging.same_walk_coherent pd (k_pmem k)).
  - intros b Hb Hbt. by apply (H4 b Hb), Ht.
  - intros g Hg. by apply H5, Ht.
  - intros va Hva. change (k_pmem (store_word _ _ _)) with m'. rewrite Hw. by apply H6.
Qed.

Lemma write_page_safe F k h a i v :
  sys_inv F k h → a ∈ h_pages h → 0 ≤ i < 1024 → sys_inv F (store_word (a + 4 * i) v k) h.
Proof.
  intros Hinv Ha Hi. apply write_word_safe; [done| |by apply (si_tables _ _ _ Hinv)|done].
  destruct (si_pages _ _ _ Hinv a Ha) as (p & _ & -> & _). apply Z_mod_mult.
Qed.

Lemma quiet_safe F k h k' :
  sys_inv F k h → kernel_inv I F k' → quiet k k' → sys_inv F k' h ∧ kept h k k'.
Proof.
  intros [H1 H2 H3 H4 H5 H6 H7] Hk' (E1 & E2 & E3 & E4 & _). split; [|by apply kept_same].
  split; [done|done|done|by rewrite E4|by rewrite E4|by rewrite E4|by rewrite E2].
Qed.

(** The steps that are not a task's own writes leave alone what the tasks hold. *)
Inductive silent : kernel * holdings → kernel * holdings → Prop :=
| silent_kernel k k' h : kernel_step dev I k k' → silent (k, h) (k', h)
| silent_call c r k k' h :
    may_call I c k h → run_call I c k = Some (r, k') → silent (k, h) (k', after_call c r h).

Lemma silent_kept F k h k' h' :
  sys_inv F k h → silent (k, h) (k', h') → ∃ F', sys_inv F' k' h' ∧ kept h k k'.
Proof.
  intros Hinv Hs. inversion Hs as [? ? ? Hstep|c r ? ? ? Hmay Hrun]; subst.
  - destruct (step_inv dev I HI F k k' (si_kernel _ _ _ Hinv) Hstep) as [Hk' Hq].
    exists F. by apply quiet_safe.
  - exact (wp_run _ _ _ _ _ (call_safe F k h c Hinv Hmay) Hrun).
Qed.

Lemma sys_step_inv F k h k' h' :
  sys_inv F k h → sys_step dev I (k, h) (k', h') → ∃ F', sys_inv F' k' h'.
Proof.
  intros Hinv Hs. inversion Hs as [? ? ? Hstep|c r ? ? ? Hmay Hrun|? ? bs x v Hrep Hx|? ? a i v Ha Hi]; subst.
  - destruct (silent_kept F k h' k' h' Hinv) as (F' & H & _); [by constructor|eauto].
  - destruct (silent_kept F k h k' _ Hinv (silent_call _ _ _ _ _ Hmay Hrun)) as (F' & H & _). eauto.
  - exists F. pose proof (Kmalloc.kclient_step_inv _ _ (si_heap _ _ _ Hinv)
      (Kmalloc.kclient_write _ bs x v (h_blocks h') Hrep Hx)) as Hc.
    apply (sys_with_heap F k h' _ _ Hinv) in Hc. by destruct h'.
  - exists F. by apply write_page_safe.
Qed.

(** Booting establishes it. *)
Lemma boot_sys_inv k0 k1 :
  power_on k0 → kmain dev I k0 = Some (tt, k1) → sys_inv Physical.usable_pages k1 (mkHoldings ∅ ∅).
Proof.
  intros Hpo Hrun.
  apply (wp_run _ _ _ _ _ (kmain_spec dev I k0 HI Hpo)) in Hrun as (Hk & Hheap & _ & Hid & _).
  pose proof (img_pages _ HI) as HL. pose proof HL as [Hpd Hfirst _].
  split; simpl; [done|by intros p Hp%Physical.usable_range|by intros a Ha%elem_of_empty|
    by intros a Ha%elem_of_empty| | |].
  - intros f [->|(i & Hi & Hp & ->)]; [unfold KERNEL_SPACE; lia|].
    destruct Hid as [Hpde _]. rewrite Hpde in Hp |- * by done. case_decide; [|done].
    rewrite Paging.frame_flags, Paging.frame_id by lia. unfold KERNEL_SPACE. lia.
  - intros va Hva. unfold KERNEL_SPACE in Hva.
    rewrite (Paging.identity_walk L HL) by (done || lia). rewrite decide_True by lia. eexists. split; [done|].
    rewrite Paging.frame_flags. apply Paging.frame_id; [|apply Z_mod_mult].
    pose proof (Z.div_mod va 4096 ltac:(lia)). pose proof (Z.mod_pos_bound va 4096). lia.
  - exists [(Kmalloc.HEAP_SIZE - 16, true)]. split; [done|]. split; [done|]. simpl.
    intros q. rewrite elem_of_empty. intuition discriminate.
Qed.

Lemma sys_reachable_inv k h : reachable dev I (k, h) → ∃ F, sys_inv F k h.
Proof.
  intros (k0 & k1 & Hpo & Hrun & Hsteps). pose proof (boot_sys_inv k0 k1 Hpo Hrun) as Hinv.
  assert (∃ F, sys_inv F k1 (mkHoldings ∅ ∅)) as H by eauto. clear Hinv Hpo Hrun k0.
  remember (k1, mkHoldings ∅ ∅) as s1 eqn:E1. remember (k, h) as s eqn:E.
  assert (∃ F, sys_inv F s1.1 s1.2) as H1 by (by subst). clear H E1 k1.
  enough (∃ F, sys_inv F s.1 s.2) by (by subst). clear E k h.
  induction Hsteps as [|[ka ha] [kb hb] s Hstep _ IH]; [done|].
  apply IH. destruct H1 as [F H1]. by apply (sys_step_inv F ka ha).
Qed.

Lemma reachable_step s s' : reachable dev I s → sys_step dev I s s' → reachable dev I s'.
Proof.
  intros (k0 & k1 & Hpo & Hrun & Hsteps) Hs. exists k0, k1. split; [done|]. split; [done|].
  by eapply rtc_r.
Qed.
End invariant.

(** ** Properties *)

(** C6. In every state the system can reach, through any interrupts, scheduler
    calls, output, memory calls of the tasks and writes to what they hold:
    the kernel's invariant holds; free pages, page tables and the pages the tasks
    hold are apart, and all pages handed out lie between 2 MiB and 64 MiB; the CPU
    still translates every address of the kernel's first 4 MiB to itself; and the
    tasks hold exactly the allocated blocks of the heap. *)
Theorem system_invariant dev I k h :
  image_ok I → reachable dev I (k, h) →
  ∃ F, kernel_inv I F k ∧
    (∀ p, p ∈ F → 512 ≤ p < 16384) ∧
    (∀ a, a ∈ h_pages h → a `mod` 4096 = 0 ∧ 0x200000 ≤ a < 0x4000000 ∧ (a / 4096 ∉ F) ∧
       ¬ Paging.is_table (page_layout I) (k_pmem k) a) ∧
    (∀ f, Paging.is_table (page_layout I) (k_pmem k) f → f / 4096 ∉ F) ∧
    (∀ va, 0 ≤ va < KERNEL_SPACE → option_map fst (Paging.translate va (the_mmu k)) = Some va) ∧
    ∃ bs, Kmalloc.heap_rep (k_heap k) bs ∧
      ∀ q, q ∈ h_blocks h ↔ Kmalloc.alloc_at Kmalloc.heap_start q bs.
Proof.
  intros HI Hr. destruct (sys_reachable_inv dev I HI k h Hr) as (F & [H1 H2 H3 H4 H5 H6 H7]). exists F.
  pose proof (ki_paging _ _ _ H1) as Hok.
  split; [done|]. split; [done|]. split; [|split; [|split]].
  - intros a Ha. destruct (H3 a Ha) as (p & Hp & Ea & HpF). specialize (H4 a Ha). subst a.
    rewrite Z.div_mul by lia. split; [apply Z_mod_mult|]. split; [lia|done].
  - intros f [->|(i & Hi & Hp & ->)]; by apply (Paging.pg_tables _ _ _ Hok).
  - intros va Hva. destruct (H6 va Hva) as (pte & Hw & Hf).
    pose proof (Paging.translate_walk _ (img_pages _ HI) (the_mmu k) F va Hok
      ltac:(unfold KERNEL_SPACE in Hva; lia)) as Ht.
    cbn [Paging.mem the_mmu] in Ht. rewrite Hw in Ht. apply wp_inv in Ht as (pa & s' & -> & -> & _).
    simpl. f_equal. rewrite Hf. pose proof (Z.div_mod va 4096 ltac:(lia)). lia.
  - destruct H7 as (bs & Hrep & _ & Hown). by exists bs.
Qed.

Lemma demo_sys_reachable : reachable demo_device demo_image (demo_running, mkHoldings ∅ ∅).
Proof.
  destruct (wp_final _ _ _ (kmain_spec demo_device demo_image demo_kernel demo_image_ok demo_power_on))
    as ([] & E & _).
  exists demo_kernel, demo_running. split; [exact demo_power_on|]. split; [exact E|constructor].
Qed.

Lemma system_invariant_witness :
  reachable demo_device demo_image (demo_running, mkHoldings ∅ ∅) ∧
  option_map fst (Paging.translate 0x9000 (the_mmu demo_running)) = Some 0x9000.
Proof.
  split; [exact demo_sys_reachable|].
  destruct (system_invariant demo_device demo_image demo_running (mkHoldings ∅ ∅) demo_image_ok demo_sys_reachable)
    as (F & _ & _ & _ & _ & Ht & _).
  apply Ht. unfold KERNEL_SPACE. lia.
Defined.

(** C2. The system never gets stuck: in every reachable state each call of the
    memory manager that a task may make returns, and any interrupt the CPU can take
    is handled to its end; both lead to reachable states.  The frame an interrupt
    returns to lies on the stack of the task that is then current and on no other,
    and after an exception or a device interrupt other than the timer's, the
    interrupted code goes on with every register as it was. *)
Theorem system_never_stuck dev I k h :
  image_ok I → reachable dev I (k, h) →
  (∀ c, may_call I c k h →
     ∃ r k', run_call I c k = Some (r, k') ∧ reachable dev I (k', after_call c r h)) ∧
  (∀ n e c, can_take I n c k →
     ∃ q k', take_interrupt dev n e c k = Some (q, k') ∧ reachable dev I (k', h) ∧
       (∃ cur, Scheduler.curTask (k_sched k') = Some cur ∧ Scheduler.on_stack (sched_layout I) cur q ∧
          ∀ r, r ≠ cur → is_Some (Scheduler.task_of (k_sched k') r) →
            ¬ Scheduler.on_stack (sched_layout I) r q) ∧
       (n ∉ [32; 49; 50] → 0 ≤ r_esp c < 2 ^ 32 → isr_return (Scheduler.stacks (k_sched k')) q = c)).
Proof.
  intros HI Hr. destruct (sys_reachable_inv dev I HI k h Hr) as (F & Hinv). split.
  - intros c Hmay. destruct (proj1 (wp_inv _ _ _) (call_safe I HI F k h c Hinv Hmay)) as (r & k' & E & _).
    exists r, k'. split; [done|]. by eapply reachable_step; [|apply sys_call].
  - intros n e c Hcan.
    destruct (interrupt_resumes dev I HI F n e c k (si_kernel _ _ _ _ Hinv) Hcan) as (q & k' & E & Hon & Hret).
    exists q, k'. split; [done|]. split; [|by split].
    eapply reachable_step; [done|]. apply sys_kernel. by eapply step_interrupt.
Qed.

Lemma system_never_stuck_witness :
  reachable demo_device demo_image (demo_running, mkHoldings ∅ ∅) ∧
  ∃ r k', run_call demo_image (CMalloc 100) demo_running = Some (r, k').
Proof.
  split; [exact demo_sys_reachable|].
  destruct (system_never_stuck demo_device demo_image demo_running (mkHoldings ∅ ∅) demo_image_ok demo_sys_reachable)
    as [Hcall _].
  destruct (Hcall (CMalloc 100)) as (r & k' & E & _); [simpl; lia|]. exact (ex_intro _ r (ex_intro _ k' E)).
Defined.

(** C7. What a task holds is its own: no step of the kernel (an interrupt with
    whatever it switches to, a scheduler call, output) and no call of the memory
    manager by any task changes a word of a page that is held, nor of the payload of
    a heap block that is allocated before and after it. *)
Theorem held_memory_preserved dev I k h k' h' :
  image_ok I → reachable dev I (k, h) → silent dev I (k, h) (k', h') →
  (∀ a i, a ∈ h_pages h → 0 ≤ i < 1024 → getw (k_pmem k') (a + 4 * i) = getw (k_pmem k) (a + 4 * i)) ∧
  (∀ bs bs' w, Kmalloc.heap_rep (k_heap k) bs → Kmalloc.heap_rep (k_heap k') bs' →
     Kmalloc.in_payload Kmalloc.heap_start bs w → Kmalloc.in_payload Kmalloc.heap_start bs' w →
     Kmalloc.mem (k_heap k') !! w = Kmalloc.mem (k_heap k) !! w).
Proof.
  intros HI Hr Hs. destruct (sys_reachable_inv dev I HI k h Hr) as (F & Hinv).
  by destruct (silent_kept dev I HI F k h k' h' Hinv Hs) as (F' & _ & ?).
Qed.

(** A page is allocated, then a block: the page keeps its contents. *)
Lemma held_memory_preserved_witness :
  ∃ r k1 r2 k2, run_call demo_image CAllocPage demo_running = Some (r, k1) ∧
    run_call demo_image (CMalloc 100) k1 = Some (r2, k2) ∧
    ∀ i, r ≠ 0 → 0 ≤ i < 1024 → getw (k_pmem k2) (r + 4 * i) = getw (k_pmem k1) (r + 4 * i).
Proof.
  destruct (sys_reachable_inv demo_device demo_image demo_image_ok _ _ demo_sys_reachable) as (F & Hinv).
  destruct (proj1 (wp_inv _ _ _) (call_safe demo_image demo_image_ok F _ _ CAllocPage Hinv Logic.I))
    as (r & k1 & E1 & F1 & Hinv1 & _).
  destruct (proj1 (wp_inv _ _ _) (call_safe demo_image demo_image_ok F1 _ _ (CMalloc 100) Hinv1 ltac:(simpl; lia)))
    as (r2 & k2 & E2 & _).
  exists r, k1, r2, k2. split; [exact E1|]. split; [exact E2|]. intros i Hr Hi.
  refine (proj1 (held_memory_preserved demo_device demo_image k1 (after_call CAllocPage r (mkHoldings ∅ ∅)) k2 _
    demo_image_ok _ (silent_call _ _ _ _ _ _ _ _ E2)) r i _ Hi).
  - exact (reachable_step _ _ _ _ demo_sys_reachable (sys_call _ _ CAllocPage _ _ _ _ Logic.I E1)).
  - simpl. lia.
  - unfold after_call. rewrite decide_False by exact Hr. apply elem_of_union_l, elem_of_singleton. reflexivity.
Defined.

(** All stacks lie in the kernel's low memory. *)
Lemma stack_range I r a :
  image_ok I → (∃ s t, length (Scheduler.tasks s) = 16%nat ∧ Scheduler.task_of s r = Some t) →
  Scheduler.on_stack (sched_layout I) r a → 0x9000 ≤ a < 0xA0000.
Proof.
  intros HI (s & t & Hl & Ht). pose proof (img_sched _ HI) as [H1 H2 _].
  unfold Scheduler.on_stack, Scheduler.stack_base, Scheduler.stack_size.
  change Scheduler.MAX_USER_TASKS with 15 in H1. change Scheduler.STACK_SIZE with 4096 in *.
  destruct r as [i|]; [|lia]. apply aget_range in Ht. rewrite Hl in Ht. case_decide; lia.
Qed.

(** C36. The statics of the kernel keep the shape and range of their C types: in every
    reachable state the bitmap has its 512 words of 32 bits, [freePages] is at most the
    number of pages from 2 MiB on, the terminal has 1000 lines of 80 cells, the cursor is on a line and a
    column of them and the viewport on 25 lines that exist, the colour is a byte, the
    tick counters and [nextTaskID] are in range, there are 16 tasks, and the stack
    pointer saved for a task that can be resumed lies in the kernel's low memory. *)
Theorem kernel_well_typed dev I k h :
  image_ok I → reachable dev I (k, h) →
  let ph := k_phys k in let v := k_vga k in let s := k_sched k in
  (length (Physical.pageBitMap ph) = 512%nat ∧ Forall (λ w, 0 ≤ w < 2 ^ 32) (Physical.pageBitMap ph) ∧
   0 ≤ Physical.freePages ph ≤ 15872) ∧
  (length (Vga.terminalBuffer v) = 1000%nat ∧ Forall (λ l, length l = 80%nat) (Vga.terminalBuffer v) ∧
   length (Vga.screen v) = 2000%nat ∧ 0 ≤ Vga.cursorX v < 80 ∧ 0 ≤ Vga.cursorY v < 1000 ∧
   0 ≤ Vga.viewportY v ≤ 975 ∧ 0 ≤ Vga.vgaColor v < 256) ∧
  0 ≤ k_ticks k < 2 ^ 32 ∧
  (length (Scheduler.tasks s) = 16%nat ∧ 1 ≤ Scheduler.nextTaskID s ≤ 16 ∧
   0 ≤ Scheduler.schedulerTicks s < Scheduler.TIME_SLICE_MS ∧
   ∀ r t, Scheduler.task_of s r = Some t → Scheduler.curTask s ≠ Some r →
     Scheduler.state t = Scheduler.TASK_READY ∨ Scheduler.state t = Scheduler.TASK_BLOCKED →
     0x9000 ≤ Scheduler.esp t < 0xA0000).
Proof.
  intros HI Hr. destruct (sys_reachable_inv dev I HI k h Hr) as (F & Hinv). pose proof (si_kernel _ _ _ _ Hinv) as [Hs [Hv _] Ht _ _ Hp].
  destruct (Paging.pg_rep _ _ _ Hp) as [[[Hlen Hwords Hsub _] Hcount] Hlow]. cbn [the_mmu Paging.pages_of] in *.
  pose proof Hv as [[Hr1 Hr2] Hscr Hx Hy Hview Hcol _]. destruct Hs as [[Hl Hrun _ Hnext _ _ Hticks Hesp] _].
  split; [|split; [|split; [done|]]].
  - split; [change Physical.BITMAP_WORD_COUNT with 512 in Hlen; lia|]. split; [done|]. rewrite Hcount. split; [lia|].
    assert (F ⊆ Physical.usable_pages) as Hle%subseteq_size
      by (intros p Hpin; apply Physical.usable_range; by apply (si_free _ _ _ _ Hinv)).
    unfold Physical.usable_pages in Hle. rewrite Physical.size_pages in Hle.
    change (Z.to_nat (Physical.PHYSICAL_PAGE_COUNT - 512)) with (Z.to_nat 15872) in Hle. lia.
  - split_and!; try done; try lia. apply Forall_lookup_2. intros i l Hi. apply (Hr2 (Z.of_nat i)).
    apply aget_Some. split; [lia|]. by rewrite Nat2Z.id.
  - split; [done|]. split; [done|]. split; [done|]. intros r t Hrt Hne Hst.
    apply (stack_range I r); [done|by exists (k_sched k), t|by apply Hesp].
Qed.

(** The booted machine. *)
Lemma kernel_well_typed_witness :
  reachable demo_device demo_image (demo_running, mkHoldings ∅ ∅) ∧
  0 ≤ Vga.cursorX (k_vga demo_running) < 80 ∧ length (Scheduler.tasks (k_sched demo_running)) = 16%nat.
Proof.
  split; [exact demo_sys_reachable|].
  destruct (kernel_well_typed demo_device demo_image demo_running (mkHoldings ∅ ∅) demo_image_ok demo_sys_reachable)
    as (_ & (_ & _ & _ & Hx & _) & _ & Hl & _).
  exact (conj Hx Hl).
Defined.

End System.
