(* ===== verification/Tests.v ===== *)
(** * The kernel's tests (src/kernel/tests)

    The test programs that [kmain] runs when it is built with KERNEL_TESTS, on the
    kernel's whole state.  Each test gets a result that its C function does not
    have: the exit that it takes.  The tests of the heap, of paging and of the page
    allocator are complete; of the scheduler's test, the part that creates the tasks,
    whose bodies are in Tasks.v. *)

From S2P Require Import Prelude Physical Kmalloc Isr Io Scheduler Vga Interfaces Paging Drivers Idt Kernel System.
Import Io Isr Kernel System.

Module Tests.

(** How a test ends: after its last check, at a failed one, or in an endless loop. *)
Inductive verdict : Type := Passed | Failed | Hangs.

(** ** common/test_output.c *)

Definition VGA_GREEN : Z := 2.
Definition VGA_RED : Z := 4.

Section tests.
(** [va]: the argument pointer that [test_pass] and [test_fail] hand on as if it were
    the first argument.  [entry]: where the linker puts a function. *)
Context (I : image) (va : Z) (entry : string → Z).

Definition say (str : string) (args : list Vga.va_arg) : M kernel unit :=
  _ ← on_vga (Vga.fvga_write (cstr str) args); mret tt.

Definition test_pass (format : string) : M kernel unit :=
  _ ← on_vga (Vga.vga_set_color VGA_GREEN Vga.VGA_BLACK);
  _ ← say format [Vga.VWord va];
  on_vga (Vga.vga_set_color Vga.VGA_WHITE Vga.VGA_BLACK).
Definition test_fail (format : string) : M kernel unit :=
  _ ← on_vga (Vga.vga_set_color VGA_RED Vga.VGA_BLACK);
  _ ← say format [Vga.VWord va];
  on_vga (Vga.vga_set_color Vga.VGA_WHITE Vga.VGA_BLACK).

(** ** mm/test_kmalloc.c *)

Definition alloc (size : Z) : M kernel Z := on_heap (Kmalloc.kmalloc size).
Definition free (p : Z) : M kernel unit := on_heap (Kmalloc.kfree p).
(** [*p = v], and [*p != v || ...]. *)
Definition put (p v : Z) : M kernel unit := on_heap (Kmalloc.store32 p v).
Fixpoint differs (l : list (Z * Z)) : M kernel bool :=
  match l with
  | [] => mret false
  | (p, v) :: l => w ← on_heap (Kmalloc.load32 p); if w =? v then differs l else mret true
  end.
Definition free_all (l : list Z) : M kernel unit := mfor l free.

Definition kmalloc_test : M kernel verdict :=
  _ ← say "kmalloc: starting tests...\n" [];
  (* Test 1 *)
  a ← alloc 64;
  if a =? Kmalloc.NULL then
    _ ← say "kmalloc: FAIL - basic allocation\n" []; mret Failed
  else
  _ ← put a 0x12345678;
  _ ← put (a + 4) 0xDEADBEEF;
  bad ← differs [(a, 0x12345678); (a + 4, 0xDEADBEEF)];
  if (bad : bool) then
    _ ← say "kmalloc: FAIL - basic read/write\n" []; _ ← free a; mret Failed
  else
  _ ← test_pass "kmalloc: basic allocation OK\n";
  (* Test 2 *)
  b ← alloc 128;
  c ← alloc 256;
  if (b =? Kmalloc.NULL) || (c =? Kmalloc.NULL) then
    _ ← test_fail "kmalloc: FAIL - multiple allocations\n";
    _ ← when (negb (b =? Kmalloc.NULL)) (free b);
    _ ← when (negb (c =? Kmalloc.NULL)) (free c);
    _ ← free a; mret Failed
  else
  _ ← put b 111;
  _ ← put c 222;
  bad ← differs [(b, 111); (c, 222)];
  if (bad : bool) then
    _ ← test_fail "kmalloc: FAIL - multiple allocation data\n        ";
    _ ← free_all [a; b; c]; mret Failed
  else
  _ ← test_pass "kmalloc: multiple allocations OK\n";
  (* Test 3 *)
  _ ← put a 10;
  _ ← put b 20;
  _ ← put c 30;
  bad ← differs [(a, 10); (b, 20); (c, 30)];
  if (bad : bool) then
    _ ← test_fail "kmalloc: FAIL - allocation overlap\n"; _ ← free_all [a; b; c]; mret Failed
  else
  _ ← test_pass "kmalloc: isolation OK\n";
  (* Test 4 *)
  _ ← free b;
  d ← alloc 128;
  if d =? Kmalloc.NULL then
    _ ← test_fail "kmalloc: FAIL - allocation after free\n"; _ ← free_all [a; c]; mret Failed
  else
  _ ← put d 444;
  bad ← differs [(d, 444)];
  if (bad : bool) then
    _ ← test_fail "kmalloc: FAIL - reuse after free\n"; _ ← free_all [a; c; d]; mret Failed
  else
  _ ← test_pass "kmalloc: free/reuse OK\n";
  _ ← free_all [a; c; d];
  _ ← test_pass "kmalloc: ALL TESTS PASSED!\n";
  mret Passed.

(** ** mm/test_paging.c *)

(** Memory accesses of a program: through the page tables. *)
Definition read (a : Z) : M kernel Z := on_mmu (Paging.load a).
Definition write (a v : Z) : M kernel unit := on_mmu (Paging.store a v).

(** From the check of the new mapping on. *)
Definition paging_test_mapped (testVirtual testPhysical : Z) : M kernel verdict :=
  _ ← say "8. testing virtual address %x\n" [Vga.VWord testVirtual];
  x ← read testVirtual;
  if negb (x =? 0xCAFEBABE) then
    y ← read testVirtual; _ ← say "8. virtual read: FAILED, got %x\n" [Vga.VWord y]; mret Hangs
  else
  _ ← say "8. virtual read: OK\n" [];
  _ ← write testVirtual 0xDEADBEEF;
  x ← read testPhysical;
  if negb (x =? 0xDEADBEEF) then
    y ← read testPhysical; _ ← say "9. virtual write: FAILED, physical=%x\n" [Vga.VWord y]; mret Hangs
  else
  _ ← say "9. virtual write: OK\n" [];
  result ← on_mmu (Paging.paging_unmap (page_layout I) testVirtual);
  _ ← say "10. paging_unmap returned: %d\n" [Vga.VWord (u32 result)];
  if negb (result =? 0) then
    _ ← say "10. paging_unmap: FAILED\n" []; mret Hangs
  else
  _ ← say "10. paging_unmap: OK\n" [];
  _ ← on_phys (Physical.physical_free_page testPhysical);
  _ ← say "11. physical page freed: OK\n" [];
  _ ← say "=== PAGING TEST COMPLETE ===\n" [];
  mret Passed.

Definition paging_test : M kernel verdict :=
  _ ← say "\n=== PAGING TEST START ===\n" [];
  _ ← say "1. paging_init: OK\n" [];
  let identity := 0x200000 in
  _ ← write identity 0x12345678;
  x ← read identity;
  if negb (x =? 0x12345678) then
    _ ← say "1. identity mapping: FAILED\n" []; mret Hangs
  else
  _ ← say "2. identity mapping: OK\n" [];
  testPhysical ← on_phys Physical.physical_alloc_page;
  _ ← say "3. allocated physical page: %x\n" [Vga.VWord testPhysical];
  if testPhysical =? 0 then
    _ ← say "3. physical allocation: FAILED\n" []; mret Hangs
  else if negb (Z.land testPhysical (Paging.PAGE_SIZE - 1) =? 0) then
    _ ← say "4. physical alignment: FAILED (%x)\n" [Vga.VWord testPhysical]; mret Hangs
  else
  _ ← say "4. physical alignment: OK\n" [];
  _ ← write testPhysical 0xCAFEBABE;
  _ ← say "5. physical page access: OK\n" [];
  let testVirtual := 0x400000 in
  _ ← say "6. mapping %x -> %x\n" [Vga.VWord testVirtual; Vga.VWord testPhysical];
  result ← on_mmu (Paging.paging_map (page_layout I) testVirtual testPhysical Paging.PAGE_WRITABLE);
  _ ← say "7. paging_map returned: %d\n" [Vga.VWord (u32 result)];
  if negb (result =? 0) then
    _ ← say "7. paging_map: FAILED\n" []; mret Hangs
  else
  _ ← say "7. paging_map: OK\n" [];
  paging_test_mapped testVirtual testPhysical.

(** ** mm/test_physical.c *)

Definition physical_test : M kernel verdict :=
  a ← on_phys Physical.physical_alloc_page;
  b ← on_phys Physical.physical_alloc_page;
  c ← on_phys Physical.physical_alloc_page;
  _ ← say "physical test:\n" [];
  _ ← say "  a = %x\n" [Vga.VWord a];
  _ ← say "  b = %x\n" [Vga.VWord b];
  _ ← say "  c = %x\n" [Vga.VWord c];
  if (a =? 0) || (b =? 0) || (c =? 0) then
    _ ← test_fail "  FAIL: allocation returned 0\n"; mret Failed
  else if negb (Z.land a 0xFFF =? 0) || negb (Z.land b 0xFFF =? 0) || negb (Z.land c 0xFFF =? 0) then
    _ ← test_fail "  FAIL: page is not aligned\n"; mret Failed
  else if (a =? b) || (a =? c) || (b =? c) then
    _ ← test_fail "  FAIL: duplicate page\n"; mret Failed
  else if (a <? 0x200000) || (b <? 0x200000) || (c <? 0x200000) then
    _ ← test_fail "  FAIL: page overlaps heap\n"; mret Failed
  else
  _ ← on_phys (Physical.physical_free_page b);
  d ← on_phys Physical.physical_alloc_page;
  _ ← say "  d = %x\n" [Vga.VWord d];
  if negb (d =? b) then
    _ ← test_fail "  FAIL: freed page was not reused\n"; mret Failed
  else
  _ ← test_pass "PHYSICAL TEST  PASS\n";
  mret Passed.

(** ** scheduler/test_scheduler.c *)

(** [if (task_create(f) < 0) test_fail(message)] *)
Definition create (f message : string) : M kernel verdict :=
  r ← on_sched (Scheduler.task_create (sched_layout I) (entry f));
  if r <? 0 then _ ← test_fail message; mret Failed else mret Passed.

(** The results are [blockerID] and how each creation went.  Nothing interrupts it here;
    [Tasks.scheduler_test] is the same function, interrupted anywhere. *)
Definition scheduler_test : M kernel (Z * list verdict) :=
  _ ← say "\n" [];
  _ ← say "==============================\n" [];
  _ ← say "Starting scheduler tests...\n" [];
  _ ← say "==============================\n" [];
  r ← on_sched (Scheduler.task_create (sched_layout I) (entry "blocker"));
  let blockerID := u32 r in
  v0 ← (if blockerID =? u32 (-1) then _ ← test_fail "create blocker task\n"; mret Failed else mret Passed);
  v1 ← create "waker" "create waker task\n";
  v2 ← create "monitor" "create preemption monitor\n";
  v3 ← create "task_a" "create task A\n";
  v4 ← create "task_b" "create task B\n";
  v5 ← create "spawner" "create spawner task\n";
  v6 ← create "yield_task_a" "create yield task A\n";
  v7 ← create "yield_task_b" "create yield task B\n";
  v8 ← create "yield_test_monitor" "create yield monitor\n";
  v9 ← create "test_result" "\n=== FAILED TO CREATE TEST RESULT TASK ===\n";
  mret (blockerID, [v0; v1; v2; v3; v4; v5; v6; v7; v8; v9]).

(** ** tests.c *)

(** None of a later test when [paging_test] hangs.  [kmain] has enabled interrupts
    before; this is the run in which none comes. *)
Definition kernel_tests_run : M kernel (list verdict) :=
  _ ← say "\n=== KERNEL TESTS ===\n" [];
  v1 ← kmalloc_test;
  v2 ← paging_test;
  match v2 with
  | Hangs => mret [v1; Hangs]
  | _ =>
      v3 ← physical_test;
      '(_, vs) ← scheduler_test;
      _ ← say "=== TESTS COMPLETE ===\n" [];
      mret (v1 :: v2 :: v3 :: vs)
  end.

End tests.

(** ** Output *)

Lemma wp_say str args (Q : unit → kernel → Prop) k :
  is_Some (Vga.format (cstr str) args) → Vga.settled (k_vga k) →
  (∀ v, Vga.settled v → Q tt (with_vga v k)) → wp (say str args) Q k.
Proof.
  intros [cs Hcs] Hs HQ. unfold say, on_vga. wp_step. wp_step.
  use_wp (Vga.fvga_write_spec (cstr str) args cs (set_eflags (k_eflags k) (k_vga k)));
    [apply settled_eflags, Hs|done|].
  intros n v (_ & (_ & [_ Hfl] & _) & Hv). wp_step. rewrite with_vga_eflags by exact Hfl. by apply HQ.
Qed.

Lemma wp_color fg bg (Q : unit → kernel → Prop) k :
  Vga.settled (k_vga k) → (∀ v, Vga.settled v → Q tt (with_vga v k)) →
  wp (on_vga (Vga.vga_set_color fg bg)) Q k.
Proof.
  intros Hs HQ. unfold on_vga, Vga.vga_set_color. do 2 wp_step. rewrite with_vga_eflags by done.
  apply HQ, Vga.set_color_settled, settled_eflags, Hs.
Qed.

Lemma wp_test_pass va str (Q : unit → kernel → Prop) k :
  37 ∉ cstr str → Vga.settled (k_vga k) →
  (∀ v, Vga.settled v → Q tt (with_vga v k)) → wp (test_pass va str) Q k.
Proof.
  intros Hn Hs HQ. unfold test_pass. wp_step. apply wp_color; [done|]. intros v1 H1.
  wp_step. apply wp_say; [by rewrite format_plain|done|]. intros v2 H2.
  apply wp_color; [done|]. intros v3 H3. by apply HQ.
Qed.

(** ** The test of the heap *)

(** [heap_phase k0 bs k]: as [k0] but for the screen and the heap, which has blocks
    [bs]. *)
Definition heap_phase (k0 : kernel) (bs : list Kmalloc.block) (k : kernel) : Prop :=
  Vga.settled (k_vga k) ∧ Kmalloc.heap_rep (k_heap k) bs ∧ k = with_heap (k_heap k) (with_vga (k_vga k) k0).

Section heap.
Context (k0 : kernel) (bs : list Kmalloc.block) (k : kernel) (Hk : heap_phase k0 bs k).

Lemma phase_vga v : Vga.settled v → heap_phase k0 bs (with_vga v k).
Proof. destruct Hk as (_ & Hr & E). intros Hv. split; [done|]. split; [done|]. by rewrite E. Qed.
Lemma phase_heap bs' hp : Kmalloc.heap_rep hp bs' → heap_phase k0 bs' (with_heap hp k).
Proof. destruct Hk as (Hv & _ & E). intros Hr. split; [done|]. split; [done|]. by rewrite E. Qed.

Lemma phase_say str (Q : unit → kernel → Prop) :
  37 ∉ cstr str → (∀ k', heap_phase k0 bs k' → Q tt k') → wp (say str []) Q k.
Proof.
  intros Hn HQ. apply wp_say; [by rewrite format_plain|apply Hk|]. intros v Hv. by apply HQ, phase_vga.
Qed.
Lemma phase_pass va str (Q : unit → kernel → Prop) :
  37 ∉ cstr str → (∀ k', heap_phase k0 bs k' → Q tt k') → wp (test_pass va str) Q k.
Proof. intros Hn HQ. apply wp_test_pass; [done|apply Hk|]. intros v Hv. by apply HQ, phase_vga. Qed.

Lemma phase_alloc size p bs' (Q : Z → kernel → Prop) :
  0 ≤ size < 2 ^ 32 → Kmalloc.spec_kmalloc size bs = Some (p, bs') →
  (∀ k', heap_phase k0 bs' k' → Q p k') → wp (alloc size) Q k.
Proof.
  intros Hs Hsp HQ. unfold alloc, on_heap. wp_step.
  use_wp (Kmalloc.kmalloc_spec size (k_heap k) bs); [apply Hk|done|].
  intros q hp [_ H]. rewrite Hsp in H. destruct H as [-> Hr]. by apply HQ, phase_heap.
Qed.
Lemma phase_free p bs' (Q : unit → kernel → Prop) :
  Kmalloc.has_block Kmalloc.heap_start p bs → Kmalloc.spec_kfree p bs = bs' →
  (∀ k', heap_phase k0 bs' k' → Q tt k') → wp (free p) Q k.
Proof.
  intros Hb <- HQ. unfold free, on_heap. wp_step.
  use_wp (Kmalloc.kfree_spec p (k_heap k) bs); [apply Hk|done|]. intros [] hp [Hr _]. by apply HQ, phase_heap.
Qed.
Lemma phase_put p v (Q : unit → kernel → Prop) :
  Kmalloc.in_heap p = true → Kmalloc.in_payload Kmalloc.heap_start bs p →
  (∀ k', heap_phase k0 bs k' → Kmalloc.mem (k_heap k') = <[p := v]> (Kmalloc.mem (k_heap k)) → Q tt k') →
  wp (put p v) Q k.
Proof.
  intros Hin Hp HQ. unfold put, on_heap, Kmalloc.store32. rewrite Hin. do 2 wp_step. apply HQ; [|done].
  apply phase_heap. destruct Hk as (_ & [H1 H2 H3] & _). split; [done|done|].
  apply Kmalloc.seg_payload_write; [done|lia|done|done].
Qed.
End heap.

Lemma wp_differs l (Q : bool → kernel → Prop) k :
  Forall (λ '(p, v), Kmalloc.in_heap p = true ∧ getw (Kmalloc.mem (k_heap k)) p = v) l →
  Q false k → wp (differs l) Q k.
Proof.
  induction 1 as [|[p v] l [Hp Hv] _ IH]; intros HQ; cbn [differs]; [by wp_step|].
  unfold on_heap at 1, Kmalloc.load32. rewrite Hp. wp_step. do 2 wp_step. rewrite Hv, Z.eqb_refl.
  replace (with_heap (k_heap k) k) with k by (by destruct k). by apply IH.
Qed.

(** The steps of the test, on a heap whose blocks are known. *)
Ltac in_block := cbn [Kmalloc.in_payload]; first [left; split; [reflexivity|vm_compute; split; congruence]|right; in_block].
Ltac plain_text := by apply (bool_decide_unpack _).
Ltac heap_step H :=
  wp_step;
  lazymatch goal with
  | |- wp (say _ _) _ _ => eapply (phase_say _ _ _ H); [plain_text|]
  | |- wp (test_pass _ _) _ _ => eapply (phase_pass _ _ _ H); [plain_text|]
  | |- wp (alloc _) _ _ => eapply (phase_alloc _ _ _ H); [lia|vm_compute; reflexivity|]
  | |- wp (free _) _ _ => eapply (phase_free _ _ _ H); [cbn; tauto|vm_compute; reflexivity|]
  | |- wp (put _ _) _ _ => eapply (phase_put _ _ _ H); [reflexivity|in_block|]
  end; clear H; intros ? H.

(** A test of a pointer, and reading back what was stored. *)
Ltac heap_cond :=
  lazymatch goal with |- wp (if ?b then _ else _) _ _ => change b with false; cbv iota end.
Ltac heap_check :=
  wp_step; apply wp_differs;
  [repeat apply Forall_cons_2; try apply Forall_nil_2; (split; [reflexivity|]);
   repeat match goal with M : Kmalloc.mem _ = _ |- _ => rewrite M; clear M end;
   rewrite ?getw_insert; repeat (case_decide; try done)
  |cbv iota].

Lemma kmalloc_test_spec va k :
  Vga.settled (k_vga k) → Kmalloc.heap_rep (k_heap k) [(Kmalloc.HEAP_SIZE - 16, true)] →
  wp (kmalloc_test va) (λ r k', r = Passed ∧ heap_phase k [(Kmalloc.HEAP_SIZE - 16, true)] k') k.
Proof.
  intros Hv Hr. assert (heap_phase k [(Kmalloc.HEAP_SIZE - 16, true)] k) as H by (split; [done|]; split; [done|by destruct k as [? ? ? ? ? [] ? ? ? ? ?]]).
  unfold kmalloc_test. heap_step H. heap_step H. heap_cond.
  heap_step H. intros M1. heap_step H. intros M2. heap_check. heap_step H.
  heap_step H. heap_step H. heap_cond. heap_step H. intros M3. heap_step H. intros M4. heap_check. heap_step H.
  heap_step H. intros M5. heap_step H. intros M6. heap_step H. intros M7. heap_check. heap_step H.
  heap_step H. heap_step H. heap_cond. heap_step H. intros M8. heap_check. heap_step H.
  wp_step. unfold free_all. cbn [mfor]. heap_step H. heap_step H. heap_step H. wp_step. heap_step H. wp_step. by split.
Qed.

(** ** The tests of paging and of the page allocator *)

Section memory.
Context (I : image) (HI : image_ok I) (k0 : kernel).
Abbreviation L := (page_layout I).
Abbreviation pd := (Paging.pageDirectory L).

(** [mem_phase F h k]: the system is in order, with free pages [F]; heap and
    scheduler are as in [k0]. *)
Definition mem_phase (F : gset Z) (h : holdings) (k : kernel) : Prop :=
  sys_inv I F k h ∧ k_sched k = k_sched k0 ∧ k_heap k = k_heap k0.

(** What the functions of one component leave alone. *)
Lemma mmu_frame {A} (m : M (Paging.mmu Physical.phys Vga.vga) A) (Q : A → kernel → Prop) k :
  wp (on_mmu m) Q k → wp (on_mmu m) (λ r k', Q r k' ∧ k_sched k' = k_sched k ∧ k_heap k' = k_heap k) k.
Proof. unfold wp, on_mmu, zoom. by destruct (m (the_mmu k)) as [[a s]|]. Qed.
Lemma phys_frame {A} (m : M Physical.phys A) (Q : A → kernel → Prop) k :
  wp (on_phys m) Q k →
  wp (on_phys m) (λ r k', Q r k' ∧ k_sched k' = k_sched k ∧ k_heap k' = k_heap k ∧ k_pmem k' = k_pmem k) k.
Proof. unfold wp, on_phys, zoom. by destruct (m (k_phys k)) as [[a s]|]. Qed.

Section phase.
Context (F : gset Z) (h : holdings) (k : kernel) (Hk : mem_phase F h k).

Lemma phase_settled : Vga.settled (k_vga k).
Proof. apply (ki_vga _ _ _ (si_kernel _ _ _ _ (proj1 Hk))). Qed.

Lemma phase_screen v : Vga.settled v → mem_phase F h (with_vga v k).
Proof.
  destruct Hk as (Hinv & Hs & Hh). intros Hv. split; [|done]. pose proof (si_kernel _ _ _ _ Hinv) as Hki.
  apply (quiet_safe I F k); [done| |done].
  apply (quiet_inv I F k); [done|done|apply (ki_sched _ _ _ Hki)|done|apply (ki_ticks _ _ _ Hki)].
Qed.

Lemma mem_say str args (Q : unit → kernel → Prop) :
  is_Some (Vga.format (cstr str) args) →
  (∀ k', mem_phase F h k' → k_pmem k' = k_pmem k → Q tt k') → wp (say str args) Q k.
Proof. intros Hf HQ. apply wp_say; [done|apply phase_settled|]. intros v Hv. by apply HQ; [apply phase_screen|]. Qed.
Lemma mem_pass va str (Q : unit → kernel → Prop) :
  37 ∉ cstr str → (∀ k', mem_phase F h k' → k_pmem k' = k_pmem k → Q tt k') → wp (test_pass va str) Q k.
Proof. intros Hf HQ. apply wp_test_pass; [done|apply phase_settled|]. intros v Hv. by apply HQ; [apply phase_screen|]. Qed.

(** Another TLB. *)
Lemma phase_tlb t :
  Paging.coherent pd (k_pmem k) t →
  mem_phase F h (with_mmu (Paging.at_mem (the_mmu k) (k_pmem k) t) k).
Proof.
  destruct Hk as (Hinv & Hs & Hh). intros Ht. split; [|by split]. pose proof Hinv as [H1 H2 H3 H4 H5 H6 H7].
  split; [|done|done|done|done|done|done]. apply (kernel_with_mmu I F); [done|].
  destruct (ki_paging _ _ _ H1) as [P1 P2 P3 P4 P5 P6]. by split.
Qed.

Lemma wp_translate va pte (Q : Z → Paging.mmu Physical.phys Vga.vga → Prop) :
  0 ≤ va < 2 ^ 32 → va `mod` 4096 = 0 → Paging.walk (k_pmem k) pd va = Some pte →
  (∀ t, Paging.coherent pd (k_pmem k) t → Q (Paging.frame pte) (Paging.at_mem (the_mmu k) (k_pmem k) t)) →
  wp (Paging.translate va) Q (the_mmu k).
Proof.
  intros Hva Hal Hw HQ. destruct (ki_paging _ _ _ (si_kernel _ _ _ _ (proj1 Hk))) as [P1 P2 P3 P4 _ _].
  rewrite <- (Paging.at_mem_id (the_mmu k)).
  apply (Paging.translate_mapped L (img_pages _ HI) _ _ _ P1 P2 P4 va pte); [done|done|].
  intros t Ht. rewrite Hal, Z.add_0_r. by apply HQ.
Qed.

Lemma mem_read va pte (Q : Z → kernel → Prop) :
  0 ≤ va < 2 ^ 32 → va `mod` 4096 = 0 → Paging.walk (k_pmem k) pd va = Some pte →
  (∀ k', mem_phase F h k' → k_pmem k' = k_pmem k → Q (getw (k_pmem k) (Paging.frame pte)) k') →
  wp (read va) Q k.
Proof.
  intros Hva Hal Hw HQ. unfold read, on_mmu, Paging.load. wp_step. wp_step. apply (wp_translate va pte); [done|done|done|].
  intros t Ht. wp_step. apply HQ; [by apply phase_tlb|done].
Qed.

Lemma mem_write va v pte (Q : unit → kernel → Prop) :
  0 ≤ va < 2 ^ 32 → va `mod` 4096 = 0 → Paging.walk (k_pmem k) pd va = Some pte →
  ¬ Paging.is_table L (k_pmem k) (Paging.frame pte) →
  (∀ k', mem_phase F h k' → k_pmem k' = <[Paging.frame pte := v]> (k_pmem k) →
     Paging.same_walk pd (k_pmem k) (k_pmem k') → Q tt k') →
  wp (write va v) Q k.
Proof.
  intros Hva Hal Hw Hnt HQ. unfold write, on_mmu, Paging.store. wp_step. wp_step.
  apply (wp_translate va pte); [done|done|done|]. intros t Ht. wp_step.
  destruct (phase_tlb t Ht) as (Hinv & Hs & Hh).
  pose proof (write_word_safe I HI F _ h (Paging.frame pte) 0 v Hinv (proj2 (Paging.frame_ok pte)) Hnt ltac:(lia)) as Hinv'.
  pose proof (proj1 (write_word_walk I HI (k_pmem k) (Paging.frame pte) 0 v (proj2 (Paging.frame_ok pte)) Hnt ltac:(lia))) as Hw'.
  rewrite Z.mul_0_r, Z.add_0_r in Hinv', Hw'. by apply HQ.
Qed.

Lemma mem_alloc p (Q : Z → kernel → Prop) :
  Paging.lowest p F →
  (∀ k', mem_phase (F ∖ {[p]}) (mkHoldings ({[p * 4096]} ∪ h_pages h) (h_blocks h)) k' →
     k_pmem k' = k_pmem k → Q (p * 4096) k') →
  wp (on_phys Physical.physical_alloc_page) Q k.
Proof.
  destruct Hk as (Hinv & Hs & Hh). intros [HpF Hmin] HQ.
  use_wp (phys_frame _ _ _ (alloc_page_safe I HI F k h Hinv)).
  intros r k' ((F' & Hinv' & _ & Hr) & Hs' & Hh' & Hm). destruct Hr as [(_ & -> & _)|(q & [HqF Hq] & -> & ->)];
    [by apply elem_of_empty in HpF|].
  assert (q = p) as -> by (pose proof (Hmin q HqF); pose proof (Hq p HpF); lia).
  pose proof (si_free _ _ _ _ Hinv p HpF). unfold after_call in Hinv'. rewrite decide_False in Hinv' by lia.
  apply HQ; [|done]. split; [done|]. by rewrite Hs', Hh'.
Qed.

Lemma mem_free a (Q : unit → kernel → Prop) :
  a ∈ h_pages h →
  (∀ k', mem_phase ({[a / 4096]} ∪ F) (mkHoldings (h_pages h ∖ {[a]}) (h_blocks h)) k' →
     k_pmem k' = k_pmem k → Q tt k') →
  wp (on_phys (Physical.physical_free_page a)) Q k.
Proof.
  destruct Hk as (Hinv & Hs & Hh). intros Ha HQ.
  assert (wp (on_phys (Physical.physical_free_page a)) (λ _ k', sys_inv I ({[a / 4096]} ∪ F) k'
    (mkHoldings (h_pages h ∖ {[a]}) (h_blocks h))) k) as Hwp.
  { pose proof (free_page_safe I HI F k h a Hinv Ha) as H. unfold wp, run_call, mbind, M_bind in H |- *.
    destruct (on_phys _ k) as [[[] k']|]; [apply H|done]. }
  use_wp (phys_frame _ _ _ Hwp). intros [] k' (Hinv' & Hs' & Hh' & Hm). apply HQ; [|done].
  split; [done|]. by rewrite Hs', Hh'.
Qed.

Lemma mem_map va pa flags (Q : Z → kernel → Prop) :
  KERNEL_SPACE ≤ va < 2 ^ 32 → (∃ p, p ∈ F ∧ p < 1024) →
  (∀ r k' F', mem_phase F' h k' → pages_kept h k k' →
     Paging.map_result L (the_mmu k) F va pa flags r (the_mmu k') →
     (∀ q, q ∈ F → q ∈ F' ∨ Paging.lowest q F) → Q r k') →
  wp (on_mmu (Paging.paging_map L va pa flags)) Q k.
Proof.
  destruct Hk as (Hinv & Hs & Hh). intros Hva (p & HpF & Hp) HQ.
  assert (may_call I (CMap va pa flags) k h) as Hmay.
  { split; [done|]. right. exists p. pose proof (si_free _ _ _ _ Hinv p HpF). split; [lia|].
    pose proof (Paging.pg_rep _ _ _ (ki_paging _ _ _ (si_kernel _ _ _ _ Hinv))) as [Hrep _].
    rewrite (Physical.bm_free _ _ (Physical.rep_bm _ _ Hrep)) by (change Physical.PHYSICAL_PAGE_COUNT with 16384; lia).
    by apply bool_decide_eq_true_2. }
  use_wp (mmu_frame _ _ _ (map_safe I HI F k h va pa flags Hinv Hmay)).
  intros r k' ((F' & Hinv' & [Hkept _] & Hres & Htaken) & Hs' & Hh'). apply (HQ r k' F'); [|done|done|done].
  split; [done|]. by rewrite Hs', Hh'.
Qed.

Lemma mem_unmap va (Q : Z → kernel → Prop) :
  KERNEL_SPACE ≤ va < 2 ^ 32 →
  (∀ r k', mem_phase F h k' → Paging.unmap_result L (the_mmu k) va r (the_mmu k') → Q r k') →
  wp (on_mmu (Paging.paging_unmap L va)) Q k.
Proof.
  destruct Hk as (Hinv & Hs & Hh). intros Hva HQ.
  use_wp (mmu_frame _ _ _ (unmap_safe I HI F k h va Hinv Hva)).
  intros r k' ((Hinv' & _ & Hres) & Hs' & Hh'). apply HQ; [|done]. split; [done|]. by rewrite Hs', Hh'.
Qed.

(** Pages that are not tables: the free ones, and those that are held. *)
Lemma free_no_table p : p ∈ F → ¬ Paging.is_table L (k_pmem k) (p * 4096).
Proof. apply (page_table_apart I F k h), Hk. Qed.

(** The kernel's own space. *)
Lemma low_walk p : 0 ≤ p < 1024 → ∃ pte, Paging.walk (k_pmem k) pd (p * 4096) = Some pte ∧ Paging.frame pte = p * 4096.
Proof.
  intros Hp. destruct (si_low _ _ _ _ (proj1 Hk) (p * 4096)) as (pte & H1 & H2); [unfold KERNEL_SPACE; lia|].
  exists pte. split; [done|]. by rewrite H2, Z.div_mul.
Qed.

Lemma mem_read_low p (Q : Z → kernel → Prop) :
  0 ≤ p < 1024 → (∀ k', mem_phase F h k' → k_pmem k' = k_pmem k → Q (getw (k_pmem k) (p * 4096)) k') →
  wp (read (p * 4096)) Q k.
Proof.
  intros Hp HQ. destruct (low_walk p Hp) as (pte & Hw & Hf).
  apply (mem_read _ pte); [lia|apply Z_mod_mult|done|]. by rewrite Hf.
Qed.
Lemma mem_write_low p v (Q : unit → kernel → Prop) :
  0 ≤ p < 1024 → ¬ Paging.is_table L (k_pmem k) (p * 4096) →
  (∀ k', mem_phase F h k' → k_pmem k' = <[p * 4096 := v]> (k_pmem k) →
     Paging.same_walk pd (k_pmem k) (k_pmem k') → Q tt k') →
  wp (write (p * 4096) v) Q k.
Proof.
  intros Hp Hnt HQ. destruct (low_walk p Hp) as (pte & Hw & Hf).
  apply (mem_write _ _ pte); [lia|apply Z_mod_mult|done|by rewrite Hf|]. by rewrite Hf.
Qed.
End phase.

(** A message: [H] is the phase of the current state, [M] its memory. *)
Ltac mem_keep H M :=
  let k' := fresh "k" in let M' := fresh "M" in intros k' H M'; apply (eq_trans M') in M; clear M'.
Ltac mem_say H M := wp_step; eapply (mem_say _ _ _ H); [by eexists|]; clear H; mem_keep H M.

Lemma lowest_exists (F : gset Z) : F ≠ ∅ → ∃ p, Paging.lowest p F.
Proof.
  intros HF. destruct (minimal_exists_elem_of_L Z.le F HF) as (p & Hp & Hmin). exists p. split; [done|].
  intros q Hq. destruct (decide (q ≤ p)) as [Hle|]; [by apply Hmin|lia].
Qed.

(** [physical_test] needs three free pages. *)
Lemma physical_test_spec va F h k x y z :
  mem_phase F h k → x ∈ F → y ∈ F → z ∈ F → x ≠ y → x ≠ z → y ≠ z →
  wp (physical_test va) (λ r k', r = Passed ∧ k_pmem k' = k_pmem k ∧ ∃ F' h', mem_phase F' h' k') k.
Proof.
  intros Hk Hx Hy Hz Hxy Hxz Hyz.
  destruct (lowest_exists F) as [a Ha]; [set_solver|].
  destruct (lowest_exists (F ∖ {[a]})) as [b Hb].
  { destruct (decide (x = a)) as [->|]; set_solver. }
  destruct (lowest_exists (F ∖ {[a]} ∖ {[b]})) as [c Hc].
  { assert (∃ w, w ∈ F ∧ w ≠ a ∧ w ≠ b) as (w & ? & ? & ?); [|set_solver].
    destruct (decide (x = a)), (decide (x = b)), (decide (y = a)), (decide (y = b)); eauto; exists z; split_and!; congruence. }
  pose proof (si_free _ _ _ _ (proj1 Hk)) as Hrange.
  assert (512 ≤ a < b ∧ b < c < 16384) as Hord.
  { destruct Ha as [HaF Ha], Hb as [HbF Hb], Hc as [HcF Hc]. apply elem_of_difference in HbF as [HbF Hba].
    apply elem_of_difference in HcF as [HcF Hcb]. pose proof (Ha b HbF). pose proof (Hb c HcF).
    apply elem_of_difference in HcF as [HcF _]. pose proof (Hrange a HaF). pose proof (Hrange c HcF).
    rewrite elem_of_singleton in Hba, Hcb. lia. }
  unfold physical_test. assert (k_pmem k = k_pmem k) as M by done. pose proof Hk as H.
  wp_step. apply (mem_alloc _ _ _ H a _ Ha). clear H. mem_keep H M.
  wp_step. apply (mem_alloc _ _ _ H b _ Hb). clear H. mem_keep H M.
  wp_step. apply (mem_alloc _ _ _ H c _ Hc). clear H. mem_keep H M.
  do 4 mem_say H M.
  assert (∀ p, 512 ≤ p < 16384 → (p * 4096 =? 0) = false ∧ (Z.land (p * 4096) 0xFFF =? 0) = true ∧ (p * 4096 <? 0x200000) = false) as Hpg.
  { intros p Hp. change 0xFFF with (2 ^ 12 - 1). rewrite land_ones_mod, Z.mod_mul by lia. lia. }
  destruct (Hpg a ltac:(lia)) as (-> & -> & ->), (Hpg b ltac:(lia)) as (-> & -> & ->), (Hpg c ltac:(lia)) as (-> & -> & ->).
  replace (a * 4096 =? b * 4096) with false by lia. replace (a * 4096 =? c * 4096) with false by lia.
  replace (b * 4096 =? c * 4096) with false by lia. cbn [orb negb].
  wp_step. eapply (mem_free _ _ _ H); [set_solver|]. clear H. mem_keep H M. rewrite Z.div_mul in H by lia.
  wp_step. eapply (mem_alloc _ _ _ H b).
  { destruct Hb as [_ Hb]. split; [set_solver|]. intros q [->%elem_of_singleton|Hq]%elem_of_union; [done|]. apply Hb. set_solver. }
  clear H. mem_keep H M. mem_say H M. rewrite Z.eqb_refl. cbn [negb].
  wp_step. eapply (mem_pass _ _ _ H); [plain_text|]. clear H. mem_keep H M. wp_step.
  split; [done|]. split; [done|]. eauto.
Qed.

(** What [paging_map] does with a page that is not mapped, when there is a free page;
    and [paging_unmap] with one that is mapped. *)
Lemma map_result_fresh k k' F va pa flags r :
  Paging.map_result L (the_mmu k) F va pa flags r (the_mmu k') → va `mod` 4096 = 0 → pa `mod` 4096 = 0 → F ≠ ∅ →
  Paging.walk (k_pmem k) pd va = None →
  r = 0 ∧ ∀ va', 0 ≤ va' < 2 ^ 32 → Paging.walk (k_pmem k') pd va' =
    if decide (va' / 4096 = va / 4096) then Some (Paging.map_entry pa flags) else Paging.walk (k_pmem k) pd va'.
Proof.
  intros Hres Hva Hpa HF Hw. unfold Paging.map_result in Hres. cbn [the_mmu Paging.mem] in Hres.
  rewrite decide_True, decide_False, Hw in Hres by tauto. done.
Qed.

Lemma unmap_result_mapped k k' va r pte :
  Paging.unmap_result L (the_mmu k) va r (the_mmu k') → va `mod` 4096 = 0 → Paging.walk (k_pmem k) pd va = Some pte →
  r = 0 ∧ ∀ va', 0 ≤ va' < 2 ^ 32 → Paging.walk (k_pmem k') pd va' =
    if decide (va' / 4096 = va / 4096) then None else Paging.walk (k_pmem k) pd va'.
Proof.
  intros Hres Hva Hw. unfold Paging.unmap_result in Hres. cbn [the_mmu Paging.mem] in Hres.
  rewrite decide_True, Hw in Hres by done.
  unfold Paging.walk in Hw. fold (Paging.pde pd (k_pmem k) (Paging.PAGE_DIRECTORY_INDEX va)) in Hw.
  destruct (Paging.present (Paging.pde pd (k_pmem k) (Paging.PAGE_DIRECTORY_INDEX va))); [|done].
  by destruct Hres as (-> & _ & ?).
Qed.

(** The page [512], held and mapped at 4 MiB, is used there, unmapped and freed. *)
Lemma paging_test_mapped_spec F k pte :
  mem_phase F (mkHoldings {[512 * 4096]} ∅) k →
  Paging.walk (k_pmem k) pd 0x400000 = Some pte → Paging.frame pte = 512 * 4096 →
  getw (k_pmem k) (512 * 4096) = 0xCAFEBABE →
  wp (paging_test_mapped I 0x400000 (512 * 4096)) (λ r k', r = Passed ∧
    (∀ va', 0 ≤ va' < 2 ^ 32 → Paging.walk (k_pmem k') pd va' =
       if decide (va' / 4096 = 0x400000 / 4096) then None else Paging.walk (k_pmem k) pd va') ∧
    mem_phase ({[512]} ∪ F) (mkHoldings ∅ ∅) k') k.
Proof.
  intros H Hpte Hf Hval. unfold paging_test_mapped. assert (k_pmem k = k_pmem k) as M by done. mem_say H M.
  wp_step. apply (mem_read _ _ _ H _ pte); [lia|done|by rewrite M|]. clear H. rewrite M, Hf, Hval.
  clear M. intros k2 H M. change (negb (0xCAFEBABE =? 0xCAFEBABE)) with false. cbv iota. mem_say H M.
  wp_step. apply (mem_write _ _ _ H _ _ pte); [lia|done|by rewrite M| |].
  { rewrite Hf. apply (si_tables _ _ _ _ (proj1 H)). cbn [h_pages]. by apply elem_of_singleton. }
  clear H. rewrite M, Hf. clear M. intros kz H M W4. rewrite M in W4.
  wp_step. apply (mem_read_low _ _ _ H); [lia|]. clear H. rewrite M, getw_insert, decide_True by done.
  clear M. intros kv H M. change (negb (0xDEADBEEF =? 0xDEADBEEF)) with false. cbv iota. mem_say H M.
  wp_step. apply (mem_unmap _ _ _ H); [unfold KERNEL_SPACE; lia|]. clear H. intros r ku H Hres.
  destruct (unmap_result_mapped _ _ _ _ pte Hres) as [-> W5]; [done|by rewrite M, W4|]. rewrite M in W5. clear M Hres.
  assert (k_pmem ku = k_pmem ku) as M by done. mem_say H M.
  change (negb (0 =? 0)) with false. cbv iota. mem_say H M.
  wp_step. eapply (mem_free _ _ _ H); [cbn [h_pages]; by apply elem_of_singleton|]. clear H. mem_keep H M.
  do 2 mem_say H M. wp_step. split; [done|]. split.
  - intros va' Hva'. rewrite M, W5 by done. by rewrite W4.
  - replace (mkHoldings ∅ ∅) with (mkHoldings ({[512 * 4096]} ∖ {[512 * 4096]} : gset Z) ∅) by (f_equal; set_solver). exact H.
Qed.

Lemma paging_test_spec F k :
  mem_phase F (mkHoldings ∅ ∅) k → Paging.lowest 512 F → 513 ∈ F → Paging.walk (k_pmem k) pd 0x400000 = None →
  wp (paging_test I) (λ r k', r = Passed ∧
    (∀ va', 0 ≤ va' < 2 ^ 32 → Paging.walk (k_pmem k') pd va' = Paging.walk (k_pmem k) pd va') ∧
    ∃ F', mem_phase F' (mkHoldings ∅ ∅) k' ∧ 512 ∈ F' ∧ ∀ q, q ∈ F → q ∈ F' ∨ q = 513) k.
Proof.
  intros H H512 H513 Hfree. unfold paging_test. assert (k_pmem k = k_pmem k) as M by done.
  assert (513 ∈ F ∖ {[512]}) as Hin by set_solver. do 2 mem_say H M. change 0x200000 with (512 * 4096).
  wp_step. apply (mem_write_low _ _ _ H); [lia|by apply (free_no_table _ _ _ H), H512|].
  clear H. rewrite M. clear M. intros kw H M W. rewrite M in W.
  wp_step. apply (mem_read_low _ _ _ H); [lia|]. clear H. rewrite M, getw_insert, decide_True by done.
  clear M. intros kr H M. change (negb (0x12345678 =? 0x12345678)) with false. cbv iota.
  mem_say H M. wp_step. apply (mem_alloc _ _ _ H 512 _ H512). clear H. mem_keep H M. mem_say H M.
  change (512 * 4096 =? 0) with false. change (negb (Z.land (512 * 4096) (Paging.PAGE_SIZE - 1) =? 0)) with false. cbv iota.
  mem_say H M. pose proof (H512) as [H512F Hmin].
  assert (¬ Paging.is_table L (<[512 * 4096 := 0x12345678]> (k_pmem k)) (512 * 4096)) as Hnt
    by (rewrite <- M; apply (si_tables _ _ _ _ (proj1 H)); set_solver).
  wp_step. apply (mem_write_low _ _ _ H); [lia|by rewrite M|].
  clear H. rewrite M. clear M. intros kx H M W2. rewrite M in W2.
  rewrite insert_insert_eq in M, W2. do 2 mem_say H M.
  wp_step. apply (mem_map _ _ _ H); [unfold KERNEL_SPACE; lia|exists 513; split; [done|lia]|].
  clear H. intros r km F' H Hkept Hres Htaken.
  destruct (map_result_fresh _ _ _ _ _ _ _ Hres) as [-> W3]; [done|done|by intros E; rewrite E in Hin|by rewrite M, W2, W|]. rewrite M in W3.
  specialize (Hkept (512 * 4096) 0 ltac:(set_solver) ltac:(lia)). rewrite M, !Z.add_0_r, getw_insert, decide_True in Hkept by done.
  clear M. assert (k_pmem km = k_pmem km) as M by done. mem_say H M.
  change (negb (0 =? 0)) with false. cbv iota. mem_say H M.
  replace (mkHoldings _ _) with (mkHoldings {[512 * 4096]} ∅) in H by (simpl; f_equal; set_solver).
  use_wp (paging_test_mapped_spec _ _ (Paging.map_entry (512 * 4096) Paging.PAGE_WRITABLE) H).
  - rewrite M, W3 by lia. by rewrite decide_True.
  - apply Paging.map_entry_frame; [lia|apply Z_mod_mult].
  - by rewrite M.
  - intros v k' (-> & W5 & H'). split; [done|]. split.
    + intros va' Hva'. rewrite W5, M, W3, W2, W by done.
      case_decide as E; [|done]. symmetry. rewrite <- Hfree. by apply Paging.walk_page.
    + eexists. split; [exact H'|]. split; [set_solver|]. intros q Hq.
      destruct (decide (q = 512)) as [->|Hne]; [left; set_solver|].
      destruct (Htaken q) as [?|[Hl1 Hl2]]; [set_solver|left; set_solver|right].
      pose proof (Hl2 513 Hin). pose proof (Hmin q Hq). lia.
Qed.

(** ** The test of the scheduler *)

(** [sched_phase F h n k]: the slots 1 to [n - 1] hold ready tasks, the others none. *)
Definition sched_phase (F : gset Z) (h : holdings) (n : Z) (k : kernel) : Prop :=
  sys_inv I F k h ∧ k_heap k = k_heap k0 ∧ k_pmem k = k_pmem k0 ∧
  ∀ i, 1 ≤ i < 16 → Scheduler.has_state (k_sched k) (Scheduler.Slot i)
    (if decide (i < n) then Scheduler.TASK_READY else Scheduler.TASK_TERMINATED).

Lemma sched_say F h n k str (Q : unit → kernel → Prop) :
  sched_phase F h n k → 37 ∉ cstr str → (∀ k', sched_phase F h n k' → Q tt k') → wp (say str []) Q k.
Proof.
  intros (Hinv & Hh & Hm & Hst) Hn HQ. pose proof (si_kernel _ _ _ _ Hinv) as Hki.
  apply wp_say; [by rewrite format_plain|apply (ki_vga _ _ _ Hki)|].
  intros v Hv. apply HQ. split; [|done]. apply (quiet_safe I F k); [done| |done].
  apply (quiet_inv I F k); [done|done|apply (ki_sched _ _ _ Hki)|done|apply (ki_ticks _ _ _ Hki)].
Qed.

Lemma phase_free_slot F h n k :
  sched_phase F h n k → 1 ≤ n < 16 → Scheduler.free_slot (k_sched k) = Some n.
Proof.
  intros (Hinv & _ & _ & Hst) Hn. pose proof (ki_sched _ _ _ (si_kernel _ _ _ _ Hinv)) as [Hb _].
  destruct (Hst n Hn) as (t & Ht & Hterm). rewrite decide_False in Hterm by lia.
  destruct (Scheduler.free_slot (k_sched k)) as [i|] eqn:Hf.
  - destruct (Scheduler.free_slot_spec (sched_layout I) _ i Hb Hf) as (Hi & _ & ti & Hti & Hit & _).
    destruct (decide (n < i)) as [Hlt|]; [destruct (Scheduler.free_slot_first _ i n Hf ltac:(lia)); by exists t|].
    destruct (Hst i Hi) as (ti' & Hti' & Hit'). assert (ti' = ti) as -> by congruence.
    case_decide; [congruence|]. f_equal. lia.
  - eapply (List.find_none _ _) with (x := n) in Hf.
    + unfold Scheduler.is_state in Hf. rewrite Ht in Hf. by apply bool_decide_eq_false in Hf.
    + apply list_elem_of_In, elem_of_seqZ. unfold Scheduler.MAX_TASKS. lia.
Qed.

Lemma sched_task_create F h n k e (Q : Z → kernel → Prop) :
  sched_phase F h n k → 1 ≤ n < 16 → e ≠ 0 → (∀ k', sched_phase F h (n + 1) k' → Q n k') →
  wp (on_sched (Scheduler.task_create (sched_layout I) e)) Q k.
Proof.
  intros Hk Hn He HQ. pose proof (phase_free_slot F h n k Hk Hn) as Hf. destruct Hk as (Hinv & Hh & Hm & Hst).
  pose proof (si_kernel _ _ _ _ Hinv) as Hki. pose proof (ki_sched _ _ _ Hki) as Hs.
  apply (sched_inv_eflags _ (k_eflags k)) in Hs as Hs0. unfold on_sched. wp_step.
  use_wp (Scheduler.task_create_spec (sched_layout I) e (set_eflags (k_eflags k) (k_sched k))); [apply Hs0|].
  intros v s'. rewrite decide_False by done.
  change (Scheduler.free_slot (set_eflags _ ?s)) with (Scheduler.free_slot s). rewrite Hf.
  intros (-> & t & Ht & ->). set (s' := Scheduler.created _ _ _ _ _). apply HQ.
  assert (Scheduler.sched_inv (sched_layout I) s') as Hs' by (by apply Scheduler.created_inv).
  split; [|split; [done|split; [done|]]].
  - apply (quiet_safe I F k); [done| |done]. apply (quiet_inv I F k); [done|done|done|apply (ki_vga _ _ _ Hki)|apply (ki_ticks _ _ _ Hki)].
  - intros i Hi. unfold Scheduler.has_state. cbn [k_sched with_eflags with_sched]. unfold s', Scheduler.created.
    rewrite Scheduler.task_of_put by (exists t; exact Ht). destruct (decide (Scheduler.Slot n = Scheduler.Slot i)) as [[= ->]|Hne].
    + eexists. split; [done|]. by rewrite decide_True by lia.
    + destruct (Hst i Hi) as (ti & Hti & E). exists ti. split; [done|].
      assert (i ≠ n) by congruence. rewrite E. by destruct (decide (i < n)), (decide (i < n + 1)); try lia.
Qed.

Lemma sched_create va entry F h n k f msg (Q : verdict → kernel → Prop) :
  sched_phase F h n k → 1 ≤ n < 16 → entry f ≠ 0 → (∀ k', sched_phase F h (n + 1) k' → Q Passed k') →
  wp (create I va entry f msg) Q k.
Proof.
  intros Hk Hn He HQ. unfold create. wp_step. apply (sched_task_create F h n); [done|done|done|].
  intros k' Hk'. destruct (Z.ltb_spec n 0); [lia|]. wp_step. by apply HQ.
Qed.

Ltac sched_step H :=
  wp_step;
  lazymatch goal with
  | |- wp (say _ _) _ _ => eapply (sched_say _ _ _ _ _ _ H); [plain_text|]
  | |- wp (create _ _ _ _ _) _ _ => eapply (sched_create _ _ _ _ _ _ _ _ _ H); [lia|done|]
  end; clear H; intros ? H.

Lemma scheduler_test_spec va entry F h k :
  (∀ f, entry f ≠ 0) → sched_phase F h 1 k →
  wp (scheduler_test I va entry) (λ r k', r = (1, replicate 10 Passed) ∧ sched_phase F h 11 k') k.
Proof.
  intros He H. unfold scheduler_test. do 4 sched_step H.
  wp_step. apply (sched_task_create _ _ _ _ _ _ H); [lia|done|]. clear H. intros kb H.
  change (u32 1 =? u32 (-1)) with false. cbv iota. do 2 wp_step. do 9 sched_step H. wp_step. by split.
Qed.

End memory.

(** ** Properties *)

Lemma boot_client hp :
  Kmalloc.heap_rep hp [(Kmalloc.HEAP_SIZE - 16, true)] → Kmalloc.kclient_inv (hp, ∅).
Proof.
  intros Hr. exists [(Kmalloc.HEAP_SIZE - 16, true)]. split; [done|]. split; [done|]. simpl.
  intros q. rewrite elem_of_empty. intuition discriminate.
Qed.

(** The first three tests, one after the other. *)
Definition memory_tested (I : image) (k k' : kernel) : Prop :=
  k_sched k' = k_sched k ∧ Kmalloc.heap_rep (k_heap k') [(Kmalloc.HEAP_SIZE - 16, true)] ∧
  (∀ a, 0 ≤ a < 2 ^ 32 → Paging.walk (k_pmem k') (Paging.pageDirectory (page_layout I)) a =
     Paging.walk (k_pmem k) (Paging.pageDirectory (page_layout I)) a) ∧
  ∃ F h, sys_inv I F k' h.

Lemma memory_tests_spec I va k :
  image_ok I → sys_inv I Physical.usable_pages k (mkHoldings ∅ ∅) →
  Kmalloc.heap_rep (k_heap k) [(Kmalloc.HEAP_SIZE - 16, true)] →
  Paging.walk (k_pmem k) (Paging.pageDirectory (page_layout I)) 0x400000 = None →
  wp (kmalloc_test va) (λ v1 k1, v1 = Passed ∧
    wp (paging_test I) (λ v2 k2, v2 = Passed ∧
      wp (physical_test va) (λ v3 k3, v3 = Passed ∧ memory_tested I k k3) k2) k1) k.
Proof.
  intros HI Hinv Hheap Hw.
  use_wp (kmalloc_test_spec va k); [apply (ki_vga _ _ _ (si_kernel _ _ _ _ Hinv))|done|].
  intros r k1 (-> & Hv1 & Hr1 & E1). split; [done|].
  assert (sys_inv I Physical.usable_pages k1 (mkHoldings ∅ ∅)) as Hinv1.
  { rewrite E1. apply (sys_with_heap I _ (with_vga (k_vga k1) k) (mkHoldings ∅ ∅)).
    - apply (phase_screen I k _ _ k); [by split|done].
    - by apply boot_client. }
  assert (k_sched k1 = k_sched k ∧ k_pmem k1 = k_pmem k) as [Es1 Em1] by (by rewrite E1).
  use_wp (paging_test_spec I HI k1 Physical.usable_pages k1); [by split| | |by rewrite Em1|].
  { split; [by apply Physical.usable_range|]. intros q Hq%Physical.usable_range. lia. }
  { by apply Physical.usable_range. }
  intros r k2 (-> & Hw2 & F2 & Hk2 & H512 & HF2). split; [done|].
  assert (∀ q, 512 ≤ q < 16384 → q ≠ 513 → q ∈ F2) as Hin
    by (intros q Hq Hne; by destruct (HF2 q) as [?| ->]; [apply Physical.usable_range| |]).
  use_wp (physical_test_spec I HI k1 va F2 _ k2 512 514 515 Hk2); [done|apply Hin; lia|apply Hin; lia|lia|lia|lia|].
  intros r k3 (-> & Hm3 & F3 & h3 & Hinv3 & Hs3 & Hh3).
  split; [done|]. split; [by rewrite Hs3|]. split; [by rewrite Hh3|]. split; [|by exists F3, h3].
  intros a Ha. by rewrite Hm3, Hw2, Em1.
Qed.

Lemma tests_run_spec I va entry k :
  image_ok I → sys_inv I Physical.usable_pages k (mkHoldings ∅ ∅) →
  Kmalloc.heap_rep (k_heap k) [(Kmalloc.HEAP_SIZE - 16, true)] →
  Paging.walk (k_pmem k) (Paging.pageDirectory (page_layout I)) 0x400000 = None →
  (∀ i, 1 ≤ i < 16 → Scheduler.has_state (k_sched k) (Scheduler.Slot i) Scheduler.TASK_TERMINATED) →
  (∀ f, entry f ≠ 0) →
  wp (kernel_tests_run I va entry) (λ r k', r = replicate 13 Passed ∧
    ∃ k3 F h, memory_tested I k k3 ∧ sched_phase I k3 F h 11 k') k.
Proof.
  intros HI Hinv Hheap Hw Hst He. unfold kernel_tests_run. wp_step.
  apply wp_say; [by eexists|apply (ki_vga _ _ _ (si_kernel _ _ _ _ Hinv))|]. intros v Hv. wp_step.
  use_wp (memory_tests_spec I va (with_vga v k) HI); [|done|done|].
  { apply (phase_screen I k _ _ k); [by split|done]. }
  intros v1 k1 [-> H1]. wp_step. use_wp H1. intros v2 k2 [-> H2]. cbv iota. wp_step. use_wp H2.
  intros v3 k3 [-> H3]. wp_step. pose proof H3 as (Hs3 & _ & _ & F & h & Hinv3).
  use_wp (scheduler_test_spec I k3 va entry F h k3 He).
  { split; [done|]. split; [done|]. split; [done|]. intros i Hi. rewrite Hs3, decide_False by lia. by apply Hst. }
  intros [b vs] k4 ([= -> ->] & H4). wp_step. eapply (sched_say I k3 _ _ _ _ _ _ H4); [plain_text|]. intros k5 H5.
  wp_step. split; [done|]. by exists k3, F, h.
Qed.

(** C24. The kernel passes its own tests: in any machine, after [kmain]'s
    initialisation, [kernel_tests_run], not interrupted, returns with every check of the heap's,
    paging's and the page allocator's tests passed and all ten tasks of the
    scheduler's test created, for any entry points but NULL.  Afterwards the
    system is in order, the heap is one free block again, every address translates
    as before, and the tasks 1 to 10 are ready. *)
Theorem kernel_tests_pass dev I va entry k0 :
  image_ok I → power_on k0 → (∀ f, entry f ≠ 0) →
  ∃ k1 k2, kmain dev I k0 = Some (tt, k1) ∧
    kernel_tests_run I va entry k1 = Some (replicate 13 Passed, k2) ∧
    (∃ F h, sys_inv I F k2 h) ∧
    Kmalloc.heap_rep (k_heap k2) [(Kmalloc.HEAP_SIZE - 16, true)] ∧
    (∀ a, 0 ≤ a < 2 ^ 32 → Paging.walk (k_pmem k2) (Paging.pageDirectory (page_layout I)) a =
       Paging.walk (k_pmem k1) (Paging.pageDirectory (page_layout I)) a) ∧
    ∀ i, 1 ≤ i ≤ 10 → Scheduler.has_state (k_sched k2) (Scheduler.Slot i) Scheduler.TASK_READY.
Proof.
  intros HI Hpo He.
  destruct (proj1 (wp_inv _ _ _) (kmain_spec dev I k0 HI Hpo)) as ([] & k1 & E & Hinv & Hheap & _ & Hid & _ & _ & _ & _ & Hst).
  pose proof (boot_sys_inv dev I HI k0 k1 Hpo E) as Hsys. exists k1.
  destruct (proj1 (wp_inv _ _ _) (tests_run_spec I va entry k1 HI Hsys Hheap
    ltac:(rewrite (Paging.identity_walk _ (img_pages _ HI)) by (done || lia); by rewrite decide_False by lia) Hst He))
    as (r & k2 & E2 & -> & k3 & F & h & (_ & Hh3 & Hw3 & _) & Hinv2 & Hh2 & Hm2 & Hst2).
  exists k2. split; [done|]. split; [done|]. split; [by exists F, h|]. split; [by rewrite Hh2|].
  split; [by rewrite Hm2|]. intros i Hi. specialize (Hst2 i ltac:(lia)). by rewrite decide_True in Hst2 by lia.
Qed.

Lemma kernel_tests_pass_witness :
  ∃ k1 k2, kmain demo_device demo_image demo_kernel = Some (tt, k1) ∧
    kernel_tests_run demo_image 0x9DFF0 (λ _, 0x9000) k1 = Some (replicate 13 Passed, k2).
Proof.
  destruct (kernel_tests_pass demo_device demo_image 0x9DFF0 (λ _, 0x9000) demo_kernel)
    as (k1 & k2 & E1 & E2 & _).
  - exact demo_image_ok.
  - exact demo_power_on.
  - intros f. discriminate.
  - exact (ex_intro _ k1 (ex_intro _ k2 (conj E1 E2))).
Defined.

End Tests.
