(* ===== verification/Tasks.v ===== *)
(** * The tasks of the scheduler's test (src/kernel/tests/scheduler)

    [scheduler_test] starts ten tasks, which run under the timer and share counters
    and flags.  Here their bodies are programs that make one access at a time; the
    current task of the scheduler makes the turns and interrupts come between any
    two of them.  No task ever gets stuck, a blocked task stays blocked until it is
    unblocked, and the counters that [test_result] prints are never written. *)

From S2P Require Import Prelude Physical Isr Io Scheduler Vga Drivers Idt Kernel Tests.
Import Io Isr Kernel.

Module Tasks.

(** ** Programs with loops *)

(** The static variables of test_scheduler.c. *)
Inductive var : Type :=
| cntA | cntB | runningTestCnt | passedTestCnt | failedTestCnt | shortLiveTaskCnt
| yieldA | yieldB | blockerStarted | blockerWoke | blockerID.
#[global] Instance var_eq_dec : EqDecision var.
Proof. solve_decision. Defined.

(** What a task does without being interrupted: a load or a store of a variable, or
    a call that runs with interrupts off or is a single access.  [Block] is the
    store of [task_block], which yields afterwards. *)
Inductive act : Type → Type :=
| Load (x : var) : act Z
| Store (x : var) (v : Z) : act unit
| TimerMs : act Z
| Print (c : Vga.vga_call) : act unit
| Create (f : string) : act Z
| Unblock (tid : Z) : act Z
| Yield : act unit
| Block : act unit
| Exit : act unit.

(** [Loop test body l rest]: while [test] holds of the local variables, which are
    [l], [body] gives them new values; then [rest]. *)
Inductive code (A : Type) : Type :=
| Done (a : A)
| Step {X : Type} (x : act X) (f : X → code A)
| Loop {L : Type} (test : L → code bool) (body : L → code L) (l : L) (rest : L → code A).
Arguments Done {A}.
Arguments Step {A X}.
Arguments Loop {A L}.

#[global] Instance code_ret : MRet code := λ A a, Done a.
#[global] Instance code_bind : MBind code := λ A B g,
  fix bind (p : code A) : code B :=
    match p with
    | Done a => g a
    | Step x f => Step x (λ v, bind (f v))
    | Loop test body l rest => Loop test body l (λ l, bind (rest l))
    end.

Definition do {X} (x : act X) : code X := Step x Done.
Definition while (test : code bool) (body : code unit) : code unit :=
  Loop (λ _ : unit, test) (λ _, body) tt Done.

(** One iteration. *)
Definition unfold_loop {A L} (test : L → code bool) (body : L → code L) (l : L) (rest : L → code A) : code A :=
  b ← test l;
  if (b : bool) then l ← body l; Loop test body l rest else rest l.

(** ** test_scheduler.c *)

Section bodies.
(** As in Tests.v, what [test_pass] and [test_fail] hand on as first argument. *)
Context (va : Z).

Definition incr (x : var) : code unit := v ← do (Load x); do (Store x (u32 (v + 1))).
Definition say (str : string) (args : list Vga.va_arg) : code unit := do (Print (Vga.CallFormat (cstr str) args)).
Definition test_pass (str : string) : code unit :=
  _ ← do (Print (Vga.CallColor Tests.VGA_GREEN Vga.VGA_BLACK));
  _ ← say str [Vga.VWord va];
  do (Print (Vga.CallColor Vga.VGA_WHITE Vga.VGA_BLACK)).
Definition test_fail (str : string) : code unit :=
  _ ← do (Print (Vga.CallColor Tests.VGA_RED Vga.VGA_BLACK));
  _ ← say str [Vga.VWord va];
  do (Print (Vga.CallColor Vga.VGA_WHITE Vga.VGA_BLACK)).

(** These two are never called. *)
Definition test_pass_task (name : string) : code unit :=
  _ ← incr runningTestCnt;
  _ ← incr passedTestCnt;
  test_pass "[PASS] %s\n".
Definition test_fail_task (name : string) : code unit :=
  _ ← incr runningTestCnt;
  _ ← incr failedTestCnt;
  test_fail "[FAIL] %s\n".

(** [timer_ms() < bound] *)
Definition ms_before (bound : Z) : code bool := t ← do TimerMs; mret (t <? bound).
(** [x == 0 || y == 0] *)
Definition either_zero (x y : var) : code bool :=
  a ← do (Load x);
  if a =? 0 then mret true else b ← do (Load y); mret (b =? 0).

Definition task_a : code unit :=
  _ ← while (ms_before 5000) (incr cntA);
  do Exit.
Definition task_b : code unit :=
  _ ← while (ms_before 5000) (incr cntB);
  do Exit.

Definition monitor : code unit :=
  _ ← Loop (λ next, ms_before 5000)
       (λ next,
         t ← do TimerMs;
         next ← (if next <=? t then
                   a ← do (Load cntA);
                   b ← do (Load cntB);
                   _ ← say "A: %i B: %i\n" [Vga.VWord a; Vga.VWord b];
                   t ← do TimerMs;
                   mret ((t + 500) `mod` 2 ^ 64)
                 else mret next);
         _ ← do Yield;
         mret next) 0 Done;
  bad ← either_zero cntA cntB;
  _ ← (if (bad : bool) then test_fail "preemptive scheduling\n" else test_pass "preemptive scheduling\n");
  do Exit.

(** From the return of [task_block] on. *)
Definition blocker_woken : code unit :=
  _ ← do (Store blockerWoke 1);
  _ ← say "blocker: woken!\n" [];
  do Exit.
Definition blocker : code unit :=
  _ ← do (Store blockerStarted 1);
  _ ← say "blocker: sleeping...\n" [];
  _ ← do Block;
  blocker_woken.

(** [while (timer_ms() < end) task_yield();] *)
Definition yield_until (end_ : Z) : code unit := while (ms_before end_) (do Yield).

Definition waker : code unit :=
  _ ← while (s ← do (Load blockerStarted); mret (s =? 0)) (do Yield);
  t ← do TimerMs;
  let wakeTime := (t + 1000) `mod` 2 ^ 64 in
  _ ← yield_until wakeTime;
  id ← do (Load blockerID);
  result ← do (Unblock id);
  id ← do (Load blockerID);
  _ ← say "waker: unblock %i -> %i\n" [Vga.VWord id; Vga.VWord (u32 result)];
  _ ← (if result <? 0 then test_fail "task_unblock\n"
       else
         t ← do TimerMs;
         let endTime := (t + 100) `mod` 2 ^ 64 in
         _ ← yield_until endTime;
         w ← do (Load blockerWoke);
         if negb (w =? 0) then test_pass "task block/unblock\n" else test_fail "task block/unblock\n");
  do Exit.

Definition short_lived : code unit :=
  _ ← incr shortLiveTaskCnt;
  do Exit.

(** The locals of the loop are [i] and [failures]. *)
Definition spawner : code unit :=
  l ← Loop (λ l : Z * Z, mret (l.1 <? 256))
       (λ l,
         r ← do (Create "short_lived");
         let failures := if r <? 0 then u32 (l.2 + 1) else l.2 in
         _ ← do Yield;
         mret (u32 (l.1 + 1), failures)) (0, 0) Done;
  _ ← say "spawner: create failures = %i\n" [Vga.VWord l.2];
  t ← do TimerMs;
  let endTime := (t + 500) `mod` 2 ^ 64 in
  _ ← yield_until endTime;
  n ← do (Load shortLiveTaskCnt);
  _ ← (if n =? 0 then test_fail "short-lived task creation/execution\n"
       else test_pass "short-lived task creation/execution\n");
  do Exit.

Definition yield_task_a : code unit :=
  _ ← while (ms_before 3000) (_ ← incr yieldA; do Yield);
  do Exit.
Definition yield_task_b : code unit :=
  _ ← while (ms_before 3000) (_ ← incr yieldB; do Yield);
  do Exit.
Definition yield_test_monitor : code unit :=
  _ ← yield_until 3500;
  bad ← either_zero yieldA yieldB;
  _ ← (if (bad : bool) then test_fail "task_yield\n" else test_pass "task_yield\n");
  do Exit.

Definition test_result : code unit :=
  _ ← yield_until 6000;
  _ ← say "\n" [];
  _ ← say "==============================\n" [];
  _ ← say "Scheduler test results\n" [];
  _ ← say "==============================\n" [];
  n ← do (Load runningTestCnt);
  _ ← say "Tests run:    %i\n" [Vga.VWord n];
  n ← do (Load passedTestCnt);
  _ ← say "Tests passed: %i\n" [Vga.VWord n];
  n ← do (Load failedTestCnt);
  _ ← say "Tests failed: %i\n" [Vga.VWord n];
  n ← do (Load failedTestCnt);
  _ ← (if n =? 0 then test_pass "\n=== ALL TESTS PASSED ===\n" else test_fail "\n=== TESTS FAILED ===\n");
  do Exit.

(** [if (task_create(f) < 0) test_fail(message)] *)
Definition create (f message : string) : code unit :=
  r ← do (Create f);
  if r <? 0 then test_fail message else mret tt.

(** [scheduler_test], which the task of [kmain] runs with interrupts enabled. *)
Definition scheduler_test : code unit :=
  _ ← say "\n" [];
  _ ← say "==============================\n" [];
  _ ← say "Starting scheduler tests...\n" [];
  _ ← say "==============================\n" [];
  r ← do (Create "blocker");
  _ ← do (Store blockerID (u32 r));
  id ← do (Load blockerID);
  _ ← (if id =? u32 (-1) then test_fail "create blocker task\n" else mret tt);
  _ ← create "waker" "create waker task\n";
  _ ← create "monitor" "create preemption monitor\n";
  _ ← create "task_a" "create task A\n";
  _ ← create "task_b" "create task B\n";
  _ ← create "spawner" "create spawner task\n";
  _ ← create "yield_task_a" "create yield task A\n";
  _ ← create "yield_task_b" "create yield task B\n";
  _ ← create "yield_test_monitor" "create yield monitor\n";
  create "test_result" "\n=== FAILED TO CREATE TEST RESULT TASK ===\n".

(** The code at an entry point. *)
Definition bodies : list (string * code unit) :=
  [("blocker", blocker); ("waker", waker); ("monitor", monitor); ("task_a", task_a); ("task_b", task_b);
   ("spawner", spawner); ("short_lived", short_lived); ("yield_task_a", yield_task_a);
   ("yield_task_b", yield_task_b); ("yield_test_monitor", yield_test_monitor); ("test_result", test_result)]%string.
Definition body_of (f : string) : option (code unit) :=
  snd <$> List.find (λ b, bool_decide (b.1 = f)) bodies.
End bodies.

(** ** The tasks under the scheduler *)

Definition globals : Type := var → Z.
Definition set_var (x : var) (v : Z) (g : globals) : globals := λ y, if decide (y = x) then v else g y.

(** The kernel, the variables, what is left to do for the task in each slot, and the
    slots that [task_unblock] has made ready so far. *)
Record world : Type := mkWorld {
  w_kernel : kernel;
  w_vars : globals;
  w_code : gmap Z (code unit);
  w_woken : gset Z
}.
Definition set_kernel (k : kernel) (w : world) : world := mkWorld k (w_vars w) (w_code w) (w_woken w).
Definition set_vars (g : globals) (w : world) : world := mkWorld (w_kernel w) g (w_code w) (w_woken w).
Definition set_code (c : gmap Z (code unit)) (w : world) : world := mkWorld (w_kernel w) (w_vars w) c (w_woken w).
Definition set_woken (l : gset Z) (w : world) : world := mkWorld (w_kernel w) (w_vars w) (w_code w) l.
Definition on_kernel {A} (m : M kernel A) : M world A := zoom w_kernel set_kernel m.

Section steps.
Context (dev : device) (I : image) (va : Z) (entry : string → Z).
Definition event (ev : Scheduler.event) : M kernel Z := on_sched (Scheduler.run_event (sched_layout I) ev).

(** [c]: the registers of the task, in case it makes a system interrupt. *)
Definition perform (e : Z) (c : cpu) {X} (x : act X) : M world X :=
  match x with
  | Load x => gets (λ w, w_vars w x)
  | Store x v => modify (λ w, set_vars (set_var x v (w_vars w)) w)
  | TimerMs => on_kernel (on_ticks Pit.timer_ms)
  | Print call => on_kernel (on_vga (Vga.vga_run call))
  | Create f =>
      r ← on_kernel (event (Scheduler.Create (entry f)));
      _ ← when (0 <=? r) (modify (λ w, set_code (partial_alter (λ _, body_of va f) r (w_code w)) w));
      mret r
  | Unblock tid =>
      r ← on_kernel (event (Scheduler.Unblock tid));
      _ ← when (0 <=? r) (modify (λ w, set_woken ({[tid]} ∪ w_woken w) w));
      mret r
  | Yield => _ ← on_kernel (take_interrupt dev 49 e c); mret tt
  | Block => _ ← on_kernel (event Scheduler.BlockMark); mret tt
  | Exit => _ ← on_kernel (take_interrupt dev 50 e c); mret tt
  end.

(** What is left to do after it. *)
Definition after {X} (x : act X) : (X → code unit) → X → option (code unit) :=
  match x with
  | Block => λ f _, Some (Step Yield f)
  | Exit => λ _ _, None
  | _ => λ f v, Some (f v)
  end.

(** A turn of the task in slot [i]. *)
Definition turn (e : Z) (c : cpu) (i : Z) : M world unit := λ w,
  match w_code w !! i with
  | Some (Step x f) =>
      match perform e c x w with
      | Some (v, w') => Some (tt, set_code (partial_alter (λ _, after x f v) i (w_code w')) w')
      | None => None
      end
  | Some (Loop test body l rest) => Some (tt, set_code (<[i := unfold_loop test body l rest]> (w_code w)) w)
  | _ => None
  end.

(** The current task makes its turn, or the CPU takes an interrupt that no task asked
    for. *)
Inductive step (w : world) : world → Prop :=
| step_turn i e c w' :
    Scheduler.curTask (k_sched (w_kernel w)) = Some (Scheduler.Slot i) →
    Scheduler.on_stack (sched_layout I) (Scheduler.Slot i) (r_esp c - 52) →
    turn e c i w = Some (tt, w') → step w w'
| step_irq n e c q k' :
    n ∉ [49; 50] → can_take I n c (w_kernel w) →
    take_interrupt dev n e c (w_kernel w) = Some (q, k') → step w (set_kernel k' w).

(** When the task of [kmain] comes to [scheduler_test]: the slots are free. *)
Definition begins (w : world) : Prop :=
  Scheduler.has_state (k_sched (w_kernel w)) (Scheduler.Slot 0) Scheduler.TASK_RUNNING ∧
  (∀ i, 1 ≤ i < 16 → Scheduler.has_state (k_sched (w_kernel w)) (Scheduler.Slot i) Scheduler.TASK_TERMINATED) ∧
  w_vars w = set_var blockerID (u32 (-1)) (λ _, 0) ∧
  w_code w = {[0 := scheduler_test va]} ∧ w_woken w = ∅.
End steps.

(** ** What the scheduler does to the states of tasks *)

Definition alive (s : Scheduler.sched) (i : Z) : Prop :=
  ∃ t, Scheduler.task_of s (Scheduler.Slot i) = Some t ∧ Scheduler.state t ≠ Scheduler.TASK_TERMINATED.
Definition blocked (s : Scheduler.sched) (i : Z) : Prop :=
  Scheduler.has_state s (Scheduler.Slot i) Scheduler.TASK_BLOCKED.
Definition current (s : Scheduler.sched) (i : Z) : Prop := Scheduler.curTask s = Some (Scheduler.Slot i).

(** No task comes to life, wakes up or is blocked. *)
Record moved (s s' : Scheduler.sched) : Prop := {
  mv_alive i : alive s' i → alive s i;
  mv_blocked i : blocked s i → blocked s' i ∧ (current s' i → current s i);
  mv_new i : blocked s' i → current s' i → blocked s i ∧ current s i
}.

Lemma moved_refl s : moved s s.
Proof. split; naive_solver. Qed.

(** The same tasks, one of them current. *)
Definition same_tasks (s s' : Scheduler.sched) : Prop :=
  Scheduler.tasks s' = Scheduler.tasks s ∧ Scheduler.curTask s' = Scheduler.curTask s.

Lemma moved_same s0 s s' s0' : same_tasks s0 s → same_tasks s' s0' → moved s s' → moved s0 s0'.
Proof.
  intros [E1 E2] [E3 E4] [H1 H2 H3]. unfold alive, blocked, current, Scheduler.has_state, Scheduler.task_of in *.
  rewrite E1, E2 in *. rewrite <- E3, <- E4 in *. by split.
Qed.

Section moves.
Context (L : Scheduler.layout) (HL : Scheduler.layout_ok L).

(** The task that runs after a switch is not blocked. *)
Lemma schedule_moved regs cur t s :
  Scheduler.sched_base L s → Scheduler.curTask s = Some cur → Scheduler.task_of s cur = Some t →
  Scheduler.on_stack L cur regs →
  wp (Scheduler.scheduler_schedule regs) (λ _ s', moved s s' ∧ ∀ i, blocked s i → ¬ current s' i) s.
Proof.
  intros Hb Hcur Ht Hon. pose proof (Scheduler.inv_len _ _ Hb) as Hlen.
  use_wp (Scheduler.schedule_spec regs cur t s Hlen Hcur Ht (Scheduler.on_stack_nonzero L HL _ _ _ _ Hlen Ht Hon)).
  intros e s' (t' & Ht' & _ & ->). cbv zeta in *. set (s1 := Scheduler.put_task cur _ s) in *.
  assert (∀ q, Scheduler.task_of s1 q = if decide (cur = q) then Some (Scheduler.preempt regs t) else Scheduler.task_of s q) as H1
    by (intros q; apply Scheduler.task_of_put; eauto).
  destruct (Scheduler.choose_ready L s1 cur (Scheduler.preempt_between L regs cur t s Hb Hcur Ht Hon)) as (t'' & Ht'' & Hready).
  { exists (Scheduler.preempt regs t). by rewrite H1, decide_True. }
  assert (t'' = t') as -> by congruence. clear Ht''. revert Ht'. generalize (Scheduler.choose s1 cur). intros r Hr.
  assert (∀ i, blocked s i → blocked s1 i ∧ Scheduler.Slot i ≠ r) as Hbl.
  { intros i (ti & Hti & Hst). assert (blocked s1 i) as (t1 & Ht1 & Hst1).
    { unfold blocked, Scheduler.has_state. rewrite H1. case_decide as Hc; [|by exists ti]. subst cur.
      assert (ti = t) as -> by congruence. eexists. split; [done|]. cbn. by rewrite decide_False by congruence. }
    split; [by exists t1|]. intros <-. congruence. }
  assert (∀ i, alive s1 i → alive s i) as Hal1.
  { intros i (ti & Hti & Hst). rewrite H1 in Hti. case_decide as Hc; [|by exists ti]. subst cur. exists t. split; [done|].
    injection Hti as <-. cbn in Hst. case_decide; congruence. }
  assert (∀ q, Scheduler.task_of (Scheduler.switched r t' s1) q = if decide (r = q) then Some (Scheduler.with_state Scheduler.TASK_RUNNING t') else Scheduler.task_of s1 q) as H2
    by (intros q; by apply Scheduler.task_of_switched).
  assert (∀ i, current (Scheduler.switched r t' s1) i → r = Scheduler.Slot i) as Hr'
    by (intros i; unfold current; rewrite Scheduler.switched_cur; congruence).
  split; [split|].
  - intros i (ti & Hti & Hst). apply Hal1. rewrite H2 in Hti. case_decide; [|by exists ti]. subst r. exists t'. split; [done|congruence].
  - intros i Hi. destruct (Hbl i Hi) as [(t1 & Ht1 & Hst1) Hne]. split; [|intros Hc%Hr'; congruence].
    exists t1. rewrite H2, decide_False by congruence. done.
  - intros i (ti & Hti & Hst) Hc%Hr'. rewrite H2, decide_True in Hti by done. by injection Hti as <-.
  - intros i Hi Hc%Hr'. by destruct (Hbl i Hi) as [_ []].
Qed.

Lemma tick_moved regs cur s :
  Scheduler.sched_inv L s → Scheduler.curTask s = Some cur → Scheduler.on_stack L cur regs →
  wp (Scheduler.scheduler_tick regs) (λ _ s', moved s s') s.
Proof.
  intros [Hb (c & t & Hc & Ht & Hst)] Hcur Hon. assert (c = cur) as -> by congruence.
  apply Scheduler.tick_spec; [apply Hb| |].
  - intros _. by apply (moved_same s s s); [| |apply moved_refl].
  - intros _. use_wp (schedule_moved regs cur t (Scheduler.set_schedulerTicks 0 s)); [|done|done|done|].
    + apply Scheduler.set_ticks_base; [done|unfold Scheduler.TIME_SLICE_MS; lia].
    + intros _ s' [Hm _]. by apply (moved_same s (Scheduler.set_schedulerTicks 0 s) s').
Qed.

(** [task_exit] ends the current task. *)
Lemma exit_moved regs cur t s :
  Scheduler.sched_base L s → Scheduler.curTask s = Some cur → Scheduler.task_of s cur = Some t →
  Scheduler.state t = Scheduler.TASK_RUNNING → cur ≠ Scheduler.Idle → Scheduler.on_stack L cur regs →
  wp (Scheduler.scheduler_exit regs) (λ _ s', moved s s' ∧ ∀ i, current s i → ¬ alive s' i) s.
Proof.
  intros Hb Hcur Ht Hrun Hidle Hon. unfold Scheduler.scheduler_exit. do 2 wp_step. rewrite Hcur.
  destruct (Z.eqb_spec regs 0).
  { by destruct (Scheduler.on_stack_nonzero L HL _ _ _ _ (Scheduler.inv_len _ _ Hb) Ht Hon). }
  wp_step. eapply Scheduler.wp_update_task; [done|].
  set (t0 := Scheduler.with_state _ t). set (s0 := Scheduler.put_task cur t0 s).
  assert (∀ q, Scheduler.task_of s0 q = if decide (cur = q) then Some t0 else Scheduler.task_of s q) as H0
    by (intros q; apply Scheduler.task_of_put; eauto).
  assert (∀ i, current s0 i ↔ current s i) as Hc0 by (intros i; unfold current, s0; by rewrite Scheduler.put_task_cur).
  assert (∀ i, blocked s0 i ↔ blocked s i) as Hb0.
  { intros i. unfold blocked, Scheduler.has_state. rewrite H0. case_decide as Hc; [|done]. subst cur.
    split; intros (t1 & Ht1 & Hst); [by injection Ht1 as <-|congruence]. }
  use_wp (schedule_moved regs cur t0 s0); [|by unfold s0; rewrite Scheduler.put_task_cur|by rewrite H0, decide_True|done|].
  { apply Scheduler.restate_base; auto; congruence. }
  intros _ s' [[H1 H2 H3] _].
  assert (∀ i, alive s' i → alive s i ∧ cur ≠ Scheduler.Slot i) as Hal.
  { intros i (t1 & Ht1 & Hst1)%H1. rewrite H0 in Ht1. case_decide; [by injection Ht1 as <-|]. split; [by exists t1|done]. }
  split; [split|].
  - intros i Hi. by apply Hal.
  - intros i Hi. rewrite <- Hc0. by apply H2, Hb0.
  - intros i Hi Hc. rewrite <- Hb0, <- Hc0. by apply H3.
  - intros i Hc [_ Hne]%Hal. unfold current in Hc. congruence.
Qed.
End moves.

(** The same on the kernel's state: [moves n] is what interrupt [n] does to the tasks. *)
Definition moves (n : Z) (s s' : Scheduler.sched) : Prop :=
  moved s s' ∧ (n = 49 → ∀ i, blocked s i → ¬ current s' i) ∧ (n = 50 → ∀ i, current s i → ¬ alive s' i).

(** All slots but [r] are as before. *)
Definition but (r : Z) (s s' : Scheduler.sched) : Prop :=
  Scheduler.curTask s' = Scheduler.curTask s ∧
  ∀ j, j ≠ r → Scheduler.task_of s' (Scheduler.Slot j) = Scheduler.task_of s (Scheduler.Slot j).

Lemma but_put i t t1 s s1 :
  Scheduler.task_of s (Scheduler.Slot i) = Some t → same_tasks s s1 →
  but i s (Scheduler.put_task (Scheduler.Slot i) t1 s1) ∧
  Scheduler.task_of (Scheduler.put_task (Scheduler.Slot i) t1 s1) (Scheduler.Slot i) = Some t1.
Proof.
  intros Ht [E1 E2]. cbn [Scheduler.task_of] in Ht. rewrite <- E1 in Ht.
  split; [split|].
  - by rewrite Scheduler.put_task_cur.
  - intros j Hj. rewrite Scheduler.task_of_put by (by exists t). rewrite decide_False by congruence.
    cbn [Scheduler.task_of]. by rewrite E1.
  - rewrite Scheduler.task_of_put by (by exists t). by rewrite decide_True.
Qed.

Section kernel.
Context (dev : device) (I : image) (HI : image_ok I) (F : gset Z).

Lemma wp_on_sched (m : M Scheduler.sched Z) k (R : Scheduler.sched → Scheduler.sched → Prop) :
  (∀ s0 s s' s0', same_tasks s0 s → same_tasks s' s0' → R s s' → R s0 s0') →
  wp m (λ _ s', R (set_eflags (k_eflags k) (k_sched k)) s') (set_eflags (k_eflags k) (k_sched k)) →
  wp (on_sched m) (λ _ k', R (k_sched k) (k_sched k')) k.
Proof.
  intros HR Hm. unfold on_sched. wp_step. eapply wp_mono; [exact Hm|]. intros v s' H.
  by apply (HR _ (set_eflags (k_eflags k) (k_sched k)) s').
Qed.

Lemma moves_same n s0 s s' s0' : same_tasks s0 s → same_tasks s' s0' → moves n s s' → moves n s0 s0'.
Proof.
  intros Es Es' (Hm & H1 & H2). split; [by eapply moved_same|]. destruct Es as [E1 E2], Es' as [E3 E4].
  unfold alive, blocked, current, Scheduler.has_state, Scheduler.task_of in *.
  rewrite E1, E2 in *. rewrite <- E3, <- E4 in *. by split.
Qed.

Lemma handler_moves k regs cur n :
  kernel_inv I F k → Scheduler.curTask (k_sched k) = Some cur → Scheduler.on_stack (sched_layout I) cur regs →
  int_no (frame_at (Scheduler.stacks (k_sched k)) regs) = n → 0 ≤ n < 48 ∨ n = 49 ∨ n = 50 →
  (n = 50 → Scheduler.has_state (k_sched k) cur Scheduler.TASK_RUNNING ∧ cur ≠ Scheduler.Idle) →
  wp (interrupt_handler dev regs) (λ _ k', moves n (k_sched k) (k_sched k')) k.
Proof.
  intros Hk Hcur Hon Hn Hgate Hexit. pose proof (img_sched _ HI) as HL.
  destruct (decide (n ∉ [32; 49; 50])) as [Hno|Hyes].
  { use_wp (handler_served dev I F HL k regs cur Hk Hcur Hon n Hn Hgate Hexit).
    intros q k' (_ & _ & _ & _ & Hsame & _). destruct (Hsame Hno) as [_ ->].
    split; [apply moved_refl|]. split; intros ->; destruct Hno; by repeat constructor. }
  pose proof (sched_inv_eflags _ (k_eflags k) _ (ki_sched _ _ _ Hk)) as Hs.
  pose proof Hs as [Hb (c & t & Hc & Ht & Hst)]. assert (c = cur) as -> by (cbn in Hc; congruence).
  unfold interrupt_handler. wp_step. wp_step. rewrite Hn.
  assert (n = 32 ∨ n = 49 ∨ n = 50) as [-> | [-> | ->]].
  { destruct (decide (n ∈ [32; 49; 50])) as [Hin|]; [|done]. clear -Hin. rewrite !elem_of_cons in Hin. destruct Hin as [|[|[|[]%not_elem_of_nil]]]; auto. }
  - cbn [Z.eqb Pos.eqb]. unfold on_ticks, Pit.pit_tick. do 4 wp_step. apply (eoi_kernel); [lia|].
    match goal with |- wp _ _ ?k2 => refine (wp_on_sched _ k2 (moves 32) (moves_same 32) _) end.
    eapply wp_mono; [by apply (tick_moved (sched_layout I) HL regs cur)|]. intros v s' Hm. by split.
  - cbn [Z.eqb Pos.eqb]. apply (wp_on_sched _ _ (moves 49)); [apply moves_same|].
    eapply wp_mono; [by apply (schedule_moved (sched_layout I) HL regs cur t)|]. intros v s' [Hm Hbl]. by split.
  - cbn [Z.eqb Pos.eqb]. destruct (Hexit eq_refl) as [(t' & Ht' & Hrun) Hidle].
    apply (wp_on_sched _ _ (moves 50)); [apply moves_same|].
    eapply wp_mono; [by apply (exit_moved (sched_layout I) HL regs cur t')|]. intros v s' [Hm Hal]. by split.
Qed.

Lemma interrupt_moves n e c k :
  kernel_inv I F k → can_take I n c k →
  wp (take_interrupt dev n e c) (λ _ k', kernel_inv I F k' ∧ moves n (k_sched k) (k_sched k')) k.
Proof.
  intros Hk Hcan. pose proof (interrupt_served dev I HI F n e c k Hk Hcan) as Hsrv.
  destruct Hcan as (Hn & [h Hgate] & cur & Hcur & Hon & Hexit).
  unfold wp, take_interrupt in *.
  pose proof (isr_enter_frame n e (Scheduler.stacks (k_sched k)) c) as Hframe.
  pose proof (push_frame_inv I F n e c k Hk) as Hk1. unfold push_frame in *.
  destruct (isr_enter n e _ c) as [m p]. cbn [fst snd] in *. destruct Hframe as (-> & Hno & _ & _).
  set (k1 := with_sched _ k) in *.
  assert (0 ≤ n < 48 ∨ n = 49 ∨ n = 50) as Hvec.
  { rewrite (ki_idt _ _ _ Hk n Hn) in Hgate. by case_decide. }
  pose proof (handler_moves k1 (r_esp c - 52) cur n Hk1 Hcur Hon Hno Hvec Hexit) as Hmv. unfold wp in *.
  destruct (interrupt_handler _ _ _) as [[q k']|]; [|done]. destruct Hsrv as [[Hinv _] _]. split; [done|].
  by apply (moves_same n _ (k_sched k1) (k_sched k')).
Qed.

(** The calls of the scheduler that do not switch, by a running task. *)
Section calls.
Context (k : kernel) (cur : Scheduler.task_ref).
Hypothesis Hk : kernel_inv I F k.
Hypothesis Hcur : Scheduler.curTask (k_sched k) = Some cur.
Hypothesis Hrun : Scheduler.has_state (k_sched k) cur Scheduler.TASK_RUNNING.

Lemma event_moves ev (R : Z → Scheduler.sched → Scheduler.sched → Prop) :
  Scheduler.enabled (sched_layout I) (k_sched k) ev →
  wp (Scheduler.run_event (sched_layout I) ev) (λ r s', R r (k_sched k) s') (set_eflags (k_eflags k) (k_sched k)) →
  wp (event I ev) (λ r k', kernel_inv I F k' ∧ R r (k_sched k) (k_sched k')) k.
Proof.
  intros Hen Hm. apply wp_and.
  - eapply wp_mono; [by apply (task_call_inv I HI F)|]. by intros r k' [? _].
  - unfold event, on_sched. wp_step. eapply wp_mono; [exact Hm|]. done.
Qed.

Let s0 := set_eflags (k_eflags k) (k_sched k).
Let Hs0 : Scheduler.sched_inv (sched_layout I) s0 := sched_inv_eflags _ (k_eflags k) _ (ki_sched _ _ _ Hk).

(** [task_create] makes a free slot ready. *)
Lemma create_moves e :
  wp (event I (Scheduler.Create e)) (λ r k', kernel_inv I F k' ∧
    ((r < 0 ∧ same_tasks (k_sched k) (k_sched k')) ∨
     (0 ≤ r ∧ but r (k_sched k) (k_sched k') ∧ ¬ alive (k_sched k) r ∧ ¬ blocked (k_sched k') r))) k.
Proof.
  apply (event_moves _ (λ r s s', (r < 0 ∧ same_tasks s s') ∨ (0 ≤ r ∧ but r s s' ∧ ¬ alive s r ∧ ¬ blocked s' r)));
    [by exists cur|]. fold s0. destruct Hs0 as [Hb _]. cbn [Scheduler.run_event].
  use_wp (Scheduler.task_create_spec (sched_layout I) e s0 Hb). intros r s' H.
  destruct (decide (e = 0)); [destruct H as [-> ->]; by left|].
  destruct (Scheduler.free_slot s0) as [i|] eqn:Hf; [|destruct H as [-> ->]; by left].
  destruct H as (-> & t & Ht & ->). right. destruct (Scheduler.free_slot_spec _ _ i Hb Hf) as (Hi & _ & t' & Ht' & Hterm & _).
  split; [lia|]. unfold Scheduler.created. match goal with |- but _ _ (Scheduler.put_task _ ?t1 ?s1) ∧ _ =>
    destruct (but_put i t t1 s0 s1 Ht (conj eq_refl eq_refl)) as [Hbut Hnew] end.
  split; [exact Hbut|split].
  - intros (t1 & Ht1 & Hne). cbn in Ht', Ht1. congruence.
  - intros (t1 & Ht1 & Hbl). rewrite Hnew in Ht1. by injection Ht1 as <-.
Qed.

(** [task_unblock] makes a blocked task ready, or does nothing. *)
Lemma unblock_moves tid :
  wp (event I (Scheduler.Unblock tid)) (λ r k', kernel_inv I F k' ∧
    ((r < 0 ∧ same_tasks (k_sched k) (k_sched k')) ∨
     (0 ≤ r ∧ but tid (k_sched k) (k_sched k') ∧ blocked (k_sched k) tid ∧ ¬ blocked (k_sched k') tid))) k.
Proof.
  apply (event_moves _ (λ r s s', (r < 0 ∧ same_tasks s s') ∨ (0 ≤ r ∧ but tid s s' ∧ blocked s tid ∧ ¬ blocked s' tid)));
    [by exists cur|]. fold s0. destruct Hs0 as [Hb _]. cbn [Scheduler.run_event].
  apply (Scheduler.unblock_spec (sched_layout I) tid s0 _ Hb); [|by left].
  intros t _ Ht Hbl. right. split; [done|].
  destruct (but_put tid t (Scheduler.with_state Scheduler.TASK_READY t) s0 s0 Ht (conj eq_refl eq_refl)) as [Hbut Hnew].
  split; [exact Hbut|]. split; [by exists t|]. intros (t1 & Ht1 & Hbl'). rewrite Hnew in Ht1. by injection Ht1 as <-.
Qed.

(** The store of [task_block]. *)
Lemma block_moves i :
  cur = Scheduler.Slot i →
  wp (event I Scheduler.BlockMark) (λ _ k', kernel_inv I F k' ∧
    but i (k_sched k) (k_sched k') ∧ blocked (k_sched k') i) k.
Proof.
  intros Hi. apply (event_moves _ (λ _ s s', but i s s' ∧ blocked s' i)); [exists cur; by rewrite Hi in *|].
  fold s0. destruct Hs0 as [Hb _]. cbn [Scheduler.run_event]. wp_step. destruct Hrun as (t & Ht & Hst).
  use_wp (Scheduler.block_mark_spec (sched_layout I) cur t s0 Hb); [done|exact Ht|done|by rewrite Hi|].
  intros _ s' [-> _]. wp_step. subst cur.
  destruct (but_put i t (Scheduler.with_state Scheduler.TASK_BLOCKED t) s0 s0 Ht (conj eq_refl eq_refl)) as [Hbut Hnew].
  split; [exact Hbut|]. eexists. by rewrite Hnew.
Qed.
End calls.
End kernel.

(** ** What the bodies do and do not do *)

(** Every act in [p], on any path, satisfies [φ]. *)
Section every.
Context (φ : ∀ X, act X → Prop).
Fixpoint every {A} (p : code A) : Prop :=
  match p with
  | Done _ => True
  | Step x f => φ _ x ∧ ∀ v, every (f v)
  | Loop test body l rest => (∀ l, every (test l)) ∧ (∀ l, every (body l)) ∧ ∀ l, every (rest l)
  end.

Lemma every_bind {A B} (p : code A) (g : A → code B) : every p → (∀ a, every (g a)) → every (p ≫= g).
Proof.
  revert B g. induction p as [A a|A X x f IH|A L test _ body _ l rest IH]; intros B g Hp Hg.
  - apply Hg.
  - destruct Hp as [Hx Hf]. split; [done|]. intros v. by apply IH.
  - destruct Hp as (Ht & Hb & Hr). split; [done|]. split; [done|]. intros l'. by apply IH.
Qed.
Lemma every_do {X} (x : act X) : φ X x → every (do x).
Proof. done. Qed.
Lemma every_while test body : every test → every body → every (while test body).
Proof. by intros Ht Hb. Qed.
Lemma every_unfold {A L} test body (l : L) (rest : L → code A) :
  every (Loop test body l rest) → every (unfold_loop test body l rest).
Proof.
  intros (Ht & Hb & Hr). apply every_bind; [apply Ht|]. intros []; [|apply Hr].
  apply every_bind; [apply Hb|]. by intros l'.
Qed.
End every.

(** Every path that ends does so with [task_exit]. *)
Fixpoint ends {A} (p : code A) : Prop :=
  match p with
  | Done _ => False
  | Step x f => match x with Exit => True | _ => ∀ v, ends (f v) end
  | Loop test body l rest => ∀ l, ends (rest l)
  end.

Lemma ends_bind {A B} (p : code A) (g : A → code B) : (∀ a, ends (g a)) → ends (p ≫= g).
Proof.
  revert B g. induction p as [A a|A X x f IH|A L test _ body _ l rest IH]; intros B g Hg.
  - apply Hg.
  - unfold mbind, code_bind. destruct x; try done; intros u; exact (IH u B g Hg).
  - intros l'. exact (IH l' B g Hg).
Qed.

(** The formats take words, as many as there are. *)
Fixpoint words_of (fmt : list Z) : option nat :=
  match fmt with
  | [] => Some 0%nat
  | c :: fmt =>
      if decide (c = 37) then
        match fmt with
        | [] => Some 0%nat
        | f :: fmt =>
            if decide (f = 115) then None
            else if decide (f ∈ [99; 100; 105; 117; 120]) then S <$> words_of fmt
            else words_of fmt
        end
      else words_of fmt
  end.

Lemma conversion_word f w args :
  f ∈ [99; 100; 105; 117; 120] → ∃ cs, Vga.conversion_chars f (Vga.VWord w :: args) = Some (cs, args).
Proof.
  rewrite !elem_of_cons. intros [-> |[-> |[-> |[-> |[-> |[]%not_elem_of_nil]]]]]; by eexists.
Qed.
Lemma conversion_plain f args :
  f ∉ [99; 100; 105; 117; 120] → f ≠ 115 → ∃ cs, Vga.conversion_chars f args = Some (cs, args).
Proof.
  rewrite !elem_of_cons. intros Hf Hs. unfold Vga.conversion_chars.
  destruct (decide (f = 37)); [by eexists|]. do 5 (rewrite decide_False by naive_solver). by eexists.
Qed.

Lemma format_words fmt ws n :
  words_of fmt = Some n → (n ≤ length ws)%nat → is_Some (Vga.format fmt (Vga.VWord <$> ws)).
Proof.
  revert ws n. induction fmt as [fmt IH] using (induction_ltof1 _ (@length Z)). unfold ltof in IH.
  intros ws n. destruct fmt as [|c [|f fmt]]; cbn [words_of Vga.format]; [by eexists|by case_decide; eexists|].
  case_decide as Hc.
  - destruct (decide (f = 115)); [done|].
    destruct (decide (f ∈ [99; 100; 105; 117; 120])) as [Hf|Hf].
    + destruct (words_of fmt) as [m|] eqn:Em; [|done]. intros [= <-] Hle. destruct ws as [|w ws]; [simpl in Hle; lia|].
      change (Vga.VWord <$> w :: ws) with (Vga.VWord w :: (Vga.VWord <$> ws)).
      destruct (conversion_word f w (Vga.VWord <$> ws) Hf) as [cs ->].
      destruct (IH fmt ltac:(simpl; lia) ws m Em ltac:(simpl in Hle; lia)) as [cs' ->]. by eexists.
    + intros Hn Hle. destruct (conversion_plain f (Vga.VWord <$> ws) Hf) as [cs ->]; [done|].
      destruct (IH fmt ltac:(simpl; lia) ws n Hn Hle) as [cs' ->]. by eexists.
  - intros Hn Hle. destruct (IH (f :: fmt) ltac:(simpl; lia) ws n Hn Hle) as [cs Hcs].
    cbn [Vga.format] in Hcs. rewrite Hcs. by eexists.
Qed.

(** Printing is well formed, the counters of [test_result] are not written, and only
    the functions of this file are started. *)
Definition act_ok (va : Z) (X : Type) (x : act X) : Prop :=
  match x with
  | Print call => Vga.call_ok call
  | Create f => is_Some (body_of va f)
  | Store x _ => x ≠ runningTestCnt ∧ x ≠ passedTestCnt ∧ x ≠ failedTestCnt
  | _ => True
  end.
(** Only [blocker] blocks and stores [blockerWoke]. *)
Definition act_quiet (X : Type) (x : act X) : Prop :=
  match x with Store x _ => x ≠ blockerWoke | Block => False | _ => True end.

Lemma print_ok va fmt ws n :
  words_of fmt = Some n → (n ≤ length ws)%nat → every (act_ok va) (do (Print (Vga.CallFormat fmt (Vga.VWord <$> ws)))).
Proof. intros Hn Hle. apply every_do. by apply (format_words fmt ws n). Qed.

Ltac print_words fmt ws :=
  let n := eval vm_compute in (words_of fmt) in
  match n with Some ?n => exact (print_ok _ fmt ws n ltac:(vm_compute; reflexivity) ltac:(simpl; lia)) end.
Ltac every_code :=
  repeat first
    [ progress intros
    | match goal with
      | |- every _ (if ?b then _ else _) => destruct b
      | |- every _ (mret _) => exact Logic.I
      | |- every _ (Done _) => exact Logic.I
      | |- every _ (Loop _ _ _ _) => split; [|split]
      end
    | apply every_bind
    | apply every_while
    | apply every_do; solve [done | by eexists]
    | match goal with
      | |- every _ (do (Print (Vga.CallFormat ?fmt []))) => print_words fmt (@nil Z)
      | |- every _ (do (Print (Vga.CallFormat ?fmt [Vga.VWord ?a]))) => print_words fmt [a]
      | |- every _ (do (Print (Vga.CallFormat ?fmt [Vga.VWord ?a; Vga.VWord ?b]))) => print_words fmt [a; b]
      end ].
Ltac ends_code := repeat first [ progress intros | apply ends_bind | exact Logic.I ].

Create HintDb tasks.
#[export] Hint Unfold blocker blocker_woken waker monitor task_a task_b spawner short_lived yield_task_a yield_task_b
  yield_test_monitor test_result scheduler_test create yield_until incr either_zero ms_before test_pass test_fail say : tasks.

Section bodies_ok.
Context (va : Z).

Lemma bodies_every f p : body_of va f = Some p → every (act_ok va) p ∧ ends p ∧ (p = blocker ∨ every act_quiet p).
Proof.
  unfold body_of. destruct (List.find _ _) as [[g q]|] eqn:E; [|done]. intros [= <-].
  apply List.find_some in E as [Hin _]. cbn [snd].
  repeat (destruct Hin as [[= <- <-]|Hin]); [..|by destruct Hin].
  all: split; [autounfold with tasks; cbv zeta; every_code|].
  all: split; [autounfold with tasks; cbv zeta; ends_code|].
  all: try (left; reflexivity).
  all: right; autounfold with tasks; cbv zeta; every_code.
Qed.

Lemma scheduler_test_every : every (act_ok va) (scheduler_test va) ∧ every act_quiet (scheduler_test va).
Proof. split; autounfold with tasks; every_code. Qed.
End bodies_ok.

(** ** The invariant *)

(** The stages of [blocker]. *)
Definition blocker_print : code unit :=
  _ ← say "blocker: sleeping...\n" []; _ ← do Block; blocker_woken.
Definition blocker_block : code unit := _ ← do Block; blocker_woken.
Definition blocker_yield : code unit := _ ← do Yield; blocker_woken.

(** What the task in slot [i] has left to do: it is not in [blocker], or has not come to
    [task_block], or has marked itself blocked and stays so, and once it has yielded is
    not current, until it is woken. *)
Definition slot_ok (s : Scheduler.sched) (woken : gset Z) (i : Z) (p : code unit) : Prop :=
  every act_quiet p ∨ p = blocker ∨ p = blocker_print ∨ p = blocker_block ∨
  (p = blocker_yield ∧ (i ∈ woken ∨ blocked s i)) ∨
  (p = blocker_woken ∧ (i ∈ woken ∨ (blocked s i ∧ ¬ current s i))).

Definition is_yield (p : code unit) : bool := match p with Step Yield _ => true | _ => false end.
(** The task of [kmain] returns from [scheduler_test]; the others end with [task_exit]. *)
Definition code_ok (va i : Z) (p : code unit) : Prop := every (act_ok va) p ∧ (i = 0 ∨ ends p).

Section invariant.
Context (dev : device) (I : image) (HI : image_ok I) (va : Z) (entry : string → Z) (F : gset Z).

Record tests_inv (w : world) : Prop := {
  ti_kernel : kernel_inv I F (w_kernel w);
  ti_alive i : alive (k_sched (w_kernel w)) i → is_Some (w_code w !! i);
  ti_code i p : w_code w !! i = Some p → code_ok va i p ∧ slot_ok (k_sched (w_kernel w)) (w_woken w) i p;
  (* a task that has marked itself blocked yields next *)
  ti_block i p : blocked (k_sched (w_kernel w)) i → current (k_sched (w_kernel w)) i →
    w_code w !! i = Some p → is_yield p = true;
  ti_count x : x ∈ [runningTestCnt; passedTestCnt; failedTestCnt] → w_vars w x = 0;
  ti_woke : w_vars w blockerWoke ≠ 0 → w_woken w ≠ ∅
}.

Lemma slot_ok_calm s s' W W' i p :
  W ⊆ W' → (blocked s i → i ∈ W' ∨ blocked s' i) → (blocked s i → blocked s' i → current s' i → current s i) →
  slot_ok s W i p → slot_ok s' W' i p.
Proof.
  intros HW Hb Hc. unfold slot_ok. intros [?|[?|[?|[?|[[? Hw]|[? Hw]]]]]]; auto.
  - do 4 right. left. split; [done|]. destruct Hw as [Hw|Hw]; [left; by apply HW|by apply Hb].
  - do 5 right. split; [done|]. destruct Hw as [Hw|[Hw Hn]]; [left; by apply HW|].
    destruct (Hb Hw) as [?|Hw']; [by left|]. right. split; [done|]. intros Hcur. by apply Hn, Hc.
Qed.

(** An interrupt between two turns. *)
Lemma irq_inv w k' :
  tests_inv w → kernel_inv I F k' → moved (k_sched (w_kernel w)) (k_sched k') → tests_inv (set_kernel k' w).
Proof.
  intros [H1 H2 H3 H4 H5 H6] Hk [M1 M2 M3]. split; [done| | | |done|done]; cbn [w_kernel w_code w_woken set_kernel].
  - intros i Hi. by apply H2, M1.
  - intros i p Hp. destruct (H3 i p Hp) as [Hok Hs]. split; [done|].
    apply (slot_ok_calm (k_sched (w_kernel w)) _ (w_woken w)); [done| | |done].
    + intros Hb. right. by apply M2.
    + intros Hb _. by apply M2.
  - intros i p Hb Hc. destruct (M3 i Hb Hc) as [Hb' Hc']. by apply H4.
Qed.
(** What another task sees of a turn. *)
Definition left_alone (s s' : Scheduler.sched) (W' : gset Z) (j : Z) : Prop :=
  (alive s' j → alive s j) ∧ (blocked s j → j ∈ W' ∨ blocked s' j) ∧ (blocked s' j → ¬ current s' j).

Lemma moved_left_alone s s' W i j : moved s s' → current s i → j ≠ i → left_alone s s' W j.
Proof.
  intros [M1 M2 M3] Hc Hne. split; [by apply M1|]. split; [intros Hb; right; by apply M2|].
  intros Hb Hc'. destruct (M3 j Hb Hc') as [_ Hj]. unfold current in *. congruence.
Qed.

(** A turn of task [i], which has [o] left to do afterwards. *)
Lemma advance w k' g' C1 W' i o :
  tests_inv w → current (k_sched (w_kernel w)) i → kernel_inv I F k' → w_woken w ⊆ W' →
  (∀ j, j ≠ i → (C1 !! j = w_code w !! j ∧ left_alone (k_sched (w_kernel w)) (k_sched k') W' j) ∨
     ∃ p, C1 !! j = Some p ∧ code_ok va j p ∧ slot_ok (k_sched k') W' j p ∧ ¬ blocked (k_sched k') j) →
  match o with
  | Some p => code_ok va i p ∧ slot_ok (k_sched k') W' i p ∧
      (blocked (k_sched k') i → current (k_sched k') i → is_yield p = true)
  | None => ¬ alive (k_sched k') i
  end →
  (∀ x, x ∈ [runningTestCnt; passedTestCnt; failedTestCnt] → g' x = 0) → (g' blockerWoke ≠ 0 → W' ≠ ∅) →
  tests_inv (mkWorld k' g' (partial_alter (λ _, o) i C1) W').
Proof.
  intros [H1 H2 H3 H4 H5 H6] Hcur Hk HW Hothers Ho Hg Hw.
  split; [done| | | |done|done]; cbn [w_kernel w_code w_woken].
  - intros j Hj. destruct (decide (j = i)) as [->|Hne]; [rewrite lookup_partial_alter_eq|rewrite lookup_partial_alter_ne by congruence].
    + destruct o; [by eexists|done].
    + destruct (Hothers j Hne) as [(-> & Hal & _)|(p & -> & _)]; [|by eexists]. by apply H2, Hal.
  - intros j p. destruct (decide (j = i)) as [->|Hne]; [rewrite lookup_partial_alter_eq|rewrite lookup_partial_alter_ne by congruence].
    + intros ->. by destruct Ho as (? & ? & _).
    + destruct (Hothers j Hne) as [(-> & _ & Hb & Hc)|(q & -> & Hq1 & Hq2 & _)]; [|by intros [= <-]].
      intros Hp. destruct (H3 j p Hp) as [Hok Hs]. split; [done|].
      apply (slot_ok_calm (k_sched (w_kernel w)) _ (w_woken w)); [done|done| |done]. intros _ Hb' Hc'. by destruct (Hc Hb').
  - intros j p Hb Hc. destruct (decide (j = i)) as [->|Hne]; [rewrite lookup_partial_alter_eq|rewrite lookup_partial_alter_ne by congruence].
    + intros ->. destruct Ho as (_ & _ & Hy). by apply Hy.
    + destruct (Hothers j Hne) as [(_ & _ & _ & Hn)|(q & _ & _ & _ & Hn)]; [by destruct (Hn Hb)|by destruct Hn].
Qed.

(** A turn that does not change the tasks' states. *)
Lemma advance_moved w k' g' i p :
  tests_inv w → current (k_sched (w_kernel w)) i → ¬ blocked (k_sched (w_kernel w)) i → kernel_inv I F k' →
  moved (k_sched (w_kernel w)) (k_sched k') → code_ok va i p → slot_ok (k_sched k') (w_woken w) i p →
  (∀ x, x ∈ [runningTestCnt; passedTestCnt; failedTestCnt] → g' x = 0) → (g' blockerWoke ≠ 0 → w_woken w ≠ ∅) →
  tests_inv (mkWorld k' g' (partial_alter (λ _, Some p) i (w_code w)) (w_woken w)).
Proof.
  intros Hw Hcur Hnb Hk Hm Hp Hs Hg Hwoke. apply (advance w); [done|done|done|done| | |done|done].
  - intros j Hne. left. split; [done|]. by apply (moved_left_alone _ _ _ i).
  - split; [done|]. split; [done|]. intros Hb Hc. by destruct (mv_new _ _ Hm i Hb Hc).
Qed.

(** ** A turn *)

Lemma but_left_alone r s s' W i j : but r s s' → current s i → j ≠ r → j ≠ i → left_alone s s' W j.
Proof.
  intros [Ec Et] Hc Hr Hi. unfold left_alone, alive, blocked, current, Scheduler.has_state in *. rewrite (Et j Hr), Ec.
  split; [done|]. split; [by right|]. intros _ Hj. congruence.
Qed.

Section turn.
Context (w : world) (i e : Z) (c : cpu).
Hypothesis Hw : tests_inv w.
Hypothesis Hcur : current (k_sched (w_kernel w)) i.
Hypothesis Hon : Scheduler.on_stack (sched_layout I) (Scheduler.Slot i) (r_esp c - 52).

Lemma wp_turn X (x : act X) f (Q : unit → world → Prop) :
  w_code w !! i = Some (Step x f) →
  wp (perform dev I va entry e c x) (λ v w', Q tt (set_code (partial_alter (λ _, after x f v) i (w_code w')) w')) w →
  wp (turn dev I va entry e c i) Q w.
Proof.
  intros Hp Hwp. unfold turn, wp in *. rewrite Hp. by destruct (perform _ _ _ _ e c x w) as [[v w']|].
Qed.

(** The current task runs, unless it is about to yield. *)
Lemma current_running p :
  w_code w !! i = Some p → is_yield p = false →
  Scheduler.has_state (k_sched (w_kernel w)) (Scheduler.Slot i) Scheduler.TASK_RUNNING ∧ ¬ blocked (k_sched (w_kernel w)) i.
Proof.
  intros Hp Hy. assert (¬ blocked (k_sched (w_kernel w)) i) as Hnb.
  { intros Hb. rewrite (ti_block _ Hw i p Hb Hcur Hp) in Hy. done. }
  split; [|done]. destruct (ki_sched _ _ _ (ti_kernel _ Hw)) as [_ (cur & t & Hc & Ht & Hst)].
  unfold current in Hcur. assert (cur = Scheduler.Slot i) as -> by congruence. exists t. split; [done|].
  destruct Hst as [?|[Hb _]]; [done|]. destruct Hnb. by exists t.
Qed.

Lemma can_switch n :
  n = 49 ∨ (n = 50 ∧ Scheduler.has_state (k_sched (w_kernel w)) (Scheduler.Slot i) Scheduler.TASK_RUNNING) →
  can_take I n c (w_kernel w).
Proof.
  intros Hn. split; [lia|]. split.
  - rewrite (ki_idt _ _ _ (ti_kernel _ Hw)) by lia. rewrite decide_True by lia. by eexists.
  - exists (Scheduler.Slot i). split; [exact Hcur|]. split; [done|]. intros ->. by destruct Hn as [?|[_ ?]].
Qed.

(** What the rest of a task must satisfy. *)
Definition rest_ok (p : code unit) : Prop := ∀ s W, slot_ok s W i p.

Section plain.
Context (X : Type) (x : act X) (f : X → code unit).
Hypothesis Hp : w_code w !! i = Some (Step x f).

Lemma rest_code v : (match x with Exit => False | _ => True end) → code_ok va i (f v).
Proof.
  intros Hx. destruct (ti_code _ Hw i _ Hp) as [[[_ Hev] Hend] _]. split; [apply Hev|].
  destruct Hend as [|Hend]; [by left|]. right. by destruct x.
Qed.

(** Acts that leave the scheduler alone. *)
Lemma advance_quiet k' g' v :
  is_yield (Step x f) = false → (match x with Exit => False | _ => True end) →
  kernel_inv I F k' → same_tasks (k_sched (w_kernel w)) (k_sched k') → rest_ok (f v) →
  (∀ x, x ∈ [runningTestCnt; passedTestCnt; failedTestCnt] → g' x = 0) → (g' blockerWoke ≠ 0 → w_woken w ≠ ∅) →
  tests_inv (mkWorld k' g' (partial_alter (λ _, Some (f v)) i (w_code w)) (w_woken w)).
Proof.
  intros Hy Hx Hk Hsame Hrest Hg Hwoke. apply advance_moved; try done.
  - by apply (current_running _ Hp).
  - by apply (moved_same (k_sched (w_kernel w)) (k_sched (w_kernel w)) (k_sched (w_kernel w))); [| |apply moved_refl].
  - by apply rest_code.
Qed.
End plain.

Lemma load_turn x f :
  w_code w !! i = Some (Step (Load x) f) → (∀ v, rest_ok (f v)) → wp (turn dev I va entry e c i) (λ _ w', tests_inv w') w.
Proof.
  intros Hp Hf. apply (wp_turn _ _ _ _ Hp). cbn [perform after]. wp_step. pose proof Hw as [H1 _ _ _ H5 H6].
  by apply (advance_quiet _ (Load x) f Hp (w_kernel w) (w_vars w)).
Qed.

Lemma store_turn x v f :
  w_code w !! i = Some (Step (Store x v) f) → (x = blockerWoke → w_woken w ≠ ∅) → rest_ok (f tt) →
  wp (turn dev I va entry e c i) (λ _ w', tests_inv w') w.
Proof.
  intros Hp Hwoke Hf. apply (wp_turn _ _ _ _ Hp). cbn [perform after]. wp_step. pose proof Hw as [H1 _ _ _ H5 H6].
  destruct (ti_code _ Hw i _ Hp) as [[[(N1 & N2 & N3) _] _] _].
  apply (advance_quiet _ (Store x v) f Hp (w_kernel w) (set_var x v (w_vars w))); try done.
  - intros y Hy. unfold set_var. rewrite decide_False; [by apply H5|]. intros ->.
    rewrite !elem_of_cons in Hy. by destruct Hy as [?|[?|[?|[]%not_elem_of_nil]]].
  - unfold set_var. case_decide as E; [intros _; by apply Hwoke|exact H6].
Qed.

Lemma timer_turn f :
  w_code w !! i = Some (Step TimerMs f) → (∀ v, rest_ok (f v)) → wp (turn dev I va entry e c i) (λ _ w', tests_inv w') w.
Proof.
  intros Hp Hf. apply (wp_turn _ _ _ _ Hp). cbn [perform after]. unfold on_kernel, on_ticks. wp_step. wp_step.
  change Pit.timer_ms with Pit.pit_get_ticks. unfold Pit.pit_get_ticks. wp_step.
  assert (with_ticks (k_ticks (w_kernel w)) (w_kernel w) = w_kernel w) as -> by (by destruct (w_kernel w)).
  pose proof Hw as [H1 _ _ _ H5 H6]. by apply (advance_quiet _ TimerMs f Hp (w_kernel w) (w_vars w)).
Qed.

Lemma print_turn call f :
  w_code w !! i = Some (Step (Print call) f) → rest_ok (f tt) → wp (turn dev I va entry e c i) (λ _ w', tests_inv w') w.
Proof.
  intros Hp Hf. apply (wp_turn _ _ _ _ Hp). cbn [perform after]. unfold on_kernel. wp_step.
  destruct (ti_code _ Hw i _ Hp) as [[[Hcall _] _] _]. pose proof Hw as [H1 _ _ _ H5 H6].
  eapply wp_mono; [apply (wp_and _ _ (λ _ k', k_sched k' = k_sched (w_kernel w)) _ (print_inv I F call _ H1 Hcall))|].
  - unfold on_vga. wp_step. apply wp_inv.
    destruct (proj1 (wp_inv _ _ _) (Vga.call_settled call (set_eflags (k_eflags (w_kernel w)) (k_vga (w_kernel w)))
      (settled_eflags _ _ (ki_vga _ _ _ H1)) Hcall)) as (u & v' & E & _). by exists u, v'.
  - intros [] k' [[Hk' _] Es]. by apply (advance_quiet _ (Print call) f Hp k' (w_vars w)); try done; split; rewrite Es.
Qed.

Lemma create_turn g f :
  w_code w !! i = Some (Step (Create g) f) → (∀ v, rest_ok (f v)) → wp (turn dev I va entry e c i) (λ _ w', tests_inv w') w.
Proof.
  intros Hp Hf. apply (wp_turn _ _ _ _ Hp). cbn [perform after]. unfold on_kernel. wp_step. wp_step.
  pose proof Hw as [H1 _ _ _ H5 H6]. destruct (current_running _ Hp eq_refl) as [Hrun Hnb].
  use_wp (create_moves I HI F _ (Scheduler.Slot i) H1 Hcur Hrun (entry g)).
  intros r k' [Hk' [[Hr Hsame]|(Hr & Hbut & Hdead & Hnew)]].
  - rewrite (proj2 (Z.leb_gt 0 r)) by lia. cbn [when]. wp_steps. by apply (advance_quiet _ (Create g) f Hp k' (w_vars w)).
  - rewrite (proj2 (Z.leb_le 0 r)) by lia. cbn [when]. wp_steps.
    assert (i ≠ r) as Hir. { intros ->. apply Hdead. destruct Hrun as (t & Ht & Hst). exists t. split; [done|congruence]. }
    apply (advance w k' (w_vars w) (partial_alter (λ _, body_of va g) r (w_code w)) (w_woken w)); try done.
    + intros j Hj. destruct (decide (j = r)) as [->|Hjr].
      * right. destruct (ti_code _ Hw i _ Hp) as [[[[p Hg] _] _] _]. destruct (bodies_every va g p Hg) as (B1 & B2 & B3).
        exists p. rewrite lookup_partial_alter_eq. split; [done|]. split; [split; [done|by right]|].
        split; [|done]. unfold slot_ok. destruct B3; auto.
      * left. rewrite lookup_partial_alter_ne by congruence. split; [done|]. by apply (but_left_alone r _ _ _ i).
    + split; [by apply (rest_code _ (Create g) f Hp)|]. split; [apply Hf|]. intros Hb _. destruct Hnb.
      unfold blocked, Scheduler.has_state in *. by rewrite (proj2 Hbut i Hir) in Hb.
Qed.

Lemma unblock_turn tid f :
  w_code w !! i = Some (Step (Unblock tid) f) → (∀ v, rest_ok (f v)) → wp (turn dev I va entry e c i) (λ _ w', tests_inv w') w.
Proof.
  intros Hp Hf. apply (wp_turn _ _ _ _ Hp). cbn [perform after]. unfold on_kernel. wp_step. wp_step.
  pose proof Hw as [H1 _ _ _ H5 H6]. destruct (current_running _ Hp eq_refl) as [Hrun Hnb].
  use_wp (unblock_moves I HI F _ (Scheduler.Slot i) H1 Hcur Hrun tid).
  intros r k' [Hk' [[Hr Hsame]|(Hr & Hbut & Hbl & Hnew)]].
  - rewrite (proj2 (Z.leb_gt 0 r)) by lia. cbn [when]. wp_steps. by apply (advance_quiet _ (Unblock tid) f Hp k' (w_vars w)).
  - rewrite (proj2 (Z.leb_le 0 r)) by lia. cbn [when]. wp_steps.
    assert (i ≠ tid) as Hir by (by intros ->).
    apply (advance w k' (w_vars w) (w_code w) ({[tid]} ∪ w_woken w)); try done.
    + clear. set_solver.
    + intros j Hj. left. split; [done|]. destruct (decide (j = tid)) as [->|Hjr]; [|by apply (but_left_alone tid _ _ _ i)].
      split; [|split; [intros _; left; clear; set_solver|done]].
      intros _. destruct Hbl as (t & Ht & Hst). exists t. split; [done|congruence].
    + split; [by apply (rest_code _ (Unblock tid) f Hp)|]. split; [apply Hf|]. intros Hb _. destruct Hnb.
      unfold blocked, Scheduler.has_state in *. by rewrite (proj2 Hbut i Hir) in Hb.
    + intros _. clear. set_solver.
Qed.

(** [task_block]: the task is blocked and yields next. *)
Lemma block_turn f :
  w_code w !! i = Some (Step Block f) →
  (∀ s W, blocked s i → slot_ok s W i (Step Yield f)) → wp (turn dev I va entry e c i) (λ _ w', tests_inv w') w.
Proof.
  intros Hp Hf. apply (wp_turn _ _ _ _ Hp). cbn [perform after]. unfold on_kernel. wp_step. wp_step.
  pose proof Hw as [H1 _ _ _ H5 H6]. destruct (current_running _ Hp eq_refl) as [Hrun Hnb].
  use_wp (block_moves I HI F _ (Scheduler.Slot i) H1 Hcur Hrun i eq_refl).
  intros r k' (Hk' & Hbut & Hbl). wp_step. apply (advance w k' (w_vars w) (w_code w) (w_woken w)); try done.
  - intros j Hj. left. split; [done|]. by apply (but_left_alone i _ _ _ i).
  - destruct (ti_code _ Hw i _ Hp) as [[[_ Hev] Hend] _]. split; [split; [by split|exact Hend]|]. split; [by apply Hf|done].
Qed.

(** [task_yield]: a blocked task is not current afterwards. *)
Lemma yield_turn f :
  w_code w !! i = Some (Step Yield f) →
  (∀ s, (blocked (k_sched (w_kernel w)) i → blocked s i ∧ ¬ current s i) → slot_ok s (w_woken w) i (f tt)) →
  wp (turn dev I va entry e c i) (λ _ w', tests_inv w') w.
Proof.
  intros Hp Hf. apply (wp_turn _ _ _ _ Hp). cbn [perform after]. unfold on_kernel. wp_step. wp_step.
  pose proof Hw as [H1 _ _ _ H5 H6].
  use_wp (interrupt_moves dev I HI F 49 e c _ H1 (can_switch 49 (or_introl eq_refl))).
  intros r k' (Hk' & Hm & Hbl & _). specialize (Hbl eq_refl). wp_step.
  apply (advance w k' (w_vars w) (w_code w) (w_woken w)); try done.
  - intros j Hj. left. split; [done|]. by apply (moved_left_alone _ _ _ i).
  - split; [by apply (rest_code _ Yield f Hp)|]. split.
    + apply Hf. intros Hb. split; [by apply (mv_blocked _ _ Hm)|by apply Hbl].
    + intros Hb Hc. destruct (mv_new _ _ Hm i Hb Hc) as [Hb' _]. by destruct (Hbl i Hb').
Qed.

Lemma exit_turn f : w_code w !! i = Some (Step Exit f) → wp (turn dev I va entry e c i) (λ _ w', tests_inv w') w.
Proof.
  intros Hp. apply (wp_turn _ _ _ _ Hp). cbn [perform after]. unfold on_kernel. wp_step. wp_step.
  pose proof Hw as [H1 _ _ _ H5 H6]. destruct (current_running _ Hp eq_refl) as [Hrun Hnb].
  use_wp (interrupt_moves dev I HI F 50 e c _ H1 (can_switch 50 (or_intror (conj eq_refl Hrun)))).
  intros r k' (Hk' & Hm & _ & Hdead). wp_step.
  apply (advance w k' (w_vars w) (w_code w) (w_woken w) i None); try done.
  - intros j Hj. left. split; [done|]. by apply (moved_left_alone _ _ _ i).
  - by apply Hdead.
Qed.

(** Whatever is next, the turn returns and keeps the invariant. *)
Lemma loop_turn L test body (l : L) rest :
  w_code w !! i = Some (Loop test body l rest) → every act_quiet (Loop test body l rest) →
  wp (turn dev I va entry e c i) (λ _ w', tests_inv w') w.
Proof.
  intros Hp Hq. destruct (ti_code _ Hw i _ Hp) as [[Hev Hend] _]. destruct (current_running _ Hp eq_refl) as [_ Hnb].
  unfold turn, wp. rewrite Hp. pose proof Hw as [H1 _ _ _ H5 H6].
  apply (advance_moved w (w_kernel w) (w_vars w)); try done.
  - split; [by apply every_unfold|]. destruct Hend as [|Hend]; [by left|]. right. apply ends_bind.
    intros []; [by apply ends_bind|apply Hend].
  - left. by apply every_unfold.
Qed.

Lemma quiet_turn p :
  w_code w !! i = Some p → every act_quiet p →
  (p = Done tt ∧ i = 0) ∨ wp (turn dev I va entry e c i) (λ _ w', tests_inv w') w.
Proof.
  intros Hp Hq. destruct p as [[]|X x f|L test body l rest]; [left|right..].
  - destruct (ti_code _ Hw i _ Hp) as [[_ [?|[]]] _]. done.
  - destruct Hq as [Hx Hf]. assert (∀ v, rest_ok (f v)) as Hr by (intros v s W; left; apply Hf).
    destruct x; [by eapply load_turn|by eapply store_turn|by eapply timer_turn|by eapply print_turn|by eapply create_turn
      |by eapply unblock_turn|eapply yield_turn; [done|]; intros; apply Hr|done|by eapply exit_turn].
  - by eapply loop_turn.
Qed.

Lemma turn_spec :
  ∃ p, w_code w !! i = Some p ∧ ((p = Done tt ∧ i = 0) ∨ wp (turn dev I va entry e c i) (λ _ w', tests_inv w') w).
Proof.
  destruct (ki_sched _ _ _ (ti_kernel _ Hw)) as [_ (cur & t & Hc & Ht & Hst)].
  unfold current in Hcur. assert (cur = Scheduler.Slot i) as -> by congruence.
  destruct (ti_alive _ Hw i) as [p Hp]. { exists t. split; [done|]. destruct Hst as [E|[E _]]; by rewrite E. }
  exists p. split; [done|]. destruct (ti_code _ Hw i p Hp) as [_ [Hq|[->|[->|[->|[[-> Hs]|[-> Hs]]]]]]].
  - by apply quiet_turn.
  - right. apply (store_turn blockerStarted 1 (λ _, blocker_print)); [exact Hp|done|]. intros s W. right. by right; left.
  - right. apply (print_turn _ (λ _, blocker_block) Hp). intros s W. right. by right; right; left.
  - right. apply (block_turn (λ _, blocker_woken) Hp). intros s W Hb. do 4 right. left. by split; [|right].
  - right. apply (yield_turn (λ _, blocker_woken) Hp). intros s Hb. do 5 right. split; [done|].
    destruct Hs as [?|Hs]; [by left|right; by apply Hb].
  - right. destruct Hs as [Hs|[_ Hn]]; [|by destruct Hn].
    apply (store_turn blockerWoke 1 (λ _, _ ← say "blocker: woken!\n" []; do Exit)); [exact Hp| |].
    + intros _ E. rewrite E in Hs. by apply elem_of_empty in Hs.
    + intros s W. left. autounfold with tasks. every_code.
Qed.
End turn.

Lemma tests_step_inv w w' : tests_inv w → step dev I va entry w w' → tests_inv w'.
Proof.
  intros Hw [i e c w1 Hcur Hon Hrun|n e c q k' Hn Hcan Hrun].
  - destruct (turn_spec w i e c Hw Hcur Hon) as (p & Hp & [[-> _]|Hwp]).
    + unfold turn in Hrun. by rewrite Hp in Hrun.
    + by apply (wp_run _ _ _ _ _ Hwp Hrun).
  - apply (wp_run _ _ _ _ _ (interrupt_moves dev I HI F n e c _ (ti_kernel _ Hw) Hcan)) in Hrun as [Hk [Hm _]].
    by apply irq_inv.
Qed.

Lemma begins_inv w : kernel_inv I F (w_kernel w) → begins va w → tests_inv w.
Proof.
  intros Hk (Hrun & Hterm & Hg & Hc & HW). pose proof (ki_sched _ _ _ Hk) as [Hb _].
  assert (∀ i, alive (k_sched (w_kernel w)) i → i = 0) as Halive.
  { intros i (t & Ht & Hst). pose proof (Scheduler.task_of_slot_range _ _ _ (Scheduler.inv_len _ _ Hb) Ht).
    destruct (decide (i = 0)) as [|Hne]; [done|]. destruct (Hterm i ltac:(lia)) as (t' & Ht' & Hst'). congruence. }
  split; [done| | | | |].
  - intros i ->%Halive. rewrite Hc, lookup_singleton_eq. by eexists.
  - intros i p. rewrite Hc. intros [<- <-]%lookup_singleton_Some. destruct (scheduler_test_every va) as [H1 H2].
    split; [split; [done|by left]|by left].
  - intros i p (t & Ht & Hst) _. rewrite Hc. intros [<- _]%lookup_singleton_Some.
    destruct Hrun as (t' & Ht' & Hst'). congruence.
  - intros x Hx. rewrite Hg. rewrite !elem_of_cons in Hx.
    by destruct Hx as [->|[->|[->|[]%not_elem_of_nil]]].
  - rewrite Hg. done.
Qed.

Lemma tests_reachable_inv w0 w :
  kernel_inv I F (w_kernel w0) → begins va w0 → rtc (step dev I va entry) w0 w → tests_inv w.
Proof.
  intros Hk Hb Hs. pose proof (begins_inv w0 Hk Hb) as H0. clear Hk Hb.
  induction Hs as [|w1 w2 w3 Hstep _ IH]; [done|]. by apply IH, (tests_step_inv w1).
Qed.
End invariant.

(** ** Properties *)

(** Where [blocker] goes on after [task_block]. *)
Definition first_store (p : code unit) : option var := match p with Step (Store x _) _ => Some x | _ => None end.
Lemma slot_woken s W i : slot_ok s W i blocker_woken → current s i → i ∈ W.
Proof.
  intros [Hq|[E|[E|[E|[[E _]|[_ [Hw|[_ Hn]]]]]]]] Hc; try (apply (f_equal first_store) in E; discriminate E); [|done|done].
  by destruct Hq as [Hq _].
Qed.

(** C25. The tasks of the scheduler's test never get stuck: in every state that
    [scheduler_test] and the tasks it starts reach, interrupted anywhere, the kernel is in
    order, the task whose turn it is can make it (the task of [kmain] may have
    returned from [scheduler_test]), and every interrupt the CPU can take is handled. *)
Theorem scheduler_tests_safe dev I va entry F w0 w :
  image_ok I → kernel_inv I F (w_kernel w0) → begins va w0 → rtc (step dev I va entry) w0 w →
  kernel_inv I F (w_kernel w) ∧
  (∀ i e c, Scheduler.curTask (k_sched (w_kernel w)) = Some (Scheduler.Slot i) →
     Scheduler.on_stack (sched_layout I) (Scheduler.Slot i) (r_esp c - 52) →
     (i = 0 ∧ w_code w !! i = Some (Done tt)) ∨ ∃ w', turn dev I va entry e c i w = Some (tt, w')) ∧
  (∀ n e c, can_take I n c (w_kernel w) → ∃ q k', take_interrupt dev n e c (w_kernel w) = Some (q, k')).
Proof.
  intros HI Hk Hb Hs. pose proof (tests_reachable_inv dev I HI va entry F w0 w Hk Hb Hs) as Hw.
  split; [apply Hw|]. split.
  - intros i e c Hcur Hon. destruct (turn_spec dev I HI va entry F w i e c Hw Hcur Hon) as (p & Hp & [[-> ->]|Hwp]); [by left|].
    right. apply wp_inv in Hwp as ([] & w' & E & _). by exists w'.
  - intros n e c Hcan. destruct (interrupt_resumes dev I HI F n e c _ (ti_kernel _ _ _ _ Hw) Hcan) as (q & k' & E & _).
    by exists q, k'.
Qed.

(** The machine of the other examples, when [kmain] comes to the test. *)
Definition demo_world : world :=
  mkWorld demo_running (set_var blockerID (u32 (-1)) (λ _, 0)) {[0 := scheduler_test 0]} ∅.

Lemma demo_world_ok :
  kernel_inv demo_image Physical.usable_pages (w_kernel demo_world) ∧
  Scheduler.curTask (k_sched (w_kernel demo_world)) = Some (Scheduler.Slot 0) ∧ begins 0 demo_world.
Proof.
  destruct demo_running_ok as (_ & Hinv & Hcur). split; [exact Hinv|]. split; [exact Hcur|].
  destruct (wp_final _ _ _ (kmain_spec demo_device demo_image demo_kernel demo_image_ok demo_power_on))
    as ([] & _ & _ & _ & _ & _ & _ & _ & _ & Hrun & Hterm).
  by split_and!.
Qed.

Lemma demo_on_stack : Scheduler.on_stack (sched_layout demo_image) (Scheduler.Slot 0) (r_esp demo_cpu - 52).
Proof. vm_compute. split; [intros [=]|reflexivity]. Qed.

(** Its first turn. *)
Lemma demo_turn w :
  kernel_inv demo_image Physical.usable_pages (w_kernel w) →
  Scheduler.curTask (k_sched (w_kernel w)) = Some (Scheduler.Slot 0) → begins 0 w →
  ∃ w', turn demo_device demo_image 0 (λ _, 0x9000) 0 demo_cpu 0 w = Some (tt, w').
Proof.
  intros Hk Hcur Hb.
  destruct (turn_spec demo_device demo_image demo_image_ok 0 (λ _, 0x9000) Physical.usable_pages w 0 0 demo_cpu
    (begins_inv _ _ _ _ Hk Hb) Hcur demo_on_stack) as (p & Hp & [[-> _]|Hwp]).
  - destruct Hb as (_ & _ & _ & Hc & _). rewrite Hc, lookup_singleton_eq in Hp. discriminate Hp.
  - apply wp_inv in Hwp as ([] & w' & E & _). by exists w'.
Qed.

Lemma scheduler_tests_safe_witness :
  begins 0 demo_world ∧ ∃ w', turn demo_device demo_image 0 (λ _, 0x9000) 0 demo_cpu 0 demo_world = Some (tt, w').
Proof.
  pose proof demo_world_ok as Hok. revert Hok. generalize demo_world. intros w (Hk & Hcur & Hb). split; [exact Hb|].
  destruct (scheduler_tests_safe demo_device demo_image 0 (λ _, 0x9000) Physical.usable_pages w w
    demo_image_ok Hk Hb (rtc_refl _ _)) as (_ & Hturn & _).
  destruct (Hturn 0 0 demo_cpu Hcur demo_on_stack) as [[_ E]|Hw]; [|exact Hw].
  destruct Hb as (_ & _ & _ & Hc & _). rewrite Hc, lookup_singleton_eq in E. discriminate E.
Defined.

(** C26. What the scheduler's test can rely on, in every state it reaches: a task that
    has called [task_block] is not current again before [task_unblock] has made it
    ready, so [blockerWoke] is set only after a successful [task_unblock]; and the
    counters [test_result] prints and decides by are 0, whatever the tests found. *)
Theorem task_block_waits dev I va entry F w0 w :
  image_ok I → kernel_inv I F (w_kernel w0) → begins va w0 → rtc (step dev I va entry) w0 w →
  (∀ i, w_code w !! i = Some blocker_woken →
     Scheduler.curTask (k_sched (w_kernel w)) = Some (Scheduler.Slot i) → i ∈ w_woken w) ∧
  (w_vars w blockerWoke ≠ 0 → w_woken w ≠ ∅) ∧
  w_vars w runningTestCnt = 0 ∧ w_vars w passedTestCnt = 0 ∧ w_vars w failedTestCnt = 0.
Proof.
  intros HI Hk Hb Hs. pose proof (tests_reachable_inv dev I HI va entry F w0 w Hk Hb Hs) as Hw.
  split; [|split; [apply Hw|]].
  - intros i Hp. apply slot_woken, (ti_code _ _ _ _ Hw i _ Hp).
  - split_and!; apply (ti_count _ _ _ _ Hw); by repeat constructor.
Qed.

Lemma task_block_waits_witness :
  ∃ w, step demo_device demo_image 0 (λ _, 0x9000) demo_world w ∧ w_vars w failedTestCnt = 0.
Proof.
  pose proof demo_world_ok as Hok. revert Hok. generalize demo_world. intros w (Hk & Hcur & Hb).
  destruct (demo_turn w Hk Hcur Hb) as [w1 E]. exists w1.
  pose proof (step_turn _ _ _ _ _ 0 0 demo_cpu _ Hcur demo_on_stack E) as Hs. split; [exact Hs|].
  exact (proj2 (proj2 (proj2 (proj2 (task_block_waits demo_device demo_image 0 (λ _, 0x9000) Physical.usable_pages w w1
      demo_image_ok Hk Hb (rtc_once _ _ Hs)))))).
Defined.

End Tasks.
