(* ===== verification/Preempt.v ===== *)
(** * Preemption inside memory management (kmalloc.c and physical.c under the timer)

    kmalloc.c and physical.c run with interrupts enabled: the timer can stop a task
    between any two of their memory accesses.  Here [kmalloc], [kfree],
    [physical_alloc_page] and [physical_free_page] are programs that make one access at
    a time.  Run without interruption they are the functions of Kmalloc.v and
    Physical.v; interrupted anywhere by the kernel's own steps they still are; but two
    of them interleaved can hand out the same block or the same page twice. *)

From S2P Require Import Prelude Physical Kmalloc Isr Io Scheduler Vga Interfaces Paging Drivers Idt Kernel.
Import Io Isr Kernel.

Module Preempt.

(** ** Programs that make one access at a time

    [E X] are the accesses that return an [X]; they act on a state [S]. *)

Class Performs (E : Type → Type) (S : Type) : Type := perform : ∀ {X}, E X → M S X.

(** [Stuck] is undefined behaviour. *)
Inductive prog (E : Type → Type) (A : Type) : Type :=
| Done (a : A)
| Stuck
| Step {X : Type} (x : E X) (f : X → prog E A).
Arguments Done {E A}.
Arguments Stuck {E A}.
Arguments Step {E A X}.

#[global] Instance prog_ret E : MRet (prog E) := λ A a, Done a.
#[global] Instance prog_bind E : MBind (prog E) := λ A B g,
  fix bind (p : prog E A) : prog E B :=
    match p with
    | Done a => g a
    | Stuck => Stuck
    | Step x f => Step x (λ v, bind (f v))
    end.

Definition call {E X} (x : E X) : prog E X := Step x Done.

Section run.
Context {E : Type → Type} {S : Type} `{Performs E S}.

(** Running a program without interruption. *)
Fixpoint run {A} (p : prog E A) : M S A :=
  match p with
  | Done a => mret a
  | Stuck => undef
  | Step x f => v ← perform x; run (f v)
  end.

Lemma run_bind {A B} (p : prog E A) (g : A → prog E B) h :
  run (p ≫= g) h = match run p h with Some (a, h') => run (g a) h' | None => None end.
Proof.
  revert h. induction p as [a| |X x f IH]; intros h; [done|done|].
  unfold mbind, prog_bind in *. cbn [run]. unfold mbind, M_bind.
  destruct (perform x h) as [[v h']|]; [|done]. apply IH.
Qed.

(** [implements p m]: they do the same on every state. *)
Definition implements {A} (p : prog E A) (m : M S A) : Prop := ∀ h, run p h = m h.

Lemma implements_ret {A} (a : A) : implements (mret a) (mret a).
Proof. done. Qed.

Lemma implements_stuck {A} : implements (A := A) Stuck undef.
Proof. done. Qed.

Lemma implements_call {X} (x : E X) : implements (call x) (perform x).
Proof.
  intros h. unfold call. cbn [run]. unfold mbind, M_bind. by destruct (perform x h) as [[v h']|].
Qed.

Lemma implements_bind {A B} (p : prog E A) (g : A → prog E B) m f :
  implements p m → (∀ a, implements (g a) (f a)) → implements (p ≫= g) (m ≫= f).
Proof.
  intros Hp Hg h. rewrite run_bind, Hp. unfold mbind, M_bind.
  destruct (m h) as [[a h']|]; [apply Hg|done].
Qed.
End run.

(** One construct at a time. *)
Ltac impl :=
  repeat first
    [ progress intros
    | match goal with H : _ |- implements _ _ => apply H end
    | match goal with |- implements (if ?b then _ else _) _ => destruct b end
    | match goal with
      | |- implements (?p ≫= ?g) ?m =>
          lazymatch m with ?m' ≫= ?f => refine (implements_bind p g m' f _ _) end
      | |- implements (mret ?a) _ => exact (implements_ret a)
      | |- implements Stuck _ => exact implements_stuck
      end
    | refine (implements_call _) ].

(** ** The heap and the pages *)

Inductive access : Type → Type :=
| Load32 (a : Z) : access Z
| Load8 (a : Z) : access Z
| Store32 (a v : Z) : access unit
| Store8 (a v : Z) : access unit
| LoadHead : access Z.

#[global] Instance heap_performs : Performs access Kmalloc.heap := λ X x,
  match x with
  | Load32 a => Kmalloc.load32 a
  | Load8 a => Kmalloc.load8 a
  | Store32 a v => Kmalloc.store32 a v
  | Store8 a v => Kmalloc.store8 a v
  | LoadHead => gets Kmalloc.head
  end.

(** Words of [pageBitMap], and [freePages]. *)
Inductive page_access : Type → Type :=
| LoadWord (i : Z) : page_access Z
| StoreWord (i v : Z) : page_access unit
| LoadCount : page_access Z
| StoreCount (v : Z) : page_access unit.

#[global] Instance page_performs : Performs page_access Physical.phys := λ X x,
  match x with
  | LoadWord i => load_at Physical.pageBitMap i
  | StoreWord i v => store_at Physical.pageBitMap Physical.set_pageBitMap i v
  | LoadCount => gets Physical.freePages
  | StoreCount v => modify (Physical.set_freePages v)
  end.

(** ** kmalloc.c, access by access *)

Definition load_size_prog (p : Z) : prog access Z := call (Load32 (p + Kmalloc.off_size)).
Definition load_free_prog (p : Z) : prog access bool :=
  b ← call (Load8 (p + Kmalloc.off_free)); mret (negb (b =? 0)).
Definition load_next_prog (p : Z) : prog access Z := call (Load32 (p + Kmalloc.off_next)).
Definition store_size_prog (p v : Z) : prog access unit := call (Store32 (p + Kmalloc.off_size) v).
Definition store_free_prog (p : Z) (b : bool) : prog access unit :=
  call (Store8 (p + Kmalloc.off_free) (if b then 1 else 0)).
Definition store_next_prog (p v : Z) : prog access unit := call (Store32 (p + Kmalloc.off_next) v).

Definition split_block_prog (ptr size : Z) : prog access unit :=
  let split := u32 (ptr + Kmalloc.HEADER_SIZE + size) in
  sz ← load_size_prog ptr;
  _ ← store_size_prog split (u32 (sz - size - Kmalloc.HEADER_SIZE));
  _ ← store_free_prog split true;
  nx ← load_next_prog ptr;
  _ ← store_next_prog split nx;
  _ ← store_size_prog ptr size;
  store_next_prog ptr split.

Definition skip_block_prog (ptr size : Z) : prog access bool :=
  fr ← load_free_prog ptr;
  if negb fr then mret true else sz ← load_size_prog ptr; mret (sz <? size).

(** The block found is cut if it is large enough, and marked used. *)
Definition take_block_prog (ptr size : Z) : prog access Z :=
  sz ← load_size_prog ptr;
  _ ← (if u32 (size + Kmalloc.HEADER_SIZE + 8) <=? sz then split_block_prog ptr size else mret tt);
  _ ← store_free_prog ptr false;
  mret (u32 (ptr + Kmalloc.HEADER_SIZE)).

Fixpoint kmalloc_loop_prog (fuel : nat) (ptr size : Z) : prog access Z :=
  match fuel with
  | O => Stuck
  | S fuel =>
      if ptr =? Kmalloc.NULL then mret Kmalloc.NULL
      else
        skip ← skip_block_prog ptr size;
        if (skip : bool) then
          nx ← load_next_prog ptr;
          kmalloc_loop_prog fuel nx size
        else
          take_block_prog ptr size
  end.

Definition kmalloc_prog (size : Z) : prog access Z :=
  if size =? 0 then mret Kmalloc.NULL
  else
    let size := Kmalloc.ALIGN8 size in
    h ← call LoadHead;
    kmalloc_loop_prog Kmalloc.heap_fuel h size.

Definition can_merge_prog (cur : Z) : prog access bool :=
  fr ← load_free_prog cur;
  if negb fr then mret false
  else
    nx ← load_next_prog cur;
    if nx =? Kmalloc.NULL then mret false else nx ← load_next_prog cur; load_free_prog nx.

Fixpoint merge_loop_prog (fuel : nat) (cur : Z) : prog access unit :=
  match fuel with
  | O => Stuck
  | S fuel =>
      go ← can_merge_prog cur;
      if negb go then mret tt
      else
        sz ← load_size_prog cur;
        nx ← load_next_prog cur;
        nsz ← load_size_prog nx;
        _ ← store_size_prog cur (u32 (sz + (Kmalloc.HEADER_SIZE + nsz)));
        nx ← load_next_prog cur;
        nnx ← load_next_prog nx;
        _ ← store_next_prog cur nnx;
        merge_loop_prog fuel cur
  end.

Fixpoint coalesce_loop_prog (fuel : nat) (cur : Z) : prog access unit :=
  match fuel with
  | O => Stuck
  | S fuel =>
      if cur =? Kmalloc.NULL then mret tt
      else
        _ ← merge_loop_prog Kmalloc.heap_fuel cur;
        nx ← load_next_prog cur;
        coalesce_loop_prog fuel nx
  end.

Definition kfree_prog (ptr : Z) : prog access unit :=
  if ptr =? Kmalloc.NULL then mret tt
  else
    let b := u32 (ptr - Kmalloc.HEADER_SIZE) in
    _ ← store_free_prog b true;
    h ← call LoadHead;
    coalesce_loop_prog Kmalloc.heap_fuel h.

(** *** Uninterrupted, they are the functions of Kmalloc.v *)

Lemma load_free_implements p : implements (load_free_prog p) (Kmalloc.load_free p).
Proof. unfold load_free_prog, Kmalloc.load_free. impl. Qed.
Lemma split_block_implements ptr size : implements (split_block_prog ptr size) (Kmalloc.split_block ptr size).
Proof.
  unfold split_block_prog, Kmalloc.split_block, load_size_prog, store_size_prog, store_free_prog, store_next_prog, load_next_prog.
  unfold Kmalloc.load_size, Kmalloc.store_size, Kmalloc.store_free, Kmalloc.store_next, Kmalloc.load_next. impl.
Qed.

Lemma skip_block_implements ptr size : implements (skip_block_prog ptr size) (Kmalloc.skip_block ptr size).
Proof. unfold skip_block_prog, Kmalloc.skip_block. pose proof load_free_implements. impl. Qed.
Lemma can_merge_implements cur : implements (can_merge_prog cur) (Kmalloc.can_merge cur).
Proof. unfold can_merge_prog, Kmalloc.can_merge. pose proof load_free_implements. impl. Qed.

Lemma kmalloc_loop_implements fuel ptr size :
  implements (kmalloc_loop_prog fuel ptr size) (Kmalloc.kmalloc_loop fuel ptr size).
Proof.
  revert ptr. induction fuel as [|fuel IH]; intros ptr; [exact implements_stuck|].
  cbn [kmalloc_loop_prog Kmalloc.kmalloc_loop]. unfold when, take_block_prog.
  pose proof skip_block_implements. pose proof split_block_implements. impl.
Qed.

Lemma kmalloc_implements size : implements (kmalloc_prog size) (Kmalloc.kmalloc size).
Proof. unfold kmalloc_prog, Kmalloc.kmalloc. pose proof kmalloc_loop_implements. cbv zeta. impl. Qed.

Lemma merge_loop_implements fuel cur : implements (merge_loop_prog fuel cur) (Kmalloc.merge_loop fuel cur).
Proof.
  revert cur. induction fuel as [|fuel IH]; intros cur; [exact implements_stuck|].
  cbn [merge_loop_prog Kmalloc.merge_loop]. pose proof can_merge_implements. impl.
Qed.

Lemma coalesce_loop_implements fuel cur :
  implements (coalesce_loop_prog fuel cur) (Kmalloc.coalesce_loop fuel cur).
Proof.
  revert cur. induction fuel as [|fuel IH]; intros cur; [exact implements_stuck|].
  cbn [coalesce_loop_prog Kmalloc.coalesce_loop]. pose proof merge_loop_implements. impl.
Qed.

Lemma kfree_implements p : implements (kfree_prog p) (Kmalloc.kfree p).
Proof. unfold kfree_prog, Kmalloc.kfree. pose proof coalesce_loop_implements. cbv zeta. impl. Qed.

(** ** physical.c, access by access *)

Definition is_used_prog (page : Z) : prog page_access bool :=
  w ← call (LoadWord (page / 32));
  mret (negb (Z.land w (u32 (Z.shiftl 1 (page `mod` 32))) =? 0)).
Definition mark_used_prog (page : Z) : prog page_access unit :=
  w ← call (LoadWord (page / 32));
  call (StoreWord (page / 32) (Z.lor w (u32 (Z.shiftl 1 (page `mod` 32))))).
Definition mark_free_prog (page : Z) : prog page_access unit :=
  w ← call (LoadWord (page / 32));
  call (StoreWord (page / 32) (Z.land w (u32 (Z.lnot (u32 (Z.shiftl 1 (page `mod` 32))))))).
Definition decr_prog : prog page_access unit := n ← call LoadCount; call (StoreCount (u32 (n - 1))).
Definition incr_prog : prog page_access unit := n ← call LoadCount; call (StoreCount (u32 (n + 1))).

(** The page is taken; the search of [physical_alloc_page]. *)
Definition take_page_prog (page : Z) : prog page_access Z :=
  _ ← mark_used_prog page;
  _ ← decr_prog;
  mret (u32 (page * Physical.PAGE_SIZE)).
Fixpoint alloc_loop_prog (l : list Z) : prog page_access Z :=
  match l with
  | [] => mret 0
  | page :: l => u ← is_used_prog page; if negb u then take_page_prog page else alloc_loop_prog l
  end.
Definition physical_alloc_page_prog : prog page_access Z :=
  alloc_loop_prog (range 256 Physical.PHYSICAL_PAGE_COUNT).

Definition physical_free_page_prog (address : Z) : prog page_access unit :=
  if negb (Z.land address (Physical.PAGE_SIZE - 1) =? 0) then mret tt
  else
    let page := address / Physical.PAGE_SIZE in
    if Physical.PHYSICAL_PAGE_COUNT <=? page then mret tt
    else if address <? 0x00100000 then mret tt
    else
      u ← is_used_prog page;
      if negb u then mret tt
      else _ ← mark_free_prog page; incr_prog.

(** *** Uninterrupted, they are the functions of Physical.v *)

Lemma is_used_implements page : implements (is_used_prog page) (Physical.is_used page).
Proof. unfold is_used_prog, Physical.is_used. impl. Qed.
Lemma mark_used_implements page : implements (mark_used_prog page) (Physical.mark_used page).
Proof. unfold mark_used_prog, Physical.mark_used. impl. Qed.
Lemma mark_free_implements page : implements (mark_free_prog page) (Physical.mark_free page).
Proof. unfold mark_free_prog, Physical.mark_free. impl. Qed.
Lemma decr_implements : implements decr_prog Physical.decr_freePages.
Proof. done. Qed.
Lemma incr_implements : implements incr_prog Physical.incr_freePages.
Proof. done. Qed.

(** The search, as a function. *)
Lemma alloc_loop_implements l :
  implements (alloc_loop_prog l)
    (r ← mfor_ret l (λ page,
        u ← Physical.is_used page;
        if negb u then
          _ ← Physical.mark_used page;
          _ ← Physical.decr_freePages;
          mret (Some (u32 (page * Physical.PAGE_SIZE)))
        else mret None);
     mret (default 0 r)).
Proof.
  induction l as [|page l IH]; [done|]. intros s. cbn [alloc_loop_prog mfor_ret]. rewrite run_bind, is_used_implements.
  unfold mbind at 1, M_bind at 1. unfold mbind at 1, M_bind at 1. unfold mbind at 1, M_bind at 1.
  destruct (Physical.is_used page s) as [[u s1]|]; [|done]. destruct u; cbn [negb].
  - exact (IH s1).
  - unfold take_page_prog. rewrite run_bind, mark_used_implements. unfold mbind, M_bind.
    destruct (Physical.mark_used page s1) as [[[] s2]|]; done.
Qed.
Lemma alloc_page_implements : implements physical_alloc_page_prog Physical.physical_alloc_page.
Proof. apply alloc_loop_implements. Qed.
Lemma free_page_implements address :
  implements (physical_free_page_prog address) (Physical.physical_free_page address).
Proof.
  unfold physical_free_page_prog, Physical.physical_free_page. cbv zeta.
  pose proof is_used_implements. pose proof mark_free_implements. pose proof incr_implements. impl.
Qed.

(** ** The kernel's steps do not depend on the heap and the pages *)

(** [blind put m]: [m] neither reads nor writes the part that [put] replaces. *)
Definition blind {S A} (put : S → kernel → kernel) (m : M kernel A) : Prop :=
  ∀ s k, m (put s k) = match m k with Some (a, k') => Some (a, put s k') | None => None end.

Section blind.
Context {S : Type} (put : S → kernel → kernel).

Lemma blind_ret {A} (a : A) : blind put (mret a).
Proof. done. Qed.
Lemma blind_bind {A B} (m : M kernel A) (f : A → M kernel B) :
  blind put m → (∀ a, blind put (f a)) → blind put (m ≫= f).
Proof.
  intros Hm Hf h k. unfold mbind, M_bind. rewrite Hm. destruct (m k) as [[a k']|]; [apply Hf|done].
Qed.
Lemma blind_zoom {T A} (get : kernel → T) set (m : M T A) :
  (∀ s k, get (put s k) = get k) → (∀ t s k, set t (put s k) = put s (set t k)) →
  blind put (zoom get set m).
Proof.
  intros Hg Hs s k. unfold zoom. rewrite Hg. destruct (m (get k)) as [[a t]|]; [|done]. by rewrite Hs.
Qed.
End blind.

Ltac solve_blind :=
  repeat match goal with
  | |- blind _ (if ?b then _ else _) => destruct b
  | |- blind _ (_ ≫= _) => apply blind_bind; [|intros ?]
  | |- blind _ (mret _) => apply blind_ret
  | |- blind _ (Pic.pic_send_eoi _) => unfold Pic.pic_send_eoi, when, outb
  | |- blind _ (zoom _ _ _) => apply blind_zoom; by intros
  | |- blind _ _ => by intros ? ?
  | |- blind _ _ => apply blind_zoom; by intros
  end.

(** A part of the kernel's state that the kernel's own steps are blind to. *)
Class KernelPart (S : Type) : Type := {
  part : kernel → S;
  put : S → kernel → kernel;
  part_put s k : part (put s k) = s;
  put_put s s' k : put s (put s' k) = put s k;
  put_part k : put (part k) k = k;
  put_idt s k : k_idt (put s k) = k_idt k;
  put_sched s k : k_sched (put s k) = k_sched k;
  put_interrupt dev n e c : blind put (take_interrupt dev n e c);
  put_on_sched A (m : M Scheduler.sched A) : blind put (on_sched m);
  put_on_vga A (m : M Vga.vga A) : blind put (on_vga m)
}.

Lemma heap_interrupt dev n e c : blind with_heap (take_interrupt dev n e c).
Proof.
  assert (∀ regs, blind with_heap (interrupt_handler dev regs)) as H by (intros regs; unfold interrupt_handler; solve_blind).
  intros h k. exact (H _ h (push_frame n e c k)).
Qed.
Lemma phys_interrupt dev n e c : blind with_phys (take_interrupt dev n e c).
Proof.
  assert (∀ regs, blind with_phys (interrupt_handler dev regs)) as H by (intros regs; unfold interrupt_handler; solve_blind).
  intros s k. exact (H _ s (push_frame n e c k)).
Qed.

#[global] Program Instance heap_part : KernelPart Kmalloc.heap :=
  {| part := k_heap; put := with_heap; put_interrupt := heap_interrupt |}.
Solve Obligations with first [done | by intros [] | intros; by apply blind_zoom].

#[global] Program Instance phys_part : KernelPart Physical.phys :=
  {| part := k_phys; put := with_phys; put_interrupt := phys_interrupt |}.
Solve Obligations with first [done | by intros [] | intros; by apply blind_zoom].

Section part.
Context {S : Type} `{KernelPart S}.

(** What is blind to the part leaves it alone. *)
Lemma blind_keeps {A} (m : M kernel A) k a k' : blind put m → m k = Some (a, k') → part k' = part k.
Proof.
  intros Hm Hrun. pose proof (Hm (part k) k) as E. rewrite put_part, Hrun in E.
  injection E as E. rewrite E. apply part_put.
Qed.

Lemma can_take_put I n c s k : can_take I n c k → can_take I n c (put s k).
Proof. unfold can_take. by rewrite put_idt, put_sched. Qed.

Lemma step_blind dev I k k' s : kernel_step dev I k k' → kernel_step dev I (put s k) (put s k').
Proof.
  intros [n e c q k1 Hcan Hrun|ev v k1 Hen Hsw Hrun|c k1 Hc Hrun].
  - apply (step_interrupt _ _ _ n e c q); [by apply can_take_put|]. by rewrite put_interrupt, Hrun.
  - apply (step_task _ _ _ ev v); [by rewrite put_sched|exact Hsw|]. by rewrite put_on_sched, Hrun.
  - apply (step_print _ _ _ c); [exact Hc|]. by rewrite put_on_vga, Hrun.
Qed.

Lemma step_keeps dev I k k' : kernel_step dev I k k' → part k' = part k.
Proof.
  intros [n e c q k1 Hcan Hrun|ev v k1 Hen Hsw Hrun|c k1 Hc Hrun].
  - exact (blind_keeps _ _ _ _ (put_interrupt dev n e c) Hrun).
  - exact (blind_keeps _ _ _ _ (put_on_sched _ _) Hrun).
  - exact (blind_keeps _ _ _ _ (put_on_vga _ _) Hrun).
Qed.
End part.

(** ** One task in the memory manager, interrupted anywhere

    A task that is about to run the rest [p] of its program: it makes its next
    access, or the kernel takes a step. *)
Inductive preempted {E S A} `{Performs E S} `{KernelPart S} (dev : device) (I : image)
  : kernel * prog E A → kernel * prog E A → Prop :=
| pre_access X (x : E X) f k v s :
    perform x (part k) = Some (v, s) → preempted dev I (k, Step x f) (put s k, f v)
| pre_kernel p k k' : kernel_step dev I k k' → preempted dev I (k, p) (k', p).

Section preemption.
Context {E : Type → Type} {S : Type} `{HE : Performs E S} `{HS : KernelPart S}.
Context {A : Type} (dev : device) (I : image) (HI : image_ok I) (F : gset Z).
Implicit Types p : prog E A.

(** What is left to do on the present state is what there was to do on the state
    [s0] at the start; and with [s0] put back the kernel is in order. *)
Definition on_track (s0 : S) (m : M S A) (c : kernel * prog E A) : Prop :=
  run c.2 (part c.1) = m s0 ∧ kernel_inv I F (put s0 c.1).

Lemma preempted_on_track s0 m c c' : on_track s0 m c → preempted dev I c c' → on_track s0 m c'.
Proof.
  intros [Hrun Hk] Hs. destruct Hs as [X x f k v s Hx|p k k' Hstep]; cbn [fst snd] in *.
  - split; cbn [fst snd run] in *; [|by rewrite put_put].
    rewrite part_put, <- Hrun. unfold mbind, M_bind. by rewrite Hx.
  - split; [cbn [fst snd]; by rewrite (step_keeps dev I k k' Hstep)|].
    by apply (step_inv dev I HI F _ _ Hk), step_blind.
Qed.

Lemma reachable_on_track s0 m c c' : on_track s0 m c → rtc (preempted dev I) c c' → on_track s0 m c'.
Proof. intros Hc Hs. induction Hs as [|c1 c2 c3 Hstep _ IH]; [done|]. by apply IH, (preempted_on_track s0 m c1). Qed.

(** A program on track is done, or makes its next access. *)
Lemma on_track_done s0 m k v r s1 :
  m s0 = Some (r, s1) → on_track s0 m (k, Done v) → v = r ∧ part k = s1.
Proof. intros Hm [Hrun _]. cbn [fst snd run] in Hrun. rewrite Hm in Hrun. by injection Hrun as -> ->. Qed.

Lemma on_track_next s0 m k X (x : E X) f r s1 :
  m s0 = Some (r, s1) → on_track s0 m (k, Step x f) → is_Some (perform x (part k)).
Proof.
  intros Hm [Hrun _]. cbn [fst snd run] in Hrun. rewrite Hm in Hrun. unfold mbind, M_bind in Hrun.
  by destruct (perform x (part k)).
Qed.

(** So after finitely many accesses it is done, however often it is interrupted. *)
Lemma finishes s0 m k p r s1 :
  m s0 = Some (r, s1) → on_track s0 m (k, p) → rtc (preempted dev I) (k, p) (put s1 k, Done r).
Proof.
  intros Hm. revert k. induction p as [a| |X x f IH]; intros k Hon.
  - destruct (on_track_done _ _ _ _ _ _ Hm Hon) as [-> <-]. rewrite put_part. constructor.
  - destruct Hon as [Hrun _]. by rewrite Hm in Hrun.
  - destruct (on_track_next _ _ _ _ _ _ _ _ Hm Hon) as [[w s] Hx].
    eapply rtc_l; [by apply pre_access|]. rewrite <- (put_put s1 s).
    apply IH. eapply preempted_on_track; [exact Hon|by apply pre_access].
Qed.

(** Preemption is transparent. *)
Lemma transparent m p0 k0 k p r s1 :
  kernel_inv I F k0 → implements p0 m → m (part k0) = Some (r, s1) →
  rtc (preempted dev I) (k0, p0) (k, p) →
  (∀ v, p = Done v → v = r ∧ part k = s1 ∧ kernel_inv I F (put (part k0) k)) ∧
  rtc (preempted dev I) (k, p) (put s1 k, Done r) ∧
  (∀ n e c, can_take I n c k → ∃ q k', take_interrupt dev n e c k = Some (q, k') ∧ part k' = part k).
Proof.
  intros Hk Himp Hrun Hs.
  assert (on_track (part k0) m (k, p)) as Hon.
  { apply (reachable_on_track _ _ (k0, p0)); [|exact Hs]. split; cbn [fst snd]; [apply Himp|by rewrite put_part]. }
  split; [|split].
  - intros v ->. destruct (on_track_done _ _ _ _ _ _ Hrun Hon). by destruct Hon.
  - exact (finishes _ _ _ _ _ _ Hrun Hon).
  - intros n e c Hcan. destruct Hon as [_ Hk'].
    destruct (interrupt_resumes dev I HI F n e c (put (part k0) k) Hk' (can_take_put _ _ _ _ _ Hcan)) as (q & k' & Eq & _).
    rewrite put_interrupt in Eq. destruct (take_interrupt dev n e c k) as [[q' k'']|] eqn:E'; [|done].
    exists q', k''. split; [done|]. exact (blind_keeps _ _ _ _ (put_interrupt dev n e c) E').
Qed.
End preemption.

(** ** The calls *)

Inductive heap_op : Type :=
| OpMalloc (size : Z)
| OpFree (p : Z).

Definition op_prog (o : heap_op) : prog access Z :=
  match o with
  | OpMalloc size => kmalloc_prog size
  | OpFree p => _ ← kfree_prog p; mret 0
  end.
Definition op_run (o : heap_op) : M Kmalloc.heap Z :=
  match o with
  | OpMalloc size => Kmalloc.kmalloc size
  | OpFree p => _ ← Kmalloc.kfree p; mret 0
  end.

(** The caller frees a block of the heap. *)
Definition op_ok (o : heap_op) (h : Kmalloc.heap) : Prop :=
  match o with
  | OpMalloc size => 0 ≤ size < 2 ^ 32
  | OpFree p => ∃ bs, Kmalloc.heap_rep h bs ∧ Kmalloc.has_block Kmalloc.heap_start p bs
  end.

Lemma op_implements o : implements (op_prog o) (op_run o).
Proof.
  destruct o as [size|p]; [apply kmalloc_implements|]. cbn [op_prog op_run].
  pose proof kfree_implements. impl.
Qed.

Lemma op_returns o h bs :
  Kmalloc.heap_rep h bs → op_ok o h → ∃ r h1 bs1, op_run o h = Some (r, h1) ∧ Kmalloc.heap_rep h1 bs1.
Proof.
  intros Hrep Hok. destruct o as [size|p]; cbn [op_run op_ok] in *.
  - destruct (proj1 (wp_inv _ _ _) (Kmalloc.kmalloc_spec size h bs Hrep Hok)) as (r & h1 & E & _ & Hres).
    destruct (Kmalloc.spec_kmalloc size bs) as [[q bs']|].
    + exists r, h1, bs'. by destruct Hres.
    + exists r, h1, bs. destruct Hres as [_ ->]. done.
  - destruct Hok as (bs0 & Hrep0 & Hb).
    destruct (proj1 (wp_inv _ _ _) (Kmalloc.kfree_spec p h bs0 Hrep0 Hb)) as ([] & h1 & E & Hrep1 & _).
    exists 0, h1, (Kmalloc.spec_kfree p bs0). split; [|done]. unfold mbind, M_bind. by rewrite E.
Qed.

(** C14. Preemption is transparent for the heap: a task that calls [kmalloc] or
    [kfree], and is interrupted between any two of its memory accesses by any
    number of kernel steps (timer ticks with task switches, key presses, exceptions,
    scheduler calls and output of other tasks), ends with exactly the result and the
    heap of the uninterrupted call, and with the kernel in order; at every moment it
    can run to its end, and every interrupt the CPU can take is handled. *)
Theorem preemption_transparent dev I F o k0 k p :
  image_ok I → kernel_inv I F k0 → op_ok o (k_heap k0) →
  rtc (preempted dev I) (k0, op_prog o) (k, p) →
  ∃ r h1, op_run o (k_heap k0) = Some (r, h1) ∧
    (∀ v, p = Done v → v = r ∧ k_heap k = h1 ∧ kernel_inv I F k) ∧
    rtc (preempted dev I) (k, p) (with_heap h1 k, Done r) ∧
    (∀ n e c, can_take I n c k → ∃ q k', take_interrupt dev n e c k = Some (q, k') ∧ k_heap k' = k_heap k).
Proof.
  intros HI Hk Hok Hs. destruct (ki_heap _ _ _ Hk) as [bs Hrep].
  destruct (op_returns o _ bs Hrep Hok) as (r & h1 & bs1 & Hrun & Hrep1). exists r, h1. split; [done|].
  destruct (transparent (HS := heap_part) dev I HI F (op_run o) (op_prog o) k0 k p r h1 Hk (op_implements o) Hrun Hs) as (H1 & H2 & H3).
  split; [|done]. intros v Hv. destruct (H1 v Hv) as (-> & Eh & [K1 K2 K3 K4 _ K6]). split; [done|]. split; [done|].
  split; [exact K1|exact K2|exact K3|exact K4|exists bs1; by rewrite <- Eh in Hrep1|exact K6].
Qed.

(** A [kmalloc] in the booted machine, interrupted by a key after its first access. *)
Lemma preemption_transparent_witness :
  ∃ k p, kernel_step demo_device demo_image demo_running k ∧
    rtc (preempted demo_device demo_image) (demo_running, op_prog (OpMalloc 100)) (k, p) ∧
    ∃ r h1, op_run (OpMalloc 100) (k_heap demo_running) = Some (r, h1) ∧
      rtc (preempted demo_device demo_image) (k, p) (with_heap h1 k, Done r).
Proof.
  pose proof demo_running_ok as Hdemo. revert Hdemo. generalize demo_running. intros k (_ & Hinv & Hcur).
  pose proof (demo_can_take k Hinv Hcur) as Hcan.
  destruct (interrupt_resumes demo_device demo_image demo_image_ok _ 33 0 demo_cpu k Hinv Hcan) as (q & k' & E & _).
  assert (kernel_step demo_device demo_image k k') as Hk by by eapply step_interrupt.
  assert (rtc (preempted demo_device demo_image) (k, op_prog (OpMalloc 100))
            (k', kmalloc_loop_prog Kmalloc.heap_fuel (Kmalloc.head (k_heap k)) (Kmalloc.ALIGN8 100))) as Hs.
  { pose proof (pre_access demo_device demo_image _ LoadHead
      (λ v, kmalloc_loop_prog Kmalloc.heap_fuel v (Kmalloc.ALIGN8 100)) k (Kmalloc.head (k_heap k)) (k_heap k) eq_refl) as H.
    change (put (k_heap k) k) with (put (part k) k) in H. rewrite put_part in H.
    eapply rtc_l; [exact H|]. by apply rtc_once, pre_kernel. }
  exists k'. eexists. split; [exact Hk|]. split; [exact Hs|].
  destruct (preemption_transparent demo_device demo_image Physical.usable_pages (OpMalloc 100) k k' _
    demo_image_ok Hinv ltac:(simpl; lia) Hs) as (r & h1 & E1 & _ & Hfin & _).
  exists r, h1. split; [exact E1|exact Hfin].
Defined.

(** *** The same for the pages *)

Inductive page_op : Type :=
| OpAllocPage
| OpFreePage (a : Z).

Definition page_op_prog (o : page_op) : prog page_access Z :=
  match o with
  | OpAllocPage => physical_alloc_page_prog
  | OpFreePage a => _ ← physical_free_page_prog a; mret 0
  end.
Definition page_op_run (o : page_op) : M Physical.phys Z :=
  match o with
  | OpAllocPage => Physical.physical_alloc_page
  | OpFreePage a => _ ← Physical.physical_free_page a; mret 0
  end.

Lemma page_op_implements o : implements (page_op_prog o) (page_op_run o).
Proof.
  destruct o as [|a]; [apply alloc_page_implements|]. cbn [page_op_prog page_op_run].
  pose proof free_page_implements. impl.
Qed.

Lemma page_op_returns o s F :
  Physical.phys_rep s F → (∀ a, o = OpFreePage a → 0 ≤ a < 2 ^ 32) →
  ∃ r s1 F1, page_op_run o s = Some (r, s1) ∧ Physical.phys_rep s1 F1.
Proof.
  intros Hrep Ha. destruct o as [|a]; cbn [page_op_run].
  - destruct (proj1 (wp_inv _ _ _) (Physical.physical_alloc_page_spec s F Hrep)) as (r & s1 & Er & F1 & _ & Hrep1).
    by exists r, s1, F1.
  - destruct (proj1 (wp_inv _ _ _) (Physical.physical_free_page_spec a s F Hrep (Ha a eq_refl))) as ([] & s1 & Er & Hrep1).
    exists 0, s1, (Physical.spec_free a F). split; [|done]. unfold mbind, M_bind. by rewrite Er.
Qed.

(** Preemption is transparent for the page allocator. *)
Lemma page_preemption_transparent dev I F o k0 k p :
  image_ok I → kernel_inv I F k0 → (∀ a, o = OpFreePage a → 0 ≤ a < 2 ^ 32) →
  rtc (preempted dev I) (k0, page_op_prog o) (k, p) →
  ∃ r s1 F1, page_op_run o (k_phys k0) = Some (r, s1) ∧ Physical.phys_rep s1 F1 ∧
    (∀ v, p = Done v → v = r ∧ k_phys k = s1 ∧ kernel_inv I F (with_phys (k_phys k0) k)) ∧
    rtc (preempted dev I) (k, p) (with_phys s1 k, Done r) ∧
    (∀ n e c, can_take I n c k → ∃ q k', take_interrupt dev n e c k = Some (q, k') ∧ k_phys k' = k_phys k).
Proof.
  intros HI Hk Ho Hs. destruct (ki_paging _ _ _ Hk) as [_ _ _ _ [Hrep _] _].
  destruct (page_op_returns o (k_phys k0) F Hrep Ho) as (r & s1 & F1 & Hrun & Hrep1).
  exists r, s1, F1. split; [done|]. split; [done|].
  exact (transparent (HS := phys_part) dev I HI F (page_op_run o) (page_op_prog o) k0 k p r s1 Hk
           (page_op_implements o) Hrun Hs).
Qed.

(** ** Two tasks in the memory manager at once *)

Section two.
Context {E : Type → Type} {S : Type} `{Performs E S} {A : Type}.
Implicit Types (s : S) (p q : prog E A).

(** A task makes its next access. *)
Inductive solo {B} : S * prog E B → S * prog E B → Prop :=
| solo_access X (x : E X) f v s s' : perform x s = Some (v, s') → solo (s, Step x f) (s', f v).

(** Each of two tasks makes its next access when it is its turn. *)
Inductive two : S * prog E A * prog E A → S * prog E A * prog E A → Prop :=
| two_first s s' p p' q : solo (s, p) (s', p') → two (s, p, q) (s', p', q)
| two_second s s' p q q' : solo (s, q) (s', q') → two (s, p, q) (s', p, q').

(** A run without interruption, access by access. *)
Lemma run_solo {B} (p : prog E B) s a s' : run p s = Some (a, s') → rtc solo (s, p) (s', Done a).
Proof.
  revert s. induction p as [b| |X x f IH]; intros s; cbn [run].
  - intros [= -> ->]. constructor.
  - done.
  - unfold mbind, M_bind. destruct (perform x s) as [[v s1]|] eqn:Ex; [|done]. intros Hrun.
    eapply rtc_l; [by apply solo_access|by apply IH].
Qed.
Lemma bind_solo {B C} (p : prog E B) s a s' (g : B → prog E C) :
  run p s = Some (a, s') → rtc solo (s, p ≫= g) (s', g a).
Proof.
  revert s. induction p as [b| |X x f IH]; intros s; cbn [run].
  - intros [= -> ->]. constructor.
  - done.
  - unfold mbind at 1, M_bind. destruct (perform x s) as [[v s1]|] eqn:Ex; [|done]. intros Hrun.
    eapply rtc_l; [exact (solo_access X x (λ v, mbind (M := prog E) g (f v)) v s s1 Ex)|by apply IH].
Qed.

(** Turns of one task only. *)
Lemma solo_first s s' p p' q : rtc solo (s, p) (s', p') → rtc two (s, p, q) (s', p', q).
Proof. apply (rtc_congruence (λ c, (c.1, c.2, q))). intros [] []. apply two_first. Qed.
Lemma solo_second s s' p q q' : rtc solo (s, q) (s', q') → rtc two (s, p, q) (s', p, q').
Proof. apply (rtc_congruence (λ c, (c.1, p, c.2))). intros [] []. apply two_second. Qed.

End two.

(** *** [kmalloc] against [kmalloc] *)

(** The search changes nothing, and stops at the block that it takes. *)
Lemma load32_same a h v h' : Kmalloc.load32 a h = Some (v, h') → h' = h ∧ Kmalloc.in_heap a = true ∧ v = getw (Kmalloc.mem h) a.
Proof. unfold Kmalloc.load32. destruct (Kmalloc.in_heap a); [|done]. by intros [= <- <-]. Qed.

Lemma load_free_same a h v h' : Kmalloc.load_free a h = Some (v, h') → h' = h.
Proof.
  unfold Kmalloc.load_free, Kmalloc.load8. unfold mbind, M_bind. destruct (Kmalloc.load32 _ h) as [[w h1]|] eqn:E; [|done].
  intros [= _ <-]. by apply load32_same in E as [-> _].
Qed.

Lemma skip_block_same a size h b h' : Kmalloc.skip_block a size h = Some (b, h') → h' = h.
Proof.
  unfold Kmalloc.skip_block. unfold mbind, M_bind. destruct (Kmalloc.load_free a h) as [[fr h1]|] eqn:E; [|done].
  apply load_free_same in E as ->. destruct fr; cbn [negb]; [|by intros [= _ <-]].
  destruct (Kmalloc.load_size a h) as [[sz h1]|] eqn:E; [|done]. intros [= _ <-]. by apply load32_same in E as [-> _].
Qed.

Lemma kmalloc_stops fuel ptr size h r h1 :
  run (kmalloc_loop_prog fuel ptr size) h = Some (r, h1) → r ≠ Kmalloc.NULL →
  ∃ a, rtc solo (h, kmalloc_loop_prog fuel ptr size) (h, take_block_prog a size) ∧
    run (take_block_prog a size) h = Some (r, h1).
Proof.
  revert ptr. induction fuel as [|fuel IH]; intros ptr; cbn [kmalloc_loop_prog]; [done|].
  destruct (ptr =? Kmalloc.NULL). { by intros [= <- _]. }
  intros Hrun Hr. rewrite run_bind, skip_block_implements in Hrun.
  destruct (Kmalloc.skip_block ptr size h) as [[b h']|] eqn:Eb; [|done]. apply skip_block_same in Eb as Eh. subst h'.
  pose proof (bind_solo _ _ _ _ (λ skip : bool, if skip then nx ← load_next_prog ptr; kmalloc_loop_prog fuel nx size else take_block_prog ptr size)
    (eq_trans (skip_block_implements ptr size h) Eb)) as Hs.
  destruct b; [|by exists ptr]. rewrite run_bind in Hrun.
  destruct (run (load_next_prog ptr) h) as [[nx h']|] eqn:En; [|done].
  assert (h' = h) as ->. { unfold load_next_prog in En. rewrite implements_call in En. by apply load32_same in En as [-> _]. }
  destruct (IH nx Hrun Hr) as (a & Hs' & Ht). exists a. split; [|done].
  etrans; [exact Hs|]. etrans; [exact (bind_solo _ _ _ _ (λ nx, kmalloc_loop_prog fuel nx size) En)|exact Hs'].
Qed.

(** A block that was taken is taken again, with the same result and no effect. *)
Lemma store32_spec a v h u h' :
  Kmalloc.store32 a v h = Some (u, h') → Kmalloc.in_heap a = true ∧ h' = Kmalloc.set_mem (<[a := v]> (Kmalloc.mem h)) h.
Proof. unfold Kmalloc.store32. destruct (Kmalloc.in_heap a); [|done]. by intros [= _ <-]. Qed.

Lemma store_free_again a h u h' :
  Kmalloc.store_free a false h = Some (u, h') → Kmalloc.store_free a false h' = Some (tt, h').
Proof.
  unfold Kmalloc.store_free, Kmalloc.store8. unfold mbind, M_bind.
  destruct (Kmalloc.load32 (a + Kmalloc.off_free) h) as [[w h1]|] eqn:El; [|done].
  apply load32_same in El as (-> & Hin & ->). intros [_ ->]%store32_spec.
  unfold Kmalloc.load32, Kmalloc.store32. rewrite Hin. cbn. unfold getw at 1. rewrite lookup_insert_eq. cbn.
  rewrite !Z.lor_0_r, <- Z.land_assoc. change (Z.land 4294967040 4294967040) with 4294967040. unfold Kmalloc.set_mem. cbn [Kmalloc.mem Kmalloc.head].
  unfold modify. cbn [Kmalloc.mem Kmalloc.head]. by rewrite insert_insert_eq.
Qed.

Lemma store_free_size a h u h' :
  Kmalloc.store_free a false h = Some (u, h') → getw (Kmalloc.mem h') a = getw (Kmalloc.mem h) a.
Proof.
  unfold Kmalloc.store_free, Kmalloc.store8. unfold mbind, M_bind.
  destruct (Kmalloc.load32 (a + Kmalloc.off_free) h) as [[w h1]|] eqn:El; [|done].
  apply load32_same in El as (-> & _). intros [_ ->]%store32_spec. cbn. unfold getw.
  rewrite lookup_insert_ne; [done|]. unfold Kmalloc.off_free. lia.
Qed.

Lemma split_size a size h u h' : Kmalloc.split_block a size h = Some (u, h') → getw (Kmalloc.mem h') a = size.
Proof.
  unfold Kmalloc.split_block. unfold mbind, M_bind.
  repeat match goal with |- match ?x with _ => _ end = _ → _ => destruct x as [[]|] eqn:?; [|done] end.
  intros [_ ->]%store32_spec. cbn. unfold getw. rewrite lookup_insert_ne by (unfold Kmalloc.off_next; lia).
  match goal with H : Kmalloc.store_size a size _ = _ |- _ => apply store32_spec in H as [_ ->] end.
  cbn. unfold Kmalloc.off_size. rewrite Z.add_0_r. by rewrite lookup_insert_eq.
Qed.

Lemma take_block_again a size h r h1 :
  0 ≤ size → size + 24 < 2 ^ 32 →
  run (take_block_prog a size) h = Some (r, h1) → run (take_block_prog a size) h1 = Some (r, h1).
Proof.
  intros H0 H24. set (m := (sz ← Kmalloc.load_size a;
    _ ← when (u32 (size + Kmalloc.HEADER_SIZE + 8) <=? sz) (Kmalloc.split_block a size);
    _ ← Kmalloc.store_free a false; mret (u32 (a + Kmalloc.HEADER_SIZE))) : M Kmalloc.heap Z).
  assert (implements (take_block_prog a size) m) as Himp.
  { unfold take_block_prog, m, when. pose proof split_block_implements. impl. }
  rewrite !Himp. unfold m. unfold mbind, M_bind.
  destruct (Kmalloc.load_size a h) as [[sz h']|] eqn:El; [|done]. apply load32_same in El as (-> & Hin & ->).
  replace (u32 (size + Kmalloc.HEADER_SIZE + 8)) with (size + 24).
  2:{ change Kmalloc.HEADER_SIZE with 16. rewrite u32_small; lia. }
  destruct (when _ _ h) as [[[] h2]|] eqn:Ew; [|done].
  assert ((size + 24 <=? getw (Kmalloc.mem h2) (a + Kmalloc.off_size)) = false) as Hno.
  { unfold Kmalloc.off_size in *. rewrite Z.add_0_r in *. unfold when in Ew.
    destruct (size + 24 <=? getw (Kmalloc.mem h) a) eqn:Hle.
    - rewrite (split_size _ _ _ _ _ Ew). apply Z.leb_gt. lia.
    - by injection Ew as <-. }
  destruct (Kmalloc.store_free a false h2) as [[[] h3]|] eqn:Es; [|done]. intros [= <- <-].
  unfold Kmalloc.load_size, Kmalloc.load32. rewrite Hin. unfold gets. 
  rewrite Z.add_0_r, (store_free_size _ _ _ _ Es). rewrite Z.add_0_r in Hno. rewrite Hno. cbn [when].
  unfold mret, M_ret. by rewrite (store_free_again _ _ _ _ Es).
Qed.

(** A block that fits lies in the heap. *)
Lemma first_fit_small m a size bs p bs' :
  Kmalloc.seg m a bs → Kmalloc.heap_start ≤ a → a `mod` 8 = 0 →
  Kmalloc.first_fit a size bs = Some (p, bs') → size ≤ Kmalloc.heap_end.
Proof.
  revert a p bs'. induction bs as [|[sz fr] rest IH]; intros a p bs' Hseg Ha Hal; cbn [Kmalloc.first_fit]; [done|].
  destruct (Kmalloc.seg_cons _ _ _ _ _ Hseg Ha Hal) as (_ & Hsz & _ & Hend & Ha' & Hal' & Hrest).
  destruct (fr && (size <=? sz)) eqn:Hok.
  - apply andb_true_iff in Hok as [_ Hle%Z.leb_le]. intros _. unfold Kmalloc.heap_start in *. lia.
  - destruct (Kmalloc.first_fit _ size rest) as [[q rest']|] eqn:Hf; [|done]. intros _.
    exact (IH _ _ _ Hrest Ha' Hal' Hf).
Qed.

(** C15. [kmalloc] is not safe to interleave with itself, in any heap in which it has a
    block to give: two tasks that ask for the same size can both be given the block [r]
    that one call returns, when the first is preempted between finding the block free
    and marking it used; the heap is as after one call. *)
Theorem kmalloc_race h bs size r h1 :
  Kmalloc.heap_rep h bs → 0 ≤ size < 2 ^ 32 → Kmalloc.kmalloc size h = Some (r, h1) → r ≠ Kmalloc.NULL →
  rtc two (h, kmalloc_prog size, kmalloc_prog size) (h1, Done r, Done r).
Proof.
  intros Hrep Hsize Hk Hr. pose proof (Kmalloc.ALIGN8_spec size Hsize) as (H0 & _).
  assert (Kmalloc.ALIGN8 size ≤ Kmalloc.heap_end) as Hfit.
  { pose proof (Kmalloc.kmalloc_spec size h bs Hrep Hsize) as Hwp. unfold wp in Hwp. rewrite Hk in Hwp.
    destruct Hwp as [_ Hwp]. unfold Kmalloc.spec_kmalloc in Hwp. case_decide; [by destruct Hwp|].
    destruct (Kmalloc.first_fit _ _ bs) as [[p bs']|] eqn:Hf; [|by destruct Hwp].
    by eapply (first_fit_small (Kmalloc.mem h)); [apply Hrep|..|exact Hf]. }
  rewrite <- kmalloc_implements in Hk. pose proof Hk as Hk'. unfold kmalloc_prog in Hk'.
  destruct (size =? 0) eqn:Ez. { by injection Hk' as <- _. }
  destruct (kmalloc_stops _ _ _ _ _ _ Hk' Hr) as (a & Hs & Ht).
  etrans; [apply solo_first; etrans; [|exact Hs]|].
  { unfold kmalloc_prog. rewrite Ez. by apply (bind_solo (call LoadHead) h (Kmalloc.head h) h). }
  etrans; [exact (solo_second _ _ _ _ _ (run_solo _ _ _ _ Hk))|].
  apply solo_first, run_solo. apply (take_block_again _ _ h); [done| |done].
  unfold Kmalloc.heap_end, Kmalloc.heap_start in Hfit. lia.
Qed.

(** 100 bytes of the heap as [kmalloc_init] leaves it. *)
Lemma kmalloc_race_witness :
  rtc two (Kmalloc.boot_heap, kmalloc_prog 100, kmalloc_prog 100)
    (Kmalloc.one_block_heap, Done (Kmalloc.heap_start + 16), Done (Kmalloc.heap_start + 16)).
Proof.
  apply (kmalloc_race Kmalloc.boot_heap _ 100 _ _ Kmalloc.boot_heap_rep); [lia|vm_compute; reflexivity|done].
Defined.

(** *** [physical_alloc_page] against itself *)

(** The search stops at a free page, before it has changed anything. *)
Lemma search_stops l s F r s1 :
  Physical.bm_rep (Physical.pageBitMap s) F → (∀ q, q ∈ l → 0 ≤ q < Physical.PHYSICAL_PAGE_COUNT) →
  run (alloc_loop_prog l) s = Some (r, s1) → r ≠ 0 →
  ∃ page, page ∈ F ∧ rtc solo (s, alloc_loop_prog l) (s, take_page_prog page) ∧
    run (take_page_prog page) s = Some (r, s1).
Proof.
  intros Hrep. induction l as [|page l IH]; cbn [alloc_loop_prog]; intros Hl Hrun Hr.
  { by injection Hrun as <-. }
  rewrite run_bind, is_used_implements in Hrun.
  destruct (proj1 (wp_inv _ _ _) (Physical.is_used_spec s F page Hrep (Hl page ltac:(by left)))) as (u & ? & Eu & -> & ->).
  pose proof (bind_solo _ _ _ _ (λ u, if negb u then take_page_prog page else alloc_loop_prog l)
    (eq_trans (is_used_implements page s) Eu)) as Hsolo.
  rewrite Eu in Hrun. case_bool_decide as Hin; cbn [negb] in *.
  - destruct (IH ltac:(intros q Hq; apply Hl; by right) Hrun Hr) as (page' & Hp & Hs & Ht).
    exists page'. split; [done|]. split; [|done]. by etrans.
  - exists page. split; [|by split]. destruct (decide (page ∈ F)); [done|]. by exfalso.
Qed.

Lemma take_page_again page s F :
  Physical.bm_rep (Physical.pageBitMap s) F → 0 ≤ page < Physical.PHYSICAL_PAGE_COUNT →
  ∃ s', run (take_page_prog page) s = Some (page * Physical.PAGE_SIZE, s') ∧
    Physical.bm_rep (Physical.pageBitMap s') (F ∖ {[page]}) ∧
    Physical.freePages s' = u32 (Physical.freePages s - 1).
Proof.
  intros Hrep Hp.
  destruct (proj1 (wp_inv _ _ _) (Physical.mark_used_spec s F page Hrep Hp)) as ([] & s' & Em & Hrep' & Hcnt).
  exists (Physical.set_freePages (u32 (Physical.freePages s' - 1)) s'). split; [|by rewrite <- Hcnt].
  unfold take_page_prog. rewrite run_bind, mark_used_implements, Em. cbn. rewrite u32_small; [done|].
  change (0 <= page < 16384) in Hp. change Physical.PAGE_SIZE with 4096. lia.
Qed.

(** C16. [physical_alloc_page] is not safe to interleave with itself, in any state in
    which it has a page to give: the page [r] that a call returns can be given to two
    tasks at once, when the first is preempted between finding the page free and
    marking it used; the bitmap loses one page and [freePages] counts two. *)
Theorem physical_alloc_race s F r s1 :
  Physical.phys_rep s F → Physical.physical_alloc_page s = Some (r, s1) → r ≠ 0 →
  ∃ s2, rtc two (s, physical_alloc_page_prog, physical_alloc_page_prog) (s2, Done r, Done r) ∧
    Physical.bm_rep (Physical.pageBitMap s2) (F ∖ {[r / Physical.PAGE_SIZE]}) ∧
    Physical.freePages s2 = u32 (Z.of_nat (size F) - 2).
Proof.
  intros Hrep Hrun Hr. rewrite <- alloc_page_implements in Hrun.
  assert (∀ q, q ∈ range 256 Physical.PHYSICAL_PAGE_COUNT → 0 ≤ q < Physical.PHYSICAL_PAGE_COUNT) as Hl.
  { intros q Hq. apply elem_of_seqZ in Hq. lia. }
  destruct (search_stops _ _ _ _ _ (Physical.rep_bm _ _ Hrep) Hl Hrun Hr) as (page & HF & Hsearch & Htake).
  pose proof (Physical.bm_sub _ _ (Physical.rep_bm _ _ Hrep) _ HF) as Hp. apply Physical.elem_of_pages in Hp.
  destruct (take_page_again page s F (Physical.rep_bm _ _ Hrep) Hp) as (s1' & Htake' & Hrep1 & Hcnt1).
  rewrite Htake in Htake'. injection Htake' as -> ->.
  destruct (take_page_again page s1' _ Hrep1 Hp) as (s2 & Htake2 & Hrep2 & Hcnt2).
  exists s2. split; [|split].
  - etrans; [exact (solo_first _ _ _ _ _ Hsearch)|].
    etrans; [exact (solo_second _ _ _ _ _ (run_solo _ _ _ _ Hrun))|].
    exact (solo_first _ _ _ _ _ (run_solo _ _ _ _ Htake2)).
  - rewrite Z.div_mul by done. assert (F ∖ {[page]} ∖ {[page]} = F ∖ {[page]}) as <- by (clear; set_solver). exact Hrep2.
  - rewrite Hcnt2, Hcnt1, (Physical.rep_count _ _ Hrep). unfold u32. rewrite Zminus_mod_idemp_l. by replace (Z.of_nat (size F) - 1 - 1) with (Z.of_nat (size F) - 2) by lia.
Qed.

(** The first page after the boot. *)
Lemma physical_alloc_race_witness :
  ∃ s2, rtc two (Physical.boot_phys, physical_alloc_page_prog, physical_alloc_page_prog) (s2, Done 0x200000, Done 0x200000).
Proof.
  destruct Physical.boot_alloc as (s1 & Hrun & _).
  destruct (physical_alloc_race Physical.boot_phys _ 0x200000 s1
    Physical.boot_phys_rep Hrun ltac:(done)) as (s2 & Hs & _).
  by exists s2.
Defined.

End Preempt.
