(* ===== verification/Boot.v ===== *)
(** * The second-stage loader (src/boot/stage2)

    The libraries (endian.c, string.c, print.c), the BIOS disk access (disk.asm)
    and the FAT12 reader and main program (stage2.c).  The BIOS is an interface,
    the class [Bios]: what INT 13h answers to the n-th call.  The file ends with
    the correctness of the disk access; Fat.v and Loader.v hold what is proved of
    the file system and of the main program. *)

From S2P Require Import Prelude Vga.

(** ** endian.c and string.c

    A pointer to bytes is the list of the bytes from there on; reading behind its
    end is undefined. *)

Module Lib.

Definition read_le16 (p : list Z) : option Z :=
  match p with
  | a :: b :: _ => Some (Z.lor (u16 a) (Z.shiftl (u16 b) 8))
  | _ => None
  end.

Definition read_le32 (p : list Z) : option Z :=
  match p with
  | a :: b :: c :: d :: _ =>
      Some (Z.lor (Z.lor (Z.lor (u32 a) (Z.shiftl (u32 b) 8)) (Z.shiftl (u32 c) 16)) (Z.shiftl (u32 d) 24))
  | _ => None
  end.

Fixpoint memcmp (a b : list Z) (n : nat) {struct n} : option Z :=
  match n with
  | O => Some 0
  | S n => match a, b with
           | x :: a, y :: b => if negb (x =? y) then Some (if y <? x then 1 else -1) else memcmp a b n
           | _, _ => None
           end
  end.

Fixpoint strlen (str : list Z) : option Z :=
  match str with
  | [] => None
  | c :: str => if c =? 0 then Some 0 else (λ n, u32 (n + 1)) <$> strlen str
  end.

Fixpoint strcmp (s1 s2 : list Z) : option Z :=
  match s1, s2 with
  | a :: s1', b :: s2' =>
      if negb (a =? 0) && negb (b =? 0) && (a =? b) then strcmp s1' s2' else Some (u8 a - u8 b)
  | _, _ => None
  end.

Fixpoint strncmp (s1 s2 : list Z) (n : nat) {struct n} : option Z :=
  match n with
  | O => Some 0
  | S n => match s1, s2 with
           | a :: s1, b :: s2 =>
               if negb (a =? b) then Some (u8 a - u8 b)
               else if a =? 0 then Some 0 else strncmp s1 s2 n
           | _, _ => None
           end
  end.

(** Little-endian numbers from bytes. *)
Lemma read_le16_value a b p :
  0 ≤ a < 256 → 0 ≤ b < 256 → read_le16 (a :: b :: p) = Some (a + 256 * b).
Proof.
  intros Ha Hb. simpl. rewrite !u16_small by lia. rewrite lor_shiftl by lia. f_equal. lia.
Qed.

Lemma read_le32_value a b c d p :
  0 ≤ a < 256 → 0 ≤ b < 256 → 0 ≤ c < 256 → 0 ≤ d < 256 →
  read_le32 (a :: b :: c :: d :: p) = Some (a + 256 * b + 65536 * c + 16777216 * d).
Proof.
  intros Ha Hb Hc Hd. simpl. rewrite !u32_small by lia.
  rewrite (lor_shiftl a b 8), (lor_shiftl _ c 16), (lor_shiftl _ d 24) by lia. f_equal. lia.
Qed.

(** [memcmp] is 0 exactly for equal bytes. *)
Lemma memcmp_eq n a b :
  (n ≤ length a)%nat → (n ≤ length b)%nat →
  ∃ r, memcmp a b n = Some r ∧ (r = 0 ↔ take n a = take n b).
Proof.
  revert a b. induction n as [|n IH]; intros a b Ha Hb; [by exists 0|].
  destruct a as [|x a], b as [|y b]; simpl in *; try lia. destruct (Z.eqb_spec x y) as [->|Hne]; simpl.
  - destruct (IH a b) as (r & Hr & Hiff); [lia|lia|]. exists r. split; [done|].
    rewrite Hiff. split; [intros E; by rewrite E|by intros [= E]].
  - eexists. split; [done|]. split; [by destruct (y <? x)|by intros [= ? _]].
Qed.

Lemma strlen_spec str rest :
  0 ∉ str → Z.of_nat (length str) < 2 ^ 32 → strlen (str ++ 0 :: rest) = Some (Z.of_nat (length str)).
Proof.
  induction str as [|c str IH]; intros H0 Hl; simpl; [done|].
  apply not_elem_of_cons in H0 as [Hc H0]. simpl in Hl. destruct (Z.eqb_spec c 0); [lia|].
  rewrite IH by (done || lia). simpl. rewrite u32_small by lia. f_equal. lia.
Qed.

(** [strcmp] is 0 exactly for equal strings. *)
Lemma strcmp_eq s1 s2 r1 r2 :
  0 ∉ s1 → 0 ∉ s2 → Forall (λ c, 0 ≤ c < 256) s1 → Forall (λ c, 0 ≤ c < 256) s2 →
  ∃ r, strcmp (s1 ++ 0 :: r1) (s2 ++ 0 :: r2) = Some r ∧ (r = 0 ↔ s1 = s2).
Proof.
  revert s2. induction s1 as [|a s1 IH]; intros [|b s2] H1 H2 F1 F2; simpl.
  - by exists 0.
  - apply not_elem_of_cons in H2 as [Hb _]. apply Forall_cons in F2 as [Fb _].
    eexists. split; [done|]. change (u8 0) with 0. rewrite u8_small by lia. split; [lia|done].
  - apply not_elem_of_cons in H1 as [Ha _]. apply Forall_cons in F1 as [Fa _].
    rewrite andb_false_r. simpl. eexists. split; [done|]. change (u8 0) with 0.
    rewrite u8_small by lia. split; [lia|done].
  - apply not_elem_of_cons in H1 as [Ha H1]. apply not_elem_of_cons in H2 as [Hb H2].
    apply Forall_cons in F1 as [Fa F1]. apply Forall_cons in F2 as [Fb F2].
    destruct (Z.eqb_spec a 0); [lia|]. destruct (Z.eqb_spec b 0); [lia|]. simpl.
    destruct (Z.eqb_spec a b) as [->|Hne].
    + destruct (IH s2) as (r & Hr & Hiff); [done|done|done|done|]. exists r. split; [done|].
      rewrite Hiff. split; [by intros ->|by intros [= ->]].
    + eexists. split; [done|]. rewrite !u8_small by lia. split; [lia|by intros [= ? _]].
Qed.

End Lib.

(** ** The loader's state *)

Module Stage2.
Import Lib.

(** The fields of the BIOS parameter block that [fat_init] reads. *)
Record bpb : Type := mkBpb {
  g_bytes_per_sector : Z;
  g_sectors_per_cluster : Z;
  g_reserved_sectors : Z;
  g_num_fats : Z;
  g_root_entry_count : Z;
  g_total_sectors : Z;
  g_sectors_per_fat : Z
}.

(** The values it computes from them. *)
Record derived : Type := mkDerived {
  g_root_dir_sectors : Z;
  g_first_fat_sector : Z;
  g_first_root_dir_sector : Z;
  g_root_dir_first_sector : Z;
  g_first_data_sector : Z;
  g_data_sectors : Z;
  g_cluster_count : Z
}.

(** Memory by bytes, what has been printed (last character first), the drive and
    its geometry, the file system, and the number of INT 13h calls made. *)
Record boot : Type := mkBoot {
  mem : gmap Z Z;
  tty : list Z;
  g_drive : Z;
  g_sectors_per_track : Z;
  g_num_heads : Z;
  fs : bpb;
  fsd : derived;
  bios_calls : Z
}.

Definition set_mem (x : gmap Z Z) (s : boot) : boot :=
  mkBoot x (tty s) (g_drive s) (g_sectors_per_track s) (g_num_heads s) (fs s) (fsd s) (bios_calls s).
Definition set_tty (x : list Z) (s : boot) : boot :=
  mkBoot (mem s) x (g_drive s) (g_sectors_per_track s) (g_num_heads s) (fs s) (fsd s) (bios_calls s).
Definition set_drive (x : Z) (s : boot) : boot :=
  mkBoot (mem s) (tty s) x (g_sectors_per_track s) (g_num_heads s) (fs s) (fsd s) (bios_calls s).
Definition set_geometry (spt heads : Z) (s : boot) : boot :=
  mkBoot (mem s) (tty s) (g_drive s) spt heads (fs s) (fsd s) (bios_calls s).
Definition set_fs (x : bpb) (s : boot) : boot :=
  mkBoot (mem s) (tty s) (g_drive s) (g_sectors_per_track s) (g_num_heads s) x (fsd s) (bios_calls s).
Definition set_fsd (x : derived) (s : boot) : boot :=
  mkBoot (mem s) (tty s) (g_drive s) (g_sectors_per_track s) (g_num_heads s) (fs s) x (bios_calls s).
Definition set_calls (x : Z) (s : boot) : boot :=
  mkBoot (mem s) (tty s) (g_drive s) (g_sectors_per_track s) (g_num_heads s) (fs s) (fsd s) x.

(** ** print.c *)

Definition bios_print_char (c : Z) : M boot unit :=
  modify (λ s, set_tty (u8 c :: tty s) s).

Definition putchar (ch : Z) : M boot Z :=
  _ ← when (ch =? 10) (bios_print_char 13);
  _ ← bios_print_char (u8 ch);
  mret (u8 ch).

Definition bios_print (str : list Z) : M boot unit :=
  mfor str (λ c, _ ← putchar (u8 c); mret tt).

(** [(putchar(ch) >= 0) ? 1 : 0] *)
Definition put_count (ch : Z) : M boot Z :=
  r ← putchar ch; mret (if 0 <=? r then 1 else 0).

Fixpoint put_all (str : list Z) : M boot Z :=
  match str with
  | [] => mret 0
  | c :: str => a ← put_count c; b ← put_all str; mret (a + b)
  end.

(** The digits, last one first; [buffer] has room for 16. *)
Fixpoint print_digits (fuel : nat) (value base : Z) (buffer : list Z) : M boot (list Z) :=
  if value =? 0 then mret buffer
  else match fuel with
       | O => undef
       | S fuel =>
           if 16 <=? Z.of_nat (length buffer) then undef
           else if base =? 0 then undef
           else
             d ← lift (aget Vga.digits (value `mod` base));
             print_digits fuel (value / base) base (buffer ++ [d])
       end.

Definition print_unsigned (value base : Z) : M boot Z :=
  if value =? 0 then putchar 48
  else
    buffer ← print_digits 17 value base [];
    put_all (reverse buffer).

Definition print_signed (value : Z) : M boot Z :=
  if value <? 0 then
    a ← put_count 45;
    n ← print_unsigned (u32 (u32 (- (value + 1)) + 1)) 10;
    mret (a + n)
  else print_unsigned (u32 value) 10.

Definition va_word (args : list Vga.va_arg) : M boot (Z * list Vga.va_arg) :=
  match args with Vga.VWord w :: args => mret (w, args) | _ => undef end.
Definition va_string (args : list Vga.va_arg) : M boot (list Z * list Vga.va_arg) :=
  match args with
  | Vga.VStr p :: args => mret (default (cstr "(null)") p, args)
  | _ => undef
  end.

(** One conversion: the characters counted and the arguments left. *)
Definition print_conversion (f : Z) (args : list Vga.va_arg) : M boot (Z * list Vga.va_arg) :=
  if f =? 37 then n ← put_count 37; mret (n, args)
  else if f =? 99 then '(w, args) ← va_word args; n ← put_count w; mret (n, args)
  else if f =? 115 then '(str, args) ← va_string args; n ← put_all str; mret (n, args)
  else if (f =? 100) || (f =? 105) then
    '(w, args) ← va_word args; n ← print_signed (i32 w); mret (n, args)
  else if f =? 117 then '(w, args) ← va_word args; n ← print_unsigned (u32 w) 10; mret (n, args)
  else if f =? 120 then '(w, args) ← va_word args; n ← print_unsigned (u32 w) 16; mret (n, args)
  else n ← put_count 37; m ← put_count f; mret (n + m, args).

Fixpoint vprintf_loop (fmt : list Z) (args : list Vga.va_arg) (cnt : Z) : M boot Z :=
  match fmt with
  | [] => mret cnt
  | c :: fmt =>
      if c =? 37 then
        match fmt with
        | [] => mret cnt
        | f :: fmt => '(n, args) ← print_conversion f args; vprintf_loop fmt args (cnt + n)
        end
      else n ← put_count c; vprintf_loop fmt args (cnt + n)
  end.
Definition vprintf (fmt : list Z) (args : list Vga.va_arg) : M boot Z := vprintf_loop fmt args 0.
Definition printf (fmt : list Z) (args : list Vga.va_arg) : M boot Z := vprintf fmt args.

(** ** disk.asm *)

(** The interface to the BIOS.  [int13_read n dl ch cl dh]: the sector that the
    [n]-th INT 13h call (AH = 2) delivers, None with the carry flag; a call that fails
    stores nothing and keeps all registers but AX.
    [int13_params dl]: CL and DH of the call with AH = 8.  The instructions of disk.asm,
    with what they do to the registers and the stack, are in Disk.v. *)
Class Bios := {
  int13_read : Z → Z → Z → Z → Z → option (list Z);
  int13_params : Z → option (Z * Z)
}.

Section disk.

Context {bios : Bios}.

Definition disk_get_params : M boot Z :=
  d ← gets g_drive;
  _ ← modify (λ s, set_calls (bios_calls s + 1) s);
  match int13_params d with
  | None => mret (-1)
  | Some (cl, dh) => _ ← modify (set_geometry (Z.land cl 0x3F) (u16 (u8 dh + 1))); mret 0
  end.

(** The result is (cylinder, head, sector); dividing by zero is undefined. *)
Definition lba_to_chs (lba : Z) : M boot (Z * Z * Z) :=
  spt ← gets g_sectors_per_track;
  heads ← gets g_num_heads;
  if (spt =? 0) || (heads =? 0) then undef
  else
    let track := lba / spt in
    let sector := lba `mod` spt + 1 in
    mret (track / heads, track `mod` heads, sector).

(** A list of bytes at a linear address. *)
Fixpoint store_bytes (m : gmap Z Z) (a : Z) (bs : list Z) : gmap Z Z :=
  match bs with
  | [] => m
  | b :: bs => store_bytes (<[a := b]> m) (a + 1) bs
  end.

Definition disk_read_sector (lba segment offset : Z) : M boot Z :=
  '(cylinder, head, sector) ← lba_to_chs (u32 lba);
  dl ← gets g_drive;
  let ch := u8 cylinder in
  let cl := Z.lor (Z.land (u8 (Z.shiftr cylinder 2)) 0xC0) (Z.land (u8 sector) 0x3F) in
  let dh := u8 head in
  r ← mfor_ret (range 0 3) (λ _,
        n ← gets bios_calls;
        _ ← modify (set_calls (n + 1));
        match int13_read n dl ch cl dh with
        | Some bs =>
            _ ← modify (λ s, set_mem (store_bytes (mem s) (u16 segment * 16 + u16 offset) bs) s);
            mret (Some 0)
        | None => _ ← modify (set_calls (n + 2)); mret None
        end);
  mret (default (-1) r).

(** ** stage2.c *)

Definition BOOT_SECTOR_SEG : Z := 0x2000.
Definition FAT_SEG : Z := 0x2200.
Definition ROOT_DIR_SEG : Z := 0x3400.
Definition KERNEL_SEG : Z := 0x4000.

(** The loader runs at STAGE2_BASE (0x5000) with all segment registers equal. *)
Definition current_ds : Z := 0x500.

(** The bytes at [DS:off], and the access through a pointer, which must not pass
    the segment limit of 64 KiB. *)
Definition near (s : boot) (off n : Z) : list Z :=
  (λ i, getw (mem s) (current_ds * 16 + off + i)) <$> range 0 n.
Definition read_near (off n : Z) : M boot (list Z) :=
  if off + n <=? 0x10000 then gets (λ s, near s off n) else undef.

(** The values computed from the fields, at the width of their variables. *)
Definition derive (p : bpb) : derived :=
  let root_dir_sectors :=
    (g_root_entry_count p * 32 + (g_bytes_per_sector p - 1)) / g_bytes_per_sector p in
  let first_root_dir_sector := u32 (g_reserved_sectors p + u32 (g_num_fats p * g_sectors_per_fat p)) in
  let first_data_sector := u32 (first_root_dir_sector + root_dir_sectors) in
  let data_sectors := u32 (g_total_sectors p - first_data_sector) in
  mkDerived root_dir_sectors (g_reserved_sectors p) first_root_dir_sector first_root_dir_sector
    first_data_sector data_sectors (data_sectors / g_sectors_per_cluster p).

(** The part of [fat_init] behind the disk access: it parses the boot sector. *)
Definition fat_parse : M boot Z :=
  b ← read_near BOOT_SECTOR_SEG 512;
  bytes_per_sector ← lift (read_le16 (drop 11 b));
  sectors_per_cluster ← lift (aget b 13);
  reserved_sectors ← lift (read_le16 (drop 14 b));
  num_fats ← lift (aget b 16);
  root_entry_count ← lift (read_le16 (drop 17 b));
  total16 ← lift (read_le16 (drop 19 b));
  total_sectors ← (if total16 =? 0 then
                     _ ← printf (cstr "Falls back to 32-bit...\n") [];
                     lift (read_le32 (drop 32 b))
                   else mret total16);
  sectors_per_fat ← lift (read_le16 (drop 22 b));
  let p := mkBpb bytes_per_sector sectors_per_cluster reserved_sectors num_fats
             root_entry_count total_sectors sectors_per_fat in
  _ ← modify (set_fs p);
  if (bytes_per_sector =? 0) || (sectors_per_cluster =? 0) || (reserved_sectors =? 0) ||
     (num_fats =? 0) || (sectors_per_fat =? 0) || (total_sectors =? 0) then mret (-1)
  else
    _ ← modify (set_fsd (derive p));
    if 4085 <=? g_cluster_count (derive p) then mret (-1) else mret 0.

Definition fat_init (drive : Z) : M boot Z :=
  _ ← modify (set_drive drive);
  r ← disk_get_params;
  if negb (r =? 0) then mret (-1)
  else
    r ← disk_read_sector 0 current_ds BOOT_SECTOR_SEG;
    if negb (r =? 0) then mret (-1) else fat_parse.

(** A directory entry of 32 bytes. *)
Record DirEntry : Type := mkDirEntry {
  name : list Z; ext : list Z; attribute : Z; firstCluster : Z; fileSize : Z
}.

Definition dir_entry (b : list Z) : option DirEntry :=
  c ← read_le16 (drop 26 b);
  sz ← read_le32 (drop 28 b);
  a ← aget b 11;
  Some (mkDirEntry (take 8 b) (take 3 (drop 8 b)) a c sz).

(** One turn of the scan: [continue] ([None]), the end of the directory
    ([Some None]) or the file ([Some (Some e)]). *)
Definition scan_entry (name83 : list Z) (e : DirEntry) : option (option (option DirEntry)) :=
  c0 ← aget (name e) 0;
  if c0 =? 0 then Some (Some None)
  else if c0 =? 0xE5 then Some None
  else if attribute e =? 0x0F then Some None
  else if negb (Z.land (attribute e) 0x10 =? 0) || negb (Z.land (attribute e) 0x08 =? 0) then Some None
  else
    r1 ← memcmp (name e) name83 8;
    r2 ← memcmp (ext e) (drop 8 name83) 3;
    Some (if (r1 =? 0) && (r2 =? 0) then Some (Some e) else None).

(** The result is the cluster and the size of the file, or None for -1. *)
Definition fat_find_file (name83 : list Z) : M boot (option (Z * Z)) :=
  s0 ← gets (λ s, s);
  r ← mfor_ret (range 0 (g_root_dir_sectors (fsd s0))) (λ i,
        r ← disk_read_sector (g_first_root_dir_sector (fsd s0) + i) current_ds ROOT_DIR_SEG;
        if negb (r =? 0) then mret (Some None)
        else
          let entries := g_bytes_per_sector (fs s0) / 32 in
          mfor_ret (range 0 entries) (λ j,
            b ← read_near (ROOT_DIR_SEG + 32 * j) 32;
            e ← lift (dir_entry b);
            lift (scan_entry name83 e)));
  mret (match r with Some (Some e) => Some (firstCluster e, fileSize e) | _ => None end).

(** [fat] is the offset of the table; the two bytes are read from memory, within the
    segment limit. *)
Definition fat12_next_cluster (fat cluster : Z) : M boot Z :=
  s ← gets (λ s, s);
  let offset := u16 (cluster + cluster / 2) in
  if 0x10000 <=? fat + offset + 1 then undef
  else
  let lo := getw (mem s) (current_ds * 16 + fat + offset) in
  let hi := getw (mem s) (current_ds * 16 + fat + offset + 1) in
  mret (u16 (if negb (Z.land cluster 1 =? 0)
             then Z.land (Z.lor (Z.shiftr lo 4) (Z.shiftl hi 4)) 0x0FFF
             else Z.land (Z.lor lo (Z.shiftl (Z.land hi 0x0F) 8)) 0x0FFF)).

Definition fat_read_table : M boot Z :=
  s0 ← gets (λ s, s);
  r ← mfor_ret (range 0 (g_sectors_per_fat (fs s0))) (λ i,
        let dstOff := u16 (FAT_SEG + i * g_bytes_per_sector (fs s0)) in
        r ← disk_read_sector (g_first_fat_sector (fsd s0) + i) current_ds dstOff;
        mret (if negb (r =? 0) then Some (-1) else None));
  mret (default 0 r).

(** The sectors of one cluster: the inner loop of [fat_load_file], with its
    [linear] and [remaining]; None is [return -1]. *)
Fixpoint load_cluster (n : nat) (lba linear remaining : Z) : M boot (option (Z * Z)) :=
  match n with
  | O => mret (Some (linear, remaining))
  | S n =>
      if remaining =? 0 then mret (Some (linear, remaining))
      else
        bps ← gets (λ s, g_bytes_per_sector (fs s));
        r ← disk_read_sector lba (u16 (Z.shiftr linear 4)) (u16 (Z.land linear 0xF));
        if negb (r =? 0) then mret None
        else
          let chunk := if remaining <? bps then remaining else bps in
          load_cluster n (u32 (lba + 1)) (u32 (linear + chunk)) (u32 (remaining - chunk))
  end.

(** The outer loop: a cluster is at least one sector, so a file of [n] bytes needs
    at most [n] turns. *)
Fixpoint load_loop (fuel : nat) (cluster linear remaining : Z) : M boot Z :=
  if remaining =? 0 then mret 0
  else match fuel with
       | O => undef
       | S fuel =>
           s ← gets (λ s, s);
           let spc := g_sectors_per_cluster (fs s) in
           let lba := u32 (g_first_data_sector (fsd s) + u32 (u32 (cluster - 2) * spc)) in
           r ← load_cluster (Z.to_nat spc) lba linear remaining;
           match r with
           | None => mret (-1)
           | Some (linear, remaining) =>
               if remaining =? 0 then mret 0
               else
                 cluster ← fat12_next_cluster FAT_SEG cluster;
                 if cluster =? 0xFF7 then mret (-1)
                 else if (cluster <? 2) || (0xFF8 <=? cluster) then mret (-1)
                 else load_loop fuel cluster linear remaining
           end
       end.

Definition fat_load_file (firstCluster fileSize destination : Z) : M boot Z :=
  let linear := u32 (current_ds * 16 + u16 destination) in
  if firstCluster <? 2 then mret (-1)
  else
    r ← fat_read_table;
    if negb (r =? 0) then mret (-1)
    else load_loop (S (Z.to_nat fileSize)) firstCluster linear fileSize.

Definition debug_print_name83 (b : list Z) : M boot unit :=
  mfor (take 8 b) (λ c, bios_print_char (if c =? 32 then 95 else c)).

(** [printed] counts up to 12 across the sectors. *)
Fixpoint dump_sector (js : list Z) (printed : Z) : M boot (option Z) :=
  match js with
  | [] => mret (Some printed)
  | j :: js =>
      if 12 <=? printed then mret (Some printed)
      else
        b ← read_near (ROOT_DIR_SEG + 32 * j) 32;
        e ← lift (dir_entry b);
        c0 ← lift (aget (name e) 0);
        if c0 =? 0 then mret None
        else if (c0 =? 0xE5) || (attribute e =? 0x0F) then dump_sector js printed
        else if negb (Z.land (attribute e) 0x10 =? 0) || negb (Z.land (attribute e) 0x08 =? 0) then
          dump_sector js printed
        else
          _ ← bios_print (cstr "   ");
          _ ← debug_print_name83 b;
          _ ← bios_print (cstr "\n");
          dump_sector js (u16 (printed + 1))
  end.

Fixpoint dump_sectors (sectors : list Z) (root_lba entries printed : Z) : M boot unit :=
  match sectors with
  | [] => mret tt
  | i :: sectors =>
      r ← disk_read_sector (root_lba + i) current_ds ROOT_DIR_SEG;
      if negb (r =? 0) then bios_print (cstr "ERROR: cannot read!\n")
      else
        p ← dump_sector (range 0 entries) printed;
        match p with
        | None => mret tt
        | Some printed => dump_sectors sectors root_lba entries printed
        end
  end.

Definition debug_dump_root_dir : M boot unit :=
  s0 ← gets (λ s, s);
  _ ← bios_print (cstr "Root entries seen:\n");
  dump_sectors (range 0 (g_root_dir_sectors (fsd s0))) (g_first_root_dir_sector (fsd s0))
    (g_bytes_per_sector (fs s0) / 32) 0.

(** How the loader ends: in the kernel at 0x9000, or in an endless loop. *)
Inductive outcome : Type :=
| JumpToKernel
| Hang.

Definition find_kernel : M boot (option (Z * Z)) :=
  f ← fat_find_file (cstr "KERNEL     ");
  match f with
  | Some f => mret (Some f)
  | None => fat_find_file (cstr "KERNEL  BIN")
  end.

Definition stage2_main : M boot outcome :=
  _ ← bios_print (cstr "stage2_main reached!\n");
  d ← gets g_drive;
  r ← fat_init d;
  if negb (r =? 0) then _ ← bios_print (cstr "ERROR: FAT init failed!\n"); mret Hang
  else
    _ ← bios_print (cstr "Looking for kernel...\n");
    f ← find_kernel;
    match f with
    | None =>
        _ ← debug_dump_root_dir;
        _ ← bios_print (cstr "ERROR: Kernel not found!\n"); mret Hang
    | Some (cluster, fileSize) =>
        r ← fat_load_file cluster fileSize KERNEL_SEG;
        if negb (r =? 0) then _ ← bios_print (cstr "ERROR: Load failed!\n"); mret Hang
        else _ ← bios_print (cstr "Starting kernel...\n"); mret JumpToKernel
    end.

(** ** Disk access *)

(** The linear block address a cylinder, head and sector name. *)
Definition chs_lba (spt heads cylinder head sector : Z) : Z :=
  (cylinder * heads + head) * spt + sector - 1.

(** How the BIOS reads CH, CL and DH: ten bits of cylinder, six of sector. *)
Definition reg_cylinder (ch cl : Z) : Z := ch + 256 * (cl / 64).
Definition reg_sector (cl : Z) : Z := cl `mod` 64.

(** A disk: its geometry is one INT 13h can address, its sectors are 512 bytes,
    and a read that does not fail delivers the sector the registers name. *)
Record disk_ok (D : Z → list Z) (drive spt heads : Z) : Prop := {
  disk_spt : 1 ≤ spt ≤ 63;
  disk_heads : 1 ≤ heads ≤ 256;
  disk_bytes : ∀ lba, length (D lba) = 512%nat ∧ Forall (λ b, 0 ≤ b < 256) (D lba);
  disk_read : ∀ n ch cl dh bs, 0 ≤ ch < 256 → 0 ≤ cl < 256 → 0 ≤ dh < heads →
    1 ≤ reg_sector cl ≤ spt → int13_read n drive ch cl dh = Some bs →
    bs = D (chs_lba spt heads (reg_cylinder ch cl) dh (reg_sector cl))
}.

(** The registers [disk_read_sector] loads name the block. *)
Lemma chs_roundtrip spt heads lba :
  1 ≤ spt ≤ 63 → 1 ≤ heads ≤ 256 → 0 ≤ lba < 1024 * heads * spt →
  let track := lba / spt in
  let cylinder := track / heads in
  let sector := lba `mod` spt + 1 in
  let ch := u8 cylinder in
  let cl := Z.lor (Z.land (u8 (Z.shiftr cylinder 2)) 0xC0) (Z.land (u8 sector) 0x3F) in
  let dh := u8 (track `mod` heads) in
  0 ≤ ch < 256 ∧ 0 ≤ cl < 256 ∧ 0 ≤ dh < heads ∧ 1 ≤ reg_sector cl ≤ spt ∧
  chs_lba spt heads (reg_cylinder ch cl) dh (reg_sector cl) = lba.
Proof.
  intros Hspt Hheads Hlba track cylinder sector. cbv zeta.
  pose proof (Z.div_mod lba spt ltac:(lia)) as H1. fold track in H1.
  pose proof (Z.mod_pos_bound lba spt ltac:(lia)) as H2.
  pose proof (Z.div_mod track heads ltac:(lia)) as H3. fold cylinder in H3.
  pose proof (Z.mod_pos_bound track heads ltac:(lia)) as H4.
  assert (0 ≤ track) by (apply Z.div_pos; lia).
  assert (0 ≤ cylinder < 1024) as H5.
  { split; [apply Z.div_pos; lia|]. unfold cylinder, track. rewrite Z.div_div by lia.
    apply Z.div_lt_upper_bound; [nia|]. nia. }
  assert (Z.land (u8 (Z.shiftr cylinder 2)) 0xC0 = 64 * (cylinder / 256)) as ->.
  { assert (Forall (λ c, Z.land (u8 (Z.shiftr c 2)) 0xC0 = 64 * (c / 256)) (range 0 1024)) as Hall
      by (apply (bool_decide_unpack _); vm_compute; exact I).
    rewrite Forall_forall in Hall. apply Hall, elem_of_seqZ. lia. }
  assert (Z.land (u8 sector) 0x3F = sector) as ->.
  { unfold sector. rewrite u8_small by lia. change 0x3F with (2 ^ 6 - 1). rewrite land_ones_mod by lia.
    apply Z.mod_small. lia. }
  assert (0 ≤ cylinder / 256 < 4) as H6 by (split; [apply Z.div_pos; lia|apply Z.div_lt_upper_bound; lia]).
  assert (Z.lor (64 * (cylinder / 256)) sector = sector + 64 * (cylinder / 256)) as ->.
  { rewrite Z.lor_comm. replace (64 * (cylinder / 256)) with (Z.shiftl (cylinder / 256) 6)
      by (rewrite Z.shiftl_mul_pow2; lia). rewrite lor_shiftl by (unfold sector; lia).
    rewrite Z.shiftl_mul_pow2; lia. }
  set (ch := u8 cylinder). set (dh := u8 (track `mod` heads)).
  assert (dh = track `mod` heads) as Edh by (apply u8_small; lia).
  assert (ch = cylinder `mod` 256) as Ech by done. pose proof (Z.div_mod cylinder 256 ltac:(lia)).
  pose proof (Z.mod_pos_bound cylinder 256 ltac:(lia)).
  assert (reg_sector (sector + 64 * (cylinder / 256)) = sector) as ->.
  { unfold reg_sector. rewrite Z.mul_comm, Z_mod_plus_full. apply Z.mod_small. unfold sector. lia. }
  assert ((sector + 64 * (cylinder / 256)) / 64 = cylinder / 256) as Ecl.
  { rewrite Z.mul_comm, Z.div_add by lia. rewrite Z.div_small by (unfold sector; lia). lia. }
  unfold reg_cylinder, chs_lba. rewrite Ecl, Ech, Edh.
  replace (cylinder `mod` 256 + 256 * (cylinder / 256)) with cylinder by lia.
  unfold sector. split_and!; try lia.
Qed.

(** What changes in a read: memory and the number of BIOS calls. *)
Definition after_read (s : boot) (m : gmap Z Z) (n : Z) : boot := set_calls n (set_mem m s).

(** The INT 13h call [n] for block [lba], with the registers it needs. *)
Definition int13_block (n drive spt heads lba : Z) : option (list Z) :=
  let cylinder := lba / spt / heads in
  int13_read n drive (u8 cylinder)
    (Z.lor (Z.land (u8 (Z.shiftr cylinder 2)) 0xC0) (Z.land (u8 (lba `mod` spt + 1)) 0x3F))
    (u8 ((lba / spt) `mod` heads)).

Lemma int13_block_delivers D drive spt heads n lba bs :
  disk_ok D drive spt heads → 0 ≤ lba < 1024 * heads * spt →
  int13_block n drive spt heads lba = Some bs → bs = D lba.
Proof.
  intros HD Hlba Hr.
  destruct (chs_roundtrip spt heads lba (disk_spt _ _ _ _ HD) (disk_heads _ _ _ _ HD) Hlba)
    as (H1 & H2 & H3 & H4 & H5).
  apply (disk_read _ _ _ _ HD) in Hr; [|done..]. by rewrite H5 in Hr.
Qed.

(** The calls of one [disk_read_sector]: read, and after a failure reset, three
    times at most. *)
Lemma disk_read_sector_calls lba segment offset s (Q : Z → boot → Prop) :
  let spt := g_sectors_per_track s in
  let heads := g_num_heads s in
  let block i := int13_block (bios_calls s + 2 * i) (g_drive s) spt heads (u32 lba) in
  0 < spt → 0 < heads →
  (∀ i bs, 0 ≤ i < 3 → block i = Some bs → (∀ j, 0 ≤ j < i → block j = None) →
     Q 0 (after_read s (store_bytes (mem s) (u16 segment * 16 + u16 offset) bs) (bios_calls s + 2 * i + 1))) →
  ((∀ j, 0 ≤ j < 3 → block j = None) → Q (-1) (after_read s (mem s) (bios_calls s + 6))) →
  wp (disk_read_sector lba segment offset) Q s.
Proof.
  intros spt heads block Hspt Hheads Hok Hfail.
  unfold disk_read_sector. wp_step. unfold lba_to_chs. do 4 wp_step. fold spt heads.
  destruct (Z.eqb_spec spt 0); [lia|]. destruct (Z.eqb_spec heads 0); [lia|]. cbn [orb]. wp_step. wp_step. wp_step.
  wp_step. apply (wp_mfor_ret_range (λ i s', s' = after_read s (mem s) (bios_calls s + 2 * i) ∧
                                             ∀ j, 0 ≤ j < i → block j = None)).
  - lia.
  - split; [rewrite Z.add_0_r; by destruct s|]. intros; lia.
  - intros i s1 Hi [-> Hprev]. do 4 wp_step.
    change (int13_read _ _ _ _ _) with (block i). destruct (block i) as [bs|] eqn:Hr; wp_steps.
    + by apply (Hok i bs).
    + split; [unfold after_read, set_calls; simpl; f_equal; lia|]. intros j Hj.
      destruct (decide (j = i)) as [->|]; [done|]. apply Hprev. lia.
  - intros s1 [-> Hall]. wp_step. by apply Hfail.
Qed.

(** A drive that never fails three reads in a row. *)
Definition reliable (drive spt heads : Z) : Prop :=
  ∀ n lba, 0 ≤ lba < 1024 * heads * spt →
  ∃ i, 0 ≤ i < 3 ∧ is_Some (int13_block (n + 2 * i) drive spt heads lba).

(** ** Bytes in memory *)

Lemma getw_store_bytes bs m a x :
  getw (store_bytes m a bs) x =
  if decide (a ≤ x < a + Z.of_nat (length bs)) then default 0 (bs !! Z.to_nat (x - a)) else getw m x.
Proof.
  revert m a. induction bs as [|b bs IH]; intros m a; simpl; [by rewrite decide_False by lia|].
  rewrite IH, getw_insert. destruct (decide (a = x)) as [->|].
  - decides. by rewrite Z.sub_diag.
  - destruct (decide (a ≤ x < a + Z.of_nat (S (length bs)))).
    + decides. by replace (Z.to_nat (x - a)) with (S (Z.to_nat (x - (a + 1)))) by lia.
    + by decides.
Qed.

(** Memory holds [bs] from [a] on. *)
Definition holds (m : gmap Z Z) (a : Z) (bs : list Z) : Prop :=
  ∀ i b, bs !! i = Some b → getw m (a + Z.of_nat i) = b.

Lemma holds_store m a bs : holds (store_bytes m a bs) a bs.
Proof.
  intros i b Hi. rewrite getw_store_bytes. apply lookup_lt_Some in Hi as Hlt. decides.
  replace (Z.to_nat (a + Z.of_nat i - a)) with i by lia. by rewrite Hi.
Qed.

Lemma holds_frame m m' a bs :
  (∀ x, a ≤ x < a + Z.of_nat (length bs) → getw m' x = getw m x) → holds m a bs → holds m' a bs.
Proof.
  intros Heq H i b Hi. apply lookup_lt_Some in Hi as Hlt. rewrite Heq by lia. by apply H.
Qed.

Lemma holds_app m a bs1 bs2 :
  holds m a bs1 → holds m (a + Z.of_nat (length bs1)) bs2 → holds m a (bs1 ++ bs2).
Proof.
  intros H1 H2 i b Hi. apply lookup_app_Some in Hi as [Hi|[Hle Hi]]; [by apply H1|].
  apply H2 in Hi. rewrite <- Hi. f_equal. lia.
Qed.

Lemma holds_take m a bs n : holds m a bs → holds m a (take n bs).
Proof. intros H i b Hi. apply H. by apply lookup_take_Some in Hi as [? _]. Qed.

(** C27. [disk_read_sector] on a disk whose geometry INT 13h can address: the call
    always returns.  Either the result is 0 and exactly the 512 bytes of block
    [lba] stand at [segment:offset], nothing else of memory having changed, or it
    is -1, memory is untouched (a call that fails stores nothing, as the interface
    [Bios] has it), and all three attempts have failed; on a drive that never fails
    three times in a row the result is 0. *)
Theorem disk_read_sector_correct D lba segment offset s :
  disk_ok D (g_drive s) (g_sectors_per_track s) (g_num_heads s) →
  0 ≤ lba < 1024 * g_num_heads s * g_sectors_per_track s →
  ∃ r s', disk_read_sector lba segment offset s = Some (r, s') ∧
    ((r = 0 ∧ ∃ n, s' = after_read s (store_bytes (mem s) (u16 segment * 16 + u16 offset) (D lba)) n) ∨
     (r = -1 ∧ s' = after_read s (mem s) (bios_calls s + 6) ∧
      ∀ i, 0 ≤ i < 3 →
        int13_block (bios_calls s + 2 * i) (g_drive s) (g_sectors_per_track s) (g_num_heads s) lba = None)) ∧
    (reliable (g_drive s) (g_sectors_per_track s) (g_num_heads s) → r = 0).
Proof.
  intros HD Hlba. pose proof (disk_spt _ _ _ _ HD) as Hspt. pose proof (disk_heads _ _ _ _ HD) as Hheads.
  apply wp_inv. apply disk_read_sector_calls; [lia|lia|..]; rewrite u32_small by nia.
  - intros i bs _ Hb _. apply (int13_block_delivers D) in Hb as ->; [|done..]. split; [|done]. left. eauto.
  - intros Hall. split; [by right|]. intros Hrel.
    destruct (Hrel (bios_calls s) lba Hlba) as (i & Hi & bs & Hb). by rewrite Hall in Hb.
Qed.

End disk.

(** ** A small disk

    A 1.44 MB floppy with a FAT12 volume: boot sector, one table of one sector, one
    directory sector with a volume label and the file KERNEL of 600 bytes in
    clusters 2 and 3.  Every third call to the BIOS fails. *)

Definition pad512 (l : list Z) : list Z := take 512 (l ++ replicate 512 0).
Definition demo_sector (lba : Z) : list Z :=
  if lba =? 0 then replicate 11 0 ++ [0; 2; 1; 1; 0; 1; 16; 0; 64; 11; 240; 1; 0]
  else if lba =? 1 then [0xF8; 0xFF; 0xFF; 3; 0xF0; 0xFF]
  else if lba =? 2 then cstr "NEILOS     " ++ 8 :: replicate 20 0
                        ++ cstr "KERNEL     " ++ 0x20 :: replicate 14 0 ++ [2; 0; 0x58; 2; 0; 0]
  else if lba =? 3 then replicate 512 7
  else if lba =? 4 then replicate 512 9
  else [].
Definition demo_disk (lba : Z) : list Z := pad512 (demo_sector lba).

#[local] Instance demo_bios : Bios := {
  int13_read n _ ch cl dh :=
    if n `mod` 3 =? 0 then None else Some (demo_disk (chs_lba 18 2 (reg_cylinder ch cl) dh (reg_sector cl)));
  int13_params _ := Some (18, 1)
}.

Definition zero_bpb : bpb := mkBpb 0 0 0 0 0 0 0.
Definition zero_derived : derived := mkDerived 0 0 0 0 0 0 0.
Definition demo_boot : boot := mkBoot ∅ [] 0 18 2 zero_bpb zero_derived 0.

Lemma pad512_ok l :
  Forall (λ b, 0 ≤ b < 256) l → length (pad512 l) = 512%nat ∧ Forall (λ b, 0 ≤ b < 256) (pad512 l).
Proof.
  intros Hl. split.
  - unfold pad512. rewrite length_take, length_app, length_replicate. lia.
  - apply Forall_take, Forall_app. split; [done|]. apply Forall_replicate. lia.
Qed.

Lemma demo_sector_bytes lba : Forall (λ b, 0 ≤ b < 256) (demo_sector lba).
Proof.
  unfold demo_sector. repeat case_match; try (apply Forall_replicate; lia); try done.
  all: apply (bool_decide_unpack _); vm_compute; exact I.
Qed.

Lemma demo_disk_ok : disk_ok demo_disk 0 18 2.
Proof.
  split; [lia|lia|intros lba; apply pad512_ok, demo_sector_bytes|].
  intros n ch cl dh bs _ _ _ _ Hr. unfold int13_read, demo_bios in Hr. destruct (_ =? 0); [done|].
  by injection Hr as <-.
Qed.

Lemma demo_reliable : reliable 0 18 2.
Proof.
  intros n lba _. destruct (decide (n `mod` 3 = 0)) as [H0|H0].
  - exists 1. split; [lia|]. unfold int13_block, int13_read, demo_bios.
    destruct (Z.eqb_spec ((n + 2 * 1) `mod` 3) 0) as [E|]; [|done].
    exfalso. revert E. rewrite <- Zplus_mod_idemp_l, H0. done.
  - exists 0. split; [lia|]. unfold int13_block, int13_read, demo_bios.
    destruct (Z.eqb_spec ((n + 2 * 0) `mod` 3) 0) as [E|]; [|done].
    rewrite Z.add_0_r in E. done.
Qed.

(** Block 3 of the disk is read to 0x9000. *)
Lemma disk_read_sector_witness :
  disk_ok demo_disk 0 18 2 ∧ reliable 0 18 2 ∧
  ∃ s' n, disk_read_sector 3 0x900 0 demo_boot = Some (0, s') ∧
          s' = after_read demo_boot (store_bytes ∅ 0x9000 (demo_disk 3)) n.
Proof.
  split; [exact demo_disk_ok|]. split; [exact demo_reliable|].
  destruct (disk_read_sector_correct demo_disk 3 0x900 0 demo_boot demo_disk_ok ltac:(simpl; lia))
    as (r & s' & E & Hres & Hrel).
  rewrite (Hrel demo_reliable) in E, Hres. exists s'. destruct Hres as [[_ [n Hs]]|[? _]]; [|done].
  exists n. split; [exact E|exact Hs].
Defined.

End Stage2.
