(* ===== verification/Print.v ===== *)
(** * The loader's formatted output (src/boot/stage2/lib/print.c)

    What [printf] sends to the BIOS teletype for every format string and argument
    list, and what it returns. *)

From S2P Require Import Prelude Vga Boot.
Import Stage2.

Module Print.

(** ** The text of a format string *)

(** A line feed goes out with a carriage return before it. *)
Definition tty_char (c : Z) : list Z := if decide (c = 10) then [13; 10] else [u8 c].
Definition tty_text (cs : list Z) : list Z := cs ≫= tty_char.

(** A number in a base, and how many of the numbers printed are zero. *)
Definition number (base v : Z) : list Z := Vga.digit_char <$> Vga.numeral base v.
Definition zeros (v : Z) : Z := if decide (v = 0) then 1 else 0.

(** The characters a conversion stands for, the zeros among its numbers, and the
    arguments left. *)
Definition conversion (f : Z) (args : list Vga.va_arg) : option (list Z * Z * list Vga.va_arg) :=
  if decide (f = 37) then Some ([37], 0, args)
  else if decide (f = 99) then
    match args with Vga.VWord w :: args => Some ([w], 0, args) | _ => None end
  else if decide (f = 115) then
    match args with Vga.VStr p :: args => Some (default (cstr "(null)") p, 0, args) | _ => None end
  else if decide (f = 100 ∨ f = 105) then
    match args with Vga.VWord w :: args => Some (Vga.signed_chars (i32 w), zeros (i32 w), args) | _ => None end
  else if decide (f = 117) then
    match args with Vga.VWord w :: args => Some (number 10 (u32 w), zeros (u32 w), args) | _ => None end
  else if decide (f = 120) then
    match args with Vga.VWord w :: args => Some (number 16 (u32 w), zeros (u32 w), args) | _ => None end
  else Some ([37; f], 0, args).

Fixpoint printf_text (fmt : list Z) (args : list Vga.va_arg) : option (list Z * Z) :=
  match fmt with
  | [] => Some ([], 0)
  | c :: fmt =>
      if decide (c = 37) then
        match fmt with
        | [] => Some ([], 0)
        | f :: fmt =>
            '(cs, z, args) ← conversion f args;
            '(cs', z') ← printf_text fmt args;
            Some (cs ++ cs', z + z')
        end
      else '(cs, z) ← printf_text fmt args; Some (c :: cs, z)
  end.

(** ** The output functions *)

(** [sent cs s]: [s] after sending [cs]. *)
Definition sent (cs : list Z) (s : boot) : boot := set_tty (reverse (tty_text cs) ++ tty s) s.

Lemma sent_nil s : sent [] s = s.
Proof. by destruct s. Qed.
Lemma sent_app cs cs' s : sent cs' (sent cs s) = sent (cs ++ cs') s.
Proof. unfold sent, tty_text. simpl. by rewrite bind_app, reverse_app, <- app_assoc. Qed.

Lemma putchar_sent c s : putchar c s = Some (u8 c, sent [c] s).
Proof.
  unfold putchar, bios_print_char, when, sent, tty_text, tty_char. simpl.
  assert (∀ x, u8 (u8 x) = u8 x) as Hu by (intros; apply u8_small, u8_range).
  destruct (Z.eqb_spec c 10) as [->|Hc]; [done|]. rewrite decide_False by done.
  unfold mbind, M_bind, modify. simpl. by rewrite Hu.
Qed.

Lemma put_count_sent c s : put_count c s = Some (1, sent [c] s).
Proof.
  unfold put_count, mbind, M_bind. rewrite putchar_sent. pose proof (u8_range c).
  by destruct (Z.leb_spec 0 (u8 c)); [|lia].
Qed.

Lemma put_all_sent cs s : put_all cs s = Some (Z.of_nat (length cs), sent cs s).
Proof.
  revert s. induction cs as [|c cs IH]; intros s; [by rewrite sent_nil|].
  cbn [put_all]. unfold mbind, M_bind. rewrite put_count_sent, IH, sent_app. unfold mret, M_ret.
  do 2 f_equal. cbn [length]. lia.
Qed.

(** The digits are those of the kernel's routine. *)
Lemma print_digits_same fuel v base buf s s' l :
  Vga.print_digits fuel v base buf s = Some (l, s) → print_digits fuel v base buf s' = Some (l, s').
Proof.
  revert v buf. induction fuel as [|fuel IH]; intros v buf; cbn [print_digits Vga.print_digits].
  - destruct (v =? 0); [|done]. by intros [= ->].
  - destruct (v =? 0); [by intros [= ->]|]. destruct (16 <=? _); [done|]. destruct (base =? 0); [done|].
    unfold mbind, M_bind, lift. destruct (aget Vga.digits (v `mod` base)); [apply IH|done].
Qed.

(** A number counts its digits, but a zero counts 48: the value of the character. *)
Definition count (cs : list Z) (z : Z) : Z := Z.of_nat (length cs) + 47 * z.

Lemma count_0 cs : count cs 0 = Z.of_nat (length cs).
Proof. unfold count. lia. Qed.

Lemma print_unsigned_sent v base s :
  base = 10 ∨ base = 16 → 0 ≤ v < 2 ^ 32 →
  print_unsigned v base s = Some (count (number base v) (zeros v), sent (number base v) s).
Proof.
  intros Hb Hv. unfold print_unsigned, count, zeros, number, Vga.numeral.
  destruct (Z.eqb_spec v 0) as [->|H0]; [rewrite !decide_True by done|rewrite !decide_False by done].
  - by rewrite putchar_sent.
  - pose proof (Vga.max_digits_enough base v Hb Hv) as Hm.
    assert (Vga.max_digits base ≤ 10)%nat as Hle by (unfold Vga.max_digits; case_decide; lia).
    replace 32%nat with (Vga.max_digits base + (32 - Vga.max_digits base))%nat by lia.
    rewrite Vga.numeral_rev_more by lia. unfold mbind, M_bind.
    rewrite (print_digits_same 17 v base [] Vga.zero_vga s (Vga.digit_char <$> Vga.numeral_rev (Vga.max_digits base) base v))
      by (apply (Vga.print_digits_spec 17 (Vga.max_digits base)); simpl; lia).
    rewrite put_all_sent, fmap_reverse, !length_reverse. do 2 f_equal. lia.
Qed.

Lemma print_signed_sent v s :
  - 2 ^ 31 ≤ v < 2 ^ 31 →
  print_signed v s = Some (count (Vga.signed_chars v) (zeros v), sent (Vga.signed_chars v) s).
Proof.
  intros Hv. unfold print_signed, Vga.signed_chars.
  destruct (Z.ltb_spec v 0); [rewrite decide_True by lia|rewrite decide_False by lia].
  - unfold mbind, M_bind. rewrite put_count_sent, (u32_small (- (v + 1))), u32_small by lia.
    replace (- (v + 1) + 1) with (- v) by lia. rewrite print_unsigned_sent by (auto || lia).
    rewrite sent_app. unfold mret, M_ret, count, zeros. rewrite !decide_False by lia.
    do 2 f_equal. unfold number. cbn [length]. lia.
  - rewrite u32_small by lia. apply print_unsigned_sent; [by left|lia].
Qed.

(** One test of the conversion character, and one argument taken. *)
Ltac test_char P b :=
  let H := fresh in destruct b eqn:H; [rewrite (decide_True (P := P)) by lia|rewrite (decide_False (P := P)) by lia].
Ltac take_arg args :=
  destruct args as [|[?|?] args]; try done; intros [= <- <- <-]; cbv beta iota delta [mret M_ret].

Lemma conversion_sent f args cs z args' s :
  conversion f args = Some (cs, z, args') →
  print_conversion f args s = Some ((count cs z, args'), sent cs s).
Proof.
  unfold conversion, print_conversion, va_word, va_string, mbind, M_bind.
  test_char (f = 37) (f =? 37); [intros [= <- <- <-]; by rewrite put_count_sent|].
  test_char (f = 99) (f =? 99).
  { take_arg args. by rewrite put_count_sent. }
  test_char (f = 115) (f =? 115).
  { take_arg args. by rewrite put_all_sent, count_0. }
  test_char (f = 100 ∨ f = 105) ((f =? 100) || (f =? 105)).
  { take_arg args. by rewrite print_signed_sent by apply Vga.i32_range. }
  test_char (f = 117) (f =? 117).
  { take_arg args. by rewrite print_unsigned_sent by (auto || apply u32_range). }
  test_char (f = 120) (f =? 120).
  { take_arg args. by rewrite print_unsigned_sent by (auto || apply u32_range). }
  intros [= <- <- <-]. by rewrite !put_count_sent, sent_app.
Qed.

Lemma count_app cs cs' z z' : count (cs ++ cs') (z + z') = count cs z + count cs' z'.
Proof. unfold count. rewrite length_app. lia. Qed.

Lemma vprintf_sent fmt args cnt cs z s :
  printf_text fmt args = Some (cs, z) →
  vprintf_loop fmt args cnt s = Some (cnt + count cs z, sent cs s).
Proof.
  remember (length fmt) as n eqn:Hn. revert fmt args cnt cs z s Hn.
  induction n as [n IH] using lt_wf_ind. intros fmt args cnt cs z s Hn.
  destruct fmt as [|c fmt]; cbn [printf_text vprintf_loop].
  { intros [= <- <-]. rewrite sent_nil. unfold count. simpl. unfold mret, M_ret. do 2 f_equal. lia. }
  simpl in Hn. destruct (Z.eqb_spec c 37); [rewrite decide_True by done|rewrite decide_False by done].
  - destruct fmt as [|f fmt].
    { intros [= <- <-]. rewrite sent_nil. unfold count. simpl. unfold mret, M_ret. do 2 f_equal. lia. }
    destruct (conversion f args) as [[[cs1 z1] args1]|] eqn:Hc; [|done]. simpl.
    destruct (printf_text fmt args1) as [[cs2 z2]|] eqn:Hf; [|done]. intros [= <- <-].
    unfold mbind, M_bind. rewrite (conversion_sent f args cs1 z1 args1 s Hc).
    rewrite (IH (length fmt) ltac:(simpl in Hn; lia) fmt args1 _ cs2 z2 _ eq_refl Hf), sent_app, count_app.
    by rewrite Z.add_assoc.
  - destruct (printf_text fmt args) as [[cs2 z2]|] eqn:Hf; [|done]. intros [= <- <-].
    unfold mbind, M_bind. rewrite put_count_sent.
    rewrite (IH (length fmt) ltac:(lia) fmt args _ cs2 z2 _ eq_refl Hf), sent_app.
    change (c :: cs2) with ([c] ++ cs2). change z2 with (0 + z2) at 2. rewrite count_app, count_0.
    simpl length. by rewrite Z.add_assoc.
Qed.

(** C35. [printf] of the loader: for every format string whose conversions find
    arguments of their kind, exactly the text it stands for goes to the teletype, with a
    carriage return before each line feed, and nothing else changes; the result is
    the number of characters of the text, except that each number that is zero counts
    48 instead of 1 ([print_unsigned] returns what [putchar] returns for it). *)
Theorem printf_correct fmt args cs z s :
  printf_text fmt args = Some (cs, z) →
  printf fmt args s
  = Some (Z.of_nat (length cs) + 47 * z, set_tty (reverse (tty_text cs) ++ tty s) s).
Proof. intros Ht. exact (vprintf_sent fmt args 0 cs z s Ht). Qed.

(** A line with a string, a negative number, a hexadecimal number and a zero. *)
Lemma printf_correct_witness :
  printf (cstr "%s=%d 0x%x %u\n") [Vga.VStr (Some (cstr "lba")); Vga.VWord 0xFFFFFFFB; Vga.VWord 255; Vga.VWord 0]
    (mkBoot ∅ [] 0 0 0 (mkBpb 0 0 0 0 0 0 0) (mkDerived 0 0 0 0 0 0 0) 0)
  = Some (14 + 47, mkBoot ∅ (reverse (cstr "lba=-5 0xff 0\r\n")) 0 0 0 (mkBpb 0 0 0 0 0 0 0) (mkDerived 0 0 0 0 0 0 0) 0).
Proof.
  rewrite (printf_correct _ _ (cstr "lba=-5 0xff 0\n") 1) by (vm_compute; reflexivity).
  vm_compute. reflexivity.
Defined.

End Print.
