(* ===== verification/Fat.v ===== *)
(** * The FAT12 reader of the second-stage loader (src/boot/stage2/stage2.c)

    What the functions of [Boot.Stage2] compute: the decoding of the file
    allocation table, the search of the root directory and the loading of a file,
    each against a definition of the FAT12 format on the bytes of the disk. *)

From S2P Require Import Prelude Vga Boot.

Module Fat.
Import Lib Stage2.

Section fat.
Context {bios : Bios}.

(** ** The file allocation table *)

(** The FAT12 encoding: two entries of 12 bits in three bytes. *)
Fixpoint pack12 (entries : list Z) : list Z :=
  match entries with
  | [] => []
  | [a] => [a `mod` 256; a / 256]
  | a :: b :: entries => a `mod` 256 :: a / 256 + 16 * (b `mod` 16) :: b / 16 :: pack12 entries
  end.

(** The two bytes that hold entry [c]. *)
Lemma pack12_entry n entries c v :
  (length entries ≤ n)%nat → Forall (λ v, 0 ≤ v < 4096) entries → entries !! c = Some v →
  ∃ lo hi, pack12 entries !! (c + Nat.div2 c)%nat = Some lo ∧ pack12 entries !! (c + Nat.div2 c + 1)%nat = Some hi ∧
    if Nat.even c then lo = v `mod` 256 ∧ ∃ k, hi = v / 256 + 16 * k
    else (∃ k, 0 ≤ k < 16 ∧ lo = k + 16 * (v `mod` 16)) ∧ hi = v / 16.
Proof.
  revert entries c. induction n as [|n IH]; intros [|a [|b entries]] c Hn Hall Hc; simpl in Hn; try lia; try done.
  - destruct c; [|done]. injection Hc as <-. simpl. eexists _, _. split; [done|]. split; [done|].
    split; [done|]. exists 0. lia.
  - destruct c as [|[|c]].
    + injection Hc as <-. simpl. eexists _, _. split; [done|]. split; [done|]. eauto.
    + injection Hc as <-. simpl. eexists _, _. split; [done|]. split; [done|]. split; [|done].
      exists (a / 256). apply Forall_cons in Hall as [Ha _]. split; [|done].
      split; [apply Z.div_pos; lia|apply Z.div_lt_upper_bound; lia].
    + apply Forall_cons in Hall as [_ Hall]. apply Forall_cons in Hall as [_ Hall].
      destruct (IH entries c) as (lo & hi & H1 & H2 & H3); [lia|done|done|]. exists lo, hi.
      change (Nat.div2 (S (S c))) with (S (Nat.div2 c)).
      replace (S (S c) + S (Nat.div2 c))%nat with (3 + (c + Nat.div2 c))%nat by lia.
      by change (Nat.even (S (S c))) with (Nat.even c).
Qed.

(** What the two branches of [fat12_next_cluster] compute. *)
Lemma decode12_even v k :
  0 ≤ v < 4096 →
  Z.land (Z.lor (v `mod` 256) (Z.shiftl (Z.land (v / 256 + 16 * k) 0x0F) 8)) 0x0FFF = v.
Proof.
  intros Hv. change 0x0F with (2 ^ 4 - 1). change 0x0FFF with (2 ^ 12 - 1). rewrite !land_ones_mod by lia.
  change (2 ^ 4) with 16. rewrite Z.mul_comm, Z_mod_plus_full.
  pose proof (Z.div_mod v 256 ltac:(lia)). pose proof (Z.mod_pos_bound v 256 ltac:(lia)).
  rewrite (Z.mod_small (v / 256)) by (split; [apply Z.div_pos|apply Z.div_lt_upper_bound]; lia).
  rewrite lor_shiftl by lia. rewrite Z.mod_small; lia.
Qed.

Lemma decode12_odd v k :
  0 ≤ v < 4096 → 0 ≤ k < 16 →
  Z.land (Z.lor (Z.shiftr (k + 16 * (v `mod` 16)) 4) (Z.shiftl (v / 16) 4)) 0x0FFF = v.
Proof.
  intros Hv Hk. change 0x0FFF with (2 ^ 12 - 1). rewrite land_ones_mod by lia.
  pose proof (Z.div_mod v 16 ltac:(lia)). pose proof (Z.mod_pos_bound v 16 ltac:(lia)).
  rewrite Z.shiftr_div_pow2 by lia. change (2 ^ 4) with 16.
  rewrite (Z.mul_comm 16 (v `mod` 16)), Z.div_add, (Z.div_small k) by lia.
  rewrite lor_shiftl by lia. rewrite Z.mod_small; lia.
Qed.

Lemma land_1_even c : negb (Z.land (Z.of_nat c) 1 =? 0) = negb (Nat.even c).
Proof.
  change 1 with (2 ^ 1 - 1). rewrite land_ones_mod by lia. f_equal. apply eq_true_iff_eq.
  rewrite Z.eqb_eq, Nat.even_spec. split.
  - intros H. exists (c / 2)%nat. pose proof (Z.div_mod (Z.of_nat c) 2 ltac:(lia)) as E.
    change (2 ^ 1) with 2 in H. rewrite H in E. change 2 with (Z.of_nat 2) in E. rewrite <- Nat2Z.inj_div in E. lia.
  - intros [k ->]. rewrite Nat2Z.inj_mul, Z.mul_comm. apply Z_mod_mult.
Qed.

Lemma next_cluster_spec entries fat c v s :
  Forall (λ v, 0 ≤ v < 4096) entries → (length entries ≤ 4096)%nat → entries !! c = Some v →
  fat ≤ 0xE000 → holds (mem s) (current_ds * 16 + fat) (pack12 entries) →
  fat12_next_cluster fat (Z.of_nat c) s = Some (v, s).
Proof.
  intros Hall Hlen Hc Hfat Hmem. apply lookup_lt_Some in Hc as Hlt.
  destruct (pack12_entry (length entries) entries c v ltac:(lia) Hall Hc) as (lo & hi & H1 & H2 & H3).
  assert (0 ≤ v < 4096) as Hv by (rewrite Forall_lookup in Hall; by eapply Hall).
  apply Hmem in H1, H2. unfold fat12_next_cluster. unfold mbind, M_bind, gets. cbv beta iota zeta.
  rewrite land_1_even. assert (Z.of_nat c / 2 = Z.of_nat (Nat.div2 c)) as Ediv by (rewrite Nat.div2_div, Nat2Z.inj_div; done).
  assert (Nat.div2 c ≤ c)%nat by (apply Nat.div2_decr; lia).
  rewrite Ediv. rewrite (u16_small (Z.of_nat c + _)) by (revert H; generalize (Nat.div2 c); lia).
  destruct (Z.leb_spec 0x10000 (fat + (Z.of_nat c + Z.of_nat (Nat.div2 c)) + 1)) as [Hbad|_];
    [revert Hbad H; generalize (Nat.div2 c); lia|].
  rewrite <- Nat2Z.inj_add, H1.
  replace (Z.of_nat (c + Nat.div2 c + 1)) with (Z.of_nat (c + Nat.div2 c) + 1) in H2 by lia.
  rewrite Z.add_assoc in H2. rewrite H2.
  assert (∀ w, w = v → Some (u16 w, s) = Some (v, s)) as Hfin by (intros w ->; by rewrite u16_small by lia).
  apply Hfin. destruct (Nat.even c); simpl negb; cbv iota.
  - destruct H3 as [-> [k ->]]. by apply decode12_even.
  - destruct H3 as [[k [Hk ->]] ->]. by apply decode12_odd.
Qed.

(** [fat12_next_cluster] decodes what the FAT12 encoding packs: with the
    packed table in memory at [fat] (low enough in its segment), the result for any cluster of the table is
    its 12-bit entry, and nothing changes. *)
Theorem fat12_next_cluster_roundtrip entries fat c v s :
  Forall (λ v, 0 ≤ v < 4096) entries → (length entries ≤ 4096)%nat → entries !! c = Some v →
  fat ≤ 0xE000 → holds (mem s) (current_ds * 16 + fat) (pack12 entries) →
  fat12_next_cluster fat (Z.of_nat c) s = Some (v, s).
Proof. apply next_cluster_spec. Qed.

(** ** The root directory *)

(** A disk that can be read, as the loader has set it up. *)
Record mounted (D : Z → list Z) (s : boot) : Prop := {
  mounted_disk : disk_ok D (g_drive s) (g_sectors_per_track s) (g_num_heads s);
  mounted_reliable : reliable (g_drive s) (g_sectors_per_track s) (g_num_heads s)
}.

(** The number of blocks INT 13h can address. *)
Definition capacity (s : boot) : Z := 1024 * g_num_heads s * g_sectors_per_track s.

Lemma wp_disk_read_sector D lba segment offset s (Q : Z → boot → Prop) :
  mounted D s → 0 ≤ lba < capacity s →
  (∀ n, Q 0 (after_read s (store_bytes (mem s) (u16 segment * 16 + u16 offset) (D lba)) n)) →
  wp (disk_read_sector lba segment offset) Q s.
Proof.
  intros [HD Hrel] Hlba HQ. pose proof (disk_spt _ _ _ _ HD). pose proof (disk_heads _ _ _ _ HD).
  unfold capacity in Hlba.
  apply disk_read_sector_calls; [lia|lia|..]; rewrite u32_small by nia.
  - intros i bs _ Hb _. by apply (int13_block_delivers D) in Hb as ->.
  - intros Hall. destruct (Hrel (bios_calls s) lba Hlba) as (i & Hi & bs & Hb). by rewrite Hall in Hb.
Qed.

(** An entry as the file system defines it. *)
Definition byte (b : list Z) (i : nat) : Z := default 0 (b !! i).
Definition parse_entry (b : list Z) : DirEntry :=
  mkDirEntry (take 8 b) (take 3 (drop 8 b)) (byte b 11) (byte b 26 + 256 * byte b 27)
    (byte b 28 + 256 * byte b 29 + 65536 * byte b 30 + 16777216 * byte b 31).

(** The 16 entries of a sector, and the directory in [n] sectors from [first] on. *)
Definition entry_in (bs : list Z) (j : Z) : DirEntry := parse_entry (take 32 (drop (Z.to_nat (32 * j)) bs)).
Definition sector_entries (bs : list Z) : list DirEntry := entry_in bs <$> range 0 16.
Definition root_directory (D : Z → list Z) (first n : Z) : list DirEntry :=
  i ← range 0 n; sector_entries (D (first + i)).

(** The entries before the end mark; files are neither deleted, nor part of a long
    name, nor directories or volume labels. *)
Fixpoint live (dir : list DirEntry) : list DirEntry :=
  match dir with
  | [] => []
  | e :: dir => if byte (name e) 0 =? 0 then [] else e :: live dir
  end.
Definition is_file (e : DirEntry) : bool :=
  negb (byte (name e) 0 =? 0xE5) && negb (attribute e =? 0x0F)
  && negb (Z.testbit (attribute e) 4) && negb (Z.testbit (attribute e) 3).
Definition lookup_file (name83 : list Z) (dir : list DirEntry) : option DirEntry :=
  List.find (λ e, is_file e && bool_decide (name e ++ ext e = name83)) (live dir).

(** One turn of the scan, as a function. *)
Definition scan (name83 : list Z) (e : DirEntry) : option (option DirEntry) :=
  if byte (name e) 0 =? 0 then Some None
  else if is_file e && bool_decide (name e ++ ext e = name83) then Some (Some e) else None.

Lemma land_bit a k : 0 ≤ k < 32 → negb (Z.land a (2 ^ k) =? 0) = Z.testbit a k.
Proof. intros Hk. rewrite <- u32_bit by done. by apply test_bit_spec. Qed.

Lemma scan_entry_spec name83 e :
  length name83 = 11%nat → length (name e) = 8%nat → length (ext e) = 3%nat →
  scan_entry name83 e = Some (scan name83 e).
Proof.
  intros Hl Hn He. unfold scan_entry, scan, is_file.
  assert (aget (name e) 0 = Some (byte (name e) 0)) as ->.
  { destruct (aget_is_Some (name e) 0) as [c Hc]; [lia|]. rewrite Hc. f_equal.
    apply aget_Some in Hc as [_ Hc]. change (Z.to_nat 0) with O in Hc. unfold byte. by rewrite Hc. }
  cbn [mbind option_bind]. change 0x10 with (2 ^ 4). change 0x08 with (2 ^ 3). rewrite !land_bit by lia.
  destruct (byte (name e) 0 =? 0); [done|]. destruct (byte (name e) 0 =? 229); [done|].
  destruct (attribute e =? 15); [done|]. destruct (Z.testbit (attribute e) 4); [done|].
  destruct (Z.testbit (attribute e) 3); [done|]. cbn [negb orb andb].
  destruct (memcmp_eq 8 (name e) name83) as (r1 & -> & H1); [lia|lia|].
  destruct (memcmp_eq 3 (ext e) (drop 8 name83)) as (r2 & -> & H2); [lia|rewrite length_drop; lia|].
  cbn [mbind option_bind]. f_equal. assert ((r1 =? 0) && (r2 =? 0) = bool_decide (name e ++ ext e = name83)) as ->; [|done].
  apply eq_true_iff_eq. rewrite andb_true_iff, !Z.eqb_eq, bool_decide_eq_true, H1, H2.
  rewrite (take_ge (name e)), (take_ge (ext e)), (take_ge (drop 8 name83)) by (rewrite ?length_drop; lia).
  split.
  - intros [-> ->]. by rewrite take_drop.
  - intros <-. rewrite take_app_length', drop_app_length' by done. done.
Qed.

(** The first answer along a list, and the loops that look for it. *)
Fixpoint first_some {A B} (f : A → option B) (l : list A) : option B :=
  match l with
  | [] => None
  | x :: l => match f x with Some r => Some r | None => first_some f l end
  end.

Lemma first_some_app {A B} (f : A → option B) l1 l2 :
  first_some f (l1 ++ l2) = match first_some f l1 with Some r => Some r | None => first_some f l2 end.
Proof. induction l1 as [|x l1 IH]; simpl; [done|]. by destruct (f x). Qed.

Lemma mfor_ret_first {S X R} (l : list X) (body : X → M S (option R)) (f : X → option R) s :
  (∀ x, x ∈ l → body x s = Some (f x, s)) → mfor_ret l body s = Some (first_some f l, s).
Proof.
  induction l as [|x l IH]; intros H; simpl; [done|].
  unfold mbind, M_bind. rewrite H by left. destruct (f x); [done|]. apply IH. intros y Hy. apply H. by right.
Qed.

Lemma first_some_fmap {A B C} (g : A → B) (f : B → option C) l :
  first_some f (g <$> l) = first_some (λ x, f (g x)) l.
Proof. induction l as [|x l IH]; [done|]. rewrite fmap_cons. simpl. destruct (f (g x)); [done|]. apply IH. Qed.

Lemma first_scan name83 dir : default None (first_some (scan name83) dir) = lookup_file name83 dir.
Proof.
  unfold lookup_file. induction dir as [|e dir IH]; simpl; [done|].
  destruct (byte (name e) 0 =? 0) eqn:E0; simpl; unfold scan at 1; rewrite E0; [done|].
  by destruct (is_file e && _).
Qed.

(** Bytes the loader reads through a near pointer. *)
Lemma near_holds s off n bs :
  holds (mem s) (current_ds * 16 + off) bs → 0 ≤ n → n ≤ Z.of_nat (length bs) →
  near s off n = take (Z.to_nat n) bs.
Proof.
  intros H Hn Hl. apply list_eq. intros i. unfold near, range. rewrite list_lookup_fmap.
  destruct (decide (Z.of_nat i < n)).
  - rewrite lookup_take_lt by lia. destruct (lookup_lt_is_Some_2 bs i) as [b Hb]; [lia|].
    rewrite Hb. rewrite (lookup_seqZ_lt 0 _ i) by lia. simpl. f_equal. by apply H.
  - rewrite lookup_take_ge by lia. by rewrite lookup_seqZ_ge by lia.
Qed.

Lemma holds_drop m a bs k : holds m a bs → holds m (a + Z.of_nat k) (drop k bs).
Proof.
  intros H i b Hi. rewrite lookup_drop in Hi. apply H in Hi. rewrite <- Hi. f_equal. lia.
Qed.

Lemma byte_range b i : Forall (λ x, 0 ≤ x < 256) b → 0 ≤ byte b i < 256.
Proof. intros H. unfold byte. destruct (b !! i) eqn:E; simpl; [|lia]. rewrite Forall_lookup in H. eauto. Qed.

Lemma dir_entry_spec b :
  length b = 32%nat → Forall (λ x, 0 ≤ x < 256) b → dir_entry b = Some (parse_entry b).
Proof.
  intros Hl Hb. pose proof (λ i, byte_range b i Hb) as Hr. unfold parse_entry.
  do 32 (destruct b as [|? b]; [done|]). destruct b; [|done]. clear Hb Hl.
  pose proof (Hr 26%nat) as H26. pose proof (Hr 27%nat) as H27. pose proof (Hr 28%nat) as H28.
  pose proof (Hr 29%nat) as H29. pose proof (Hr 30%nat) as H30. pose proof (Hr 31%nat) as H31. clear Hr.
  unfold byte in *. simpl in *. unfold dir_entry. cbn [drop].
  rewrite read_le16_value, read_le32_value by done. done.
Qed.

(** One entry of the sector in the directory buffer. *)
Lemma near_entry_in bs s j :
  length bs = 512%nat → holds (mem s) (current_ds * 16 + ROOT_DIR_SEG) bs → 0 ≤ j < 16 →
  near s (ROOT_DIR_SEG + 32 * j) 32 = take 32 (drop (Z.to_nat (32 * j)) bs).
Proof.
  intros Hl Hm Hj. apply (holds_drop _ _ _ (Z.to_nat (32 * j))) in Hm.
  apply (near_holds s _ 32); [|lia|rewrite length_drop; lia]. revert Hm.
  by replace (current_ds * 16 + ROOT_DIR_SEG + Z.of_nat (Z.to_nat (32 * j)))
    with (current_ds * 16 + (ROOT_DIR_SEG + 32 * j)) by lia.
Qed.

Lemma read_near_entry s j (Q : list Z → boot → Prop) :
  0 ≤ j < 16 → Q (near s (ROOT_DIR_SEG + 32 * j) 32) s → wp (read_near (ROOT_DIR_SEG + 32 * j) 32) Q s.
Proof.
  intros Hj HQ. unfold read_near. destruct (Z.leb_spec (ROOT_DIR_SEG + 32 * j + 32) 0x10000) as [_|Hbad];
    [by wp_step|unfold ROOT_DIR_SEG in Hbad; lia].
Qed.

Lemma scan_turn name83 bs s j :
  length name83 = 11%nat → length bs = 512%nat → Forall (λ x, 0 ≤ x < 256) bs →
  holds (mem s) (current_ds * 16 + ROOT_DIR_SEG) bs → 0 ≤ j < 16 →
  wp (b ← read_near (ROOT_DIR_SEG + 32 * j) 32; e ← lift (dir_entry b); lift (scan_entry name83 e))
    (λ r s', r = scan name83 (entry_in bs j) ∧ s' = s) s.
Proof.
  intros Hn Hl Hb Hm Hj. wp_step. apply read_near_entry; [done|]. rewrite (near_entry_in bs s j Hl Hm Hj).
  unfold entry_in. set (b := take 32 _).
  assert (length b = 32%nat) as Hlb by (unfold b; rewrite length_take, length_drop; lia).
  assert (Forall (λ x, 0 ≤ x < 256) b) as Hfb by (unfold b; by apply Forall_take, Forall_drop).
  clearbody b. wp_step. eapply wp_lift; [by apply dir_entry_spec|].
  eapply wp_lift; [apply scan_entry_spec; [done|..]|done].
  all: unfold parse_entry; cbn [name ext]; rewrite ?length_take, ?length_drop; lia.
Qed.

(** The scan of one sector that stands in the buffer. *)
Lemma scan_sector name83 bs s :
  length name83 = 11%nat → length bs = 512%nat → Forall (λ x, 0 ≤ x < 256) bs →
  holds (mem s) (current_ds * 16 + ROOT_DIR_SEG) bs →
  mfor_ret (range 0 16) (λ j,
    b ← read_near (ROOT_DIR_SEG + 32 * j) 32;
    e ← lift (dir_entry b);
    lift (scan_entry name83 e)) s
  = Some (first_some (scan name83) (sector_entries bs), s).
Proof.
  intros Hn Hl Hb Hm. unfold sector_entries. rewrite first_some_fmap. apply mfor_ret_first.
  intros j Hj%elem_of_seqZ.
  destruct (proj1 (wp_inv _ _ _) (scan_turn name83 bs s j Hn Hl Hb Hm ltac:(lia))) as (r & s' & E & -> & ->). done.
Qed.

(** Memory outside the directory buffer is as in [s]. *)
Definition outside_buffer (m m' : gmap Z Z) : Prop :=
  ∀ x, ¬ (0x8400 ≤ x < 0x8600) → getw m' x = getw m x.

Lemma root_directory_snoc D first n :
  0 ≤ n → root_directory D first (n + 1) = root_directory D first n ++ sector_entries (D (first + n)).
Proof.
  intros Hn. unfold root_directory, range. replace (n + 1 - 0) with ((n - 0) + 1) by lia.
  rewrite seqZ_app by lia. rewrite bind_app. f_equal. replace (0 + (n - 0)) with n by lia.
  rewrite seqZ_cons, seqZ_nil by lia. apply app_nil_r.
Qed.

Lemma root_directory_prefix D first i n :
  0 ≤ i ≤ n → ∃ rest, root_directory D first n = root_directory D first i ++ rest.
Proof.
  intros Hi. eexists. unfold root_directory, range. replace (n - 0) with ((i - 0) + (n - i)) by lia.
  rewrite seqZ_app by lia. by rewrite bind_app.
Qed.

(** The root directory lies on the disk and its sectors have 512 bytes. *)
Record root_ok (s : boot) : Prop := {
  root_bps : g_bytes_per_sector (fs s) = 512;
  root_first : 0 ≤ g_first_root_dir_sector (fsd s);
  root_count : 0 ≤ g_root_dir_sectors (fsd s);
  root_fits : g_first_root_dir_sector (fsd s) + g_root_dir_sectors (fsd s) ≤ capacity s
}.

Definition found (e : DirEntry) : Z * Z := (firstCluster e, fileSize e).

Lemma fat_find_file_spec D name83 s :
  mounted D s → root_ok s → length name83 = 11%nat →
  wp (fat_find_file name83) (λ r s',
    r = found <$> lookup_file name83
          (root_directory D (g_first_root_dir_sector (fsd s)) (g_root_dir_sectors (fsd s))) ∧
    ∃ m n, s' = after_read s m n ∧ outside_buffer (mem s) m) s.
Proof.
  intros HD [Hbps Hfirst Hcount Hfits] Hname. unfold fat_find_file. wp_step. wp_step. wp_step.
  set (first := g_first_root_dir_sector (fsd s)) in *. set (count := g_root_dir_sectors (fsd s)) in *.
  apply (wp_mfor_ret_range (λ i s', first_some (scan name83) (root_directory D first i) = None ∧
                                    ∃ m n, s' = after_read s m n ∧ outside_buffer (mem s) m)).
  - done.
  - split; [done|]. exists (mem s), (bios_calls s). split; [by destruct s|done].
  - intros i s1 Hi (Hnone & m & n & -> & Hm). wp_step.
    apply (wp_disk_read_sector D); [by destruct HD|change (capacity (after_read s m n)) with (capacity s); lia|].
    intros n'. cbn [negb Z.eqb]. rewrite Hbps. change (512 / 32) with 16.
    change (u16 current_ds * 16 + u16 ROOT_DIR_SEG) with 0x8400.
    destruct (disk_bytes _ _ _ _ (mounted_disk _ _ HD) (first + i)) as [Hlen Hbytes].
    set (s2 := after_read _ _ _).
    eapply wp_eq; [apply (scan_sector name83 (D (first + i)) s2 Hname Hlen Hbytes), holds_store|].
    pose proof (root_directory_snoc D first i ltac:(lia)) as Hsnoc.
    assert (first_some (scan name83) (root_directory D first (i + 1))
            = first_some (scan name83) (sector_entries (D (first + i)))) as Hnext
      by (by rewrite Hsnoc, first_some_app, Hnone).
    assert (∃ m n, s2 = after_read s m n ∧ outside_buffer (mem s) m) as Hs2.
    { eexists _, n'. split; [done|]. intros x Hx. rewrite getw_store_bytes. simpl mem.
      rewrite Hlen. decides. by apply Hm. }
    destruct (first_some _ (sector_entries _)) as [r|] eqn:Er; [|by rewrite Hnext].
    wp_step. split; [|done]. rewrite <- first_scan.
    destruct (root_directory_prefix D first (i + 1) count ltac:(lia)) as [rest ->].
    rewrite first_some_app, Hnext. by destruct r.
  - intros s1 [Hnone Hs1]. wp_step. split; [|done]. by rewrite <- first_scan, Hnone.
Qed.

(** ** Loading a file *)

(** [n] consecutive blocks. *)
Fixpoint blocks (D : Z → list Z) (lba : Z) (n : nat) : list Z :=
  match n with
  | O => []
  | S n => D lba ++ blocks D (lba + 1) n
  end.

Lemma blocks_snoc D lba n : blocks D lba (S n) = blocks D lba n ++ D (lba + Z.of_nat n).
Proof.
  revert lba. induction n as [|n IH]; intros lba.
  - simpl. by rewrite app_nil_r, Z.add_0_r.
  - change (blocks D lba (S (S n))) with (D lba ++ blocks D (lba + 1) (S n)). rewrite IH.
    simpl. rewrite <- app_assoc. by replace (lba + 1 + Z.of_nat n) with (lba + Z.of_nat (S n)) by lia.
Qed.

Lemma blocks_length D lba n : (∀ l, length (D l) = 512%nat) → length (blocks D lba n) = (512 * n)%nat.
Proof.
  intros HD. revert lba. induction n as [|n IH]; intros lba; simpl; [done|].
  rewrite length_app, HD, IH. lia.
Qed.

(** [m'] agrees with [m] below [a]. *)
Definition same_below (a : Z) (m m' : gmap Z Z) : Prop := ∀ x, x < a → getw m' x = getw m x.

Lemma segment_offset linear :
  0 ≤ linear < 2 ^ 20 → u16 (u16 (Z.shiftr linear 4)) * 16 + u16 (u16 (Z.land linear 0xF)) = linear.
Proof.
  intros Hl. change 0xF with (2 ^ 4 - 1). rewrite land_ones_mod by lia. rewrite Z.shiftr_div_pow2 by lia.
  change (2 ^ 4) with 16. pose proof (Z.div_mod linear 16 ltac:(lia)).
  pose proof (Z.mod_pos_bound linear 16 ltac:(lia)).
  assert (0 ≤ linear / 16 < 65536) by (split; [apply Z.div_pos|apply Z.div_lt_upper_bound]; lia).
  rewrite !u16_small by (rewrite ?u16_small; lia). lia.
Qed.

Lemma capacity_bound D s : mounted D s → capacity s < 2 ^ 32.
Proof.
  intros [HD _]. pose proof (disk_spt _ _ _ _ HD). pose proof (disk_heads _ _ _ _ HD). unfold capacity. nia.
Qed.

(** Taking [chunk + t] bytes of a sector and what follows it. *)
Lemma take_sector (bs rest : list Z) R t :
  length bs = 512%nat → 0 ≤ R → t = Z.min (R - Z.min R 512) (Z.of_nat (length rest)) →
  take (Z.to_nat (Z.min R 512 + t)) (bs ++ rest)
  = take (Z.to_nat (Z.min R 512)) bs ++ take (Z.to_nat t) rest.
Proof.
  intros Hl HR ->. rewrite take_app. f_equal.
  - destruct (decide (R ≤ 512)); [f_equal; lia|]. rewrite !take_ge; [done|lia|lia].
  - destruct (decide (R ≤ 512)); [|f_equal; lia].
    replace (Z.to_nat _ - length bs)%nat with 0%nat by lia.
    by replace (Z.to_nat (Z.min (R - Z.min R 512) (Z.of_nat (length rest)))) with 0%nat by lia.
Qed.

Lemma load_cluster_spec D n lba linear R s :
  mounted D s → g_bytes_per_sector (fs s) = 512 →
  0 ≤ lba → lba + Z.of_nat n ≤ capacity s → 0 ≤ linear → 0 ≤ R → linear + R + 512 ≤ 2 ^ 20 →
  let t := Z.min R (512 * Z.of_nat n) in
  wp (load_cluster n lba linear R) (λ r s', r = Some (linear + t, R - t) ∧
    ∃ m k, s' = after_read s m k ∧ holds m linear (take (Z.to_nat t) (blocks D lba n)) ∧
           same_below linear (mem s) m) s.
Proof.
  revert lba linear R s. induction n as [|n IH]; intros lba linear R s HD Hbps Hlba Hcap Hlin HR Htop t.
  - simpl. wp_step. replace t with 0 by lia. split; [f_equal; f_equal; lia|].
    exists (mem s), (bios_calls s). split; [by destruct s|done].
  - cbn [load_cluster]. destruct (Z.eqb_spec R 0) as [->|HR0].
    { wp_step. replace t with 0 by lia. split; [f_equal; f_equal; lia|].
      exists (mem s), (bios_calls s). split; [by destruct s|done]. }
    wp_step. wp_step. rewrite Hbps. wp_step. pose proof (capacity_bound D s HD).
    apply (wp_disk_read_sector D); [done|lia|]. intros k. cbn [negb Z.eqb].
    rewrite segment_offset by lia. set (s1 := after_read _ _ _).
    destruct (disk_bytes _ _ _ _ (mounted_disk _ _ HD) lba) as [Hlen _].
    replace (if R <? 512 then R else 512) with (Z.min R 512) by (destruct (Z.ltb_spec R 512); lia).
    rewrite !(u32_small (_ + _)), (u32_small (_ - _)) by lia.
    use_wp (IH (lba + 1) (linear + Z.min R 512) (R - Z.min R 512) s1); [by destruct HD|done|lia| |lia|lia|lia|].
    { change (capacity s1) with (capacity s). lia. }
    intros r s' (-> & m & k' & -> & Hm & Hsame). split; [f_equal; f_equal; lia|]. exists m, k'. split; [done|].
    set (t' := Z.min (R - Z.min R 512) (512 * Z.of_nat n)) in *.
    replace t with (Z.min R 512 + t') by lia. cbn [blocks].
    rewrite take_sector; [|done|lia|].
    2:{ rewrite (blocks_length D) by (intros l; apply (disk_bytes _ _ _ _ (mounted_disk _ _ HD))). lia. }
    split.
    + apply holds_app.
      * apply (holds_frame (mem s1)); [|apply holds_take, holds_store].
        intros x Hx. apply Hsame. rewrite length_take in Hx. lia.
      * rewrite length_take. by replace (Z.of_nat (_ `min` _)) with (Z.min R 512) by lia.
    + intros x Hx. rewrite Hsame by lia. simpl. rewrite getw_store_bytes. by decides.
Qed.

(** A FAT12 volume with the allocation table [table]: 512-byte sectors, a table of
    at most nine sectors, and links that stay within it. *)
Record volume (D : Z → list Z) (table : list Z) (s : boot) : Prop := {
  vol_mounted : mounted D s;
  vol_bps : g_bytes_per_sector (fs s) = 512;
  vol_spc : 1 ≤ g_sectors_per_cluster (fs s);
  vol_spf : 1 ≤ g_sectors_per_fat (fs s) ≤ 9;
  vol_fat : 0 ≤ g_first_fat_sector (fsd s) ∧
            g_first_fat_sector (fsd s) + g_sectors_per_fat (fs s) ≤ capacity s;
  vol_data : 0 ≤ g_first_data_sector (fsd s) ∧
             g_first_data_sector (fsd s) + (Z.of_nat (length table) - 2) * g_sectors_per_cluster (fs s)
             ≤ capacity s;
  vol_entries : Forall (λ v, 0 ≤ v < 4096) table ∧ (length table ≤ 4096)%nat;
  vol_links : Forall (λ v, 2 ≤ v < 0xFF7 → v < Z.of_nat (length table)) table;
  vol_table : ∃ rest, blocks D (g_first_fat_sector (fsd s)) (Z.to_nat (g_sectors_per_fat (fs s)))
                      = pack12 table ++ rest
}.

(** Memory outside the buffer of the table is as before. *)
Definition outside_fat (m m' : gmap Z Z) : Prop :=
  ∀ x, ¬ (0x7200 ≤ x < 0x8400) → getw m' x = getw m x.

Lemma fat_read_table_spec D table s :
  volume D table s →
  wp fat_read_table (λ r s', r = 0 ∧ ∃ m n, s' = after_read s m n ∧
    holds m 0x7200 (pack12 table) ∧ outside_fat (mem s) m) s.
Proof.
  intros HV. pose proof (vol_spf _ _ _ HV) as Hspf. pose proof (vol_fat _ _ _ HV) as Hfat.
  pose proof (vol_mounted _ _ _ HV) as HD. pose proof (vol_bps _ _ _ HV) as Hbps.
  set (first := g_first_fat_sector (fsd s)) in *. set (spf := g_sectors_per_fat (fs s)) in *.
  unfold fat_read_table. wp_step. wp_step. wp_step. fold spf.
  assert (∀ l, length (D l) = 512%nat) as Hlen by (intros l; apply (disk_bytes _ _ _ _ (mounted_disk _ _ HD))).
  apply (wp_mfor_ret_range (λ i s', ∃ m n, s' = after_read s m n ∧
           holds m 0x7200 (blocks D first (Z.to_nat i)) ∧ outside_fat (mem s) m)).
  - lia.
  - exists (mem s), (bios_calls s). split; [by destruct s|done].
  - intros i s1 Hi (m & n & -> & Hm & Hout). wp_step. rewrite Hbps.
    apply (wp_disk_read_sector D); [by destruct HD|change (capacity (after_read s m n)) with (capacity s); lia|].
    intros k. cbn [negb Z.eqb]. wp_step.
    replace (u16 current_ds * 16 + u16 (u16 (FAT_SEG + i * 512))) with (0x7200 + 512 * i).
    2:{ unfold FAT_SEG. rewrite !(u16_small (_ + i * 512)) by lia. change (u16 current_ds) with 0x500. lia. }
    eexists _, k. split; [done|]. simpl mem. split.
    + replace (Z.to_nat (i + 1)) with (S (Z.to_nat i)) by lia. rewrite blocks_snoc. apply holds_app.
      * apply (holds_frame m); [|done]. intros x Hx. rewrite (blocks_length D) in Hx by done.
        rewrite getw_store_bytes, Hlen. by decides.
      * rewrite (blocks_length D) by done. replace (Z.of_nat (Z.to_nat i)) with i by lia.
        replace (Z.of_nat (512 * Z.to_nat i)) with (512 * i) by lia. apply holds_store.
    + intros x Hx. rewrite getw_store_bytes, Hlen. decides. by apply Hout.
  - intros s1 (m & n & -> & Hm & Hout). wp_step. split; [done|]. exists m, n. split; [done|]. split; [|done].
    destruct (vol_table _ _ _ HV) as [rest Hrest]. fold first spf in Hrest. rewrite Hrest in Hm.
    intros i b Hi. apply Hm. by apply lookup_app_l_Some.
Qed.

(** The clusters of a file that takes [n] of them: the chain of links from its
    first one; it must not end, or meet a bad cluster, before. *)
Fixpoint chain (table : list Z) (n : nat) (c : Z) : option (list Z) :=
  match n with
  | O => Some []
  | S O => Some [c]
  | S n => let c' := default 0 (table !! Z.to_nat c) in
           if (2 <=? c') && (c' <? 0xFF7) then (λ l, c :: l) <$> chain table n c' else None
  end.

(** The bytes of a cluster, and the number of clusters for [size] bytes. *)
Definition cluster_bytes (D : Z → list Z) (s : boot) (c : Z) : list Z :=
  blocks D (g_first_data_sector (fsd s) + (c - 2) * g_sectors_per_cluster (fs s))
    (Z.to_nat (g_sectors_per_cluster (fs s))).
Definition clusters_needed (s : boot) (size : Z) : nat :=
  let csize := 512 * g_sectors_per_cluster (fs s) in
  Z.to_nat ((size + csize - 1) / csize).

Lemma clusters_needed_none s : 1 ≤ g_sectors_per_cluster (fs s) → clusters_needed s 0 = 0%nat.
Proof. intros Hspc. unfold clusters_needed. rewrite Z.div_small by lia. done. Qed.

Lemma clusters_needed_one s size :
  1 ≤ g_sectors_per_cluster (fs s) → 0 < size ≤ 512 * g_sectors_per_cluster (fs s) →
  clusters_needed s size = 1%nat.
Proof.
  intros Hspc Hs. unfold clusters_needed. set (c := 512 * g_sectors_per_cluster (fs s)) in *.
  replace (size + c - 1) with ((size - 1) + 1 * c) by lia. rewrite Z.div_add by lia.
  rewrite Z.div_small by lia. done.
Qed.

Lemma clusters_needed_more s size :
  1 ≤ g_sectors_per_cluster (fs s) → 512 * g_sectors_per_cluster (fs s) < size →
  ∃ n, clusters_needed s (size - 512 * g_sectors_per_cluster (fs s)) = S n ∧
       clusters_needed s size = S (S n).
Proof.
  intros Hspc Hs. unfold clusters_needed. set (c := 512 * g_sectors_per_cluster (fs s)) in *.
  replace (size + c - 1) with ((size - c - 1) + 2 * c) by lia.
  replace (size - c + c - 1) with ((size - c - 1) + 1 * c) by lia. rewrite !Z.div_add by lia.
  assert (0 ≤ (size - c - 1) / c) by (apply Z.div_pos; lia).
  exists (Z.to_nat ((size - c - 1) / c)). lia.
Qed.

Lemma volume_pack_length D table s : volume D table s → (length (pack12 table) ≤ 4608)%nat.
Proof.
  intros HV. destruct (vol_table _ _ _ HV) as [rest Hrest]. apply (f_equal length) in Hrest.
  rewrite length_app, (blocks_length D) in Hrest
    by (intros l; apply (disk_bytes _ _ _ _ (mounted_disk _ _ (vol_mounted _ _ _ HV)))).
  pose proof (vol_spf _ _ _ HV). lia.
Qed.

Lemma volume_after D table s m k : volume D table s → volume D table (after_read s m k).
Proof. intros [[]]. by split. Qed.

(** The link of a cluster in the table. *)
Lemma next_link D table c s :
  volume D table s → holds (mem s) 0x7200 (pack12 table) → 0 ≤ c < Z.of_nat (length table) →
  let c' := default 0 (table !! Z.to_nat c) in
  fat12_next_cluster FAT_SEG c s = Some (c', s) ∧ 0 ≤ c' < 4096 ∧
  (2 ≤ c' < 0xFF7 → c' < Z.of_nat (length table)).
Proof.
  intros HV Hm Hc. destruct (vol_entries _ _ _ HV) as [Hall Hlen].
  destruct (lookup_lt_is_Some_2 table (Z.to_nat c)) as [v Hv]; [lia|]. rewrite Hv. simpl. split_and!.
  - replace c with (Z.of_nat (Z.to_nat c)) at 1 by lia.
    apply (next_cluster_spec table); [done|done|done|by vm_compute|done].
  - rewrite Forall_lookup in Hall. by eapply Hall.
  - rewrite Forall_lookup in Hall. by eapply Hall.
  - pose proof (vol_links _ _ _ HV) as Hlinks. rewrite Forall_lookup in Hlinks. by eapply Hlinks.
Qed.

(** Bytes that stand behind a whole cluster. *)
Lemma holds_cluster m linear n (bs rest : list Z) :
  length bs = n → holds m linear bs → ∀ R, holds m (linear + Z.of_nat n) (take (R - n) rest) →
  (n ≤ R)%nat → holds m linear (take R (bs ++ rest)).
Proof.
  intros Hl H1 R H2 HR. rewrite take_app, take_ge by lia. apply holds_app; by rewrite ?Hl.
Qed.

(** What the outer loop owes from cluster [c] on. *)
Definition loaded (D : Z → list Z) (table : list Z) (s : boot) (c linear R r : Z) (s' : boot) : Prop :=
  ∃ m k, s' = after_read s m k ∧ same_below linear (mem s) m ∧
    match chain table (clusters_needed s R) c with
    | Some l => r = 0 ∧ holds m linear (take (Z.to_nat R) (l ≫= cluster_bytes D s))
    | None => r = -1
    end.

Lemma chain_more table n c :
  let c' := default 0 (table !! Z.to_nat c) in
  chain table (S (S n)) c
  = if (2 <=? c') && (c' <? 0xFF7) then (λ l, c :: l) <$> chain table (S n) c' else None.
Proof. done. Qed.

Lemma cluster_length D table s c :
  volume D table s → length (cluster_bytes D s c) = Z.to_nat (512 * g_sectors_per_cluster (fs s)).
Proof.
  intros HV. unfold cluster_bytes. rewrite (blocks_length D); [pose proof (vol_spc _ _ _ HV); lia|].
  intros l. apply (disk_bytes _ _ _ _ (mounted_disk _ _ (vol_mounted _ _ _ HV))).
Qed.

(** The three ways on from a whole cluster: nothing is left, the chain is broken, or
    it goes on. *)
Lemma loaded_last D table s c linear R m k :
  1 ≤ g_sectors_per_cluster (fs s) → 0 < R ≤ 512 * g_sectors_per_cluster (fs s) →
  same_below linear (mem s) m → holds m linear (take (Z.to_nat R) (cluster_bytes D s c)) →
  loaded D table s c linear R 0 (after_read s m k).
Proof.
  intros Hspc HR Hsame Hload. exists m, k. split; [done|]. split; [done|].
  rewrite clusters_needed_one by lia. simpl. by rewrite app_nil_r.
Qed.

Lemma loaded_broken D table s c linear R m k :
  let c' := default 0 (table !! Z.to_nat c) in
  1 ≤ g_sectors_per_cluster (fs s) → 512 * g_sectors_per_cluster (fs s) < R →
  same_below linear (mem s) m → c' < 2 ∨ 0xFF7 ≤ c' →
  loaded D table s c linear R (-1) (after_read s m k).
Proof.
  intros c' Hspc HR Hsame Hc'. exists m, k. split; [done|]. split; [done|].
  destruct (clusters_needed_more s R Hspc ltac:(lia)) as (n & _ & ->). rewrite chain_more. fold c'.
  destruct (Z.leb_spec 2 c'), (Z.ltb_spec c' 0xFF7); try lia; done.
Qed.

Lemma loaded_step D table s c linear R m k r s' :
  let csize := 512 * g_sectors_per_cluster (fs s) in
  let c' := default 0 (table !! Z.to_nat c) in
  volume D table s → csize < R → same_below linear (mem s) m → 2 ≤ c' < 0xFF7 →
  holds m linear (cluster_bytes D s c) →
  loaded D table (after_read s m k) c' (linear + csize) (R - csize) r s' →
  loaded D table s c linear R r s'.
Proof.
  intros csize c' HV HR Hsame Hc' Hload (m2 & k2 & -> & Hsame2 & Hres).
  pose proof (vol_spc _ _ _ HV) as Hspc. exists m2, k2. split; [done|]. split.
  { intros x Hx. rewrite Hsame2 by lia. by apply Hsame. }
  destruct (clusters_needed_more s R Hspc ltac:(lia)) as (n & Hn & ->). rewrite chain_more. fold c'.
  change (clusters_needed (after_read s m k)) with (clusters_needed s) in Hres.
  fold csize in Hn. rewrite Hn in Hres.
  destruct (Z.leb_spec 2 c'), (Z.ltb_spec c' 0xFF7); try lia. cbn [andb].
  destruct (chain table (S n) c') as [l|]; simpl; [|done]. destruct Hres as [-> Hrest]. split; [done|].
  pose proof (cluster_length D table s c HV) as Hlc. fold csize in Hlc.
  apply (holds_cluster _ _ (Z.to_nat csize)); [done| | |lia].
  - apply (holds_frame m); [intros x Hx; apply Hsame2; lia|done].
  - replace (Z.of_nat (Z.to_nat csize)) with csize by lia.
    by replace (Z.to_nat R - Z.to_nat csize)%nat with (Z.to_nat (R - csize)) by lia.
Qed.

Lemma loaded_nothing D table s c linear :
  1 ≤ g_sectors_per_cluster (fs s) → loaded D table s c linear 0 0 s.
Proof.
  intros Hspc. exists (mem s), (bios_calls s). split; [by destruct s|]. split; [done|].
  by rewrite clusters_needed_none.
Qed.

(** A cluster of the table, read from the disk. *)
Lemma load_table_cluster D table c linear R s :
  volume D table s → 2 ≤ c < Z.of_nat (length table) → 0 ≤ linear → 0 ≤ R → linear + R + 512 ≤ 2 ^ 20 →
  let spc := g_sectors_per_cluster (fs s) in
  let t := Z.min R (512 * spc) in
  wp (load_cluster (Z.to_nat spc) (u32 (g_first_data_sector (fsd s) + u32 (u32 (c - 2) * spc))) linear R)
    (λ r s', r = Some (linear + t, R - t) ∧
       ∃ m k, s' = after_read s m k ∧ holds m linear (take (Z.to_nat t) (cluster_bytes D s c)) ∧
              same_below linear (mem s) m) s.
Proof.
  intros HV Hc Hlin HR Htop spc. pose proof (vol_spc _ _ _ HV) as Hspc. fold spc in Hspc.
  pose proof (vol_data _ _ _ HV) as [Hd0 Hd1]. fold spc in Hd1.
  pose proof (capacity_bound D s (vol_mounted _ _ _ HV)) as Hcap.
  destruct (vol_entries _ _ _ HV) as [_ Hlen]. set (first := g_first_data_sector (fsd s)) in *.
  assert (0 ≤ (c - 2) * spc) by nia. assert ((c - 2) * spc + spc ≤ (Z.of_nat (length table) - 2) * spc) by nia.
  rewrite (u32_small (c - 2)), (u32_small ((c - 2) * spc)), (u32_small (first + _)) by lia.
  pose proof (load_cluster_spec D (Z.to_nat spc) (first + (c - 2) * spc) linear R s
                (vol_mounted _ _ _ HV) (vol_bps _ _ _ HV)) as Hspec.
  replace (Z.of_nat (Z.to_nat spc)) with spc in Hspec by lia. apply Hspec; lia.
Qed.

Lemma load_loop_spec D table fuel c linear R s :
  volume D table s → holds (mem s) 0x7200 (pack12 table) → 2 ≤ c < Z.of_nat (length table) →
  0x8400 ≤ linear → 0 ≤ R ≤ Z.of_nat fuel → linear + R + 512 ≤ 2 ^ 20 →
  wp (load_loop fuel c linear R) (loaded D table s c linear R) s.
Proof.
  revert c linear R s. induction fuel as [|fuel IH]; intros c linear R s HV Hm Hc Hlin HR Htop.
  all: cbn [load_loop]; destruct (Z.eqb_spec R 0) as [->|HR0].
  1,3: wp_step; apply loaded_nothing, (vol_spc _ _ _ HV).
  1: lia.
  pose proof (vol_spc _ _ _ HV) as Hspc.
  do 3 wp_step. use_wp (load_table_cluster D table c linear R s HV Hc); [lia|lia|lia|].
  set (spc := g_sectors_per_cluster (fs s)) in *. intros r s1 (-> & m1 & k1 & -> & Hload & Hsame).
  destruct (decide (R ≤ 512 * spc)) as [Hlast|Hmore].
  { rewrite Z.min_l in * by lia. rewrite Z.sub_diag. cbn [Z.eqb]. wp_step. apply loaded_last; lia || done. }
  rewrite Z.min_r in * by lia. destruct (Z.eqb_spec (R - 512 * spc) 0); [lia|].
  rewrite take_ge in Hload by (rewrite (cluster_length D table s c HV); done).
  set (s1 := after_read s m1 k1) in *. assert (volume D table s1) as HV1 by by apply volume_after.
  assert (holds (mem s1) 0x7200 (pack12 table)) as Hm1.
  { apply (holds_frame (mem s)); [|done]. intros x Hx. apply Hsame.
    pose proof (volume_pack_length _ _ _ HV). lia. }
  destruct (next_link D table c s1 HV1 Hm1 ltac:(lia)) as (Hnext & Hrange & Hlink).
  wp_step. eapply wp_eq; [exact Hnext|]. cbv beta. set (c' := default 0 (table !! Z.to_nat c)) in *.
  destruct (Z.eqb_spec c' 0xFF7); [wp_step; apply loaded_broken; fold c' spc; (lia || done)|].
  destruct ((c' <? 2) || (0xFF8 <=? c')) eqn:Eend.
  { wp_step. apply loaded_broken; fold c' spc; [lia|lia|done|].
    apply orb_true_iff in Eend as [?%Z.ltb_lt|?%Z.leb_le]; lia. }
  apply orb_false_iff in Eend as [?%Z.ltb_ge ?%Z.leb_gt].
  use_wp (IH c' (linear + 512 * spc) (R - 512 * spc) s1 HV1 Hm1); [lia|lia|lia|lia|].
  intros r s2. apply loaded_step; fold c' spc; [done|lia|done|lia|done].
Qed.

(** The largest file that fits between 0x9000 and 1 MiB, with the slack of the last
    sector; all of it counts as RAM here. *)
Definition MAX_FILE : Z := 2 ^ 20 - 0x9000 - 512.

Lemma fat_load_file_spec D table c size s :
  volume D table s → 2 ≤ c < Z.of_nat (length table) → 0 ≤ size ≤ MAX_FILE →
  wp (fat_load_file c size KERNEL_SEG) (λ r s', ∃ m k, s' = after_read s m k ∧
    (∀ x, x < 0x9000 → ¬ (0x7200 ≤ x < 0x8400) → getw m x = getw (mem s) x) ∧
    match chain table (clusters_needed s size) c with
    | Some l => r = 0 ∧ holds m 0x9000 (take (Z.to_nat size) (l ≫= cluster_bytes D s))
    | None => r = -1
    end) s.
Proof.
  intros HV Hc Hsize. unfold MAX_FILE in Hsize. unfold fat_load_file.
  change (u32 (current_ds * 16 + u16 KERNEL_SEG)) with 0x9000.
  destruct (Z.ltb_spec c 2); [lia|]. wp_step. use_wp (fat_read_table_spec D table s HV).
  intros r s1 (-> & m1 & k1 & -> & Hm1 & Hout). cbn [negb Z.eqb].
  use_wp (load_loop_spec D table (S (Z.to_nat size)) c 0x9000 size (after_read s m1 k1) (volume_after _ _ _ _ _ HV));
    [done|lia|lia|lia|lia|].
  intros r s2 (m2 & k2 & -> & Hsame & Hres). exists m2, k2. split; [done|]. split; [|exact Hres].
  intros x Hx Hf. rewrite Hsame by done. by apply Hout.
Qed.

(** C23. [fat_find_file] on a readable root directory returns the first cluster and
    the size of the first file entry before the end mark whose 8.3 name is
    [name83], as the directory's bytes on the disk define them, and -1 if there is
    none; of memory only the directory buffer changes. *)
Theorem fat_find_file_correct D name83 s :
  mounted D s → root_ok s → length name83 = 11%nat →
  ∃ s' m n,
    fat_find_file name83 s
    = Some (found <$> lookup_file name83
              (root_directory D (g_first_root_dir_sector (fsd s)) (g_root_dir_sectors (fsd s))), s') ∧
    s' = after_read s m n ∧ outside_buffer (mem s) m.
Proof.
  intros HD Hroot Hname.
  destruct (proj1 (wp_inv _ _ _) (fat_find_file_spec D name83 s HD Hroot Hname)) as (r & s' & E & -> & m & n & H).
  by exists s', m, n.
Qed.

(** C19. [fat_load_file] on a FAT12 volume (any table, any file below 1 MiB): it
    follows the chain of links from the first cluster for as many clusters as the
    size needs.  If they all exist, it returns 0 and memory from 0x9000 on holds
    exactly the first [size] bytes of the clusters' contents; if the chain ends or
    meets a bad cluster before, it returns -1.  Below 0x9000 only the buffer of the
    table changes. *)
Theorem fat_load_file_correct D table c size s :
  volume D table s → 2 ≤ c < Z.of_nat (length table) → 0 ≤ size ≤ MAX_FILE →
  ∃ r s' m k, fat_load_file c size KERNEL_SEG s = Some (r, s') ∧ s' = after_read s m k ∧
    (∀ x, x < 0x9000 → ¬ (0x7200 ≤ x < 0x8400) → getw m x = getw (mem s) x) ∧
    match chain table (clusters_needed s size) c with
    | Some l => r = 0 ∧ holds m 0x9000 (take (Z.to_nat size) (l ≫= cluster_bytes D s))
    | None => r = -1
    end.
Proof.
  intros HV Hc Hsize.
  destruct (proj1 (wp_inv _ _ _) (fat_load_file_spec D table c size s HV Hc Hsize)) as (r & s' & E & m & k & H).
  by exists r, s', m, k.
Qed.

End fat.

(** ** On the small disk *)

#[local] Existing Instance demo_bios.

Definition demo_table : list Z := [0xFF8; 0xFFF; 3; 0xFFF].
Definition demo_mounted : boot :=
  mkBoot ∅ [] 0 18 2 (mkBpb 512 1 1 1 16 2880 1) (mkDerived 1 1 2 2 3 2877 2877) 0.

Lemma demo_mounted_ok : mounted demo_disk demo_mounted.
Proof. split; [exact demo_disk_ok|exact demo_reliable]. Qed.

Lemma demo_root_ok : root_ok demo_mounted.
Proof. by split. Qed.

Lemma demo_volume : volume demo_disk demo_table demo_mounted.
Proof.
  split; [exact demo_mounted_ok|done|done|done|done|done| | |].
  - split; [|by apply (bool_decide_unpack _)]. apply (bool_decide_unpack _). by vm_compute.
  - apply (bool_decide_unpack _). by vm_compute.
  - exists (drop 6 (demo_disk 1)). vm_compute. reflexivity.
Qed.

(** Cluster 2 is followed by cluster 3. *)
Lemma fat12_next_cluster_witness :
  let s := set_mem (store_bytes ∅ 0x7200 (pack12 demo_table)) demo_boot in
  fat12_next_cluster FAT_SEG 2 s = Some (3, s).
Proof.
  intros s. apply (fat12_next_cluster_roundtrip demo_table FAT_SEG 2 3 s).
  - apply (vol_entries _ _ _ demo_volume).
  - apply (vol_entries _ _ _ demo_volume).
  - reflexivity.
  - vm_compute. intros [=].
  - apply holds_store.
Defined.

(** The file KERNEL starts at cluster 2 and has 600 bytes. *)
Lemma fat_find_file_witness :
  mounted demo_disk demo_mounted ∧ root_ok demo_mounted ∧
  ∃ s', fat_find_file (cstr "KERNEL     ") demo_mounted = Some (Some (2, 600), s').
Proof.
  split; [exact demo_mounted_ok|]. split; [exact demo_root_ok|].
  destruct (fat_find_file_correct demo_disk (cstr "KERNEL     ") demo_mounted demo_mounted_ok demo_root_ok eq_refl)
    as (s' & m & n & E & _).
  exists s'. exact E.
Defined.

(** Its bytes are those of the two clusters. *)
Lemma fat_load_file_witness :
  volume demo_disk demo_table demo_mounted ∧
  ∃ s', fat_load_file 2 600 KERNEL_SEG demo_mounted = Some (0, s') ∧
        holds (mem s') 0x9000 (replicate 512 7 ++ replicate 88 9).
Proof.
  split; [exact demo_volume|].
  destruct (fat_load_file_correct demo_disk demo_table 2 600 demo_mounted demo_volume)
    as (r & s' & m & k & E & -> & _ & Hres); [simpl; lia|unfold MAX_FILE; lia|].
  change (chain demo_table (clusters_needed demo_mounted 600) 2) with (Some [2; 3]) in Hres.
  destruct Hres as [-> Hres]. exists (after_read demo_mounted m k). split; [exact E|].
  assert (take (Z.to_nat 600) ([2; 3] ≫= cluster_bytes demo_disk demo_mounted)
          = replicate 512 7 ++ replicate 88 9) as Eb by (vm_compute; reflexivity).
  rewrite Eb in Hres. exact Hres.
Defined.

End Fat.
