(* ===== verification/Loader.v ===== *)
(** * The main program of the second-stage loader (src/boot/stage2/stage2.c)

    From the boot sector to the jump: [fat_init] against the format of the BIOS
    parameter block, the termination of [stage2_main] on every disk, and what it
    does on a bootable one. *)

From S2P Require Import Prelude Vga Boot Fat.

Module Loader.
Import Lib Stage2 Fat.

Section loader.
Context {bios : Bios}.

(** ** Starting up *)

(** What [putchar] makes of a text: a carriage return before each line feed. *)
Definition crlf (str : list Z) : list Z := c ← str; if c =? 10 then [13; 10] else [c].

Lemma bios_putchar_spec c s :
  0 ≤ c < 256 → putchar c s = Some (c, set_tty (reverse (if c =? 10 then [13; 10] else [c]) ++ tty s) s).
Proof.
  intros Hc. unfold putchar, bios_print_char, when, modify, mbind, M_bind, mret, M_ret.
  rewrite !(u8_small c) by lia. by destruct (Z.eqb_spec c 10) as [->|].
Qed.

Lemma bios_print_spec str s :
  Forall (λ c, 0 ≤ c < 256) str → bios_print str s = Some (tt, set_tty (reverse (crlf str) ++ tty s) s).
Proof.
  unfold bios_print. revert s. induction str as [|c str IH]; intros s Hall; [by destruct s|].
  apply Forall_cons in Hall as [Hc Hall]. simpl mfor. unfold mbind, M_bind. rewrite (u8_small c) by lia.
  rewrite bios_putchar_spec by done. unfold mret, M_ret. rewrite IH by done.
  unfold crlf. rewrite bind_cons, reverse_app, <- app_assoc. done.
Qed.

(** Every text of the loader is plain. *)
Lemma cstr_bytes str : Forall (λ c, 0 ≤ c < 256) (cstr str).
Proof.
  assert (∀ a, 0 ≤ byte_of a < 256) as Hb.
  { intros a. unfold byte_of. pose proof (Ascii.N_ascii_bounded a). lia. }
  assert (∀ a, 0 ≤ a < 256 → 0 ≤ escape a < 256) as He by (intros a Ha; unfold escape; repeat case_decide; lia).
  remember (String.length str) as n eqn:Hn. assert (String.length str ≤ n)%nat as Hle by lia. clear Hn.
  revert str Hle. induction n as [|n IH]; intros [|a str] Hle; simpl in *; try lia; try constructor.
  case_decide; [|by constructor; [|apply IH; lia]].
  destruct str as [|b str]; [by repeat constructor|]. constructor; [auto|]. apply IH. simpl in Hle. lia.
Qed.

Lemma wp_bios_print str (Q : unit → boot → Prop) s :
  Q tt (set_tty (reverse (crlf (cstr str)) ++ tty s) s) → wp (bios_print (cstr str)) Q s.
Proof. intros HQ. eapply wp_eq; [apply bios_print_spec, cstr_bytes|done]. Qed.

(** [printf] of a text without conversions prints it and counts its characters. *)
Lemma vprintf_plain str args cnt s :
  Forall (λ c, 0 ≤ c < 256) str → 37 ∉ str →
  vprintf_loop str args cnt s
  = Some (cnt + Z.of_nat (length str), set_tty (reverse (crlf str) ++ tty s) s).
Proof.
  revert cnt s. induction str as [|c str IH]; intros cnt s Hall Hn.
  { simpl. rewrite Z.add_0_r. by destruct s. }
  apply Forall_cons in Hall as [Hc Hall]. apply not_elem_of_cons in Hn as [Hne Hn]. cbn [vprintf_loop].
  destruct (Z.eqb_spec c 37); [lia|]. unfold put_count. unfold mbind, M_bind. rewrite bios_putchar_spec by done.
  destruct (Z.leb_spec 0 c); [|lia]. unfold mret, M_ret. rewrite IH by done. unfold crlf.
  rewrite bind_cons, reverse_app, <- app_assoc. simpl length. do 2 f_equal. lia.
Qed.

Lemma wp_printf_plain str (Q : Z → boot → Prop) s :
  37 ∉ cstr str → (∀ r t, Q r (set_tty t s)) → wp (printf (cstr str) []) Q s.
Proof. intros Hn HQ. eapply wp_eq; [apply vprintf_plain; [apply cstr_bytes|done]|apply HQ]. Qed.

(** A zero is not counted as one character: [print_unsigned] returns what [putchar]
    returns for it. *)
Lemma printf_zero_count s :
  printf (cstr "%u") [Vga.VWord 0] s = Some (48, set_tty (48 :: tty s) s).
Proof. by destruct s. Qed.

(** The BIOS parameter block, as the file system defines it. *)
Definition le16 (b : list Z) (i : nat) : Z := byte b i + 256 * byte b (i + 1).
Definition le32 (b : list Z) (i : nat) : Z := le16 b i + 65536 * le16 b (i + 2).
Definition read_bpb (b : list Z) : bpb :=
  mkBpb (le16 b 11) (byte b 13) (le16 b 14) (byte b 16) (le16 b 17)
    (if le16 b 19 =? 0 then le32 b 32 else le16 b 19) (le16 b 22).
Definition fields_ok (p : bpb) : bool :=
  negb ((g_bytes_per_sector p =? 0) || (g_sectors_per_cluster p =? 0) || (g_reserved_sectors p =? 0) ||
        (g_num_fats p =? 0) || (g_sectors_per_fat p =? 0) || (g_total_sectors p =? 0)).

Lemma read_le16_at b i :
  Forall (λ x, 0 ≤ x < 256) b → (i + 2 ≤ length b)%nat → read_le16 (drop i b) = Some (le16 b i).
Proof.
  intros Hb Hl. destruct (lookup_lt_is_Some_2 b i) as [x Hx]; [lia|].
  destruct (lookup_lt_is_Some_2 b (i + 1)) as [y Hy]; [lia|]. rewrite Forall_lookup in Hb.
  rewrite (drop_S _ _ _ Hx). replace (S i) with (i + 1)%nat by lia. rewrite (drop_S _ _ _ Hy).
  rewrite read_le16_value by eauto. unfold le16, byte. by rewrite Hx, Hy.
Qed.

Lemma read_le32_at b i :
  Forall (λ x, 0 ≤ x < 256) b → (i + 4 ≤ length b)%nat → read_le32 (drop i b) = Some (le32 b i).
Proof.
  intros Hb Hl. unfold le32, le16, byte. rewrite Forall_lookup in Hb.
  destruct (lookup_lt_is_Some_2 b i) as [x Hx]; [lia|].
  destruct (lookup_lt_is_Some_2 b (i + 1)) as [y Hy]; [lia|].
  destruct (lookup_lt_is_Some_2 b (i + 2)) as [z Hz]; [lia|].
  destruct (lookup_lt_is_Some_2 b (i + 3)) as [w Hw]; [lia|].
  rewrite (drop_S _ _ _ Hx). replace (S i) with (i + 1)%nat by lia. rewrite (drop_S _ _ _ Hy).
  replace (S (i + 1)) with (i + 2)%nat by lia. rewrite (drop_S _ _ _ Hz).
  replace (S (i + 2)) with (i + 3)%nat by lia. rewrite (drop_S _ _ _ Hw).
  rewrite read_le32_value by eauto. replace (i + 2 + 1)%nat with (i + 3)%nat by lia.
  rewrite Hx, Hy, Hz, Hw. simpl. f_equal. lia.
Qed.

Lemma aget_byte b i : (i < length b)%nat → aget b (Z.of_nat i) = Some (byte b i).
Proof.
  intros Hl. destruct (lookup_lt_is_Some_2 b i Hl) as [x Hx]. apply aget_Some. split; [lia|].
  unfold byte. by rewrite Nat2Z.id, Hx.
Qed.

(** [fat_parse] sets the variables from the fields of the boot sector and accepts
    it if none of the six is 0 and the clusters are few enough for FAT12. *)
Lemma fat_parse_spec s :
  let b := near s BOOT_SECTOR_SEG 512 in
  let p := read_bpb b in
  Forall (λ x, 0 ≤ x < 256) b →
  wp fat_parse (λ r s',
    r = (if fields_ok p && (g_cluster_count (derive p) <? 4085) then 0 else -1) ∧
    ∃ t, s' = set_tty t (if fields_ok p then set_fsd (derive p) (set_fs p s) else set_fs p s)) s.
Proof.
  intros b p Hb. assert (length b = 512%nat) as Hl by (unfold b, near, range; by rewrite length_fmap, length_seqZ).
  unfold fat_parse. wp_step.
  unfold read_near. change (BOOT_SECTOR_SEG + 512 <=? 0x10000) with true. cbv iota.
  wp_step. fold b. clearbody b. wp_step.
  eapply wp_lift; [apply read_le16_at; [done|lia]|]. wp_step.
  eapply wp_lift; [apply (aget_byte b 13); lia|]. wp_step.
  eapply wp_lift; [apply read_le16_at; [done|lia]|]. wp_step.
  eapply wp_lift; [apply (aget_byte b 16); lia|]. wp_step.
  eapply wp_lift; [apply read_le16_at; [done|lia]|]. wp_step.
  eapply wp_lift; [apply read_le16_at; [done|lia]|]. wp_step.
  apply (wp_mono _ (λ v s', v = g_total_sectors p ∧ ∃ t, s' = set_tty t s)).
  { unfold p, read_bpb. simpl g_total_sectors. destruct (le16 b 19 =? 0).
    - wp_step. apply wp_printf_plain; [by apply (bool_decide_unpack _)|]. intros _ t.
      eapply wp_lift; [apply read_le32_at; [done|lia]|]. split; [done|]. by exists t.
    - wp_step. split; [done|]. exists (tty s). by destruct s. }
  intros v s1 (-> & t & ->). wp_step.
  eapply wp_lift; [apply read_le16_at; [done|lia]|]. wp_step. wp_step.
  change (mkBpb _ _ _ _ _ _ _) with p.
  lazymatch goal with
  | |- wp (if ?c then _ else _) _ _ =>
      assert (fields_ok p = negb c) as -> by reflexivity; destruct c; cbn [negb andb]
  end.
  - wp_step. split; [done|]. by exists t.
  - wp_step. wp_step. rewrite Z.leb_antisym. destruct (g_cluster_count (derive p) <? 4085); cbn [negb]; wp_step.
    all: split; [done|]; by exists t.
Qed.

(** ** What the loader keeps

    After [fat_init] only memory, the screen and the number of BIOS calls change. *)

Record kept (s s' : boot) : Prop := {
  kept_drive : g_drive s' = g_drive s;
  kept_spt : g_sectors_per_track s' = g_sectors_per_track s;
  kept_heads : g_num_heads s' = g_num_heads s;
  kept_fs : fs s' = fs s;
  kept_fsd : fsd s' = fsd s
}.

#[export] Instance kept_preorder : PreOrder kept.
Proof. split; [by split|]. intros ??? [] []. split; congruence. Qed.

Lemma kept_read s m n : kept s (after_read s m n).
Proof. by split. Qed.
Lemma kept_tty s t : kept s (set_tty t s).
Proof. by split. Qed.
Hint Resolve kept_read kept_tty : neil.

(** The loader's own image and stack, between its buffers and the kernel. *)
Definition own_kept (s s' : boot) : Prop :=
  ∀ x, x < 0x7000 ∨ 0x8600 ≤ x < 0x9000 → getw (mem s') x = getw (mem s) x.
#[export] Instance own_kept_preorder : PreOrder own_kept.
Proof. split; [done|]. intros s1 s2 s3 H1 H2 x Hx. by rewrite H2, H1. Qed.

Lemma mounted_kept D s s' : kept s s' → mounted D s → mounted D s'.
Proof. intros [Ed Es Eh _ _] [HD Hr]. split; by rewrite Ed, Es, Eh. Qed.

Lemma capacity_kept s s' : kept s s' → capacity s' = capacity s.
Proof. intros [_ Es Eh _ _]. unfold capacity. by rewrite Es, Eh. Qed.

Lemma volume_kept D table s s' : kept s s' → volume D table s → volume D table s'.
Proof.
  intros Hk HV. pose proof (capacity_kept s s' Hk) as Hc. pose proof Hk as [_ _ _ Ef Ed].
  destruct HV as [HD ? ? ? ? ? ? ? ?].
  split; rewrite ?Hc, ?Ef, ?Ed; try done. by apply (mounted_kept D s).
Qed.

Lemma root_ok_kept s s' : kept s s' → root_ok s → root_ok s'.
Proof.
  intros Hk [???]. pose proof (capacity_kept s s' Hk) as Hc. destruct Hk as [_ _ _ Ef Ed].
  split; by rewrite ?Hc, ?Ef, ?Ed.
Qed.

(** ** [fat_init] *)

(** The layout of a FAT12 volume, in the terms of the format. *)
Definition fat_layout (p : bpb) : derived :=
  let root_dir_sectors :=
    (g_root_entry_count p * 32 + g_bytes_per_sector p - 1) / g_bytes_per_sector p in
  let first_root := g_reserved_sectors p + g_num_fats p * g_sectors_per_fat p in
  let first_data := first_root + root_dir_sectors in
  mkDerived root_dir_sectors (g_reserved_sectors p) first_root first_root first_data
    (g_total_sectors p - first_data) ((g_total_sectors p - first_data) / g_sectors_per_cluster p).

(** None of the computations of [fat_init] wraps around, as long as the data area
    does not start behind the end of the volume. *)
Lemma derive_layout b :
  Forall (λ x, 0 ≤ x < 256) b → fields_ok (read_bpb b) = true →
  g_first_data_sector (fat_layout (read_bpb b)) ≤ g_total_sectors (read_bpb b) →
  derive (read_bpb b) = fat_layout (read_bpb b).
Proof.
  intros Hb Hok Hle. pose proof (λ i, byte_range b i Hb) as Hr.
  assert (∀ i, 0 ≤ le16 b i < 65536) as H16.
  { intros i. unfold le16. pose proof (Hr i). pose proof (Hr (i + 1)%nat). lia. }
  set (p := read_bpb b) in *. assert (0 ≤ g_total_sectors p < 2 ^ 32) as Htot.
  { unfold p, read_bpb. simpl. destruct (_ =? 0); [unfold le32; pose proof (H16 32%nat); pose proof (H16 (32 + 2)%nat)
    |pose proof (H16 19%nat)]; lia. }
  assert (g_bytes_per_sector p ≠ 0) as Hbps.
  { unfold fields_ok in Hok. destruct (Z.eqb_spec (g_bytes_per_sector p) 0); [done|done]. }
  assert (0 ≤ g_bytes_per_sector p < 65536) as Hbps' by apply (H16 11%nat).
  assert (0 ≤ g_root_entry_count p < 65536) as Hroot by apply (H16 17%nat).
  assert (0 ≤ g_reserved_sectors p < 65536) as Hres by apply (H16 14%nat).
  assert (0 ≤ g_num_fats p < 256) as Hfats by apply (Hr 16%nat).
  assert (0 ≤ g_sectors_per_fat p < 65536) as Hspf by apply (H16 22%nat).
  unfold derive, fat_layout in *. cbv zeta in *. cbn [g_first_data_sector] in Hle. clearbody p.
  replace (g_root_entry_count p * 32 + (g_bytes_per_sector p - 1))
    with (g_root_entry_count p * 32 + g_bytes_per_sector p - 1) by lia.
  set (roots := (g_root_entry_count p * 32 + g_bytes_per_sector p - 1) / g_bytes_per_sector p) in *.
  assert (0 ≤ roots) by (apply Z.div_pos; lia).
  assert (0 ≤ g_num_fats p * g_sectors_per_fat p < 2 ^ 24) by nia.
  rewrite (u32_small (g_num_fats p * _)) by lia. rewrite (u32_small (g_reserved_sectors p + _)) by lia.
  rewrite (u32_small (_ + _ + roots)) by lia. by rewrite u32_small by lia.
Qed.

(** The state after [fat_init], up to memory, screen and BIOS calls. *)
Definition ready (D : Z → list Z) (cl dh : Z) (s : boot) : boot :=
  let p := read_bpb (D 0) in
  mkBoot (mem s) (tty s) (g_drive s) (Z.land cl 0x3F) (u16 (u8 dh + 1)) p (fat_layout p) (bios_calls s).

(** A disk with a FAT12 volume in its first blocks: the BIOS tells its geometry, the
    boot sector has the fields, and the table and the root directory are on it. *)
Record fat12_disk (D : Z → list Z) (table : list Z) (cl dh : Z) (s : boot) : Prop := {
  fd_params : int13_params (g_drive s) = Some (cl, dh);
  fd_fields : fields_ok (read_bpb (D 0)) = true;
  fd_data : g_first_data_sector (fat_layout (read_bpb (D 0))) ≤ g_total_sectors (read_bpb (D 0));
  fd_clusters : g_cluster_count (fat_layout (read_bpb (D 0))) < 4085;
  fd_volume : volume D table (ready D cl dh s);
  fd_root : root_ok (ready D cl dh s)
}.

Lemma fat12_disk_tty D table cl dh s t : fat12_disk D table cl dh s → fat12_disk D table cl dh (set_tty t s).
Proof.
  intros HF. assert (kept (ready D cl dh s) (ready D cl dh (set_tty t s))) as Hk by by split.
  destruct HF. split; [done..| |].
  - by apply (volume_kept D table (ready D cl dh s)).
  - by apply (root_ok_kept (ready D cl dh s)).
Qed.

Lemma fat_init_spec D table cl dh s :
  fat12_disk D table cl dh s →
  wp (fat_init (g_drive s)) (λ r s', r = 0 ∧ kept (ready D cl dh s) s' ∧ own_kept s s') s.
Proof.
  intros HF. pose proof (fd_volume _ _ _ _ _ HF) as HV. set (rs := ready D cl dh s) in *.
  pose proof (vol_mounted _ _ _ HV) as HD. pose proof (mounted_disk _ _ HD) as Hdisk.
  unfold fat_init. wp_step. wp_step. wp_step. unfold disk_get_params. do 3 wp_step. wp_step.
  simpl g_drive. rewrite (fd_params _ _ _ _ _ HF). wp_step. wp_step. wp_step. cbn [negb Z.eqb]. wp_step.
  set (s1 := set_geometry _ _ _).
  assert (mounted D s1) as HD1 by (destruct HD; by split).
  apply (wp_disk_read_sector D); [done| |].
  { pose proof (disk_spt _ _ _ _ Hdisk). pose proof (disk_heads _ _ _ _ Hdisk).
    change (capacity s1) with (capacity rs). unfold capacity. nia. }
  intros n. cbn [negb Z.eqb]. set (s2 := after_read _ _ _).
  destruct (disk_bytes _ _ _ _ Hdisk 0) as [Hlen Hbytes].
  assert (near s2 BOOT_SECTOR_SEG 512 = D 0) as Hnear.
  { rewrite (near_holds s2 _ 512 (D 0)); [by rewrite take_ge by (rewrite Hlen; done)| |lia|lia].
    apply holds_store. }
  pose proof (fat_parse_spec s2) as Hparse. cbv zeta in Hparse. rewrite Hnear in Hparse.
  use_wp (Hparse Hbytes). intros r s3 (-> & t & ->).
  rewrite (fd_fields _ _ _ _ _ HF). cbn [andb].
  rewrite (derive_layout (D 0) Hbytes (fd_fields _ _ _ _ _ HF) (fd_data _ _ _ _ _ HF)).
  pose proof (fd_clusters _ _ _ _ _ HF). destruct (Z.ltb_spec (g_cluster_count (fat_layout (read_bpb (D 0)))) 4085); [|lia].
  split; [done|]. split; [by split|]. intros x Hx. simpl mem.
  rewrite getw_store_bytes, Hlen. change (u16 current_ds * 16 + u16 BOOT_SECTOR_SEG) with 0x7000. by decides.
Qed.

(** ** The main program *)

(** The entry the loader boots. *)
Definition kernel_entry (dir : list DirEntry) : option DirEntry :=
  match lookup_file (cstr "KERNEL     ") dir with
  | Some e => Some e
  | None => lookup_file (cstr "KERNEL  BIN") dir
  end.
Definition directory (D : Z → list Z) (s : boot) : list DirEntry :=
  root_directory D (g_first_root_dir_sector (fsd s)) (g_root_dir_sectors (fsd s)).

Lemma find_kernel_spec D s :
  mounted D s → root_ok s →
  wp find_kernel (λ r s', r = found <$> kernel_entry (directory D s) ∧ kept s s' ∧ own_kept s s') s.
Proof.
  intros HD Hroot. unfold find_kernel, kernel_entry. wp_step.
  use_wp (fat_find_file_spec D (cstr "KERNEL     ") s HD Hroot eq_refl).
  intros r s1 (-> & m & n & -> & Hm). fold (directory D s).
  assert (own_kept s (after_read s m n)) as Ho by (intros x Hx; apply Hm; lia).
  destruct (lookup_file (cstr "KERNEL     ") (directory D s)) as [e|]; simpl.
  { wp_step. split; [done|]. by split; [apply kept_read|]. }
  pose proof (kept_read s m n) as Hk.
  use_wp (fat_find_file_spec D (cstr "KERNEL  BIN") _ (mounted_kept _ _ _ Hk HD) (root_ok_kept _ _ Hk Hroot) eq_refl).
  intros r s2 (-> & m' & n' & -> & Hm'). split; [done|]. split; [by split|]. etrans; [exact Ho|].
  intros x Hx. apply Hm'. lia.
Qed.

(** ** Termination *)

(** An entry whose file fits in memory and whose link lies within the segment. *)
Definition fits (e : DirEntry) : Prop := firstCluster e ≤ 0x93FF ∧ fileSize e ≤ MAX_FILE.

(** What termination needs of the BIOS and the disk: sectors are 512 bytes, and a
    drive has at least one sector per track; the boot sector (cylinder 0, head 0,
    sector 1) asks for no more than the buffers hold (sectors of 512 bytes, nine
    for the table), and an entry called KERNEL fits.  Otherwise contents and
    failures are arbitrary. *)
Record bios_sane : Prop := {
  sane_sector : ∀ n dl ch cl dh bs, int13_read n dl ch cl dh = Some bs →
    length bs = 512%nat ∧ Forall (λ x, 0 ≤ x < 256) bs;
  sane_params : ∀ dl cl dh, int13_params dl = Some (cl, dh) → 0 < Z.land cl 0x3F;
  sane_boot : ∀ n dl bs, int13_read n dl 0 1 0 = Some bs → le16 bs 11 ≤ 512 ∧ le16 bs 22 ≤ 9;
  sane_kernel : ∀ n dl ch cl dh bs j, int13_read n dl ch cl dh = Some bs → 0 ≤ j < 16 →
    let e := entry_in bs j in
    name e ++ ext e = cstr "KERNEL     " ∨ name e ++ ext e = cstr "KERNEL  BIN" → fits e
}.

Definition bytes (m : gmap Z Z) : Prop := ∀ x, 0 ≤ getw m x < 256.

Record running (s : boot) : Prop := {
  run_bytes : bytes (mem s);
  run_spt : 0 < g_sectors_per_track s;
  run_heads : 0 < g_num_heads s
}.

Lemma running_kept s s' : running s → kept s s' → bytes (mem s') → running s'.
Proof. intros [_ ? ?] [_ Es Eh _ _] Hb. split; [done|by rewrite Es|by rewrite Eh]. Qed.

Lemma bytes_store m a bs : bytes m → Forall (λ x, 0 ≤ x < 256) bs → bytes (store_bytes m a bs).
Proof.
  intros Hm Hbs x. rewrite getw_store_bytes. case_decide; [|done].
  by apply (byte_range bs).
Qed.

(** [stays s]: the loader runs on, with the variables of [s]. *)
Definition stays (s s' : boot) : Prop := kept s s' ∧ running s'.

Lemma stays_refl s : running s → stays s s.
Proof. by split. Qed.
Lemma stays_trans s1 s2 s3 : stays s1 s2 → stays s2 s3 → stays s1 s3.
Proof. intros [H1 _] [H2 ?]. split; [by etrans|done]. Qed.
Lemma stays_tty s s' t : stays s s' → stays s (set_tty t s').
Proof. intros [Hk Hr]. split; [etrans; [exact Hk|apply kept_tty]|by destruct Hr]. Qed.

Section termination.
Hypothesis Hbios : bios_sane.

(** A read that succeeds leaves a sector the BIOS delivered. *)
Lemma disk_read_sector_delivers lba segment offset s :
  running s → wp (disk_read_sector lba segment offset) (λ r s', stays s s' ∧
    (r = 0 → ∃ n bs, int13_block n (g_drive s) (g_sectors_per_track s) (g_num_heads s) (u32 lba) = Some bs ∧
                     holds (mem s') (u16 segment * 16 + u16 offset) bs)) s.
Proof.
  intros [Hb Hspt Hheads]. apply disk_read_sector_calls; [done|done|..].
  - intros i bs _ Hbs _. pose proof (sane_sector Hbios _ _ _ _ _ _ Hbs) as [_ Hbytes]. split.
    + split; [apply kept_read|]. split; [by apply bytes_store|done|done].
    + intros _. eexists _, bs. split; [exact Hbs|apply holds_store].
  - intros _. split; [|done]. split; [apply kept_read|]. by split.
Qed.

Lemma disk_read_sector_total lba segment offset s :
  running s → wp (disk_read_sector lba segment offset) (λ _, stays s) s.
Proof. intros Hr. use_wp (disk_read_sector_delivers lba segment offset s Hr). by intros r s' [? _]. Qed.

Lemma near_bytes s off n : running s → Forall (λ x, 0 ≤ x < 256) (near s off n).
Proof. intros Hr. unfold near. apply Forall_fmap, Forall_true. intros i. apply (run_bytes _ Hr). Qed.

Lemma near_length s off n : 0 ≤ n → length (near s off n) = Z.to_nat n.
Proof. intros. unfold near, range. rewrite length_fmap, length_seqZ. f_equal. lia. Qed.

(** What a search may find. *)
Definition findable (r : option (Z * Z)) : Prop :=
  match r with Some (c, size) => c ≤ 0x93FF ∧ 0 ≤ size ≤ MAX_FILE | None => True end.

Lemma entry_size_nonneg bs j : Forall (λ x, 0 ≤ x < 256) bs → 0 ≤ fileSize (entry_in bs j).
Proof.
  intros Hb. assert (Forall (λ x, 0 ≤ x < 256) (take 32 (drop (Z.to_nat (32 * j)) bs))) as Hf
    by by apply Forall_take, Forall_drop.
  unfold entry_in. set (b := take 32 _) in *. clearbody b. unfold parse_entry. cbn [fileSize].
  pose proof (byte_range b 28 Hf). pose proof (byte_range b 29 Hf).
  pose proof (byte_range b 30 Hf). pose proof (byte_range b 31 Hf). lia.
Qed.

Lemma scan_found name83 e0 e : scan name83 e0 = Some (Some e) → e = e0 ∧ name e ++ ext e = name83.
Proof.
  unfold scan. destruct (_ =? 0); [done|]. destruct (is_file e0 && _) eqn:E; [|done].
  intros [= <-]. apply andb_true_iff in E as [_ E]. by apply bool_decide_eq_true in E.
Qed.

Lemma fat_find_file_total name83 s :
  running s → g_bytes_per_sector (fs s) ≤ 512 → name83 = cstr "KERNEL     " ∨ name83 = cstr "KERNEL  BIN" →
  wp (fat_find_file name83) (λ r s', stays s s' ∧ findable r) s.
Proof.
  intros Hr Hbps Hname. assert (length name83 = 11%nat) as Hlen by by destruct Hname as [-> | ->].
  unfold fat_find_file. do 3 wp_step. apply (wp_mfor_ret_inv (stays s)).
  - by apply stays_refl.
  - intros i s1 Hs1. wp_step. use_wp (disk_read_sector_delivers _ _ _ s1 (proj2 Hs1)).
    intros r s2 [Hs2 Hread]. assert (stays s s2) as Hs by by eapply stays_trans. clear Hs2.
    destruct (Z.eqb_spec r 0) as [->|]; cbn [negb]; [|wp_step; by wp_step].
    destruct (Hread eq_refl) as (n & bs & Hbs & Hh). clear Hread. unfold int13_block in Hbs.
    destruct (sane_sector Hbios _ _ _ _ _ _ Hbs) as [Hl Hb].
    set (entries := g_bytes_per_sector (fs s) / 32).
    assert (entries ≤ 16) by (unfold entries; apply Z.div_le_upper_bound; lia).
    destruct (decide (0 ≤ entries)); [|by unfold range; rewrite seqZ_nil by lia].
    apply (wp_mfor_ret_range (λ _ s', s' = s2)); [done|done| |by intros s' ->].
    intros j s' Hj ->. use_wp (scan_turn name83 bs s2 j Hlen Hl Hb Hh); [lia|]. intros o s3 [-> ->].
    destruct (scan _ _) as [[e|]|] eqn:Hscan; [| |done]; wp_step; (split; [done|]); [|done].
    apply scan_found in Hscan as [-> Hne].
    destruct (sane_kernel Hbios _ _ _ _ _ _ j Hbs ltac:(lia)) as [Hc Hsz]; [rewrite Hne; tauto|].
    split; [done|]. split; [by apply entry_size_nonneg|done].
  - intros s1 Hs1. by wp_step.
Qed.

Lemma fat_read_table_total s : running s → wp fat_read_table (λ _, stays s) s.
Proof.
  intros Hr. unfold fat_read_table. do 3 wp_step. apply (wp_mfor_ret_inv (stays s)).
  - by apply stays_refl.
  - intros i s1 Hs1. wp_step. use_wp (disk_read_sector_total _ _ _ s1 (proj2 Hs1)).
    intros r s2 Hs2. assert (stays s s2) by by eapply stays_trans. wp_step. by destruct (negb _).
  - intros s1 Hs1. by wp_step.
Qed.

(** A sector that is read takes at least one byte off what remains. *)
Lemma load_cluster_total n lba linear R s :
  running s → 1 ≤ g_bytes_per_sector (fs s) → 0 ≤ R < 2 ^ 32 →
  wp (load_cluster n lba linear R) (λ r s', stays s s' ∧
    match r with Some (_, R') => 0 ≤ R' ≤ R ∧ (0 < R → (0 < n)%nat → R' < R) | None => True end) s.
Proof.
  revert lba linear R s. induction n as [|n IH]; intros lba linear R s Hr Hbps HR; cbn [load_cluster].
  { wp_step. split; [by apply stays_refl|]. lia. }
  destruct (Z.eqb_spec R 0); [wp_step; split; [by apply stays_refl|]; lia|].
  wp_step. wp_step. wp_step. use_wp (disk_read_sector_total _ _ _ s Hr).
  intros r s1 Hs1. destruct (negb (r =? 0)); [by wp_step|].
  set (chunk := if R <? _ then R else _).
  assert (1 ≤ chunk ≤ R) as Hc by (unfold chunk; destruct (Z.ltb_spec R (g_bytes_per_sector (fs s))); lia).
  rewrite (u32_small (R - chunk)) by lia.
  use_wp (IH _ _ (R - chunk) s1); [apply Hs1|by rewrite (kept_fs _ _ (proj1 Hs1))|lia|].
  intros r' s2 [Hs2 Hres]. split; [by eapply stays_trans|]. destruct r' as [[l' R']|]; [|done]. lia.
Qed.

(** Any link of the table is small. *)
Lemma next_cluster_total c s :
  0 ≤ c ≤ 0x93FF → wp (fat12_next_cluster FAT_SEG c) (λ c' s', s' = s ∧ 0 ≤ c' ≤ 0x93FF) s.
Proof.
  intros Hc. unfold fat12_next_cluster. wp_step. wp_step. unfold FAT_SEG.
  assert (0 ≤ c / 2 ≤ c / 2) by (split; [apply Z.div_pos; lia|lia]). pose proof (Z.mul_div_le c 2 ltac:(lia)).
  rewrite (u16_small (c + c / 2)) by lia.
  destruct (Z.leb_spec 0x10000 (0x2200 + (c + c / 2) + 1)); [lia|]. wp_step. split; [done|].
  change 0x0FFF with (2 ^ 12 - 1). rewrite !land_ones_mod by lia.
  assert (∀ x, 0 ≤ u16 (x `mod` 2 ^ 12) ≤ 0x93FF) as Hm.
  { intros x. pose proof (Z.mod_pos_bound x (2 ^ 12) ltac:(lia)). rewrite u16_small; lia. }
  destruct (negb _); apply Hm.
Qed.

Lemma load_loop_total fuel c linear R s :
  0 ≤ c ≤ 0x93FF → running s → 1 ≤ g_bytes_per_sector (fs s) → 1 ≤ g_sectors_per_cluster (fs s) →
  0 ≤ R < 2 ^ 32 → R ≤ Z.of_nat fuel →
  wp (load_loop fuel c linear R) (λ _, stays s) s.
Proof.
  revert c linear R s. induction fuel as [|fuel IH]; intros c linear R s Hc Hr Hbps Hspc HR Hfuel; cbn [load_loop].
  all: destruct (Z.eqb_spec R 0); [wp_step; by apply stays_refl|].
  1: lia.
  do 3 wp_step. use_wp (load_cluster_total _ _ _ _ s Hr Hbps HR).
  intros [[l' R']|] s1 [Hs1 Hres]; [|by wp_step].
  destruct (Z.eqb_spec R' 0); [by wp_step|]. wp_step.
  use_wp (next_cluster_total c s1 Hc). intros c' s' [-> Hc'].
  repeat (lazymatch goal with |- wp (if ?b then _ else _) _ _ => destruct b end; [by wp_step|]).
  pose proof (kept_fs _ _ (proj1 Hs1)) as Efs.
  use_wp (IH c' l' R' s1 Hc' (proj2 Hs1)); [by rewrite Efs|by rewrite Efs|lia|lia|].
  intros r s2 Hs2. by eapply stays_trans.
Qed.

Lemma fat_load_file_total c size dst s :
  c ≤ 0x93FF → running s → 1 ≤ g_bytes_per_sector (fs s) → 1 ≤ g_sectors_per_cluster (fs s) →
  0 ≤ size < 2 ^ 32 →
  wp (fat_load_file c size dst) (λ _, stays s) s.
Proof.
  intros Hc Hr Hbps Hspc Hsize. unfold fat_load_file.
  destruct (Z.ltb_spec c 2); [wp_step; by apply stays_refl|].
  wp_step. use_wp (fat_read_table_total s Hr). intros r s1 Hs1. destruct (negb _); [by wp_step|].
  pose proof (kept_fs _ _ (proj1 Hs1)) as Efs.
  use_wp (load_loop_total _ c _ size s1 ltac:(lia) (proj2 Hs1)); [by rewrite Efs|by rewrite Efs|lia|lia|].
  intros r' s2 Hs2. by eapply stays_trans.
Qed.

Lemma wp_print_stays str s s1 : stays s s1 → wp (bios_print (cstr str)) (λ _, stays s) s1.
Proof. intros Hs. apply wp_bios_print. by apply stays_tty. Qed.

Lemma debug_print_name83_total b s s1 : stays s s1 → wp (debug_print_name83 b) (λ _, stays s) s1.
Proof.
  intros Hs. unfold debug_print_name83. apply (wp_mfor (λ _ _, stays s)); [done| |done].
  intros dn c rest s2 _ Hs2. unfold bios_print_char. wp_step. by apply stays_tty.
Qed.

Lemma dump_sector_total js printed s s1 :
  Forall (λ j, 0 ≤ j < 16) js → stays s s1 → wp (dump_sector js printed) (λ _, stays s) s1.
Proof.
  intros Hjs. revert printed s1. induction Hjs as [|j js Hj Hjs IH]; intros printed s1 Hs; cbn [dump_sector];
    [by wp_step|].
  destruct (12 <=? printed); [by wp_step|]. wp_step. apply read_near_entry; [done|]. wp_step.
  set (b := near s1 _ 32). assert (length b = 32%nat) as Hb by by apply (near_length s1 _ 32).
  eapply wp_lift; [apply dir_entry_spec; [done|apply near_bytes, Hs]|]. wp_step. clearbody b.
  eapply wp_lift; [apply (aget_byte _ 0); unfold parse_entry; cbn [name]; rewrite length_take; lia|]. cbv beta.
  destruct (_ =? 0); [by wp_step|]. destruct (_ || _); [by apply IH|]. destruct (_ || _); [by apply IH|].
  wp_step. use_wp (wp_print_stays _ _ _ Hs). intros _ s2 Hs2. wp_step.
  use_wp (debug_print_name83_total _ _ _ Hs2). intros _ s3 Hs3. wp_step.
  use_wp (wp_print_stays _ _ _ Hs3). intros _ s4 Hs4. by apply IH.
Qed.

Lemma dump_sectors_total sectors root_lba entries printed s s1 :
  entries ≤ 16 → stays s s1 → wp (dump_sectors sectors root_lba entries printed) (λ _, stays s) s1.
Proof.
  intros He. revert printed s1.
  induction sectors as [|i sectors IH]; intros printed s1 Hs1; cbn [dump_sectors]; [by wp_step|].
  wp_step. use_wp (disk_read_sector_total _ _ _ s1 (proj2 Hs1)). intros r s2 Hs2.
  assert (stays s s2) as Hs by by eapply stays_trans. destruct (negb _); [by apply wp_print_stays|].
  wp_step. use_wp (dump_sector_total (range 0 entries) printed s s2); [|done|].
  - apply Forall_forall. intros j Hj%elem_of_seqZ. lia.
  - intros [p|] s3 Hs3; [by apply IH|by wp_step].
Qed.

Lemma debug_dump_root_dir_total s s1 :
  g_bytes_per_sector (fs s1) ≤ 512 → stays s s1 → wp debug_dump_root_dir (λ _, stays s) s1.
Proof.
  intros Hbps Hs. unfold debug_dump_root_dir. do 3 wp_step.
  use_wp (wp_print_stays _ _ _ Hs). intros _ s2 Hs2. apply dump_sectors_total; [|done].
  apply Z.div_le_upper_bound; lia.
Qed.

(** Block 0 is cylinder 0, head 0, sector 1 in every geometry. *)
Lemma int13_block_zero n drive spt heads : int13_block n drive spt heads 0 = int13_read n drive 0 1 0.
Proof. unfold int13_block. by rewrite Zdiv_0_l, Zmod_0_l, Zdiv_0_l, Zmod_0_l. Qed.

(** What the loader needs of a volume it goes on with. *)
Definition usable (p : bpb) : Prop :=
  1 ≤ g_bytes_per_sector p ≤ 512 ∧ 1 ≤ g_sectors_per_cluster p.

Lemma usable_bpb b :
  Forall (λ x, 0 ≤ x < 256) b → le16 b 11 ≤ 512 → fields_ok (read_bpb b) = true → usable (read_bpb b).
Proof.
  intros Hb Hle Hok. unfold usable. set (p := read_bpb b) in *. unfold fields_ok in Hok.
  assert (0 ≤ g_bytes_per_sector p ≤ 512).
  { change (0 ≤ byte b 11 + 256 * byte b 12 ≤ 512). change (byte b 11 + 256 * byte b 12 ≤ 512) in Hle.
    pose proof (byte_range _ 11 Hb). pose proof (byte_range _ 12 Hb). lia. }
  assert (0 ≤ g_sectors_per_cluster p) by apply (byte_range _ 13 Hb).
  destruct (Z.eqb_spec (g_bytes_per_sector p) 0); [done|].
  destruct (Z.eqb_spec (g_sectors_per_cluster p) 0); [done|]. lia.
Qed.

(** After a successful [fat_init] the loader runs, on a volume it can use. *)
Lemma fat_init_total drive s :
  bytes (mem s) → wp (fat_init drive) (λ r s', r = 0 → running s' ∧ usable (fs s')) s.
Proof.
  intros Hb. unfold fat_init. wp_step. wp_step. wp_step. unfold disk_get_params. do 3 wp_step. wp_step.
  simpl g_drive. destruct (int13_params drive) as [[cl dh]|] eqn:Hp; [|wp_step; cbn [negb Z.eqb]; by wp_step].
  apply (sane_params Hbios) in Hp. do 3 wp_step. cbn [negb Z.eqb]. wp_step. set (s1 := set_geometry _ _ _).
  assert (running s1) as Hr1.
  { split; [done|exact Hp|]. simpl. pose proof (u8_range dh). rewrite u16_small; lia. }
  use_wp (disk_read_sector_delivers 0 _ _ s1 Hr1). intros r s2 [Hs2 Hread].
  destruct (Z.eqb_spec r 0) as [->|]; cbn [negb]; [|by wp_step].
  destruct (Hread eq_refl) as (n & bs & Hbs & Hh). rewrite int13_block_zero in Hbs.
  destruct (sane_sector Hbios _ _ _ _ _ _ Hbs) as [Hl Hbytes].
  assert (near s2 BOOT_SECTOR_SEG 512 = bs) as Hnear.
  { rewrite (near_holds s2 _ 512 bs); [by rewrite take_ge by (rewrite Hl; done)|exact Hh|lia|lia]. }
  pose proof (fat_parse_spec s2) as Hparse. cbv zeta in Hparse. rewrite Hnear in Hparse.
  use_wp (Hparse Hbytes). intros r' s3 (-> & t & ->).
  destruct (fields_ok (read_bpb bs)) eqn:Hok; [|done]. intros _. split; [destruct Hs2 as [_ []]; by split|].
  apply usable_bpb; [done|by eapply sane_boot|done].
Qed.

Lemma find_kernel_total s :
  running s → g_bytes_per_sector (fs s) ≤ 512 →
  wp find_kernel (λ r s', stays s s' ∧ findable r) s.
Proof.
  intros Hr Hbps. unfold find_kernel. wp_step.
  use_wp (fat_find_file_total (cstr "KERNEL     ") s Hr Hbps (or_introl eq_refl)).
  intros [f|] s1 [Hs1 Hsize]; [by wp_step|].
  use_wp (fat_find_file_total (cstr "KERNEL  BIN") s1 (proj2 Hs1)); [by rewrite (kept_fs _ _ (proj1 Hs1))|by right|].
  intros r s2 [Hs2 Hr2]. split; [by eapply stays_trans|done].
Qed.

Lemma stage2_main_total s : bytes (mem s) → wp stage2_main (λ _ _, True) s.
Proof.
  intros Hb. unfold stage2_main. wp_step. apply wp_bios_print. do 3 wp_step.
  use_wp (fat_init_total _ (set_tty _ s)); [done|]. intros r s1 Hs1.
  destruct (Z.eqb_spec r 0) as [->|]; cbn [negb].
  2:{ wp_step. apply wp_bios_print. by wp_step. }
  destruct (Hs1 eq_refl) as (Hr & [Hbps Hbps'] & Hspc).
  wp_step. use_wp (wp_print_stays _ _ _ (stays_refl _ Hr)). intros _ s2 Hs2. wp_step.
  use_wp (find_kernel_total s2 (proj2 Hs2)); [by rewrite (kept_fs _ _ (proj1 Hs2))|].
  intros f s3 [Hs3 Hf]. assert (stays s1 s3) as Hs by by eapply stays_trans.
  pose proof (kept_fs _ _ (proj1 Hs)) as Efs. destruct f as [[c size]|].
  - destruct Hf as [Hc Hsize]. unfold MAX_FILE in Hsize. wp_step.
    use_wp (fat_load_file_total c size KERNEL_SEG s3 Hc (proj2 Hs)); [by rewrite Efs|by rewrite Efs|lia|].
    intros r s4 _. destruct (negb _); wp_step; apply wp_bios_print; by wp_step.
  - wp_step. use_wp (debug_dump_root_dir_total s1 s3); [by rewrite Efs|done|]. intros _ s4 _.
    wp_step. apply wp_bios_print. by wp_step.
Qed.

End termination.

(** C29. The loader reaches a verdict: whatever the sectors contain (cyclic or broken
    chains, a directory of any kind) and whichever reads fail, [stage2_main] either
    jumps to the kernel or hangs with a message, and never reads outside its
    segment, as long as the boot sector asks for no more than the buffers hold and
    a file KERNEL fits below 1 MiB. *)
Theorem stage2_main_terminates s :
  bios_sane → bytes (mem s) → ∃ o s', stage2_main s = Some (o, s').
Proof.
  intros Hbios Hb. destruct (proj1 (wp_inv _ _ _) (stage2_main_total Hbios s Hb)) as (o & s' & E & _).
  by exists o, s'.
Qed.

(** The contents of the volume are those of any state that is kept. *)
Lemma contents_kept D s s' :
  kept s s' → clusters_needed s' = clusters_needed s ∧ cluster_bytes D s' = cluster_bytes D s ∧
  directory D s' = directory D s.
Proof.
  intros [_ _ _ Ef Ed]. unfold clusters_needed, cluster_bytes, directory. by rewrite Ef, Ed.
Qed.

(** The whole run on a bootable disk. *)
Lemma stage2_main_spec D table cl dh e s :
  fat12_disk D table cl dh s →
  let rs := ready D cl dh s in
  kernel_entry (directory D rs) = Some e →
  2 ≤ firstCluster e < Z.of_nat (length table) → 0 ≤ fileSize e ≤ MAX_FILE →
  ∃ o s', stage2_main s = Some (o, s') ∧ own_kept s s' ∧
    match chain table (clusters_needed rs (fileSize e)) (firstCluster e) with
    | Some l => o = JumpToKernel ∧
                holds (mem s') 0x9000 (take (Z.to_nat (fileSize e)) (l ≫= cluster_bytes D rs))
    | None => o = Hang
    end.
Proof.
  intros HF rs He Hc Hsize. apply wp_inv. unfold stage2_main. wp_step. apply wp_bios_print. do 3 wp_step.
  set (s1 := set_tty _ s). use_wp (fat_init_spec D table cl dh s1 (fat12_disk_tty _ _ _ _ _ _ HF)).
  intros r s2 (-> & Hk2 & Ho2). cbn [negb Z.eqb]. wp_step. apply wp_bios_print. wp_step. set (s3 := set_tty _ s2).
  assert (kept rs s3) as Hk3.
  { etrans; [|apply kept_tty]. etrans; [|exact Hk2]. by split. }
  pose proof (volume_kept _ _ _ _ Hk3 (fd_volume _ _ _ _ _ HF)) as HV3.
  use_wp (find_kernel_spec D s3 (vol_mounted _ _ _ HV3) (root_ok_kept _ _ Hk3 (fd_root _ _ _ _ _ HF))).
  intros r s4 (-> & Hk4 & Ho4). assert (kept rs s4) as Hk by by etrans.
  assert (own_kept s s4) as Ho by (transitivity s2; [exact Ho2|exact Ho4]).
  destruct (contents_kept D rs s3 Hk3) as (_ & _ & ->). rewrite He. cbn [fmap option_fmap option_map found].
  destruct (contents_kept D rs s4 Hk) as (En & Eb & _).
  wp_step. use_wp (fat_load_file_spec D table _ _ s4 (volume_kept _ _ _ _ Hk (fd_volume _ _ _ _ _ HF)) Hc Hsize).
  intros r s5 (m & k & -> & Hm & Hres). rewrite En, Eb in Hres.
  assert (own_kept s (after_read s4 m k)) as Ho5 by (etrans; [exact Ho|]; intros x Hx; apply Hm; lia).
  destruct (chain _ _ _) as [l|].
  - destruct Hres as [-> Hh]. cbn [negb Z.eqb]. wp_step. apply wp_bios_print. by wp_step.
  - subst r. cbn [negb Z.eqb]. wp_step. apply wp_bios_print. by wp_step.
Qed.

(** C3. The loader boots: on a disk with a FAT12 volume whose root directory has an
    entry for the kernel (KERNEL, else KERNEL.BIN), [stage2_main] follows the chain
    of the entry's clusters.  If the chain is as long as the size needs, the loader
    jumps to the kernel with exactly the bytes of the file in memory from 0x9000
    on; if the chain is broken, it hangs.  Its own image and stack are never
    overwritten.  The layout of the volume is read off the
    boot sector alone. *)
Theorem stage2_main_boots D table cl dh e s :
  fat12_disk D table cl dh s →
  let rs := ready D cl dh s in
  kernel_entry (directory D rs) = Some e →
  2 ≤ firstCluster e < Z.of_nat (length table) → 0 ≤ fileSize e ≤ MAX_FILE →
  ∃ o s', stage2_main s = Some (o, s') ∧ own_kept s s' ∧
    match chain table (clusters_needed rs (fileSize e)) (firstCluster e) with
    | Some l => o = JumpToKernel ∧
                holds (mem s') 0x9000 (take (Z.to_nat (fileSize e)) (l ≫= cluster_bytes D rs))
    | None => o = Hang
    end.
Proof. apply stage2_main_spec. Qed.

End loader.

(** ** On the small disk *)

#[local] Existing Instance demo_bios.

(** The only entry called KERNEL is small. *)
Lemma demo_entries_fit lba j :
  0 ≤ j < 16 → let e := entry_in (demo_disk lba) j in
  name e ++ ext e = cstr "KERNEL     " ∨ name e ++ ext e = cstr "KERNEL  BIN" → fits e.
Proof.
  intros Hj. assert (j ∈ range 0 16) as Hin by (apply elem_of_seqZ; lia).
  set (P bs j := let e := entry_in bs j in
    name e ++ ext e = cstr "KERNEL     " ∨ name e ++ ext e = cstr "KERNEL  BIN" → fits e).
  change (P (demo_disk lba) j). assert (∀ bs, bool_decide (Forall (P bs) (range 0 16)) = true → P bs j) as Hall.
  { intros bs Hb%bool_decide_eq_true. rewrite Forall_forall in Hb. by apply Hb. }
  apply Hall. unfold demo_disk, demo_sector. repeat case_match; by vm_compute.
Qed.

Lemma demo_bios_sane : bios_sane.
Proof.
  split.
  - intros n dl ch cl dh bs Hr. unfold int13_read, demo_bios in Hr. destruct (_ =? 0); [done|].
    injection Hr as <-. apply pad512_ok, demo_sector_bytes.
  - by intros dl cl dh [= <- <-].
  - intros n dl bs Hr. unfold int13_read, demo_bios in Hr. destruct (_ =? 0); [done|].
    injection Hr as <-. split; vm_compute; intros [=].
  - intros n dl ch cl dh bs j Hr Hj. unfold int13_read, demo_bios in Hr. destruct (_ =? 0); [done|].
    injection Hr as <-. apply demo_entries_fit. lia.
Qed.

Lemma demo_bytes : bytes (mem demo_boot).
Proof. intros x. unfold getw. simpl. rewrite lookup_empty. simpl. lia. Qed.

Lemma demo_ready : ready demo_disk 18 1 demo_boot = demo_mounted.
Proof. by vm_compute. Qed.

Lemma demo_fat12_disk : fat12_disk demo_disk demo_table 18 1 demo_boot.
Proof.
  split; [done|by vm_compute|by vm_compute|by vm_compute| |]; rewrite demo_ready.
  - exact demo_volume.
  - exact demo_root_ok.
Qed.

(** The loader reaches a verdict on the small disk. *)
Lemma stage2_main_terminates_witness :
  bios_sane ∧ bytes (mem demo_boot) ∧ ∃ o s', stage2_main demo_boot = Some (o, s').
Proof.
  split; [exact demo_bios_sane|]. split; [exact demo_bytes|].
  exact (stage2_main_terminates demo_boot demo_bios_sane demo_bytes).
Defined.

(** It boots the kernel of 600 bytes. *)
Lemma stage2_main_boots_witness :
  fat12_disk demo_disk demo_table 18 1 demo_boot ∧
  ∃ s', stage2_main demo_boot = Some (JumpToKernel, s') ∧
        holds (mem s') 0x9000 (replicate 512 7 ++ replicate 88 9).
Proof.
  split; [exact demo_fat12_disk|].
  set (e := mkDirEntry (cstr "KERNEL  ") (cstr "   ") 0x20 2 600).
  destruct (stage2_main_boots demo_disk demo_table 18 1 e demo_boot demo_fat12_disk)
    as (o & s' & E & _ & Hres); rewrite ?demo_ready.
  - vm_compute. reflexivity.
  - simpl. lia.
  - unfold MAX_FILE. simpl. lia.
  - rewrite demo_ready in Hres.
    assert (chain demo_table (clusters_needed demo_mounted (fileSize e)) (firstCluster e) = Some [2; 3]) as Ec
      by (vm_compute; reflexivity).
    rewrite Ec in Hres. destruct Hres as [-> Hres]. exists s'. split; [exact E|].
    assert (take (Z.to_nat (fileSize e)) ([2; 3] ≫= cluster_bytes demo_disk demo_mounted)
            = replicate 512 7 ++ replicate 88 9) as Eb by (vm_compute; reflexivity).
    rewrite Eb in Hres. exact Hres.
Defined.

End Loader.
