(* ===== verification/Real.v ===== *)
(** * The 16-bit machine of the boot sectors

    boot.asm, entry.asm and disk.asm run in real mode: 16-bit registers with their byte
    halves, segments that are multiples of 16, memory by bytes, and the services of
    the BIOS as software interrupts.  This file gives that machine: the instructions
    that occur, with an executable step function.  Labels and the linker that places
    code are those of X86.v.  The BIOS is an interface, the class [Bios16]; what the
    second stage uses of it is an instance of [Boot.Stage2.Bios]. *)

From S2P Require Import Prelude Io X86 Boot.
Import Io.

Module Real.

Abbreviation Sym := X86.Sym.
Abbreviation label := X86.label.

(** ** The machine *)

Inductive reg8 : Type := AL | AH | BL | BH | CL | CH | DL | DH.
Inductive reg16 : Type := AX | BX | CX | DX | SI | DI | BP | SP.

Record regs : Type := mkRegs {
  r_al : Z; r_ah : Z; r_bl : Z; r_bh : Z; r_cl : Z; r_ch : Z; r_dl : Z; r_dh : Z;
  r_si : Z; r_di : Z; r_bp : Z; r_sp : Z
}.
Definition get8 (r : reg8) (g : regs) : Z :=
  match r with
  | AL => r_al g | AH => r_ah g | BL => r_bl g | BH => r_bh g
  | CL => r_cl g | CH => r_ch g | DL => r_dl g | DH => r_dh g
  end.
Definition set8 (r : reg8) (v : Z) (g : regs) : regs :=
  let '(mkRegs al ah bl bh cl ch dl dh si di bp sp) := g in
  match r with
  | AL => mkRegs v ah bl bh cl ch dl dh si di bp sp | AH => mkRegs al v bl bh cl ch dl dh si di bp sp
  | BL => mkRegs al ah v bh cl ch dl dh si di bp sp | BH => mkRegs al ah bl v cl ch dl dh si di bp sp
  | CL => mkRegs al ah bl bh v ch dl dh si di bp sp | CH => mkRegs al ah bl bh cl v dl dh si di bp sp
  | DL => mkRegs al ah bl bh cl ch v dh si di bp sp | DH => mkRegs al ah bl bh cl ch dl v si di bp sp
  end.

(** A 16-bit value as its low and its high byte. *)
Definition lo_hi (v : Z) : Z * Z := (v `mod` 256, v / 256).
Definition word (p : Z * Z) : Z := p.1 + 256 * p.2.

Definition get16 (r : reg16) (g : regs) : Z * Z :=
  match r with
  | AX => (r_al g, r_ah g) | BX => (r_bl g, r_bh g) | CX => (r_cl g, r_ch g) | DX => (r_dl g, r_dh g)
  | SI => lo_hi (r_si g) | DI => lo_hi (r_di g) | BP => lo_hi (r_bp g) | SP => lo_hi (r_sp g)
  end.
Definition set16 (r : reg16) (p : Z * Z) (g : regs) : regs :=
  let '(mkRegs al ah bl bh cl ch dl dh si di bp sp) := g in
  match r with
  | AX => mkRegs p.1 p.2 bl bh cl ch dl dh si di bp sp | BX => mkRegs al ah p.1 p.2 cl ch dl dh si di bp sp
  | CX => mkRegs al ah bl bh p.1 p.2 dl dh si di bp sp | DX => mkRegs al ah bl bh cl ch p.1 p.2 si di bp sp
  | SI => mkRegs al ah bl bh cl ch dl dh (word p) di bp sp | DI => mkRegs al ah bl bh cl ch dl dh si (word p) bp sp
  | BP => mkRegs al ah bl bh cl ch dl dh si di (word p) sp | SP => mkRegs al ah bl bh cl ch dl dh si di bp (word p)
  end.

(** The flags that are used. *)
Record flagset : Type := mkFlags { f_cf : bool; f_zf : bool; f_if : bool; f_df : bool }.

(** [up]: the upper halves of the 32-bit registers; [calls]: the number of INT 13h
    calls made; [tty]: what has been printed, the last character first. *)
Record real : Type := mkReal {
  rg : regs;
  up : X86.gprs;
  sg : X86.segs;
  ip : Z;
  fl : flagset;
  cr0 : Z;
  gdtr : Z * Z;
  mem : gmap Z Z;
  tty : list Z;
  calls : Z;
  trace : list io_event
}.
Definition set_rg (x : regs) (s : real) : real :=
  mkReal x (up s) (sg s) (ip s) (fl s) (cr0 s) (gdtr s) (mem s) (tty s) (calls s) (trace s).
Definition set_up (x : X86.gprs) (s : real) : real :=
  mkReal (rg s) x (sg s) (ip s) (fl s) (cr0 s) (gdtr s) (mem s) (tty s) (calls s) (trace s).
Definition set_sg (x : X86.segs) (s : real) : real :=
  mkReal (rg s) (up s) x (ip s) (fl s) (cr0 s) (gdtr s) (mem s) (tty s) (calls s) (trace s).
Definition set_ip (x : Z) (s : real) : real :=
  mkReal (rg s) (up s) (sg s) x (fl s) (cr0 s) (gdtr s) (mem s) (tty s) (calls s) (trace s).
Definition set_fl (x : flagset) (s : real) : real :=
  mkReal (rg s) (up s) (sg s) (ip s) x (cr0 s) (gdtr s) (mem s) (tty s) (calls s) (trace s).
Definition set_cr0 (x : Z) (s : real) : real :=
  mkReal (rg s) (up s) (sg s) (ip s) (fl s) x (gdtr s) (mem s) (tty s) (calls s) (trace s).
Definition set_gdtr (x : Z * Z) (s : real) : real :=
  mkReal (rg s) (up s) (sg s) (ip s) (fl s) (cr0 s) x (mem s) (tty s) (calls s) (trace s).
Definition set_mem (x : gmap Z Z) (s : real) : real :=
  mkReal (rg s) (up s) (sg s) (ip s) (fl s) (cr0 s) (gdtr s) x (tty s) (calls s) (trace s).
Definition set_tty (x : list Z) (s : real) : real :=
  mkReal (rg s) (up s) (sg s) (ip s) (fl s) (cr0 s) (gdtr s) (mem s) x (calls s) (trace s).
Definition set_calls (x : Z) (s : real) : real :=
  mkReal (rg s) (up s) (sg s) (ip s) (fl s) (cr0 s) (gdtr s) (mem s) (tty s) x (trace s).

#[global] Instance real_HasPorts : HasPorts real := {
  get_trace := trace;
  set_trace t s := mkReal (rg s) (up s) (sg s) (ip s) (fl s) (cr0 s) (gdtr s) (mem s) (tty s) (calls s) t
}.

(** ** The BIOS

    [int13_sectors n al dl ch cl dh]: the bytes that the [n]-th INT 13h call with
    AH = 2 delivers for AL sectors, None with the carry flag; [int13_result n]: AL
    and AH after it.  A call that fails stores nothing and changes AX and the carry flag
    only.  [int13_reset n dl]: whether the call with AH = 0 sets the carry
    flag.  [int13_geometry dl]: CL and DH of the call with AH = 8, None with the carry
    flag; [int13_table dl]: the other registers it returns.  [int16_key n]: the key
    (AL and AH) that INT 16h waits for after [n] disk calls. *)
Record drive_table : Type := mkTable { dt_bl : Z; dt_ch : Z; dt_dl : Z; dt_es : Z; dt_di : Z }.
Class Bios16 := {
  int13_sectors : Z → Z → Z → Z → Z → Z → option (list Z);
  int13_result : Z → Z * Z;
  int13_reset : Z → Z → bool;
  int13_geometry : Z → option (Z * Z);
  int13_table : Z → drive_table;
  int16_key : Z → Z * Z
}.

(** The second stage reads one sector at a time. *)
#[global] Instance stage2_bios `{Bios16} : Stage2.Bios := {
  Stage2.int13_read n dl ch cl dh := int13_sectors n 1 dl ch cl dh;
  Stage2.int13_params := int13_geometry
}.

(** ** Code *)

Inductive instr : Type :=
| Cli | Sti | Cld | Stc | Hlt | Nop
| MovI (r : reg16) (v : Z)               (* mov r16, imm16 *)
| MovBI (r : reg8) (v : Z)               (* mov r8, imm8 *)
| MovB (d s : reg8)                      (* mov r8, r8 *)
| MovBM (r : reg8) (a : Z)               (* mov r8, [a] *)
| MovMB (a : Z) (r : reg8)               (* mov [a], r8 *)
| MovMI (a v : Z)                        (* mov byte [a], imm8 *)
| MovSR (s : X86.sreg) (r : reg16)       (* mov sreg, r16 *)
| MovRS (r : reg16) (s : X86.sreg)       (* mov r16, sreg *)
| Xor (d s : reg16)                      (* xor r16, r16 *)
| XorB (d s : reg8)                      (* xor r8, r8 *)
| OrB (d s : reg8)                       (* or r8, r8 *)
| OrBI (r : reg8) (v : Z)                (* or r8, imm8 *)
| AndBI (r : reg8) (v : Z)               (* and r8, imm8 *)
| TestB (d s : reg8)                     (* test r8, r8 *)
| ShlBI (r : reg8) (n : Z)               (* shl r8, imm8 *)
| IncB (r : reg8)                        (* inc r8 *)
| DecM (a : Z)                           (* dec byte [a] *)
| DivM (a : Z)                           (* div word [a] *)
| Push (r : reg16) | Pop (r : reg16)
| Pusha | Popa
| Jmp (l : label) | Jc (l : label) | Jnc (l : label) | Jz (l : label) | Jnz (l : label)
| JmpFar (s o : Z)                       (* jmp seg:off *)
| Call (l : label) | Ret
| Int (n : Z)
| Lodsb
| InAL (p : Z) | OutAL (p : Z)           (* in al, imm8 / out imm8, al *)
| Lgdt (a : Z)                           (* lgdt [a] *)
| MovEaxCr0 | OrEaxI (v : Z) | MovCr0Eax (* mov eax, cr0 / or eax, imm / mov cr0, eax *)
| MovMW (a : Z) (r : reg16)              (* mov [a], r16 *)
| MovWF (r : reg16) (n : Z)              (* mov r16, [ebp + n] *)
| MovzxW (r : reg16) (s : reg8)          (* movzx r16, r8 *)
| IncW (r : reg16) | DecW (r : reg16)    (* inc r16 / dec r16 *)
| PushE (r : X86.reg) | PopE (r : X86.reg)
| MovE (d s : X86.reg)                   (* mov r32, r32 *)
| MovEI (r : X86.reg) (v : Z)            (* mov r32, imm32 *)
| MovEF (r : X86.reg) (n : Z)            (* mov r32, [ebp + n] *)
| MovzxEB (r : X86.reg) (a : Z)          (* movzx r32, byte [a] *)
| MovzxEW (r : X86.reg) (a : Z)          (* movzx r32, word [a] *)
| XorE (d s : X86.reg)                   (* xor r32, r32 *)
| IncE (r : X86.reg)                     (* inc r32 *)
| ShrEI (r : X86.reg) (n : Z)            (* shr r32, imm8 *)
| DivE (r : X86.reg)                     (* div r32 *)
| Fall (l : label).                      (* no instruction: the code of [l] follows *)

Definition program : Type := label → list instr.

(** ** Instructions *)

Definition rd8 (r : reg8) : M real Z := gets (λ s, get8 r (rg s)).
Definition wr8 (r : reg8) (v : Z) : M real unit := modify (λ s, set_rg (set8 r v (rg s)) s).
Definition rd16 (r : reg16) : M real (Z * Z) := gets (λ s, get16 r (rg s)).
Definition wr16 (r : reg16) (p : Z * Z) : M real unit := modify (λ s, set_rg (set16 r p (rg s)) s).

(** The byte at DS:[a]; SS:[a] for the stack. *)
Definition get_seg (r : X86.sreg) (s : X86.segs) : Z :=
  match r with
  | X86.CS => X86.s_cs s | X86.DS => X86.s_ds s | X86.ES => X86.s_es s
  | X86.FS => X86.s_fs s | X86.GS => X86.s_gs s | X86.SS => X86.s_ss s
  end.
Definition linear (r : X86.sreg) (a : Z) (s : real) : Z := 16 * get_seg r (sg s) + u16 a.
Definition load (r : X86.sreg) (a : Z) : M real Z := gets (λ s, getw (mem s) (linear r a s)).
Definition store (r : X86.sreg) (a v : Z) : M real unit :=
  modify (λ s, set_mem (<[linear r a s := v]> (mem s)) s).

Definition push (p : Z * Z) : M real unit :=
  sp ← gets (λ s, u16 (r_sp (rg s) - 2));
  _ ← store X86.SS sp p.1;
  _ ← store X86.SS (sp + 1) p.2;
  modify (λ s, set_rg (set16 SP (lo_hi sp) (rg s)) s).
Definition pop : M real (Z * Z) :=
  sp ← gets (λ s, r_sp (rg s));
  a ← load X86.SS sp;
  b ← load X86.SS (sp + 1);
  _ ← modify (λ s, set_rg (set16 SP (lo_hi (u16 (sp + 2))) (rg s)) s);
  mret (a, b).

Definition set_cf (b : bool) : M real unit :=
  modify (λ s, set_fl (mkFlags b (f_zf (fl s)) (f_if (fl s)) (f_df (fl s))) s).
Definition set_zf (v : Z) : M real unit :=
  modify (λ s, set_fl (mkFlags (f_cf (fl s)) (v =? 0) (f_if (fl s)) (f_df (fl s))) s).
Definition set_if (b : bool) : M real unit :=
  modify (λ s, set_fl (mkFlags (f_cf (fl s)) (f_zf (fl s)) b (f_df (fl s))) s).
Definition set_df (b : bool) : M real unit :=
  modify (λ s, set_fl (mkFlags (f_cf (fl s)) (f_zf (fl s)) (f_if (fl s)) b) s).
(** The bitwise operations: CF is cleared. *)
Definition logic8 (r : reg8) (v : Z) : M real unit := _ ← set_cf false; _ ← set_zf v; wr8 r v.

(** The 32-bit registers, as their low and upper halves. *)
Definition low (r : X86.reg) : reg16 :=
  match r with
  | X86.EAX => AX | X86.EBX => BX | X86.ECX => CX | X86.EDX => DX
  | X86.ESI => SI | X86.EDI => DI | X86.EBP => BP | X86.ESP => SP
  end.
Definition get32 (r : X86.reg) (s : real) : Z := word (get16 (low r) (rg s)) + 65536 * X86.get_reg r (up s).
Definition halves (r : X86.reg) (p : Z * Z) (h : Z) (s : real) : real :=
  set_up (X86.set_reg r h (up s)) (set_rg (set16 (low r) p (rg s)) s).
Definition set32 (r : X86.reg) (v : Z) (s : real) : real := halves r (lo_hi (u16 v)) (v / 65536) s.

(** The word at SS:[EBP + n]: an address above the segment's limit faults. *)
Definition frame_word (n : Z) : M real (Z * Z) :=
  a ← gets (λ s, u32 (get32 X86.EBP s + n));
  if 0xFFFE <? a then undef else x ← load X86.SS a; y ← load X86.SS (a + 1); mret (x, y).

(** INT 10h, AH = 0Eh: teletype output of AL. *)
Definition int10 : M real unit :=
  ah ← rd8 AH;
  if ah =? 0x0E then al ← rd8 AL; modify (λ s, set_tty (al :: tty s) s) else undef.

(** INT 13h: AH = 2 reads AL sectors to ES:BX, AH = 0 resets the drive, AH = 8 returns
    its geometry. *)
Definition int13 `{Bios16} : M real unit :=
  g ← gets rg;
  n ← gets calls;
  _ ← modify (set_calls (n + 1));
  if r_ah g =? 2 then
    _ ← (match int13_sectors n (r_al g) (r_dl g) (r_ch g) (r_cl g) (r_dh g) with
         | Some bs =>
             _ ← modify (λ s, set_mem (Stage2.store_bytes (mem s) (linear X86.ES (word (get16 BX g)) s) bs) s);
             set_cf false
         | None => set_cf true
         end);
    wr16 AX (int13_result n)
  else if r_ah g =? 0 then _ ← set_cf (int13_reset n (r_dl g)); wr16 AX (int13_result n)
  else if r_ah g =? 8 then
    _ ← (match int13_geometry (r_dl g) with
         | Some (cl, dh) =>
             let t := int13_table (r_dl g) in
             _ ← wr8 BL (u8 (dt_bl t)); _ ← wr8 CL (u8 cl); _ ← wr8 CH (u8 (dt_ch t));
             _ ← wr8 DL (u8 (dt_dl t)); _ ← wr8 DH (u8 dh); _ ← wr16 DI (lo_hi (u16 (dt_di t)));
             _ ← modify (λ s, set_sg (X86.set_seg X86.ES (u16 (dt_es t)) (sg s)) s);
             set_cf false
         | None => set_cf true
         end);
    wr16 AX (int13_result n)
  else undef.

(** INT 16h, AH = 0: waits for a key. *)
Definition int16 `{Bios16} : M real unit :=
  ah ← rd8 AH;
  if ah =? 0 then n ← gets calls; wr16 AX (int16_key n) else undef.

Section exec.
Context `{Bios16} (dev : device) (K : X86.linker) (P : program).

(** The offset of an instruction in a code segment. *)
Definition off (cs : Z) (l : label) (n : nat) : Z := u16 (X86.addr K l n - 16 * cs).

Definition goto (l : label) : M real unit := modify (λ s, set_ip (off (X86.s_cs (sg s)) l 0) s).

Definition exec (i : instr) : M real unit :=
  match i with
  | Cli => set_if false
  | Sti => set_if true
  | Cld => set_df false
  | Stc => set_cf true
  | Hlt => undef
  | Nop => mret tt
  | MovI r v => wr16 r (lo_hi (u16 v))
  | MovBI r v => wr8 r (u8 v)
  | MovB d s => v ← rd8 s; wr8 d v
  | MovBM r a => v ← load X86.DS a; wr8 r v
  | MovMB a r => v ← rd8 r; store X86.DS a v
  | MovMI a v => store X86.DS a (u8 v)
  | MovSR s r => p ← rd16 r; modify (λ st, set_sg (X86.set_seg s (word p) (sg st)) st)
  | MovRS r s => v ← gets (λ st, get_seg s (sg st)); wr16 r (lo_hi v)
  | Xor d s =>
      x ← rd16 d; y ← rd16 s;
      _ ← set_cf false; _ ← set_zf (Z.lxor (word x) (word y)); wr16 d (lo_hi (Z.lxor (word x) (word y)))
  | XorB d s => x ← rd8 d; y ← rd8 s; logic8 d (Z.lxor x y)
  | OrB d s => x ← rd8 d; y ← rd8 s; logic8 d (Z.lor x y)
  | OrBI r v => x ← rd8 r; logic8 r (Z.lor x (u8 v))
  | AndBI r v => x ← rd8 r; logic8 r (Z.land x (u8 v))
  | TestB d s => x ← rd8 d; y ← rd8 s; _ ← set_cf false; set_zf (Z.land x y)
  | ShlBI r n =>
      x ← rd8 r;
      _ ← set_cf (Z.testbit x (8 - n)); _ ← set_zf (u8 (Z.shiftl x n)); wr8 r (u8 (Z.shiftl x n))
  | IncB r => x ← rd8 r; _ ← set_zf (u8 (x + 1)); wr8 r (u8 (x + 1))
  | DecM a => x ← load X86.DS a; _ ← set_zf (u8 (x - 1)); store X86.DS a (u8 (x - 1))
  | DivM a =>
      d0 ← load X86.DS a; d1 ← load X86.DS (a + 1);
      ax ← rd16 AX; dx ← rd16 DX;
      let d := word (d0, d1) in
      let n := word ax + 65536 * word dx in
      if (d =? 0) || (0xFFFF <? n / d) then undef
      else _ ← wr16 AX (lo_hi (n / d)); wr16 DX (lo_hi (n `mod` d))
  | Push r => p ← rd16 r; push p
  | Pop r => p ← pop; wr16 r p
  | Pusha =>
      g ← gets rg;
      _ ← push (get16 AX g); _ ← push (get16 CX g); _ ← push (get16 DX g); _ ← push (get16 BX g);
      _ ← push (get16 SP g); _ ← push (get16 BP g); _ ← push (get16 SI g); push (get16 DI g)
  | Popa =>
      di ← pop; si ← pop; bp ← pop; _ ← pop;
      b ← pop; d ← pop; c ← pop; a ← pop;
      _ ← wr16 DI di; _ ← wr16 SI si; _ ← wr16 BP bp;
      _ ← wr16 BX b; _ ← wr16 DX d; _ ← wr16 CX c; wr16 AX a
  | Jmp l | Fall l => goto l
  | Jc l => b ← gets (λ s, f_cf (fl s)); if (b : bool) then goto l else mret tt
  | Jnc l => b ← gets (λ s, f_cf (fl s)); if (b : bool) then mret tt else goto l
  | Jz l => b ← gets (λ s, f_zf (fl s)); if (b : bool) then goto l else mret tt
  | Jnz l => b ← gets (λ s, f_zf (fl s)); if (b : bool) then mret tt else goto l
  | JmpFar sel o =>
      c ← gets cr0;
      if Z.testbit c 0 then undef
      else _ ← modify (λ s, set_sg (X86.set_seg X86.CS sel (sg s)) s); modify (set_ip (u16 o))
  | Call l => a ← gets ip; _ ← push (lo_hi a); goto l
  | Ret => p ← pop; modify (set_ip (word p))
  | Int n => if n =? 0x10 then int10 else if n =? 0x13 then int13 else if n =? 0x16 then int16 else undef
  | Lodsb =>
      f ← gets fl; a ← gets (λ s, r_si (rg s));
      if f_df f then undef
      else v ← load X86.DS a; _ ← wr8 AL v; wr16 SI (lo_hi (u16 (a + 1)))
  | InAL p => v ← inb dev p; wr8 AL v
  | OutAL p => v ← rd8 AL; outb p v
  | Lgdt a =>
      b0 ← load X86.DS a; b1 ← load X86.DS (a + 1); b2 ← load X86.DS (a + 2);
      b3 ← load X86.DS (a + 3); b4 ← load X86.DS (a + 4);
      (* with a 16-bit operand the base has 24 bits *)
      modify (set_gdtr (word (b0, b1), word (b2, b3) + 65536 * b4))
  | MovEaxCr0 => v ← gets cr0; modify (set32 X86.EAX v)
  | OrEaxI v => x ← gets (get32 X86.EAX); _ ← set_cf false; _ ← set_zf (Z.lor x v); modify (set32 X86.EAX (Z.lor x v))
  | MovCr0Eax => v ← gets (get32 X86.EAX); modify (set_cr0 v)
  | MovMW a r => p ← rd16 r; _ ← store X86.DS a p.1; store X86.DS (a + 1) p.2
  | MovWF r n => p ← frame_word n; wr16 r p
  | MovzxW r s => v ← rd8 s; wr16 r (v, 0)
  | IncW r => p ← rd16 r; _ ← set_zf (u16 (word p + 1)); wr16 r (lo_hi (u16 (word p + 1)))
  | DecW r => p ← rd16 r; _ ← set_zf (u16 (word p - 1)); wr16 r (lo_hi (u16 (word p - 1)))
  | PushE r =>
      p ← rd16 (low r); h ← gets (λ s, X86.get_reg r (up s));
      _ ← push (lo_hi h); push p
  | PopE r => p ← pop; h ← pop; modify (halves r p (word h))
  | MovE d s =>
      p ← rd16 (low s); h ← gets (λ st, X86.get_reg s (up st)); modify (halves d p h)
  | MovEI r v => modify (set32 r (u32 v))
  | MovEF r n => p ← frame_word n; h ← frame_word (n + 2); modify (halves r p (word h))
  | MovzxEB r a => v ← load X86.DS a; modify (halves r (v, 0) 0)
  | MovzxEW r a => v ← load X86.DS a; w ← load X86.DS (a + 1); modify (halves r (v, w) 0)
  | XorE d s =>
      x ← gets (get32 d); y ← gets (get32 s);
      _ ← set_cf false; _ ← set_zf (Z.lxor x y); modify (set32 d (Z.lxor x y))
  | IncE r => x ← gets (get32 r); _ ← set_zf (u32 (x + 1)); modify (set32 r (u32 (x + 1)))
  | ShrEI r n =>
      x ← gets (get32 r);
      _ ← set_cf (Z.testbit x (n - 1)); _ ← set_zf (Z.shiftr x n); modify (set32 r (Z.shiftr x n))
  | DivE r =>
      d ← gets (get32 r); a ← gets (get32 X86.EAX); h ← gets (get32 X86.EDX);
      let n := a + 2 ^ 32 * h in
      if (d =? 0) || (0xFFFFFFFF <? n / d) then undef
      else _ ← modify (set32 X86.EAX (n / d)); modify (set32 X86.EDX (n `mod` d))
  end.

(** The instruction at CS:IP. *)
Definition fetch (s : real) : option (label * nat * instr) :=
  p ← X86.loc K (16 * X86.s_cs (sg s) + ip s);
  i ← P p.1 !! p.2;
  Some (p, i).

(** One instruction: IP is on the next one while it executes.  [Hlt] and the far
    jump after protection is enabled end the run. *)
Definition step : M real unit :=
  s ← gets id;
  match fetch s with
  | Some (l, n, i) => _ ← modify (set_ip (off (X86.s_cs (sg s)) l (S n))); exec i
  | None => undef
  end.

Definition stepR (s s' : real) : Prop := step s = Some (tt, s').

(** The code lies in the 64 KiB of a segment. *)
Definition placed (cs : Z) : Prop :=
  ∀ l n i, P l !! n = Some i → 0 ≤ X86.addr K l n - 16 * cs < 2 ^ 16.

Lemma fetch_at l n i s :
  placed (X86.s_cs (sg s)) → ip s = off (X86.s_cs (sg s)) l n → P l !! n = Some i → fetch s = Some (l, n, i).
Proof.
  intros Hp Hip Hi. pose proof (Hp l n i Hi) as Ha. unfold fetch. rewrite Hip. unfold off, u16.
  rewrite Z.mod_small by lia. replace (16 * _ + (_ - _)) with (X86.addr K l n) by lia.
  rewrite (X86.loc_addr K). simpl. by rewrite Hi.
Qed.

(** The instruction at [l], [n]. *)
Lemma real_exec l n i s (Q : real → Prop) :
  placed (X86.s_cs (sg s)) → ip s = off (X86.s_cs (sg s)) l n → P l !! n = Some i →
  wp (exec i) (λ _ s', eventually stepR s' Q) (set_ip (off (X86.s_cs (sg s)) l (S n)) s) → eventually stepR s Q.
Proof.
  intros Hp Hip Hi Hwp. apply wp_inv in Hwp as ([] & s1 & E & Hs).
  eapply eventually_step; [|exact Hs]. unfold stepR, step, mbind, M_bind, gets, id.
  by rewrite (fetch_at l n i s Hp Hip Hi).
Qed.
End exec.

(** A division that fits. *)
Lemma wp_div `{Bios16} dev K a d s (Q : unit → real → Prop) :
  let n := word (get16 AX (rg s)) + 65536 * word (get16 DX (rg s)) in
  word (getw (mem s) (linear X86.DS a s), getw (mem s) (linear X86.DS (a + 1) s)) = d → 1 ≤ d → n / d < 2 ^ 16 →
  Q tt (set_rg (set16 DX (lo_hi (n `mod` d)) (set16 AX (lo_hi (n / d)) (rg s))) s) →
  wp (exec dev K (DivM a)) Q s.
Proof.
  intros n Hd H1 Hq HQ. cbn [exec]. unfold load, rd16, wr16. wp_steps; rewrite Hd in *; fold n in Heqb |- *.
  - destruct (Z.eqb_spec d 0); [lia|]. destruct (Z.ltb_spec 0xFFFF (n / d)); [lia|done].
  - done.
Qed.

(** INT 13h with AH = 2. *)
Lemma wp_int13_read `{Bios16} dev K s (Q : unit → real → Prop) :
  let g := rg s in
  let n := calls s in
  let next cf m := mkReal (set16 AX (int13_result n) g) (up s) (sg s) (ip s)
                     (mkFlags cf (f_zf (fl s)) (f_if (fl s)) (f_df (fl s))) (cr0 s) (gdtr s) m (tty s) (n + 1) (trace s) in
  r_ah g = 2 →
  match int13_sectors n (r_al g) (r_dl g) (r_ch g) (r_cl g) (r_dh g) with
  | Some bs => Q tt (next false (Stage2.store_bytes (mem s) (linear X86.ES (word (get16 BX g)) s) bs))
  | None => Q tt (next true (mem s))
  end →
  wp (exec dev K (Int 0x13)) Q s.
Proof.
  intros g n next Hah HQ. cbn [exec]. change (0x13 =? 0x10) with false. change (0x13 =? 0x13) with true. cbv iota.
  unfold int13, set_cf, wr16. do 6 wp_step. fold g n. rewrite Hah. cbn [Z.eqb Pos.eqb]. wp_step.
  by destruct (int13_sectors _ _ _ _ _ _); wp_steps.
Qed.

(** ** Running code

    The state is kept as a record of its parts. *)

Lemma word_lo_hi v : word (lo_hi v) = v.
Proof. unfold word, lo_hi. simpl. pose proof (Z.div_mod v 256 ltac:(lia)). lia. Qed.
Lemma word_halves v : word ((lo_hi v).1, (lo_hi v).2) = v.
Proof. apply (word_lo_hi v). Qed.

Lemma split16 v : u16 v + 65536 * (v / 65536) = v.
Proof. unfold u16. change (2 ^ 16) with 65536. pose proof (Z.div_mod v 65536 ltac:(lia)). lia. Qed.

(** A word that was pushed. *)
Lemma pushed_word m a b v :
  a ≠ b → word (getw (<[b := (lo_hi v).2]> (<[a := (lo_hi v).1]> m)) a,
                getw (<[b := (lo_hi v).2]> (<[a := (lo_hi v).1]> m)) b) = v.
Proof.
  intros Hne. rewrite !getw_insert, (decide_False (P := b = a)), !decide_True by congruence. apply word_halves.
Qed.

(** Memory outside an interval, such as the stack that is used. *)
Definition same_outside (lo hi : Z) (m m' : gmap Z Z) : Prop := ∀ x, x < lo ∨ hi ≤ x → getw m' x = getw m x.

Lemma same_outside_trans lo hi lo' hi' m m1 m2 :
  same_outside lo' hi' m m1 → same_outside lo hi m1 m2 → lo ≤ lo' → hi' ≤ hi → same_outside lo hi m m2.
Proof. intros H1 H2 Hl Hh x Hx. rewrite H2 by done. apply H1. lia. Qed.
Lemma same_outside_push lo hi m a b v w :
  lo ≤ a < hi → lo ≤ b < hi → same_outside lo hi m (<[b := w]> (<[a := v]> m)).
Proof. intros Ha Hb x Hx. rewrite !getw_insert, !decide_False by lia. done. Qed.

Ltac real_norm :=
  cbv beta iota zeta delta [id rg up sg ip fl cr0 gdtr mem tty calls trace
       set_rg set_up set_sg set_ip set_fl set_cr0 set_gdtr set_mem set_tty set_calls
       get8 set8 get16 set16 low get32 halves set32 X86.get_reg X86.set_reg
       X86.g_eax X86.g_ecx X86.g_edx X86.g_ebx X86.g_esp X86.g_ebp X86.g_esi X86.g_edi r_al r_ah r_bl r_bh r_cl r_ch r_dl r_dh r_si r_di r_bp r_sp
       f_cf f_zf f_if f_df get_seg linear X86.set_seg X86.s_cs X86.s_ds X86.s_es X86.s_fs X86.s_gs X86.s_ss
       get_trace set_trace real_HasPorts];
  cbn [fst snd]; rewrite ?word_lo_hi, ?word_halves.
(** Closed numbers. *)
Ltac closed_num x := lazymatch x with Z0 => idtac | Zpos _ => idtac | Zneg _ => idtac end.
Ltac real_calc :=
  repeat match goal with
  | |- context [u16 ?x] => closed_num x; let v := eval vm_compute in (u16 x) in change (u16 x) with v
  | |- context [u32 ?x] => closed_num x; let v := eval vm_compute in (u32 x) in change (u32 x) with v
  | |- context [u8 ?x] => closed_num x; let v := eval vm_compute in (u8 x) in change (u8 x) with v
  | |- context [lo_hi ?x] => closed_num x; let v := eval vm_compute in (lo_hi x) in change (lo_hi x) with v
  end; cbn [fst snd].
(** The next instruction. *)
Ltac real_fetch := eapply real_exec; [done|reflexivity|reflexivity|cbn [exec]].
(** The same for an instruction with a lemma of its own. *)
Ltac real_at := eapply real_exec; [done|reflexivity|reflexivity|real_norm].
(** Conditions that compute are decided, others are left. *)
Ltac real_wp :=
  lazymatch goal with
  | |- wp (if ?b then _ else _) _ _ =>
      let v := eval vm_compute in b in
      lazymatch v with
      | true => change b with true; cbv iota
      | false => change b with false; cbv iota
      end
  | _ => wp_step; real_norm
  end.
Ltac real_run :=
  cbn [exec]; unfold push, pop, load, store, logic8, rd8, wr8, rd16, wr16, set_cf, set_zf, set_if, set_df, goto, outb, inb;
  repeat real_wp; real_calc.
Ltac real_step := real_fetch; real_run.
(** Offsets do not wrap: innermost first. *)
Ltac u16_steps :=
  repeat match goal with
  | |- context [u16 ?x] => lazymatch x with context [u16 _] => fail | _ => rewrite (u16_small x) by lia end
  end.

(** Bytes that were written one by one, read at index [j] of a list. *)
Ltac read_back j Hj :=
  repeat (destruct j as [|j];
    [injection Hj as <-; rewrite !getw_insert;
     repeat (first [rewrite decide_True by lia; done | rewrite decide_False by lia]) |]);
  done.

(** The registers on the stack, as [pusha] leaves them. *)
Definition saved (g : regs) : list Z :=
  let two v := [(lo_hi v).1; (lo_hi v).2] in
  two (r_di g) ++ two (r_si g) ++ two (r_bp g) ++ two (r_sp g) ++
  [r_bl g; r_bh g; r_dl g; r_dh g; r_cl g; r_ch g; r_al g; r_ah g].

Lemma wp_pusha `{Bios16} dev K g u cs ds es fs gs ss i f c gd m t n tr (Q : unit → real → Prop) :
  16 ≤ r_sp g < 2 ^ 16 →
  (∀ m', same_outside (16 * ss + r_sp g - 16) (16 * ss + r_sp g) m m' →
     Stage2.holds m' (16 * ss + r_sp g - 16) (saved g) →
     Q tt (mkReal (set16 SP (lo_hi (r_sp g - 16)) g) u (X86.mkSegs cs ds es fs gs ss) i f c gd m' t n tr)) →
  wp (exec dev K Pusha) Q (mkReal g u (X86.mkSegs cs ds es fs gs ss) i f c gd m t n tr).
Proof.
  destruct g as [al ah bl bh cl ch dl dh si di bp sp]. cbn [r_sp set16] in *. rewrite word_lo_hi. intros Hsp HQ.
  real_run. u16_steps.
  match goal with |- Q tt (mkReal _ _ _ _ _ _ _ ?x _ _ _) => set (m' := x) end.
  replace (sp - 2 - 2 - 2 - 2 - 2 - 2 - 2 - 2) with (sp - 16) by lia. apply HQ; unfold m'.
  - intros x Hx. rewrite !getw_insert, !decide_False by lia. done.
  - intros j b Hj. cbn [saved r_al r_ah r_bl r_bh r_cl r_ch r_dl r_dh r_si r_di r_bp r_sp app] in Hj.
    read_back j Hj.
Qed.

Lemma wp_pop a b al ah bl bh cl ch dl dh si di bp sp u cs ds es fs gs ss i f c gd m t n tr (Q : Z * Z → real → Prop) :
  0 ≤ sp < 2 ^ 16 - 2 → getw m (16 * ss + sp) = a → getw m (16 * ss + (sp + 1)) = b →
  Q (a, b) (mkReal (mkRegs al ah bl bh cl ch dl dh si di bp (sp + 2)) u (X86.mkSegs cs ds es fs gs ss) i f c gd m t n tr) →
  wp pop Q (mkReal (mkRegs al ah bl bh cl ch dl dh si di bp sp) u (X86.mkSegs cs ds es fs gs ss) i f c gd m t n tr).
Proof.
  intros Hsp Ha Hb HQ. unfold pop, load. repeat real_wp. u16_steps. by rewrite Ha, Hb.
Qed.

(** The words of the stack, from [Hget]. *)
Ltac pop_at Hget j :=
  wp_step; eapply wp_pop; [lia|eapply (Hget j); [reflexivity|lia]|eapply (Hget (S j)); [reflexivity|lia]|].

Lemma wp_popa `{Bios16} dev K g g' u cs ds es fs gs ss i f c gd m t n tr (Q : unit → real → Prop) :
  r_sp g' = r_sp g - 16 → 16 ≤ r_sp g < 2 ^ 16 → Stage2.holds m (16 * ss + r_sp g - 16) (saved g) →
  Q tt (mkReal g u (X86.mkSegs cs ds es fs gs ss) i f c gd m t n tr) →
  wp (exec dev K Popa) Q (mkReal g' u (X86.mkSegs cs ds es fs gs ss) i f c gd m t n tr).
Proof.
  destruct g as [al ah bl bh cl ch dl dh si di bp sp], g' as [al' ah' bl' bh' cl' ch' dl' dh' si' di' bp' sp'].
  cbn [r_sp]. intros -> Hsp Hm HQ.
  cbn [exec]. unfold wr16.
  assert (∀ (j : nat) x a, saved (mkRegs al ah bl bh cl ch dl dh si di bp sp) !! j = Some x →
    a = 16 * ss + sp - 16 + Z.of_nat j → getw m a = x) as Hget by (intros j x a Hj ->; by apply Hm).
  pop_at Hget 0%nat. pop_at Hget 2%nat. pop_at Hget 4%nat. pop_at Hget 6%nat.
  pop_at Hget 8%nat. pop_at Hget 10%nat. pop_at Hget 12%nat. pop_at Hget 14%nat.
  repeat real_wp. by replace (sp - 16 + 2 + 2 + 2 + 2 + 2 + 2 + 2 + 2) with sp by lia.
Qed.

(** ** A disk behind the BIOS

    Reads that stay on a track and do not fail deliver the sectors from the one the
    registers name. *)
Record disk16_ok `{Bios16} (D : Z → list Z) (drive spt heads : Z) : Prop := {
  d16_spt : 1 ≤ spt ≤ 63;
  d16_heads : 1 ≤ heads ≤ 256;
  d16_bytes : ∀ lba, length (D lba) = 512%nat ∧ Forall (λ b, 0 ≤ b < 256) (D lba);
  d16_read : ∀ n al ch cl dh bs, 0 ≤ ch < 256 → 0 ≤ cl < 256 → 0 ≤ dh < heads →
    1 ≤ al → 1 ≤ Stage2.reg_sector cl → Stage2.reg_sector cl + al - 1 ≤ spt →
    int13_sectors n al drive ch cl dh = Some bs →
    bs = seqZ (Stage2.chs_lba spt heads (Stage2.reg_cylinder ch cl) dh (Stage2.reg_sector cl)) al ≫= D
}.

(** The second stage sees the same disk. *)
Lemma disk16_disk_ok `{Bios16} D drive spt heads :
  disk16_ok D drive spt heads → Stage2.disk_ok D drive spt heads.
Proof.
  intros [H1 H2 H3 H4]. split; [done|done|done|]. intros n ch cl dh bs Hch Hcl Hdh Hs Hr.
  rewrite (H4 n 1 ch cl dh bs Hch Hcl Hdh ltac:(lia) ltac:(lia) ltac:(lia) Hr). simpl. apply app_nil_r.
Qed.

(** A drive with 18 sectors and 2 heads; the calls in [fails] fail because the disk
    was changed (status 6). *)
Definition floppy (D : Z → list Z) (fails : list Z) : Bios16 := {|
  int13_sectors n al dl ch cl dh :=
    if bool_decide (n ∈ fails) then None
    else Some (seqZ (Stage2.chs_lba 18 2 (Stage2.reg_cylinder ch cl) dh (Stage2.reg_sector cl)) al ≫= D);
  int13_result n := if bool_decide (n ∈ fails) then (0, 6) else (1, 0);
  int13_reset n dl := false;
  int13_geometry dl := Some (18, 1);
  int13_table dl := mkTable 4 79 1 0xF000 0xEFC7;
  int16_key n := (13, 28)
|}.

Lemma floppy_ok D fails drive :
  (∀ lba, length (D lba) = 512%nat ∧ Forall (λ b, 0 ≤ b < 256) (D lba)) →
  @disk16_ok (floppy D fails) D drive 18 2.
Proof.
  intros HD. split; [lia|lia|done|]. intros n al ch cl dh bs _ _ _ _ _ _ Hr. cbn in Hr.
  destruct (bool_decide (n ∈ fails)); [done|]. by injection Hr as <-.
Qed.

(** A program laid out in a segment. *)
Definition sized (P : program) (ls : list label) : list (label * nat) := (λ l, (l, length (P l))) <$> ls.
Lemma placed_lay T H (P : program) cs a ls :
  (∀ x, x ∈ X86.lay a ls → x ∈ T) → (∀ l, P l ≠ [] → (l, length (P l)) ∈ ls) →
  16 * cs ≤ a → a + Z.of_nat (list_sum (snd <$> ls)) ≤ 16 * cs + 2 ^ 16 →
  placed (X86.table_linker T H) P cs.
Proof.
  intros HT Hls Hlo Hhi l n i Hi.
  destruct (X86.lay_in a ls l (length (P l)) n) as (x & Hx & Hb).
  - apply Hls. by intros E; rewrite E in Hi.
  - by apply lookup_lt_Some in Hi.
  - rewrite (X86.table_addr_in T H x l n (HT _ Hx)). lia.
Qed.
Lemma sized_in P ls l : l ∈ ls → (l, length (P l)) ∈ sized P ls.
Proof. intros Hl. apply list_elem_of_fmap. by exists l. Qed.

End Real.
