(* ===== verification/Disk.v ===== *)
(** * The disk routines of the second stage (src/boot/stage2/disk.asm)

    [disk_get_params] and [disk_read_sector], which the C code of the second stage
    calls, instruction by instruction on the machine of Real.v.  They are shown to do
    what Boot.v takes them to do, and to leave the machine as compiled code finds it
    afterwards: CS, DS, SS and the frame are kept; ES is not, and the stack pointer is two
    bytes below where a 32-bit call expects it. *)

From S2P Require Import Prelude Io X86 Boot Real.
Import Io Real.

Module Disk.

(** ** The code *)

(** The offsets of the variables, which belong to the C code. *)
Record symbols : Type := mkSymbols { y_g_drive : Z; y_g_sectors_per_track : Z; y_g_num_heads : Z }.

Definition disk_get_params (Y : symbols) : list instr :=
  [PushE X86.EBP; MovE X86.EBP X86.ESP; PushE X86.ESI; PushE X86.EDI;
   MovzxEB X86.EAX (y_g_drive Y); MovB DL AL;
   Xor DI DI; MovBI AH 0x08; Int 0x13; Jc (Sym "disk_get_params.error");
   AndBI CL 0x3F; MovzxW AX CL; MovMW (y_g_sectors_per_track Y) AX;
   MovzxW AX DH; IncW AX; MovMW (y_g_num_heads Y) AX;
   XorE X86.EAX X86.EAX; Jmp (Sym "disk_get_params.exit")].
Definition disk_get_params_error : list instr := [MovEI X86.EAX (-1); Fall (Sym "disk_get_params.exit")].
Definition disk_get_params_exit : list instr :=
  [PopE X86.EDI; PopE X86.ESI; MovE X86.ESP X86.EBP; PopE X86.EBP; Ret].

Definition lba_to_chs (Y : symbols) : list instr :=
  [MovzxEW X86.ECX (y_g_sectors_per_track Y); XorE X86.EDX X86.EDX; DivE X86.ECX;
   MovE X86.EBX X86.EDX; IncE X86.EBX;
   MovzxEW X86.ECX (y_g_num_heads Y); XorE X86.EDX X86.EDX; DivE X86.ECX;
   MovE X86.ESI X86.EAX; MovE X86.EDI X86.EDX; Ret].

Definition disk_read_sector (Y : symbols) : list instr :=
  [PushE X86.EBP; MovE X86.EBP X86.ESP; PushE X86.EBX; PushE X86.ESI; PushE X86.EDI;
   MovEF X86.EAX 8; Call (Sym "lba_to_chs");
   MovE X86.EAX X86.ESI; MovB CH AL;
   ShrEI X86.EAX 2; AndBI AL 0xC0; AndBI BL 0x3F; OrB AL BL; MovB CL AL;
   MovE X86.EAX X86.EDI; MovB DH AL;
   MovBM DL (y_g_drive Y);
   MovWF AX 12; MovSR X86.ES AX;
   MovWF BX 16;
   MovI SI 3; Fall (Sym "disk_read_sector.retry")].
Definition disk_read_sector_retry : list instr :=
  [MovI AX 0x0201; Int 0x13; Jnc (Sym "disk_read_sector.done");
   Xor AX AX; Int 0x13;
   DecW SI; Jnz (Sym "disk_read_sector.retry"); Fall (Sym "disk_read_sector.error")].
Definition disk_read_sector_error : list instr := [MovEI X86.EAX (-1); Jmp (Sym "disk_read_sector.exit")].
Definition disk_read_sector_done : list instr := [XorE X86.EAX X86.EAX; Fall (Sym "disk_read_sector.exit")].
Definition disk_read_sector_exit : list instr :=
  [PopE X86.EDI; PopE X86.ESI; PopE X86.EBX; MovE X86.ESP X86.EBP; PopE X86.EBP; Ret].

Definition disk_asm (Y : symbols) : program := λ l,
  match l with
  | X86.IsrN _ => []
  | X86.Sym s =>
      if decide (s = "disk_get_params") then disk_get_params Y
      else if decide (s = "disk_get_params.error") then disk_get_params_error
      else if decide (s = "disk_get_params.exit") then disk_get_params_exit
      else if decide (s = "lba_to_chs") then lba_to_chs Y
      else if decide (s = "disk_read_sector") then disk_read_sector Y
      else if decide (s = "disk_read_sector.retry") then disk_read_sector_retry
      else if decide (s = "disk_read_sector.error") then disk_read_sector_error
      else if decide (s = "disk_read_sector.done") then disk_read_sector_done
      else if decide (s = "disk_read_sector.exit") then disk_read_sector_exit
      else []
  end%string.

Section code.
Context `{Bios16} (dev : device) (K : X86.linker) (Y : symbols).
Context (cs : Z) (Hplaced : placed K (disk_asm Y) cs).
Abbreviation runs_to := (eventually (stepR dev K (disk_asm Y))).

(** The low byte of a 32-bit register. *)
Lemma low_byte32 x : (lo_hi (u16 x)).1 = u8 x.
Proof. unfold lo_hi, u16, u8. cbn [fst]. by rewrite Z.mod_mod_divide by (by exists 256). Qed.

Lemma u8_u32 x : u8 (u32 x) = u8 x.
Proof. unfold u8, u32. by rewrite Z.mod_mod_divide by (by exists (2 ^ 24)). Qed.

Lemma wp_dive r n d s (Q : unit → real → Prop) :
  get32 r s = d → get32 X86.EAX s + 2 ^ 32 * get32 X86.EDX s = n → 1 ≤ d → n / d < 2 ^ 32 →
  Q tt (set32 X86.EDX (n `mod` d) (set32 X86.EAX (n / d) s)) → wp (exec dev K (DivE r)) Q s.
Proof.
  intros Hd Hn H1 Hq HQ. cbn [exec]. do 6 wp_step. rewrite Hd, Hn. wp_steps; [|done].
  destruct (Z.eqb_spec d 0); [lia|]. destruct (Z.ltb_spec 0xFFFFFFFF (n / d)); [lia|done].
Qed.

(** A word of the frame, in the segment. *)
Lemma wp_frame_word n a s (Q : Z * Z → real → Prop) :
  get32 X86.EBP s + n = a → 0 ≤ a < 0xFFFF →
  Q (getw (mem s) (16 * X86.s_ss (sg s) + a), getw (mem s) (16 * X86.s_ss (sg s) + (a + 1))) s → wp (frame_word n) Q s.
Proof.
  intros Ha Hr HQ. unfold frame_word, load. do 2 wp_step. rewrite Ha, u32_small by lia.
  wp_steps; [lia|]. unfold linear, get_seg. by rewrite !u16_small by lia.
Qed.
Ltac frame_word a := wp_step; apply (wp_frame_word _ a); real_norm; [lia|lia|].

(** [lba_to_chs] leaves the sector in EBX, the cylinder in ESI, the head in EDI. *)
Lemma disk_lba_to_chs_spec lba spt heads al ah bl bh cl ch dl dh si di bp sp ua uc ud ub usp ubp usi udi
    ds es fs gs ss f c gd m t n tr (Q : real → Prop) :
  word (getw m (16 * ds + u16 (y_g_sectors_per_track Y)), getw m (16 * ds + u16 (y_g_sectors_per_track Y + 1))) = spt →
  word (getw m (16 * ds + u16 (y_g_num_heads Y)), getw m (16 * ds + u16 (y_g_num_heads Y + 1))) = heads →
  1 ≤ spt → 1 ≤ heads → word (al, ah) + 65536 * ua = lba → 0 ≤ lba < 2 ^ 32 → 0 ≤ sp < 0xFFFE →
  let cylinder := lba / spt / heads in
  let head := (lba / spt) `mod` heads in
  let sector := u32 (lba `mod` spt + 1) in
  (∀ al ah cl ch dl dh ua uc ud f', runs_to (mkReal
     (mkRegs al ah (lo_hi (u16 sector)).1 (lo_hi (u16 sector)).2 cl ch dl dh (u16 cylinder) (u16 head) bp (sp + 2))
     (X86.mkGprs ua uc ud (sector / 65536) usp ubp (cylinder / 65536) (head / 65536)) (X86.mkSegs cs ds es fs gs ss)
     (word (getw m (16 * ss + sp), getw m (16 * ss + (sp + 1)))) f' c gd m t n tr) Q) →
  runs_to (mkReal (mkRegs al ah bl bh cl ch dl dh si di bp sp) (X86.mkGprs ua uc ud ub usp ubp usi udi)
             (X86.mkSegs cs ds es fs gs ss) (off K cs (Sym "lba_to_chs") 0) f c gd m t n tr) Q.
Proof.
  intros Hspt Hheads H1 H2 Hlba Hr Hsp cylinder head sector HQ. destruct f as [fc fz fi fd].
  assert (∀ x d, 0 ≤ x < 2 ^ 32 → 1 ≤ d → 0 ≤ x / d ≤ x) as Hdiv.
  { intros x d Hx Hd. split; [apply Z.div_pos; lia|]. apply Z.div_le_upper_bound; nia. }
  pose proof (Hdiv lba spt Hr H1) as Hq. pose proof (Hdiv (lba / spt) heads ltac:(lia) H2) as Hc.
  do 2 real_step. rewrite Z.lxor_nilpotent. real_calc. change (0 / 65536) with 0.
  real_at. apply (wp_dive _ lba spt); real_norm.
  { rewrite Hspt. lia. } { rewrite Hlba. unfold word. simpl. lia. } { done. } { lia. }
  do 4 real_step. rewrite Z.lxor_nilpotent. real_calc. change (0 / 65536) with 0. rewrite split16.
  real_at. apply (wp_dive _ (lba / spt) heads); real_norm.
  { rewrite Hheads. lia. } { rewrite split16. unfold word. simpl. lia. } { done. } { lia. }
  do 3 real_step. u16_steps. apply HQ.
Qed.

(** ** [disk_read_sector] *)

(** The registers [disk_read_sector] saves, as they lie on the stack. *)
Definition two (v : Z) : list Z := [(lo_hi v).1; (lo_hi v).2].
Definition saved_regs (g : regs) (u : X86.gprs) : list Z :=
  two (r_di g) ++ two (X86.g_edi u) ++ two (r_si g) ++ two (X86.g_esi u) ++
  [r_bl g; r_bh g] ++ two (X86.g_ebx u) ++ two (r_bp g) ++ two (X86.g_ebp u).

(** Bytes of the stack, from [Hget]. *)
Ltac restore_from Hget a j :=
  lazymatch j with
  | 16%nat => fail
  | _ => first [rewrite (Hget j _ a eq_refl) by lia | restore_from Hget a constr:(S j)]
  end.
Ltac restore Hget := repeat match goal with |- context [getw _ ?a] => restore_from Hget a 0%nat end.

Lemma holds_word m a b v : Stage2.holds m a (two v) → b = a + 1 → word (getw m a, getw m b) = v.
Proof.
  intros Hm ->. pose proof (Hm 0%nat _ eq_refl) as H0. pose proof (Hm 1%nat _ eq_refl) as H1.
  rewrite Z.add_0_r in H0. rewrite H0. change (Z.of_nat 1) with 1 in H1. rewrite H1. apply word_halves.
Qed.

(** The bytes of the variables; they lie apart, in the segment. *)
Definition variable (ds x : Z) : Prop :=
  x = 16 * ds + y_g_drive Y ∨
  16 * ds + y_g_sectors_per_track Y ≤ x < 16 * ds + y_g_sectors_per_track Y + 2 ∨
  16 * ds + y_g_num_heads Y ≤ x < 16 * ds + y_g_num_heads Y + 2.
Record variables_ok : Prop := {
  vo_drive : 0 ≤ y_g_drive Y < 0xFFFF;
  vo_spt : 0 ≤ y_g_sectors_per_track Y < 0xFFFF;
  vo_heads : 0 ≤ y_g_num_heads Y < 0xFFFF;
  vo_drive_spt : y_g_drive Y < y_g_sectors_per_track Y ∨ y_g_sectors_per_track Y + 2 ≤ y_g_drive Y;
  vo_drive_heads : y_g_drive Y < y_g_num_heads Y ∨ y_g_num_heads Y + 2 ≤ y_g_drive Y;
  vo_spt_heads : y_g_sectors_per_track Y + 2 ≤ y_g_num_heads Y ∨ y_g_num_heads Y + 2 ≤ y_g_sectors_per_track Y
}.
Context (Hvo : variables_ok).

Lemma holds_word16 m ds a v :
  Stage2.holds m (16 * ds + a) (two v) → 0 ≤ a < 0xFFFF →
  word (getw m (16 * ds + u16 a), getw m (16 * ds + u16 (a + 1))) = v.
Proof. intros Hm Ha. rewrite !u16_small by lia. apply (holds_word _ _ _ _ Hm). lia. Qed.

(** Room on the stack; the upper half of ESP is 0. *)
Definition stack_ok (g : regs) (u : X86.gprs) : Prop := 18 ≤ r_sp g ∧ r_sp g + 18 ≤ 0x10000 ∧ X86.g_esp u = 0.

Section read.
Context (g0 : regs) (u0 : X86.gprs) (ss : Z).
Abbreviation sp0 := (r_sp g0).

Lemma disk_prologue ds es fs gs f c gd m t n tr (Q : real → Prop) :
  stack_ok g0 u0 →
  (∀ m', same_outside (16 * ss + sp0 - 18) (16 * ss + sp0) m m' →
     Stage2.holds m' (16 * ss + sp0 - 16) (saved_regs g0 u0) →
     runs_to (mkReal (set16 SP (lo_hi (sp0 - 16)) (set16 BP (lo_hi (sp0 - 4)) g0)) (X86.set_reg X86.EBP 0 u0)
                (X86.mkSegs cs ds es fs gs ss) (off K cs (Sym "disk_read_sector") 5) f c gd m' t n tr) Q) →
  runs_to (mkReal g0 u0 (X86.mkSegs cs ds es fs gs ss) (off K cs (Sym "disk_read_sector") 0) f c gd m t n tr) Q.
Proof.
  destruct g0 as [al ah bl bh cl ch dl dh si di bp sp], u0 as [ua uc ud ub usp ubp usi udi].
  unfold stack_ok. cbn [r_sp X86.g_esp set16 X86.set_reg] in *. rewrite !word_lo_hi. intros (Hlo & Hhi & ->) HQ.
  do 5 real_step. u16_steps.
  match goal with |- eventually _ (mkReal _ _ _ _ _ _ _ ?x _ _ _) _ => set (m' := x) end.
  replace (sp - 2 - 2 - 2 - 2 - 2 - 2 - 2 - 2) with (sp - 16) by lia. replace (sp - 2 - 2) with (sp - 4) by lia.
  apply HQ; unfold m'.
  - intros x Hx. rewrite !getw_insert, !decide_False by lia. done.
  - intros j b Hj. cbn [saved_regs two r_si r_di r_bp r_bl r_bh X86.g_ebx X86.g_ebp X86.g_esi X86.g_edi app] in Hj.
    read_back j Hj.
Qed.

(** The end: the saved registers are restored, and a 16-bit [ret] takes two of the
    four bytes of the return address. *)
Lemma disk_epilogue g u ds es fs gs f c gd m t n tr (Q : real → Prop) :
  stack_ok g0 u0 → r_sp g = sp0 - 16 → r_bp g = sp0 - 4 → X86.g_ebp u = 0 → Stage2.holds m (16 * ss + sp0 - 16) (saved_regs g0 u0) →
  let kept r x y := set16 r (get16 r x) y in
  runs_to (mkReal (set16 SP (lo_hi (sp0 + 2)) (kept BX g0 (kept SI g0 (kept DI g0 (kept BP g0 g)))))
             (X86.mkGprs (X86.g_eax u) (X86.g_ecx u) (X86.g_edx u) (X86.g_ebx u0) 0 (X86.g_ebp u0) (X86.g_esi u0) (X86.g_edi u0))
             (X86.mkSegs cs ds es fs gs ss)
             (word (getw m (16 * ss + sp0), getw m (16 * ss + (sp0 + 1)))) f c gd m t n tr) Q →
  runs_to (mkReal g u (X86.mkSegs cs ds es fs gs ss) (off K cs (Sym "disk_read_sector.exit") 0) f c gd m t n tr) Q.
Proof.
  destruct g as [al ah bl bh cl ch dl dh si di bp sp], u as [ua uc ud ub usp ubp usi udi].
  cbn [r_sp r_bp X86.g_ebp]. intros (Hlo & Hhi & _) -> -> -> Hsv HQ.
  destruct g0 as [al' ah' bl' bh' cl' ch' dl' dh' si' di' bp' sp'], u0 as [ua' uc' ud' ub' usp' ubp' usi' udi'].
  cbn [r_sp X86.g_esp] in *. 
  assert (∀ (j : nat) x a, saved_regs (mkRegs al' ah' bl' bh' cl' ch' dl' dh' si' di' bp' sp')
      (X86.mkGprs ua' uc' ud' ub' usp' ubp' usi' udi') !! j = Some x →
    a = 16 * ss + sp' - 16 + Z.of_nat j → getw m a = x) as Hget by (intros j x a Hj ->; by apply Hsv).
  do 6 real_step. u16_steps. restore Hget. rewrite !word_halves.
  revert HQ. real_norm. replace (sp' - 4 + 2 + 2) with sp' by lia. done.
Qed.

(** The attempts of one call: the number of INT 13h calls made in the end, and the
    sector. *)
Fixpoint tries (k : nat) (dl ch cl dh n : Z) : Z * option (list Z) :=
  match k with
  | O => (n, None)
  | S k =>
      match int13_sectors n 1 dl ch cl dh with
      | Some bs => (n + 1, Some bs)
      | None => tries k dl ch cl dh (n + 2)
      end
  end.
Definition stored (m : gmap Z Z) (a : Z) (o : option (list Z)) : gmap Z Z :=
  match o with Some bs => Stage2.store_bytes m a bs | None => m end.

Lemma tries_reads k dl ch cl dh n bs :
  (tries k dl ch cl dh n).2 = Some bs → ∃ n', int13_sectors n' 1 dl ch cl dh = Some bs.
Proof.
  revert n. induction k as [|k IH]; intros n; cbn [tries]; [done|].
  destruct (int13_sectors n 1 dl ch cl dh) eqn:E; [|apply IH]. intros [= <-]. by exists n.
Qed.
Lemma getw_stored m m' a o x : getw m' x = getw m x → getw (stored m' a o) x = getw (stored m a o) x.
Proof. destruct o as [bs|]; [|done]. cbn [stored]. rewrite !Stage2.getw_store_bytes. by intros ->. Qed.
Lemma getw_stored_outside m a o x :
  (∀ bs, o = Some bs → ¬ (a ≤ x < a + Z.of_nat (length bs))) → getw (stored m a o) x = getw m x.
Proof.
  intros Ho. destruct o as [bs|]; [|done]. cbn [stored]. rewrite Stage2.getw_store_bytes.
  by rewrite decide_False by (by apply Ho).
Qed.

Lemma disk_retry_spec k al ah bl bh cl ch dl dh di bp sp u ds es fs gs f c gd m t n tr (Q : real → Prop) :
  let r := tries k dl ch cl dh n in
  (0 < k ≤ 3)%nat → 0 ≤ word (bl, bh) < 2 ^ 16 →
  (∀ al ah si ua f', word (al, ah) + 65536 * ua = (if r.2 is Some _ then 0 else u32 (-1)) →
     runs_to (mkReal (mkRegs al ah bl bh cl ch dl dh si di bp sp) (X86.set_reg X86.EAX ua u) (X86.mkSegs cs ds es fs gs ss)
       (off K cs (Sym "disk_read_sector.exit") 0) f' c gd (stored m (16 * es + word (bl, bh)) r.2) t r.1 tr) Q) →
  runs_to (mkReal (mkRegs al ah bl bh cl ch dl dh (Z.of_nat k) di bp sp) u (X86.mkSegs cs ds es fs gs ss)
             (off K cs (Sym "disk_read_sector.retry") 0) f c gd m t n tr) Q.
Proof.
  intros r Hk Hbx. destruct u as [ua uc ud ub usp ubp usi udi].
  revert al ah f n r Hk. induction k as [|k IH]; intros al ah [fc fz fi fd] n r Hk HQ; [lia|].
  real_step. real_at. apply wp_int13_read; [done|]. real_norm. rewrite (u16_small (word (bl, bh))) by done.
  subst r. cbn [tries] in HQ. destruct (int13_sectors n 1 dl ch cl dh) as [bs|]; cbn [fst snd stored] in HQ.
  - do 3 real_step. rewrite Z.lxor_nilpotent. apply HQ. done.
  - do 2 real_step. rewrite Z.lxor_nilpotent. real_calc. real_fetch. unfold int13, set_cf, wr16. repeat real_wp.
    real_step. rewrite (u16_small (_ - 1)) by lia. replace (Z.of_nat (S k) - 1) with (Z.of_nat k) by lia.
    replace (n + 1 + 1) with (n + 2) by lia. real_fetch. do 2 real_wp. destruct k as [|k].
    + do 2 real_wp. do 3 real_step. apply HQ. done.
    + change (Z.of_nat (S k) =? 0) with false. unfold goto. repeat real_wp. apply IH; [lia|]. exact HQ.
Qed.

(** The call: [lba], [segment] and [offset] lie on the stack above the return address,
    the drive and its geometry in the variables, away from the stack. *)
Record read_args (ds lba segment offset drive spt heads : Z) (m : gmap Z Z) : Prop := {
  ra_lba : Stage2.holds m (16 * ss + (sp0 + 4)) (two (u16 lba) ++ two (lba / 65536));
  ra_segment : Stage2.holds m (16 * ss + (sp0 + 8)) (two (u16 segment));
  ra_offset : Stage2.holds m (16 * ss + (sp0 + 12)) (two (u16 offset));
  ra_drive : getw m (16 * ds + y_g_drive Y) = drive;
  ra_spt : Stage2.holds m (16 * ds + y_g_sectors_per_track Y) (two spt);
  ra_heads : Stage2.holds m (16 * ds + y_g_num_heads Y) (two heads)
}.
Definition apart (ds : Z) : Prop := ∀ x, variable ds x → ¬ (16 * ss + sp0 - 18 ≤ x < 16 * ss + sp0).

Lemma read_args_kept ds lba segment offset drive spt heads m m' :
  apart ds → same_outside (16 * ss + sp0 - 18) (16 * ss + sp0) m m' →
  read_args ds lba segment offset drive spt heads m → read_args ds lba segment offset drive spt heads m'.
Proof.
  intros Hap Hm [H1 H2 H3 H4 H5 H6].
  assert (∀ a l, (∀ x, a ≤ x < a + Z.of_nat (length l) → 16 * ss + sp0 ≤ x ∨ variable ds x) →
    Stage2.holds m a l → Stage2.holds m' a l) as Hk.
  { intros a l Ha. apply Stage2.holds_frame. intros x Hx. apply Hm. destruct (Ha x Hx) as [|Hv]; [lia|]. pose proof (Hap x Hv). lia. }
  split; try (eapply Hk; [|eassumption]; intros x Hx).
  1-3: left; lia.
  - rewrite Hm; [done|]. pose proof (Hap (16 * ds + y_g_drive Y) ltac:(by left)). lia.
  - right; right; left; exact Hx.
  - right; right; right; exact Hx.
Qed.

(** From the frame to [.retry]: the registers of the block, ES:BX, three attempts. *)
Lemma disk_setup_spec drive spt heads lba segment offset al ah bl bh cl0 ch0 dl dh0 si di ua uc ud ub usi udi
    ds es fs gs f c gd m t n tr (Q : real → Prop) :
  let cylinder := lba / spt / heads in
  let ch := u8 cylinder in
  let cl := Z.lor (Z.land (u8 (Z.shiftr cylinder 2)) 0xC0) (Z.land (u8 (lba `mod` spt + 1)) 0x3F) in
  let dh := u8 ((lba / spt) `mod` heads) in
  stack_ok g0 u0 → apart ds → read_args ds lba segment offset drive spt heads m →
  0 ≤ lba < 2 ^ 32 → 1 ≤ spt → 1 ≤ heads →
  (∀ al ah di ua uc ud ub usi udi f' m', same_outside (16 * ss + sp0 - 18) (16 * ss + sp0 - 16) m m' →
     runs_to (mkReal (mkRegs al ah (lo_hi (u16 offset)).1 (lo_hi (u16 offset)).2 cl ch drive dh 3 di (sp0 - 4) (sp0 - 16))
                (X86.mkGprs ua uc ud ub 0 0 usi udi) (X86.mkSegs cs ds (u16 segment) fs gs ss)
                (off K cs (Sym "disk_read_sector.retry") 0) f' c gd m' t n tr) Q) →
  runs_to (mkReal (mkRegs al ah bl bh cl0 ch0 dl dh0 si di (sp0 - 4) (sp0 - 16)) (X86.mkGprs ua uc ud ub 0 0 usi udi)
             (X86.mkSegs cs ds es fs gs ss) (off K cs (Sym "disk_read_sector") 5) f c gd m t n tr) Q.
Proof.
  intros cylinder ch cl dh (Hlo & Hhi & _) Hap Hargs Hr H1 H2 HQ. pose proof Hargs as [Ha _ _ _ _ _].
  unfold apart in Hap. set (sp := sp0) in *.
  assert (∀ l (j : nat) x a b, Stage2.holds m a l → l !! j = Some x → b = a + Z.of_nat j → getw m b = x) as Hget
    by (intros l j x a b Hl Hj ->; by apply Hl).
  real_fetch. frame_word (sp + 4). frame_word (sp + 6). repeat real_wp.
  rewrite (Hget _ 0%nat _ _ (16 * ss + (sp + 4)) Ha eq_refl), (Hget _ 1%nat _ _ (16 * ss + (sp + 4 + 1)) Ha eq_refl),
    (Hget _ 2%nat _ _ (16 * ss + (sp + 6)) Ha eq_refl), (Hget _ 3%nat _ _ (16 * ss + (sp + 6 + 1)) Ha eq_refl) by lia.
  rewrite word_halves. real_step. u16_steps. set (m2 := <[_ := _]> (<[_ := _]> m)).
  assert (same_outside (16 * ss + sp - 18) (16 * ss + sp - 16) m m2) as Hm2 by (apply same_outside_push; lia).
  assert (read_args ds lba segment offset drive spt heads m2) as [_ Hseg Hoff Hd Hs Hh].
  { eapply read_args_kept; [exact Hap| |exact Hargs]. fold sp. intros x Hx. apply Hm2. lia. }
  fold sp in Hseg, Hoff. destruct Hvo as [V1 V2 V3 _ _ _].
  apply (disk_lba_to_chs_spec lba spt heads); [by apply (holds_word16 _ _ _ _ Hs)|by apply (holds_word16 _ _ _ _ Hh)|done|done
    |rewrite word_halves; apply split16|done|lia|].
  intros al' ah' cl' ch' dl' dh' ua' uc' ud' [fc fz fi fd]. unfold m2 at 1 2. rewrite pushed_word by lia.
  fold cylinder. set (head := (lba / spt) `mod` heads) in *.
  do 10 real_step. rewrite split16, !low_byte32, u8_u32. fold ch cl dh. rewrite (u16_small (y_g_drive Y)), Hd by lia.
  real_fetch. frame_word (sp + 8). repeat real_wp. real_step. real_fetch. frame_word (sp + 12). repeat real_wp.
  rewrite (holds_word _ _ (16 * ss + (sp + 8 + 1)) _ Hseg) by lia.
  assert (∀ (j : nat) x b, two (u16 offset) !! j = Some x → b = 16 * ss + (sp + 12) + Z.of_nat j → getw m2 b = x) as Hget2
    by (intros j x b Hj ->; by apply Hoff).
  rewrite (Hget2 0%nat _ (16 * ss + (sp + 12)) eq_refl), (Hget2 1%nat _ (16 * ss + (sp + 12 + 1)) eq_refl) by lia.
  do 2 real_step. replace (sp - 16 - 2 + 2) with (sp - 16) by lia. by apply HQ.
Qed.

Lemma disk_read_sector_spec drive spt heads lba segment offset ds es fs gs f c gd m t n tr (Q : real → Prop) :
  let cylinder := lba / spt / heads in
  let ch := u8 cylinder in
  let cl := Z.lor (Z.land (u8 (Z.shiftr cylinder 2)) 0xC0) (Z.land (u8 (lba `mod` spt + 1)) 0x3F) in
  let dh := u8 ((lba / spt) `mod` heads) in
  let r := tries 3 drive ch cl dh n in
  let buffer := 16 * u16 segment + u16 offset in
  stack_ok g0 u0 → apart ds → read_args ds lba segment offset drive spt heads m →
  0 ≤ lba < 2 ^ 32 → 1 ≤ spt → 1 ≤ heads → (∀ bs, r.2 = Some bs → length bs = 512%nat) →
  (∀ x, buffer ≤ x < buffer + 512 → ¬ (16 * ss + sp0 - 16 ≤ x < 16 * ss + sp0 + 2)) →
  (∀ g u f' m',
     word (get16 AX g) + 65536 * X86.g_eax u = (if r.2 is Some _ then 0 else u32 (-1)) →
     (get16 BX g, r_si g, r_di g, r_bp g, r_sp g) = (get16 BX g0, r_si g0, r_di g0, r_bp g0, sp0 + 2) →
     (X86.g_ebx u, X86.g_esi u, X86.g_edi u, X86.g_ebp u, X86.g_esp u)
       = (X86.g_ebx u0, X86.g_esi u0, X86.g_edi u0, X86.g_ebp u0, X86.g_esp u0) →
     same_outside (16 * ss + sp0 - 18) (16 * ss + sp0) (stored m buffer r.2) m' →
     runs_to (mkReal g u (X86.mkSegs cs ds (u16 segment) fs gs ss)
                (word (getw m (16 * ss + sp0), getw m (16 * ss + (sp0 + 1)))) f' c gd m' t r.1 tr) Q) →
  runs_to (mkReal g0 u0 (X86.mkSegs cs ds es fs gs ss) (off K cs (Sym "disk_read_sector") 0) f c gd m t n tr) Q.
Proof.
  intros cylinder ch cl dh r buffer Hsp Hap Hargs Hr H1 H2 Hlen Hbuf HQ.
  apply disk_prologue; [done|]. pose proof Hsp as (Hlo & Hhi & Hesp). intros m1 Hm1 Hsv.
  assert (∃ al ah bl bh cl ch dl dh si di bp sp,
    g0 = mkRegs al ah bl bh cl ch dl dh si di bp sp) as (al & ah & bl & bh & cl0 & ch0 & dl & dh0 & si & di & bp & sp & Eg)
    by (destruct g0; repeat eexists).
  assert (∃ ua uc ud ub ubp usi udi, u0 = X86.mkGprs ua uc ud ub 0 ubp usi udi)
    as (ua & uc & ud & ub & ubp & usi & udi & Eu) by (destruct u0; cbn in Hesp; subst; repeat eexists).
  replace (set16 SP (lo_hi (sp0 - 16)) (set16 BP (lo_hi (sp0 - 4)) g0))
    with (mkRegs al ah bl bh cl0 ch0 dl dh0 si di (sp0 - 4) (sp0 - 16)) by (rewrite Eg; cbn [set16 r_sp]; by rewrite !word_lo_hi).
  replace (X86.set_reg X86.EBP 0 u0) with (X86.mkGprs ua uc ud ub 0 0 usi udi) by by rewrite Eu.
  apply (disk_setup_spec drive spt heads lba segment offset); [done|done|by eapply read_args_kept|done|done|done|].
  intros al' ah' di' ua' uc' ud' ub' usi' udi' f' m2 Hm2.
  apply (disk_retry_spec 3); [lia|rewrite word_halves; apply u16_range|]. rewrite word_halves. fold cylinder ch cl dh r buffer.
  intros al2 ah2 si2 ua2 f2 Hax.
  eapply disk_epilogue; [done|done|done|done| |].
  - eapply Stage2.holds_frame; [|exact Hsv]. intros x Hx. change (length (saved_regs g0 u0)) with 16%nat in Hx.
    rewrite getw_stored_outside; [apply Hm2; lia|]. intros bs Hbs Hin. rewrite (Hlen bs Hbs) in Hin.
    apply (Hbuf x); lia.
  - rewrite !(getw_stored_outside m2).
    2, 3: intros bs Hbs Hin; rewrite (Hlen bs Hbs) in Hin; eapply Hbuf; [exact Hin|lia].
    rewrite !Hm2, !Hm1 by lia. apply HQ.
    + exact Hax.
    + rewrite Eg. real_norm. done.
    + cbn [X86.g_ebx X86.g_esi X86.g_edi X86.g_ebp X86.g_esp]. by rewrite Hesp.
    + intros x Hx. apply getw_stored. by rewrite Hm2, Hm1 by lia.
Qed.
End read.

(** ** Refinement

    The machine and the state of Boot.v: the three variables are bytes in memory here,
    and the stack [lo] to [hi] is not part of the C program's memory. *)
Record represents (ds lo hi : Z) (s : real) (b : Stage2.boot) : Prop := {
  rp_drive : getw (mem s) (16 * ds + y_g_drive Y) = Stage2.g_drive b;
  rp_spt : Stage2.holds (mem s) (16 * ds + y_g_sectors_per_track Y) (two (Stage2.g_sectors_per_track b));
  rp_heads : Stage2.holds (mem s) (16 * ds + y_g_num_heads Y) (two (Stage2.g_num_heads b));
  rp_tty : tty s = Stage2.tty b;
  rp_calls : calls s = Stage2.bios_calls b;
  rp_mem : ∀ x, ¬ (lo ≤ x < hi) → ¬ variable ds x → getw (mem s) x = getw (Stage2.mem b) x
}.

(** A call from compiled code, which pushes a return address of four bytes. *)
Record called (lo hi : Z) (l : label) (s : real) : Prop := {
  ca_ip : ip s = off K cs l 0;
  ca_cs : X86.s_cs (sg s) = cs;
  ca_stack : stack_ok (rg s) (up s);
  ca_lo : lo ≤ 16 * X86.s_ss (sg s) + r_sp (rg s) - 18;
  ca_hi : 16 * X86.s_ss (sg s) + r_sp (rg s) + 4 ≤ hi;
  ca_vars : ∀ x, variable (X86.s_ds (sg s)) x → ¬ (lo ≤ x < hi)
}.

(** The return: the result is in EAX, the frame and the registers that compiled code
    keeps are kept, ES may differ, and SP is two above the return address, not four. *)
Record returned (s : real) (r es : Z) (s' : real) : Prop := {
  re_eax : get32 X86.EAX s' = u32 r;
  re_ip : ip s' = word (getw (mem s) (16 * X86.s_ss (sg s) + r_sp (rg s)), getw (mem s) (16 * X86.s_ss (sg s) + (r_sp (rg s) + 1)));
  re_esp : get32 X86.ESP s' = get32 X86.ESP s + 2;
  re_ebp : get32 X86.EBP s' = get32 X86.EBP s;
  re_esi : get32 X86.ESI s' = get32 X86.ESI s;
  re_edi : get32 X86.EDI s' = get32 X86.EDI s;
  re_sg : sg s' = X86.set_seg X86.ES es (sg s);
  re_cr0 : cr0 s' = cr0 s;
  re_trace : trace s' = trace s
}.

Lemma disk_read_sector_tries lba segment offset b :
  let spt := Stage2.g_sectors_per_track b in
  let heads := Stage2.g_num_heads b in
  let cylinder := lba / spt / heads in
  let r := tries 3 (Stage2.g_drive b) (u8 cylinder)
             (Z.lor (Z.land (u8 (Z.shiftr cylinder 2)) 0xC0) (Z.land (u8 (lba `mod` spt + 1)) 0x3F))
             (u8 ((lba / spt) `mod` heads)) (Stage2.bios_calls b) in
  0 ≤ lba < 2 ^ 32 → 1 ≤ spt → 1 ≤ heads →
  Stage2.disk_read_sector lba segment offset b
  = Some (if r.2 is Some _ then 0 else -1,
          Stage2.set_mem (stored (Stage2.mem b) (16 * u16 segment + u16 offset) r.2) (Stage2.set_calls r.1 b)).
Proof.
  intros spt heads cylinder r Hlba H1 H2. unfold Stage2.disk_read_sector, Stage2.lba_to_chs, mbind, M_bind, gets.
  rewrite u32_small by lia. fold spt heads.
  destruct (Z.eqb_spec spt 0) as [|_], (Z.eqb_spec heads 0) as [|_]; try lia. cbn [orb]. unfold mret, M_ret.
  fold cylinder. subst r. rewrite (Z.mul_comm (u16 segment)). change (range 0 3) with [0; 1; 2].
  destruct b as [m t d sp hd fs fsd n]. cbn [Stage2.g_drive Stage2.bios_calls tries].
  unfold mfor_ret, mbind, M_bind, gets, modify, mret, M_ret, Stage2.set_calls, Stage2.set_mem.
  cbn [Stage2.g_drive Stage2.bios_calls Stage2.mem Stage2.int13_read stage2_bios].
  repeat (destruct (int13_sectors _ _ _ _ _ _) as [bs|]; [reflexivity|]; cbn [Stage2.bios_calls]). reflexivity.
Qed.

(** Memory kept outside the stack, with a buffer apart from stack and variables. *)
Lemma represents_stored ds lo hi s s' b a o n :
  represents ds lo hi s b → (∀ x, variable ds x → ¬ (lo ≤ x < hi)) →
  (∀ x, ¬ (lo ≤ x < hi) → getw (mem s') x = getw (stored (mem s) a o) x) →
  (∀ bs, o = Some bs → length bs = 512%nat) → (∀ x, a ≤ x < a + 512 → ¬ variable ds x) →
  tty s' = tty s → calls s' = n →
  represents ds lo hi s' (Stage2.set_mem (stored (Stage2.mem b) a o) (Stage2.set_calls n b)).
Proof.
  intros [Hd Hs Hh Ht _ Hm] Hv Hm' Hlen Ha Et Ec.
  assert (∀ x, variable ds x → getw (mem s') x = getw (mem s) x) as Hvar.
  { intros x Hx. rewrite Hm' by by apply Hv. apply getw_stored_outside. intros bs Hbs Hin. rewrite (Hlen bs Hbs) in Hin.
    by apply (Ha x Hin). }
  split; cbn [Stage2.g_drive Stage2.g_sectors_per_track Stage2.g_num_heads Stage2.tty Stage2.bios_calls Stage2.mem
              Stage2.set_mem Stage2.set_calls]; [| | |congruence|done|].
  - rewrite Hvar; [done|by left].
  - eapply Stage2.holds_frame; [|exact Hs]. intros x Hx. apply Hvar. right. left. exact Hx.
  - eapply Stage2.holds_frame; [|exact Hh]. intros x Hx. apply Hvar. right. right. exact Hx.
  - intros x Hx Hx'. rewrite Hm' by done. apply getw_stored. by apply Hm.
Qed.

(** [disk_read_sector] does what Boot.v says it does, and returns. *)
Theorem disk_read_sector_refines lo hi lba segment offset s b :
  let buffer := 16 * u16 segment + u16 offset in
  let dword v := two (u16 v) ++ two (v / 65536) in
  called lo hi (Sym "disk_read_sector") s → represents (X86.s_ds (sg s)) lo hi s b →
  Stage2.holds (mem s) (16 * X86.s_ss (sg s) + r_sp (rg s) + 4) (dword lba ++ dword segment ++ dword offset) →
  0 ≤ lba < 2 ^ 32 → 1 ≤ Stage2.g_sectors_per_track b → 1 ≤ Stage2.g_num_heads b →
  (∀ n ch cl dh bs, int13_sectors n 1 (Stage2.g_drive b) ch cl dh = Some bs → length bs = 512%nat) →
  (∀ x, buffer ≤ x < buffer + 512 → ¬ (lo ≤ x < hi) ∧ ¬ variable (X86.s_ds (sg s)) x) →
  ∃ r b', Stage2.disk_read_sector lba segment offset b = Some (r, b') ∧
    runs_to s (λ s', returned s r (u16 segment) s' ∧ get32 X86.EBX s' = get32 X86.EBX s ∧
                     represents (X86.s_ds (sg s)) lo hi s' b').
Proof.
  intros buffer dword [Hip Hcs Hst Hlo Hhi Hv] Hrep Hargs Hlba H1 H2 Hlen Hbuf.
  rewrite disk_read_sector_tries by done. do 2 eexists. split; [reflexivity|].
  pose proof Hrep as [Hd Hs Hh _ Hc _].
  destruct s as [g u [cs' ds es fs gs ss] ip' f c gd m t n tr].
  cbn [ip sg rg up mem calls X86.s_cs X86.s_ss X86.s_ds] in *. subst cs' ip' n.
  eapply (disk_read_sector_spec g u ss (Stage2.g_drive b) (Stage2.g_sectors_per_track b) (Stage2.g_num_heads b) lba segment offset); [done| | |done|done|done| | |].
  - intros x Hx Hin. apply (Hv x Hx). lia.
  - split; [| | |exact Hd|exact Hs|exact Hh]; intros j x Hj.
    + rewrite <- (Hargs j x); [f_equal; lia|]. by repeat (destruct j as [|j]; [exact Hj|]).
    + rewrite <- (Hargs (4 + j)%nat x); [f_equal; lia|]. by repeat (destruct j as [|j]; [exact Hj|]).
    + rewrite <- (Hargs (8 + j)%nat x); [f_equal; lia|]. by repeat (destruct j as [|j]; [exact Hj|]).
  - intros bs Hbs. apply tries_reads in Hbs as [n Hn]. by eapply Hlen.
  - intros x Hx Hin. apply (proj1 (Hbuf x Hx)). lia.
  - intros g' u' f' m' Eax Eg Eu Hm'. apply eventually_here. injection Eg as Ebl Ebh Esi Edi Ebp Esp.
    injection Eu as Eub Eusi Eudi Eubp Eusp. destruct Hst as (_ & _ & Husp).
    match type of Eax with _ = (if ?r.2 is Some _ then _ else _) => set (rr := r) in * end.
    split_and!.
    + split; try done; unfold get32; cbn [rg up low get16 X86.get_reg X86.g_esp X86.g_ebp X86.g_esi X86.g_edi]; 
      rewrite ?word_lo_hi, ?Eax, ?Esi, ?Edi, ?Ebp, ?Esp, ?Eusi, ?Eudi, ?Eubp, ?Eusp; try lia. by destruct (rr.2).
    + unfold get32. cbn [rg up low X86.get_reg get16]. by rewrite Ebl, Ebh, Eub.
    + eapply represents_stored; [exact Hrep|done| | |by intros x Hx; apply Hbuf|done|done].
      * intros x Hx. apply Hm'. lia.
      * intros bs Hbs. apply tries_reads in Hbs as [n Hn]. by eapply Hlen.
Qed.

(** ** [disk_get_params] *)

Definition params_regs (g : regs) (u : X86.gprs) : list Z :=
  two (r_di g) ++ two (X86.g_edi u) ++ two (r_si g) ++ two (X86.g_esi u) ++ two (r_bp g) ++ two (X86.g_ebp u).

Lemma params_prologue g u ds es fs gs ss f c gd m t n tr (Q : real → Prop) :
  stack_ok g u →
  (∀ m', same_outside (16 * ss + r_sp g - 18) (16 * ss + r_sp g) m m' →
     Stage2.holds m' (16 * ss + r_sp g - 12) (params_regs g u) →
     runs_to (mkReal (set16 SP (lo_hi (r_sp g - 12)) (set16 BP (lo_hi (r_sp g - 4)) g)) (X86.set_reg X86.EBP 0 u)
                (X86.mkSegs cs ds es fs gs ss) (off K cs (Sym "disk_get_params") 4) f c gd m' t n tr) Q) →
  runs_to (mkReal g u (X86.mkSegs cs ds es fs gs ss) (off K cs (Sym "disk_get_params") 0) f c gd m t n tr) Q.
Proof.
  destruct g as [al ah bl bh cl ch dl dh si di bp sp], u as [ua uc ud ub usp ubp usi udi].
  unfold stack_ok. cbn [r_sp X86.g_esp set16 X86.set_reg] in *. rewrite !word_lo_hi. intros (Hlo & Hhi & ->) HQ.
  do 4 real_step. u16_steps.
  match goal with |- eventually _ (mkReal _ _ _ _ _ _ _ ?x _ _ _) _ => set (m' := x) end.
  replace (sp - 2 - 2 - 2 - 2 - 2 - 2) with (sp - 12) by lia. replace (sp - 2 - 2) with (sp - 4) by lia.
  apply HQ; unfold m'.
  - intros x Hx. rewrite !getw_insert, !decide_False by lia. done.
  - intros j b Hj. cbn [params_regs two r_si r_di r_bp X86.g_ebp X86.g_esi X86.g_edi app] in Hj. read_back j Hj.
Qed.

Lemma params_epilogue g0 u0 g u ds es fs gs ss f c gd m t n tr (Q : real → Prop) :
  stack_ok g0 u0 → r_sp g = r_sp g0 - 12 → r_bp g = r_sp g0 - 4 → X86.g_ebp u = 0 →
  Stage2.holds m (16 * ss + r_sp g0 - 12) (params_regs g0 u0) →
  let kept r x y := set16 r (get16 r x) y in
  runs_to (mkReal (set16 SP (lo_hi (r_sp g0 + 2)) (kept SI g0 (kept DI g0 (kept BP g0 g))))
             (X86.mkGprs (X86.g_eax u) (X86.g_ecx u) (X86.g_edx u) (X86.g_ebx u) 0 (X86.g_ebp u0) (X86.g_esi u0) (X86.g_edi u0))
             (X86.mkSegs cs ds es fs gs ss)
             (word (getw m (16 * ss + r_sp g0), getw m (16 * ss + (r_sp g0 + 1)))) f c gd m t n tr) Q →
  runs_to (mkReal g u (X86.mkSegs cs ds es fs gs ss) (off K cs (Sym "disk_get_params.exit") 0) f c gd m t n tr) Q.
Proof.
  destruct g as [al ah bl bh cl ch dl dh si di bp sp], u as [ua uc ud ub usp ubp usi udi].
  cbn [r_sp r_bp X86.g_ebp]. intros (Hlo & Hhi & _) -> -> -> Hsv HQ.
  destruct g0 as [al' ah' bl' bh' cl' ch' dl' dh' si' di' bp' sp'], u0 as [ua' uc' ud' ub' usp' ubp' usi' udi'].
  cbn [r_sp X86.g_esp] in *.
  assert (∀ (j : nat) x a, params_regs (mkRegs al' ah' bl' bh' cl' ch' dl' dh' si' di' bp' sp')
      (X86.mkGprs ua' uc' ud' ub' usp' ubp' usi' udi') !! j = Some x →
    a = 16 * ss + sp' - 12 + Z.of_nat j → getw m a = x) as Hget by (intros j x a Hj ->; by apply Hsv).
  do 5 real_step. u16_steps. restore Hget. rewrite !word_halves.
  revert HQ. real_norm. replace (sp' - 4 + 2 + 2) with sp' by lia. done.
Qed.

(** What INT 13h returns, in the variables. *)
Definition geometry_stored (ds : Z) (geo : option (Z * Z)) (m : gmap Z Z) : gmap Z Z :=
  match geo with
  | Some (cl, dh) =>
      Stage2.store_bytes (Stage2.store_bytes m (16 * ds + y_g_sectors_per_track Y) (two (Z.land cl 0x3F)))
        (16 * ds + y_g_num_heads Y) (two (u16 (u8 dh + 1)))
  | None => m
  end.
Lemma getw_geometry m m' ds geo x :
  getw m' x = getw m x → getw (geometry_stored ds geo m') x = getw (geometry_stored ds geo m) x.
Proof. destruct geo as [[cl dh]|]; [|done]. cbn [geometry_stored]. rewrite !Stage2.getw_store_bytes. by intros ->. Qed.
Lemma getw_geometry_outside m ds geo x : ¬ variable ds x → getw (geometry_stored ds geo m) x = getw m x.
Proof.
  unfold variable. intros Hx. destruct geo as [[cl dh]|]; [|done]. cbn [geometry_stored]. rewrite !Stage2.getw_store_bytes.
  cbn [length two]. by rewrite !decide_False by lia.
Qed.

(** The bytes [disk_get_params] stores one by one. *)
Lemma geometry_bytes m ds cl dh :
  <[16 * ds + (y_g_num_heads Y + 1) := (lo_hi (u16 (word (u8 dh, 0) + 1))).2]>
    (<[16 * ds + y_g_num_heads Y := (lo_hi (u16 (word (u8 dh, 0) + 1))).1]>
      (<[16 * ds + (y_g_sectors_per_track Y + 1) := 0]>
        (<[16 * ds + y_g_sectors_per_track Y := Z.land (u8 cl) 63]> m)))
  = geometry_stored ds (Some (cl, dh)) m.
Proof.
  assert (Z.land (u8 cl) 63 = (lo_hi (Z.land cl 63)).1 ∧ (lo_hi (Z.land cl 63)).2 = 0) as [-> E2].
  { change 63 with (2 ^ 6 - 1). rewrite !land_ones_mod by lia. unfold u8, lo_hi. cbn [fst snd].
    pose proof (Z.mod_pos_bound cl (2 ^ 6) ltac:(lia)). rewrite Z.mod_mod_divide by (by exists 4).
    by rewrite (Z.mod_small (cl `mod` _)), Z.div_small by lia. }
  cbn [geometry_stored two Stage2.store_bytes]. rewrite E2, !Z.add_assoc. unfold word. cbn [fst snd].
  by rewrite Z.mul_0_r, Z.add_0_r.
Qed.

Lemma disk_get_params_spec g0 u0 drive ds es fs gs ss f c gd m t n tr (Q : real → Prop) :
  let geo := int13_geometry drive in
  stack_ok g0 u0 → getw m (16 * ds + y_g_drive Y) = drive →
  (∀ x, variable ds x → ¬ (16 * ss + r_sp g0 - 18 ≤ x < 16 * ss + r_sp g0 + 4)) →
  (∀ g u es' f' m',
     word (get16 AX g) + 65536 * X86.g_eax u = (if geo is Some _ then 0 else u32 (-1)) →
     (r_si g, r_di g, r_bp g, r_sp g) = (r_si g0, r_di g0, r_bp g0, r_sp g0 + 2) →
     (X86.g_esi u, X86.g_edi u, X86.g_ebp u, X86.g_esp u) = (X86.g_esi u0, X86.g_edi u0, X86.g_ebp u0, X86.g_esp u0) →
     same_outside (16 * ss + r_sp g0 - 18) (16 * ss + r_sp g0)
       (geometry_stored ds geo m) m' →
     runs_to (mkReal g u (X86.mkSegs cs ds es' fs gs ss)
                (word (getw m (16 * ss + r_sp g0), getw m (16 * ss + (r_sp g0 + 1)))) f' c gd m' t (n + 1) tr) Q) →
  runs_to (mkReal g0 u0 (X86.mkSegs cs ds es fs gs ss) (off K cs (Sym "disk_get_params") 0) f c gd m t n tr) Q.
Proof.
  intros geo Hst Hd Hv HQ. apply params_prologue; [done|]. intros m1 Hm1 Hsv. pose proof Hst as (Hlo & Hhi & Hesp).
  assert (∀ g u es' f', word (get16 AX g) + 65536 * X86.g_eax u = (if geo is Some _ then 0 else u32 (-1)) →
    r_sp g = r_sp g0 - 12 → r_bp g = r_sp g0 - 4 → X86.g_ebp u = 0 →
    runs_to (mkReal g u (X86.mkSegs cs ds es' fs gs ss) (off K cs (Sym "disk_get_params.exit") 0) f' c gd
               (geometry_stored ds geo m1) t (n + 1) tr) Q) as Hexit.
  { intros g u es' f' Eax Esp Ebp Eubp.
    assert (∀ x, 16 * ss + r_sp g0 - 18 ≤ x < 16 * ss + r_sp g0 + 4 → getw (geometry_stored ds geo m1) x = getw m1 x) as Hfr.
    { intros x Hx. apply getw_geometry_outside. intros Hx'. by apply (Hv x Hx'). }
    eapply params_epilogue; [exact Hst|done|done|done| |].
    - eapply Stage2.holds_frame; [|exact Hsv]. intros x Hx. change (length (params_regs g0 u0)) with 12%nat in Hx. apply Hfr. lia.
    - rewrite !Hfr, !Hm1 by lia. apply HQ.
      + destruct g. exact Eax.
      + destruct g, g0. real_norm. done.
      + cbn [X86.g_esi X86.g_edi X86.g_ebp X86.g_esp]. by rewrite Hesp.
      + intros x Hx. apply getw_geometry, Hm1. lia. }
  destruct Hvo as [V1 V2 V3 _ _ V6]. destruct f as [fc fz fi fd].
  destruct g0 as [al ah bl bh cl ch dl dh si di bp sp], u0 as [ua uc ud ub usp ubp usi udi].
  real_norm. do 4 real_step. rewrite u16_small by lia.
  rewrite Hm1, Hd by (cbn [r_sp] in Hv |- *; pose proof (Hv (16 * ds + y_g_drive Y) ltac:(by left)); lia).
  real_fetch. unfold int13, wr8, wr16, set_cf.
  repeat lazymatch goal with |- wp (match int13_geometry _ with Some _ => _ | None => _ end) _ _ => fail | _ => real_wp end.
  subst geo. destruct (int13_geometry drive) as [[cl' dh']|]; repeat real_wp.
  - do 9 real_step. u16_steps. rewrite geometry_bytes, Z.lxor_nilpotent. apply Hexit; try done.
  - do 3 real_step. apply Hexit; done.
Qed.

Definition with_geometry (geo : option (Z * Z)) (b : Stage2.boot) : Stage2.boot :=
  match geo with Some (cl, dh) => Stage2.set_geometry (Z.land cl 0x3F) (u16 (u8 dh + 1)) b | None => b end.
Lemma represents_geometry ds lo hi s s' b geo n :
  represents ds lo hi s b → (∀ x, variable ds x → ¬ (lo ≤ x < hi)) →
  (∀ x, ¬ (lo ≤ x < hi) → getw (mem s') x = getw (geometry_stored ds geo (mem s)) x) →
  tty s' = tty s → calls s' = n →
  represents ds lo hi s' (with_geometry geo (Stage2.set_calls n b)).
Proof.
  intros [Hd Hs Hh Ht _ Hm] Hv Hm' Et Ec. destruct Hvo as [_ _ _ V4 V5 V6].
  assert (∀ a l, (∀ x, a ≤ x < a + Z.of_nat (length l) → variable ds x) →
    Stage2.holds (geometry_stored ds geo (mem s)) a l → Stage2.holds (mem s') a l) as Hvar.
  { intros a l Ha. apply Stage2.holds_frame. intros x Hx. by apply Hm', Hv, Ha. }
  assert (∀ x, ¬ (lo ≤ x < hi) → ¬ variable ds x → getw (mem s') x = getw (Stage2.mem b) x) as Hmem.
  { intros x Hx Hx'. rewrite Hm', getw_geometry_outside by done. by apply Hm. }
  destruct geo as [[cl dh]|]; (split; [| | |by rewrite Et, Ht|done|done]).
  all: cbn [with_geometry Stage2.set_geometry Stage2.set_calls Stage2.g_drive Stage2.g_sectors_per_track Stage2.g_num_heads].
  - rewrite Hm' by (apply Hv; by left). cbn [geometry_stored]. rewrite !Stage2.getw_store_bytes, !decide_False by (cbn [length two]; lia). done.
  - apply Hvar; [intros x Hx; right; left; exact Hx|]. cbn [geometry_stored].
    eapply Stage2.holds_frame; [|apply Stage2.holds_store]. intros x Hx. rewrite Stage2.getw_store_bytes.
    by rewrite decide_False by (cbn [length two] in *; lia).
  - apply Hvar; [intros x Hx; right; right; exact Hx|]. apply Stage2.holds_store.
  - rewrite Hm' by (apply Hv; by left). done.
  - apply Hvar; [intros x Hx; right; left; exact Hx|done].
  - apply Hvar; [intros x Hx; right; right; exact Hx|done].
Qed.

(** [disk_get_params] does what Boot.v says it does, and returns; ES is whatever the
    BIOS left there. *)
Theorem disk_get_params_refines lo hi s b :
  called lo hi (Sym "disk_get_params") s → represents (X86.s_ds (sg s)) lo hi s b →
  ∃ r b', Stage2.disk_get_params b = Some (r, b') ∧
    runs_to s (λ s', ∃ es, returned s r es s' ∧ represents (X86.s_ds (sg s)) lo hi s' b').
Proof.
  intros [Hip Hcs Hst Hlo Hhi Hv] Hrep. pose proof Hrep as [Hd _ _ _ Hc _].
  set (geo := int13_geometry (Stage2.g_drive b)).
  exists (if geo is Some _ then 0 else -1), (with_geometry geo (Stage2.set_calls (Stage2.bios_calls b + 1) b)). split.
  { unfold Stage2.disk_get_params, mbind, M_bind, gets, modify. cbn [Stage2.int13_params stage2_bios]. fold geo.
    by destruct geo as [[cl dh]|]. }
  destruct s as [g u [cs' ds es fs gs ss] ip' f c gd m t n tr].
  cbn [ip sg rg up mem calls X86.s_cs X86.s_ss X86.s_ds] in *. subst cs' ip' n.
  apply (disk_get_params_spec g u (Stage2.g_drive b)); [done|done|intros x Hx Hin; apply (Hv x Hx); lia|].
  fold geo. intros g' u' es' f' m' Eax Eg Eu Hm'. apply eventually_here. exists es'.
  injection Eg as Esi Edi Ebp Esp. injection Eu as Eusi Eudi Eubp Eusp. split.
  - split; try done; unfold get32; cbn [rg up low get16 X86.get_reg];
      rewrite ?word_lo_hi, ?Eax, ?Esi, ?Edi, ?Ebp, ?Esp, ?Eusi, ?Eudi, ?Eubp, ?Eusp; try lia.
    by destruct geo as [[]|].
  - eapply represents_geometry; [exact Hrep|done| |done|done]. intros x Hx. apply Hm'. lia.
Qed.
End code.

(** *** A call

    Asked for block 3 at 0900:0000, with the stack at 0500:3F00. *)

Definition disk_labels : list label :=
  Sym <$> ["disk_get_params"; "disk_get_params.error"; "disk_get_params.exit"; "lba_to_chs"; "disk_read_sector";
           "disk_read_sector.retry"; "disk_read_sector.error"; "disk_read_sector.done"; "disk_read_sector.exit"]%string.
Definition demo_symbols : symbols := mkSymbols 0x100 0x102 0x104.
Definition demo_table : X86.table := X86.lay 0x5200 (sized (disk_asm demo_symbols) disk_labels).
Lemma disk_table_ok : X86.table_ok demo_table = true.
Proof. by vm_compute. Qed.
Definition demo_linker : X86.linker := X86.table_linker demo_table disk_table_ok.
Lemma disk_placed : placed demo_linker (disk_asm demo_symbols) 0x500.
Proof.
  apply (placed_lay _ _ _ _ 0x5200 (sized (disk_asm demo_symbols) disk_labels)); [done| |lia|apply Z.leb_le; by vm_compute].
  intros [l|n] Hl; [|done]. apply sized_in. revert Hl. unfold disk_asm.
  repeat (case_decide; [subst; intros _; by repeat constructor|]). done.
Qed.

Definition demo_mem : gmap Z Z :=
  Stage2.store_bytes (Stage2.store_bytes ∅ 0x5100 [0; 0; 18; 0; 2; 0]) 0x8F00
    [0x34; 0x12; 0; 0; 3; 0; 0; 0; 0; 9; 0; 0; 0; 0; 0; 0].
Definition demo_call : real :=
  mkReal (mkRegs 1 2 3 4 5 6 7 8 9 10 11 0x3F00) (X86.mkGprs 1 2 3 4 0 5 6 7) (X86.mkSegs 0x500 0x500 0x500 3 4 0x500)
    (off demo_linker 0x500 (Sym "disk_read_sector") 0) (mkFlags true false true true) 0x10 (0, 0) demo_mem [] 0 [].
Definition numbered (lba : Z) : list Z := replicate 512 (lba `mod` 256).

Lemma demo_represents lo : lo = 0x8600 → represents demo_symbols 0x500 lo 0x8FF0 demo_call Stage2.demo_boot.
Proof.
  intros ->. split; [by vm_compute| | |done|done|].
  1, 2: intros j x Hj; repeat (destruct j as [|j]; [injection Hj as <-; by vm_compute|]); done.
  intros x Hx Hv. unfold variable in Hv. cbn in Hv. unfold demo_call, demo_mem. cbn [mem Stage2.mem Stage2.demo_boot].
  rewrite !Stage2.getw_store_bytes, decide_False by (cbn [length]; lia). case_decide as Hin; [|done].
  cbn [length] in Hin. assert (x = 0x5101) as -> by lia. done.
Qed.

(** ES is the segment that was read to, and SP is 3F02, where a 32-bit return would
    have left 3F04. *)
Example disk_read_sector_call :
  ∃ s', @eventually real (@stepR (floppy numbered []) (λ _ _, 0) demo_linker (disk_asm demo_symbols)) demo_call (λ s, s = s') ∧
    ip s' = 0x1234 ∧ get32 X86.EAX s' = 0 ∧ get32 X86.ESP s' = 0x3F02 ∧
    sg s' = X86.mkSegs 0x500 0x500 0x900 3 4 0x500 ∧ getw (mem s') 0x9000 = 3.
Proof.
  destruct (@disk_read_sector_refines (floppy numbered []) (λ _ _, 0) demo_linker demo_symbols 0x500 disk_placed
    ltac:(split; simpl; lia) 0x8600 0x8FF0 3 0x900 0 demo_call Stage2.demo_boot) as (r & b' & E & s' & Hrun & Hret & _ & Hrep).
  - split; [done|done|split; [cbn; lia|split; [cbn; lia|done]]|cbn; lia|cbn; lia|].
    intros x Hx. unfold variable in Hx. cbn in Hx. lia.
  - by apply demo_represents.
  - intros j x Hj. repeat (destruct j as [|j]; [injection Hj as <-; by vm_compute|]). done.
  - lia.
  - done.
  - done.
  - intros n ch cl dh bs Hr. unfold int13_sectors, floppy in Hr. destruct (bool_decide _); [done|].
    apply (inj Some) in Hr as <-. rewrite seqZ_cons, seqZ_nil by lia. reflexivity.
  - change (16 * u16 0x900 + u16 0) with 0x9000. unfold variable. cbn [sg demo_call X86.s_ds]. cbn. lia.
  - assert ((λ o, (λ p : Z * Stage2.boot, (p.1, getw (Stage2.mem p.2) 0x9000)) <$> o)
      (@Stage2.disk_read_sector (@stage2_bios (floppy numbered [])) 3 0x900 0 Stage2.demo_boot) = Some (0, 3)) as E3 by (vm_compute; reflexivity).
    rewrite E in E3. injection E3 as E1 E2. subst r.
    exists s'. split; [exists s'; split; [exact Hrun|reflexivity]|]. destruct Hret as [H1 H2 H3 _ _ _ H4 _ _].
    split; [exact H2|]. split; [exact H1|]. split; [exact H3|]. split; [exact H4|].
    rewrite <- E2. apply (rp_mem _ _ _ _ _ _ Hrep); [lia|]. unfold variable. cbn. lia.
Qed.

End Disk.
