(* ===== verification/Stage1.v ===== *)
(** * The boot sector (src/boot/stage1/boot.asm)

    The first sector of the disk: the BIOS parameter block and the code that loads
    the second stage, on the machine of Real.v.  From its first instruction, the jump
    over the block, the sector is shown to load sixteen
    sectors to 0x5000 and to jump there, or to end in [disk_error]; the parameter
    block is shown to be the one the second stage reads. *)

From S2P Require Import Prelude Io X86 Boot Real.
Import Io Real.

Module Stage1.

(** ** The parameter block *)

Definition ORG : Z := 0x7C00.
Definition STAGE2_SEGMENT : Z := 0x0500.
Definition STAGE2_OFFSET : Z := 0x0000.
Definition STAGE2_FIRST_LBA : Z := 2864.
Definition STAGE2_SECTORS : Z := 16.

(** [dw] and [dd]. *)
Definition dw (v : Z) : list Z := [v `mod` 256; (v / 256) `mod` 256].
Definition dd (v : Z) : list Z := dw (v `mod` 65536) ++ dw (v / 65536).

Definition parameter_block : list (string * list Z) :=
  [("OEMLabel", cstr "MSWIN4.1");
   ("BytesPerSector", dw 512);
   ("SectorsPerCluster", [1]);
   ("ReservedSectors", dw 1);
   ("NumberofFATs", [2]);
   ("RootEntries", dw 224);
   ("TotalSectors", dw 2880);
   ("Media", [0xf0]);
   ("SectorsPerFAT", dw 9);
   ("SectorsPerTrack", dw 18);
   ("HeadsPerCylinder", dw 2);
   ("HiddenSectors", dd 0);
   ("TotalSectorsBig", dd 0);
   ("DriveNumber", [0]);
   ("CurrentFlags", [0]);
   ("BootSignature", [0x29]);
   ("VolumeID", dd 0x1337c0de);
   ("VolumeLabel", cstr "NEIL OS    ");
   ("FileSystem", cstr "FAT12   ")]%string.

(** The bytes of the sector up to [start]: [jmp short start] and [nop], and the
    block. *)
Definition header : list Z := [0xEB; 0x3C; 0x90] ++ (parameter_block ≫= snd).

(** The address of a field. *)
Fixpoint field_from (a : Z) (fields : list (string * list Z)) (name : string) : Z :=
  match fields with
  | [] => a
  | (n, bs) :: fields => if decide (n = name) then a else field_from (a + Z.of_nat (length bs)) fields name
  end.
Definition SectorsPerTrack : Z := Eval vm_compute in field_from (ORG + 3) parameter_block "SectorsPerTrack".
Definition HeadsPerCylinder : Z := Eval vm_compute in field_from (ORG + 3) parameter_block "HeadsPerCylinder".
Definition DriveNumber : Z := Eval vm_compute in field_from (ORG + 3) parameter_block "DriveNumber".

(** ** The code *)

(** The addresses of the data behind it. *)
Record symbols : Type := mkSymbols { y_RetryCount : Z; y_msg_loading : Z; y_msg_error : Z }.

Definition msg_loading : list Z := cstr "Loading Stage 2...\r\n".
Definition msg_error : list Z := cstr "Disk Read Error\r\n".

(** The first instructions of the sector, in front of the block. *)
Definition boot_sector : list instr := [Jmp (Sym "start"); Nop].

Definition start (Y : symbols) : list instr :=
  [Cli; Xor AX AX; MovSR X86.DS AX; MovSR X86.ES AX; MovSR X86.SS AX; MovI SP 0x7C00; Sti; Cld;
   MovMB DriveNumber DL;
   MovI SI (y_msg_loading Y); Call (Sym "puts");
   MovI AX STAGE2_FIRST_LBA; Call (Sym "lba_to_chs");
   MovI AX STAGE2_SEGMENT; MovSR X86.ES AX; Xor BX BX;
   MovBI AH 0x2; MovBI AL STAGE2_SECTORS; MovBM DL DriveNumber;
   Int 0x13; Jc (Sym "disk_error");
   MovBM DL DriveNumber; JmpFar STAGE2_SEGMENT STAGE2_OFFSET].

Definition puts : list instr := [Push SI; Push AX; Cld; Fall (Sym "puts.loop")].
Definition puts_loop : list instr :=
  [Lodsb; OrB AL AL; Jz (Sym "puts.done"); MovBI AH 0x0e; MovBI BH 0; Int 0x10; Jmp (Sym "puts.loop")].
Definition puts_done : list instr := [Pop AX; Pop SI; Ret].

Definition lba_to_chs : list instr :=
  [Xor DX DX; DivM SectorsPerTrack; IncB DL; MovB CL DL;
   Xor DX DX; DivM HeadsPerCylinder; MovB DH DL; MovB CH AL;
   ShlBI AH 6; AndBI CL 0x3F; OrB CL AH; Ret].

Definition disk_read (Y : symbols) : list instr :=
  [Pusha; MovMI (y_RetryCount Y) 3; Fall (Sym "disk_read.retry")].
Definition disk_read_retry (Y : symbols) : list instr :=
  [Push AX; Call (Sym "lba_to_chs"); Pop AX; MovBM DL DriveNumber;
   MovBI AH 0x02; MovBI AL 1; Stc; Int 0x13; Jnc (Sym "disk_read.success");
   Call (Sym "disk_reset"); DecM (y_RetryCount Y); Jnz (Sym "disk_read.retry");
   Popa; Jmp (Sym "disk_error")].
Definition disk_read_success : list instr := [Popa; Ret].

Definition disk_reset : list instr :=
  [Pusha; MovBI AH 0; MovBM DL DriveNumber; Stc; Int 0x13; Popa; Ret].

Definition disk_error (Y : symbols) : list instr :=
  [MovI SI (y_msg_error Y); Call (Sym "puts"); XorB AH AH; Int 0x16; JmpFar 0xFFFF 0x0].

Definition boot_asm (Y : symbols) : program := λ l,
  match l with
  | X86.IsrN _ => []
  | X86.Sym s =>
      if decide (s = "boot_sector") then boot_sector
      else if decide (s = "start") then start Y
      else if decide (s = "puts") then puts
      else if decide (s = "puts.loop") then puts_loop
      else if decide (s = "puts.done") then puts_done
      else if decide (s = "lba_to_chs") then lba_to_chs
      else if decide (s = "disk_read") then disk_read Y
      else if decide (s = "disk_read.retry") then disk_read_retry Y
      else if decide (s = "disk_read.success") then disk_read_success
      else if decide (s = "disk_reset") then disk_reset
      else if decide (s = "disk_error") then disk_error Y
      else []
  end%string.

(** CH, CL and DH for a block, as the second stage computes them. *)
Definition chs_ch (spt heads lba : Z) : Z := u8 (lba / spt / heads).
Definition chs_cl (spt heads lba : Z) : Z :=
  Z.lor (Z.land (u8 (Z.shiftr (lba / spt / heads) 2)) 0xC0) (Z.land (u8 (lba `mod` spt + 1)) 0x3F).
Definition chs_dh (spt heads lba : Z) : Z := u8 ((lba / spt) `mod` heads).

(** [shl ah, 6] puts the high bits of the cylinder where CL has them. *)
Lemma cylinder_bits c : 0 ≤ c → u8 (Z.shiftl (c / 256) 6) = Z.land (u8 (Z.shiftr c 2)) 0xC0.
Proof.
  intros Hc. apply Z.bits_inj'. intros n Hn. rewrite Z.land_spec. unfold u8.
  destruct (decide (n < 8)); [|by rewrite !Z.mod_pow2_bits_high by lia].
  rewrite !Z.mod_pow2_bits_low by lia. rewrite Z.shiftr_spec by lia. change 256 with (2 ^ 8).
  rewrite <- Z.shiftr_div_pow2 by lia. destruct (decide (n < 6)).
  - rewrite Z.shiftl_spec_low by lia. change 0xC0 with (Z.shiftl 3 6). rewrite Z.shiftl_spec_low by lia.
    by rewrite andb_false_r.
  - rewrite Z.shiftl_spec, Z.shiftr_spec by lia. replace (n - 6 + 8) with (n + 2) by lia.
    assert (n = 6 ∨ n = 7) as [->| ->] by lia; by rewrite andb_true_r.
Qed.

Section code.
Context `{Bios16} (dev : device) (K : X86.linker) (Y : symbols).
Context (cs : Z) (Hplaced : placed K (boot_asm Y) cs).
Abbreviation runs_to := (eventually (stepR dev K (boot_asm Y))).

(** ** Printing *)

Lemma stage1_puts_loop_spec ms al ah bl bh cx si di bp sp u ds es fs gs ss f c gd m t n tr (Q : real → Prop) :
  Stage2.holds m (16 * ds + si) (ms ++ [0]) → 0 ∉ ms → 0 ≤ si → si + Z.of_nat (length ms) < 0xFFFF →
  f_df f = false →
  (∀ al ah bh si f', f_df f' = false → f_if f' = f_if f →
     runs_to (mkReal (mkRegs al ah bl bh cx.1.1 cx.1.2 cx.2.1 cx.2.2 si di bp sp) u (X86.mkSegs cs ds es fs gs ss)
                (off K cs (Sym "puts.done") 0) f' c gd m (rev ms ++ t) n tr) Q) →
  runs_to (mkReal (mkRegs al ah bl bh cx.1.1 cx.1.2 cx.2.1 cx.2.2 si di bp sp) u (X86.mkSegs cs ds es fs gs ss)
             (off K cs (Sym "puts.loop") 0) f c gd m t n tr) Q.
Proof.
  destruct cx as [[cl ch] [dl dh]].
  revert al ah bh si f t. induction ms as [|b ms IH]; intros al ah bh si [fc fz fi fd] t Hm Hn Hsi Hl Hdf HQ;
    cbn [f_df f_if] in *; subst fd; cbn [length app] in Hl, Hm.
  - assert (getw m (16 * ds + si) = 0) as Hb by (rewrite <- (Z.add_0_r (_ + si)); by apply (Hm 0%nat)).
    real_step. u16_steps. rewrite Hb. do 2 real_step. by apply HQ.
  - apply not_elem_of_cons in Hn as [Hb0 Hn].
    assert (getw m (16 * ds + si) = b) as Hb by (rewrite <- (Z.add_0_r (_ + si)); by apply (Hm 0%nat)).
    real_step. u16_steps. rewrite Hb. real_step. rewrite Z.lor_diag.
    destruct (Z.eqb_spec b 0) as [|_]; [congruence|]. do 3 real_step.
    real_fetch. unfold int10, rd8. repeat real_wp. real_step. apply IH; [|done|lia|lia|done|].
    + intros i x Hi. rewrite <- (Hm (S i) x Hi). f_equal. lia.
    + intros al' ah' bh' si' f' Hd Hi. cbn [rev] in HQ. rewrite <- app_assoc in HQ. by apply HQ.
Qed.

(** [puts] prints the text at DS:SI; only BH, the flags and the stack change. *)
Lemma stage1_puts_spec ms al ah bl bh cl ch dl dh si di bp sp u ds es fs gs ss f c gd m t n tr (Q : real → Prop) :
  Stage2.holds m (16 * ds + si) (ms ++ [0]) → 0 ∉ ms → 0 ≤ si → si + Z.of_nat (length ms) < 0xFFFF →
  4 ≤ sp < 0xFFFE →
  16 * ds + si + Z.of_nat (length ms) < 16 * ss + sp - 4 ∨ 16 * ss + sp ≤ 16 * ds + si →
  (∀ bh' f' m', f_df f' = false → f_if f' = f_if f →
     same_outside (16 * ss + sp - 4) (16 * ss + sp) m m' →
     runs_to (mkReal (mkRegs al ah bl bh' cl ch dl dh si di bp (sp + 2)) u (X86.mkSegs cs ds es fs gs ss)
                (word (getw m (16 * ss + sp), getw m (16 * ss + (sp + 1)))) f' c gd m' (rev ms ++ t) n tr) Q) →
  runs_to (mkReal (mkRegs al ah bl bh cl ch dl dh si di bp sp) u (X86.mkSegs cs ds es fs gs ss)
             (off K cs (Sym "puts") 0) f c gd m t n tr) Q.
Proof.
  intros Hm Hn Hsi Hl Hsp Hdis HQ. do 4 real_step. u16_steps.
  set (m' := <[_ := ah]> _).
  assert (same_outside (16 * ss + sp - 4) (16 * ss + sp) m m') as Hm'.
  { intros x Hx. unfold m'. rewrite !getw_insert, !decide_False by lia. done. }
  apply (stage1_puts_loop_spec ms al ah bl bh ((cl, ch), (dl, dh))); [|done|lia|lia|done|].
  { eapply Stage2.holds_frame; [|exact Hm]. intros x Hx. rewrite length_app in Hx. simpl in Hx. apply Hm'. lia. }
  intros al' ah' bh' si' f' Hd Hi. do 3 real_step. u16_steps.
  assert (∀ x, 16 * ss + (sp - 2 - 2) ≤ x < 16 * ss + sp →
    getw m' x = if decide (x = 16 * ss + (sp - 2 - 2)) then al else if decide (x = 16 * ss + (sp - 2 - 2 + 1)) then ah
                else if decide (x = 16 * ss + (sp - 2)) then (lo_hi si).1 else (lo_hi si).2) as Hst.
  { intros x Hx. unfold m'. rewrite !getw_insert. repeat case_decide; done || lia. }
  rewrite !Hst by lia. repeat (first [rewrite decide_True by lia | rewrite decide_False by lia]).
  rewrite word_halves. replace (sp - 2 - 2 + 2 + 2) with sp by lia. rewrite !(Hm' (16 * ss + _)) by lia.
  apply HQ; [done|done|done].
Qed.

Lemma call_puts l i ms al ah bl bh cl ch dl dh si di bp sp u ds es fs gs ss f c gd m t n tr (Q : real → Prop) :
  boot_asm Y l !! i = Some (Call (Sym "puts")) →
  Stage2.holds m (16 * ds + si) (ms ++ [0]) → 0 ∉ ms → 0 ≤ si → si + Z.of_nat (length ms) < 0xFFFF →
  6 ≤ sp < 0xFFFE →
  16 * ds + si + Z.of_nat (length ms) < 16 * ss + sp - 6 ∨ 16 * ss + sp ≤ 16 * ds + si →
  (∀ bh' f' m', f_df f' = false → f_if f' = f_if f →
     same_outside (16 * ss + sp - 6) (16 * ss + sp) m m' →
     runs_to (mkReal (mkRegs al ah bl bh' cl ch dl dh si di bp sp) u (X86.mkSegs cs ds es fs gs ss)
                (off K cs l (S i)) f' c gd m' (rev ms ++ t) n tr) Q) →
  runs_to (mkReal (mkRegs al ah bl bh cl ch dl dh si di bp sp) u (X86.mkSegs cs ds es fs gs ss)
             (off K cs l i) f c gd m t n tr) Q.
Proof.
  intros Hi Hm Hn Hsi Hl Hsp Hdis HQ. eapply real_exec; [done|reflexivity|exact Hi|]. real_run. u16_steps.
  set (m1 := <[_ := _]> (<[_ := _]> m)).
  assert (same_outside (16 * ss + sp - 6) (16 * ss + sp) m m1) as Hm1 by (apply same_outside_push; lia).
  eapply (stage1_puts_spec ms); [|done|lia|lia|lia|lia|].
  { eapply Stage2.holds_frame; [|exact Hm]. intros x Hx. rewrite length_app in Hx. simpl in Hx. apply Hm1. lia. }
  intros bh' f' m' Hd Hf Hm'. unfold m1 at 1 2. rewrite pushed_word by lia. replace (sp - 2 + 2) with sp by lia.
  apply HQ; [done|done|]. eapply same_outside_trans; [exact Hm1| |lia|lia].
  intros x Hx. apply Hm'. lia.
Qed.

(** [lba_to_chs] leaves the registers of block AX, for the geometry of the
    parameter block. *)
Lemma lba_to_chs_spec spt heads al ah bl bh cl ch dl dh si di bp sp u ds es fs gs ss f c gd m t n tr (Q : real → Prop) :
  word (getw m (16 * ds + SectorsPerTrack), getw m (16 * ds + (SectorsPerTrack + 1))) = spt →
  word (getw m (16 * ds + HeadsPerCylinder), getw m (16 * ds + (HeadsPerCylinder + 1))) = heads →
  1 ≤ spt → 1 ≤ heads → let lba := word (al, ah) in 0 ≤ lba < 2 ^ 16 → 0 ≤ sp < 0xFFFE →
  (∀ al' ah' dl' f', f_df f' = f_df f → f_if f' = f_if f →
     runs_to (mkReal (mkRegs al' ah' bl bh (chs_cl spt heads lba) (chs_ch spt heads lba) dl' (chs_dh spt heads lba)
                        si di bp (sp + 2)) u (X86.mkSegs cs ds es fs gs ss)
                (word (getw m (16 * ss + sp), getw m (16 * ss + (sp + 1)))) f' c gd m t n tr) Q) →
  runs_to (mkReal (mkRegs al ah bl bh cl ch dl dh si di bp sp) u (X86.mkSegs cs ds es fs gs ss)
             (off K cs (Sym "lba_to_chs") 0) f c gd m t n tr) Q.
Proof.
  intros Hspt Hheads H1 H2 lba Hlba Hsp HQ.
  assert (∀ x d, 0 ≤ x < 2 ^ 16 → 1 ≤ d → 0 ≤ x / d ≤ x) as Hdiv.
  { intros x d Hx Hd. split; [apply Z.div_pos; lia|]. apply Z.div_le_upper_bound; nia. }
  pose proof (Hdiv lba spt Hlba H1) as Hq. pose proof (Hdiv (lba / spt) heads ltac:(lia) H2) as Hc.
  destruct f as [fc fz fi fd]. cbn [f_df f_if] in HQ.
  real_step. rewrite Z.lxor_nilpotent. real_calc.
  real_at. apply (wp_div _ _ _ spt); real_norm; fold lba.
  { exact Hspt. } { done. } { change (word (0, 0)) with 0. rewrite Z.mul_0_r, Z.add_0_r. lia. }
  change (word (0, 0)) with 0. rewrite Z.mul_0_r, Z.add_0_r. do 3 real_step. rewrite Z.lxor_nilpotent. real_calc.
  real_at. apply (wp_div _ _ _ heads); real_norm.
  { exact Hheads. } { done. } { change (word (0, 0)) with 0. rewrite Z.mul_0_r, Z.add_0_r. lia. }
  change (word (0, 0)) with 0. rewrite Z.mul_0_r, Z.add_0_r. do 6 real_step. u16_steps.
  assert (Z.lor (Z.land (u8 ((lo_hi (lba `mod` spt)).1 + 1)) 63) (u8 (Z.shiftl (lo_hi (lba / spt / heads)).2 6))
          = chs_cl spt heads lba) as ->.
  { unfold chs_cl. rewrite Z.lor_comm. f_equal; [apply cylinder_bits; lia|]. f_equal.
    unfold lo_hi, u8. cbn [fst]. change (2 ^ 8) with 256. by rewrite Zplus_mod_idemp_l. }
  by apply HQ.
Qed.

Lemma call_lba_to_chs l i spt heads al ah bl bh cl ch dl dh si di bp sp u ds es fs gs ss f c gd m t n tr (Q : real → Prop) :
  boot_asm Y l !! i = Some (Call (Sym "lba_to_chs")) →
  word (getw m (16 * ds + SectorsPerTrack), getw m (16 * ds + (SectorsPerTrack + 1))) = spt →
  word (getw m (16 * ds + HeadsPerCylinder), getw m (16 * ds + (HeadsPerCylinder + 1))) = heads →
  1 ≤ spt → 1 ≤ heads → let lba := word (al, ah) in 0 ≤ lba < 2 ^ 16 → 2 ≤ sp < 0xFFFE →
  16 * ds + (HeadsPerCylinder + 1) < 16 * ss + sp - 2 ∨ 16 * ss + sp ≤ 16 * ds + SectorsPerTrack →
  (∀ al' ah' dl' f' m', f_df f' = f_df f → f_if f' = f_if f →
     same_outside (16 * ss + sp - 2) (16 * ss + sp) m m' →
     runs_to (mkReal (mkRegs al' ah' bl bh (chs_cl spt heads lba) (chs_ch spt heads lba) dl' (chs_dh spt heads lba)
                        si di bp sp) u (X86.mkSegs cs ds es fs gs ss) (off K cs l (S i)) f' c gd m' t n tr) Q) →
  runs_to (mkReal (mkRegs al ah bl bh cl ch dl dh si di bp sp) u (X86.mkSegs cs ds es fs gs ss)
             (off K cs l i) f c gd m t n tr) Q.
Proof.
  intros Hi Hspt Hheads H1 H2 lba Hlba Hsp Hdis HQ. unfold SectorsPerTrack, HeadsPerCylinder in *.
  eapply real_exec; [done|reflexivity|exact Hi|]. real_run. u16_steps. set (m1 := <[_ := _]> (<[_ := _]> m)).
  assert (same_outside (16 * ss + sp - 2) (16 * ss + sp) m m1) as Hm1 by (apply same_outside_push; lia).
  eapply (lba_to_chs_spec spt heads); [by rewrite !Hm1 by (unfold SectorsPerTrack; lia)
    |by rewrite !Hm1 by (unfold HeadsPerCylinder; lia)|done|done|exact Hlba|lia|].
  intros al' ah' dl' f' Hd Hf. unfold m1 at 1 2. rewrite pushed_word by lia. replace (sp - 2 + 2) with sp by lia.
  by apply HQ.
Qed.

(** ** Loading *)

(** What the code relies on in its own sector: the geometry, the texts, and the
    place of the drive number. *)
Record data_in (drive : Z) (m : gmap Z Z) : Prop := {
  in_spt : word (getw m SectorsPerTrack, getw m (SectorsPerTrack + 1)) = 18;
  in_heads : word (getw m HeadsPerCylinder, getw m (HeadsPerCylinder + 1)) = 2;
  in_loading : Stage2.holds m (y_msg_loading Y) (msg_loading ++ [0]);
  in_error : Stage2.holds m (y_msg_error Y) (msg_error ++ [0]);
  in_drive : getw m DriveNumber = drive
}.

(** The texts lie in the sector, behind the parameter block. *)
Record layout_ok : Prop := {
  lay_loading : ORG + 62 ≤ y_msg_loading Y ∧ y_msg_loading Y + 21 ≤ ORG + 510;
  lay_error : ORG + 62 ≤ y_msg_error Y ∧ y_msg_error Y + 18 ≤ ORG + 510;
  lay_retry : ORG + 62 ≤ y_RetryCount Y < ORG + 510;
  lay_retry_loading : ¬ (y_msg_loading Y ≤ y_RetryCount Y < y_msg_loading Y + 21);
  lay_retry_error : ¬ (y_msg_error Y ≤ y_RetryCount Y < y_msg_error Y + 18)
}.
Context (Hlay : layout_ok).

Lemma data_in_low drive m m' :
  (∀ x, ORG ≤ x → x ≠ y_RetryCount Y → getw m' x = getw m x) → data_in drive m → data_in drive m'.
Proof.
  destruct Hlay as [H1 H2 H3 H4 H5]. unfold ORG in *. intros Hm [E1 E2 E3 E4 E5].
  split; [rewrite <- E1|rewrite <- E2| | |rewrite <- E5].
  1, 2: unfold SectorsPerTrack, HeadsPerCylinder; rewrite !Hm by lia; done.
  3: unfold DriveNumber; rewrite Hm by lia; done.
  all: eapply Stage2.holds_frame; [|done]; intros x Hx; apply Hm; [lia|].
  - change (length (msg_loading ++ [0])) with 21%nat in Hx. lia.
  - change (length (msg_error ++ [0])) with 18%nat in Hx. lia.
Qed.

(** [disk_error] prints its text, waits for a key and restarts the machine. *)
Lemma disk_error_spec drive al ah bl bh cl ch dl dh si di bp sp u es fs gs f c gd m t n tr (Q : real → Prop) :
  data_in drive m → 6 ≤ sp ≤ ORG → Z.testbit c 0 = false →
  (∀ g f' m', same_outside (sp - 6) sp m m' →
     runs_to (mkReal g u (X86.mkSegs 0xFFFF 0 es fs gs 0) 0 f' c gd m' (rev msg_error ++ t) n tr) Q) →
  runs_to (mkReal (mkRegs al ah bl bh cl ch dl dh si di bp sp) u (X86.mkSegs cs 0 es fs gs 0)
             (off K cs (Sym "disk_error") 0) f c gd m t n tr) Q.
Proof.
  intros Hd Hsp Hc HQ. destruct Hlay as [_ Herr _ _ _]. unfold ORG in *. real_step. u16_steps.
  apply (call_puts (Sym "disk_error") 1 msg_error); [done|apply (in_error _ _ Hd)|by apply (bool_decide_unpack _); vm_compute|
    lia|simpl; lia|lia|simpl; lia|].
  intros bh' [fc fz fi fd] m' _ _ Hm'. real_step. rewrite Z.lxor_nilpotent.
  real_fetch. unfold int16, rd8, wr16. repeat real_wp. real_fetch. do 2 real_wp. rewrite Hc. repeat real_wp. real_calc.
  by apply HQ.
Qed.

(** [disk_reset] resets the drive; all registers are kept. *)
Lemma call_disk_reset l i g u es fs gs f c gd m t n tr (Q : real → Prop) :
  boot_asm Y l !! i = Some (Call (Sym "disk_reset")) → 18 ≤ r_sp g ≤ ORG →
  (∀ f' m', same_outside (r_sp g - 18) (r_sp g) m m' →
     runs_to (mkReal g u (X86.mkSegs cs 0 es fs gs 0) (off K cs l (S i)) f' c gd m' t (n + 1) tr) Q) →
  runs_to (mkReal g u (X86.mkSegs cs 0 es fs gs 0) (off K cs l i) f c gd m t n tr) Q.
Proof.
  destruct g as [al ah bl bh cl ch dl dh si di bp sp]. cbn [r_sp]. unfold ORG. intros Hi Hsp HQ.
  destruct f as [fc fz fi fd]. eapply real_exec; [done|reflexivity|exact Hi|]. real_run. u16_steps.
  set (m1 := <[_ := _]> (<[_ := _]> m)).
  real_at. apply wp_pusha; [cbn [r_sp]; lia|]. cbn [r_sp].
  intros m2 Hm2 Hsaved. real_norm. do 3 real_step.
  real_fetch. unfold int13, set_cf, wr16. repeat real_wp.
  real_at. eapply wp_popa; [| |exact Hsaved|]; [done|cbn [r_sp]; lia|]. real_norm.
  real_step. u16_steps. cbn [Z.mul Z.add]. rewrite !Hm2 by lia. unfold m1 at 1 2. rewrite pushed_word by lia.
  replace (sp - 2 + 2) with sp by lia. apply HQ. eapply same_outside_trans; [|intros x Hx; apply Hm2; lia|reflexivity|reflexivity].
  apply same_outside_push; lia.
Qed.

(** ** [disk_read]

    What one block asks of the BIOS, and the attempts [disk_read] makes: after a
    failure the block is not the same, but the AX that INT 13h returned. *)
Definition read_block (n drive lba : Z) : option (list Z) :=
  int13_sectors n 1 drive (chs_ch 18 2 lba) (chs_cl 18 2 lba) (chs_dh 18 2 lba).
Fixpoint read_attempts (k : nat) (drive n lba : Z) : option (Z * list Z) :=
  match k with
  | O => None
  | S k =>
      match read_block n drive lba with
      | Some bs => Some (n + 1, bs)
      | None => read_attempts k drive (n + 2) (word (int13_result n))
      end
  end.

Section disk_read.
Context (drive : Z) (g0 : regs) (es : Z).
Abbreviation sp0 := (r_sp g0).
Abbreviation bx0 := (word (get16 BX g0)).
Abbreviation buffer := (16 * es + bx0).
(** The stack below the sector, the buffer away from both; the BIOS delivers whole
    sectors and returns bytes. *)
Record read_ok : Prop := {
  ro_sp : 40 ≤ sp0 ≤ ORG;
  ro_bx : 0 ≤ bx0 < 2 ^ 16;
  ro_buffer : buffer + 512 ≤ sp0 - 34 ∨ ORG + 512 ≤ buffer;
  ro_sector : ∀ n lba bs, read_block n drive lba = Some bs → length bs = 512%nat;
  ro_result : ∀ n, 0 ≤ word (int13_result n) < 2 ^ 16
}.
Context (Hok : read_ok).

(** One attempt, at [disk_read.retry]. *)
Lemma attempt_spec al ah bl bh cl ch dl dh si di bp sp u fs gs f c gd m t n tr (Q : real → Prop) :
  let lba := word (al, ah) in
  sp = sp0 - 16 → word (bl, bh) = bx0 → 0 ≤ lba < 2 ^ 16 → data_in drive m →
  (∀ cl ch dl dh f' m', same_outside (sp0 - 34) (sp0 - 16) m m' →
     match read_block n drive lba with
     | Some bs =>
         runs_to (mkReal (mkRegs (int13_result n).1 (int13_result n).2 bl bh cl ch dl dh si di bp sp) u
           (X86.mkSegs cs 0 es fs gs 0) (off K cs (Sym "disk_read.success") 0) f' c gd
           (Stage2.store_bytes m' buffer bs) t (n + 1) tr) Q
     | None =>
         runs_to (mkReal (mkRegs (int13_result n).1 (int13_result n).2 bl bh cl ch dl dh si di bp sp) u
           (X86.mkSegs cs 0 es fs gs 0) (off K cs (Sym "disk_read.retry") 9) f' c gd m' t (n + 1) tr) Q
     end) →
  runs_to (mkReal (mkRegs al ah bl bh cl ch dl dh si di bp sp) u (X86.mkSegs cs 0 es fs gs 0)
             (off K cs (Sym "disk_read.retry") 0) f c gd m t n tr) Q.
Proof.
  destruct Hok as [Hsp Hbx _ _ _]. unfold ORG in Hsp. intros lba Esp Ebx Hlba Hd HQ. destruct f as [fc fz fi fd].
  real_step. u16_steps. set (m1 := <[_ := _]> (<[_ := _]> m)).
  assert (same_outside (sp0 - 34) (sp0 - 16) m m1) as Hm1 by (apply same_outside_push; lia).
  assert (data_in drive m1) as Hd1 by (apply (data_in_low _ m); [intros x Hx _; apply Hm1; unfold ORG in Hx; lia|done]).
  eapply (call_lba_to_chs _ _ 18 2); [reflexivity|apply (in_spt _ _ Hd1)|apply (in_heads _ _ Hd1)|lia|lia|done|lia
    |right; unfold SectorsPerTrack; lia|].
  fold lba. intros al2 ah2 dl2 [fc2 fz2 fi2 fd2] m2 _ _ Hm2'.
  assert (same_outside (sp0 - 34) (sp0 - 16) m m2) as Hm2.
  { eapply same_outside_trans; [exact Hm1|intros x Hx; apply Hm2'; lia|lia|lia]. }
  assert (data_in drive m2) as Hd2 by (apply (data_in_low _ m); [intros x Hx _; apply Hm2; unfold ORG in Hx; lia|done]).
  real_step. u16_steps. cbn [Z.mul Z.add].
  real_step. change (16 * 0 + u16 DriveNumber) with DriveNumber. rewrite (in_drive _ _ Hd2). do 3 real_step.
  replace (sp - 2 + 2) with sp by lia.
  real_at. apply wp_int13_read; [done|]. real_norm. rewrite Ebx, (u16_small bx0) by done.
  set (bf := buffer) in *. fold (read_block n drive lba).
  match goal with |- match _ with Some _ => eventually _ (mkReal (mkRegs _ _ _ _ ?c ?d ?e ?g _ _ _ _) _ _ _ ?f _ _ _ _ _ _) _ | None => _ end =>
    specialize (HQ c d e g) end.
  destruct (read_block n drive lba) as [bs|]; real_step; by apply HQ.
Qed.

(** Memory but for the stack, the counter and the buffer. *)
Definition kept_by_read (m m' : gmap Z Z) : Prop :=
  ∀ x, ¬ (sp0 - 34 ≤ x < sp0 - 16) → x ≠ y_RetryCount Y → ¬ (buffer ≤ x < buffer + 512) → getw m' x = getw m x.

Lemma retry_spec k al ah bl bh cl ch dl dh si di bp sp u fs gs f c gd m t n tr (Q : real → Prop) :
  let lba := word (al, ah) in
  sp = sp0 - 16 → word (bl, bh) = bx0 → (0 < k ≤ 3)%nat → getw m (y_RetryCount Y) = Z.of_nat k → 0 ≤ lba < 2 ^ 16 →
  data_in drive m → Stage2.holds m (sp0 - 16) (saved g0) →
  match read_attempts k drive n lba with
  | Some (n', bs) => ∀ f' m', kept_by_read m m' → Stage2.holds m' buffer bs →
      runs_to (mkReal g0 u (X86.mkSegs cs 0 es fs gs 0) (off K cs (Sym "disk_read.success") 1) f' c gd m' t n' tr) Q
  | None => ∀ f' m', kept_by_read m m' → data_in drive m' →
      runs_to (mkReal g0 u (X86.mkSegs cs 0 es fs gs 0) (off K cs (Sym "disk_error") 0) f' c gd m' t (n + 2 * Z.of_nat k) tr) Q
  end →
  runs_to (mkReal (mkRegs al ah bl bh cl ch dl dh si di bp sp) u (X86.mkSegs cs 0 es fs gs 0)
             (off K cs (Sym "disk_read.retry") 0) f c gd m t n tr) Q.
Proof.
  destruct Hok as [Hsp Hbx Hbuf Hlen Hres]. destruct Hlay as [_ _ Hret _ _]. unfold ORG in Hsp, Hret, Hbuf. intros lba Esp Ebx.
  unfold kept_by_read. set (bf := buffer) in *. set (b := sp0) in *.
  revert al ah cl ch dl dh f m n lba. induction k as [|k IH]; intros al ah cl ch dl dh f m n lba Hk Hcnt Hlba Hd Hsv HQ; [lia|].
  apply (attempt_spec al ah); [done|done|done|done|]. fold lba. intros cl1 ch1 dl1 dh1 [fc fz fi fd] m1 Hm1.
  fold bf. fold b in Hm1.
  cbn [read_attempts] in HQ. destruct (read_block n drive lba) as [bs|] eqn:Eb.
  - real_at. assert (Z.of_nat (length bs) = 512) as Hbs by by rewrite (Hlen _ _ _ Eb).
    eapply wp_popa; [exact Esp|fold b; lia| |]; fold b.
    + eapply Stage2.holds_frame; [|exact Hsv]. intros x Hx. change (length (saved g0)) with 16%nat in Hx.
      rewrite Stage2.getw_store_bytes, decide_False by lia. apply Hm1. lia.
    + apply HQ; [|apply Stage2.holds_store]. intros x H1 H2 H3. rewrite Stage2.getw_store_bytes, decide_False by lia.
      apply Hm1. lia.
  - eapply call_disk_reset; [reflexivity|cbn [r_sp]; unfold ORG; lia|]. cbn [r_sp]. intros [fc2 fz2 fi2 fd2] m2 Hm2'.
    assert (same_outside (b - 34) (b - 16) m m2) as Hm2.
    { eapply same_outside_trans; [exact Hm1|intros x Hx; apply Hm2'; lia|lia|lia]. }
    assert (getw m2 (y_RetryCount Y) = Z.of_nat (S k)) as Hcnt2 by by rewrite Hm2 by lia.
    real_step. u16_steps. change (16 * 0) with 0. rewrite !Z.add_0_l, Hcnt2. rewrite !(u8_small (_ - 1)) by lia.
    replace (Z.of_nat (S k) - 1) with (Z.of_nat k) by lia. set (m3 := <[y_RetryCount Y := Z.of_nat k]> m2).
    assert (∀ x, ¬ (b - 34 ≤ x < b - 16) → x ≠ y_RetryCount Y → getw m3 x = getw m x) as Hm3.
    { intros x H1 H2. unfold m3. rewrite getw_insert, decide_False by congruence. apply Hm2. lia. }
    assert (data_in drive m3) as Hd3.
    { apply (data_in_low _ m); [|done]. unfold ORG. intros x Hx Hx2. apply Hm3; [lia|done]. }
    assert (Stage2.holds m3 (b - 16) (saved g0)) as Hsv3.
    { eapply Stage2.holds_frame; [|exact Hsv]. intros x Hx. change (length (saved g0)) with 16%nat in Hx.
      apply Hm3; lia. }
    real_fetch. do 2 real_wp. replace (n + 1 + 1) with (n + 2) by lia. destruct k as [|k].
    + do 2 real_wp. real_at. eapply wp_popa; [exact Esp|fold b; lia|exact Hsv3|]. real_step.
      apply HQ; [|done]. intros x H1 H2 _. by apply Hm3.
    + change (Z.of_nat (S k) =? 0) with false. unfold goto. repeat real_wp.
      apply (IH (int13_result n).1 (int13_result n).2);
        [lia|unfold m3; by rewrite getw_insert, decide_True|apply Hres|done|done|].
      change (word ((int13_result n).1, (int13_result n).2)) with (word (int13_result n)).
      destruct (read_attempts (S k) drive (n + 2) (word (int13_result n))) as [[n' bs]|].
      * intros f' m' Hm' Hh. apply HQ; [|done]. intros x H1 H2 H3. rewrite Hm' by done. by apply Hm3.
      * intros f' m' Hm' Hh. replace (n + 2 + 2 * Z.of_nat (S k)) with (n + 2 * Z.of_nat (S (S k))) by lia.
        apply HQ; [|done]. intros x H1 H2 H3. rewrite Hm' by done. by apply Hm3.
Qed.
(** Where [disk_read] ends: it returns with the sector in the buffer and all
    registers as they were, or restarts the machine. *)
Definition disk_read_returns (n' : Z) (bs : list Z) (s s' : real) : Prop :=
  rg s' = set16 SP (lo_hi (sp0 + 2)) g0 ∧ sg s' = sg s ∧ calls s' = n' ∧ tty s' = tty s ∧
  ip s' = word (getw (mem s) sp0, getw (mem s) (sp0 + 1)) ∧ Stage2.holds (mem s') buffer bs ∧
  (∀ x, ¬ (sp0 - 34 ≤ x < sp0) → x ≠ y_RetryCount Y → ¬ (buffer ≤ x < buffer + 512) → getw (mem s') x = getw (mem s) x).
Definition disk_read_restarts (s s' : real) : Prop :=
  X86.s_cs (sg s') = 0xFFFF ∧ ip s' = 0 ∧ calls s' = calls s + 6 ∧ tty s' = rev msg_error ++ tty s.

Lemma disk_read_spec s :
  rg s = g0 → X86.s_cs (sg s) = cs → X86.s_ds (sg s) = 0 → X86.s_ss (sg s) = 0 → X86.s_es (sg s) = es →
  ip s = off K cs (Sym "disk_read") 0 → Z.testbit (cr0 s) 0 = false → data_in drive (mem s) →
  0 ≤ word (get16 AX g0) < 2 ^ 16 →
  runs_to s (match read_attempts 3 drive (calls s) (word (get16 AX g0)) with
             | Some (n', bs) => disk_read_returns n' bs s
             | None => disk_read_restarts s
             end).
Proof.
  destruct Hok as [Hsp Hbx Hbuf _ _]. destruct Hlay as [_ _ Hret _ _]. unfold ORG in Hsp, Hret, Hbuf.
  destruct s as [g u [cs' ds es' fs gs ss] ip' [fc fz fi fd] c gd m t n tr]. cbn [rg sg X86.s_cs X86.s_ds X86.s_ss X86.s_es ip cr0 mem calls].
  intros -> -> -> -> -> -> Hc Hd Hax. match goal with |- eventually _ _ ?q => set (Q := q) end.
  real_at. apply wp_pusha; [lia|]. intros m1 Hm1 Hsv.
  assert (data_in drive m1) as Hd1 by (apply (data_in_low _ m); [unfold ORG; intros x Hx _; apply Hm1; lia|done]).
  assert (∃ al ah bl bh cl ch dl dh si di bp sp,
    g0 = mkRegs al ah bl bh cl ch dl dh si di bp sp) as (al & ah & bl & bh & cl & ch & dl & dh & si & di & bp & sp & Eg)
    by (destruct g0; repeat eexists).
  replace (set16 SP (lo_hi (sp0 - 16)) g0) with (mkRegs al ah bl bh cl ch dl dh si di bp (sp - 16))
    by (rewrite Eg; cbn [set16 r_sp]; by rewrite word_lo_hi).
  assert (sp = sp0) as Esp by by rewrite Eg. assert (word (bl, bh) = bx0) as Ebx by by rewrite Eg.
  assert (word (al, ah) = word (get16 AX g0)) as Eax by by rewrite Eg.
  do 2 real_step. u16_steps. change (16 * 0) with 0. rewrite !Z.add_0_l.
  set (m2 := <[y_RetryCount Y := 3]> m1). rewrite !Z.add_0_l in Hm1, Hsv.
  assert (∀ x, x ≠ y_RetryCount Y → getw m2 x = getw m1 x) as Hm2
    by (intros x Hx; unfold m2; by rewrite getw_insert, decide_False by congruence).
  apply (retry_spec 3); [lia|done|lia|unfold m2; by rewrite getw_insert, decide_True|by rewrite Eax| | |].
  { apply (data_in_low _ m1); [by intros x _ Hx; apply Hm2|done]. }
  { eapply Stage2.holds_frame; [|exact Hsv]. intros x Hx. change (length (saved g0)) with 16%nat in Hx. apply Hm2. lia. }
  rewrite Eax. destruct (read_attempts 3 drive n (word (get16 AX g0))) as [[n' bs]|] eqn:Er;
    intros [fc' fz' fi' fd'] m' Hm' Hx; rewrite Eg.
  - real_step. u16_steps. apply eventually_here. unfold Q. rewrite ?Er; cbv iota. unfold kept_by_read in Hm'.
    assert (∀ x, ¬ (sp0 - 34 ≤ x < sp0) → x ≠ y_RetryCount Y → ¬ (buffer ≤ x < buffer + 512) → getw m' x = getw m x) as Hm.
    { intros x H1 H2 H3. rewrite Hm', Hm2, Hm1 by lia. done. }
    split_and!; [rewrite Eg; cbn; by rewrite word_lo_hi|done|done|done| |done|done].
    real_norm. rewrite Esp. change (16 * 0) with 0. rewrite !Z.add_0_l, !Hm by lia. done.
  - eapply (disk_error_spec drive); [exact Hx|unfold ORG; lia|done|].
    intros g' f' m'' _. apply eventually_here. unfold Q. rewrite ?Er; cbv iota. by split_and!.
Qed.
End disk_read.

(** What [start] leaves when it has loaded the sectors. *)
Definition stage2_loaded (drive : Z) (bs : list Z) (s s' : real) : Prop :=
  X86.s_cs (sg s') = STAGE2_SEGMENT ∧ ip s' = STAGE2_OFFSET ∧ r_dl (rg s') = drive ∧
  f_if (fl s') = true ∧ f_df (fl s') = false ∧ cr0 s' = cr0 s ∧
  tty s' = rev msg_loading ++ tty s ∧ calls s' = calls s + 1 ∧ trace s' = trace s ∧
  Stage2.holds (mem s') (16 * STAGE2_SEGMENT) bs ∧ up s' = up s ∧
  (∀ x, x ≠ DriveNumber → ¬ (0x5000 ≤ x < 0x7000) → ¬ (0x7BF0 ≤ x < ORG) → getw (mem s') x = getw (mem s) x).

(** After a read error. *)
Definition restarted (s s' : real) : Prop :=
  X86.s_cs (sg s') = 0xFFFF ∧ ip s' = 0 ∧ tty s' = rev msg_error ++ rev msg_loading ++ tty s ∧
  (∀ x, x ≠ DriveNumber → ¬ (0x7BF0 ≤ x < ORG) → getw (mem s') x = getw (mem s) x).

Lemma stage1_start_spec drive s :
  X86.s_cs (sg s) = cs → ip s = off K cs (Sym "start") 0 → r_dl (rg s) = drive → Z.testbit (cr0 s) 0 = false →
  data_in 0 (mem s) →
  runs_to s (match int13_sectors (calls s) STAGE2_SECTORS drive 79 3 1 with
             | Some bs => λ s', length bs = 0x2000%nat → stage2_loaded drive bs s s'
             | None => restarted s
             end).
Proof.
  destruct s as [[al ah bl bh cl ch dl dh si di bp sp] u [cs' ds es fs gs ss] ip' [fc fz fi fd] c gd m t n tr].
  cbn [sg X86.s_cs ip rg r_dl cr0 mem calls]. intros -> -> -> Hc Hd.
  match goal with |- eventually _ _ ?q => set (Q := q) end.
  do 2 real_step. rewrite Z.lxor_nilpotent. real_calc. do 8 real_step. change (word (0, 0)) with 0.
  change (16 * 0 + u16 DriveNumber) with DriveNumber. destruct Hlay as [Hload _ Hret _ _]. unfold ORG in *. u16_steps.
  set (m0 := <[DriveNumber := drive]> m).
  assert (data_in drive m0) as Hd0.
  { destruct Hd as [E1 E2 E3 E4 _]. unfold m0, DriveNumber. destruct Hlay as [H1 H2 _ _ _]. unfold ORG in *. split.
    - unfold SectorsPerTrack in *. by rewrite !getw_insert, !decide_False by lia.
    - unfold HeadsPerCylinder in *. by rewrite !getw_insert, !decide_False by lia.
    - eapply Stage2.holds_frame; [|exact E3]. intros x Hx. by rewrite getw_insert, decide_False by lia.
    - eapply Stage2.holds_frame; [|exact E4]. intros x Hx. by rewrite getw_insert, decide_False by lia.
    - by rewrite getw_insert, decide_True. }
  eapply (call_puts _ _ msg_loading); [reflexivity|apply (in_loading _ _ Hd0)|by apply (bool_decide_unpack _); vm_compute|
    lia|simpl; lia|lia|simpl; lia|].
  intros bh1 [fc1 fz1 fi1 fd1] m1 Hfd Hfi Hm1. cbn [f_df f_if] in Hfd, Hfi. subst fd1 fi1.
  assert (data_in drive m1) as Hd1 by (apply (data_in_low _ m0); [intros x Hx _; apply Hm1; unfold ORG in Hx; lia|done]).
  real_step. 
  eapply (call_lba_to_chs _ _ 18 2); [reflexivity|apply (in_spt _ _ Hd1)|apply (in_heads _ _ Hd1)|lia|lia|done|lia|by right|].
  intros al2 ah2 dl2 [fc2 fz2 fi2 fd2] m2 Hfd Hfi Hm2. cbn [f_df f_if] in Hfd, Hfi. subst fd2 fi2.
  assert (data_in drive m2) as Hd2 by (apply (data_in_low _ m1); [intros x Hx _; apply Hm2; unfold ORG in Hx; lia|done]).
  do 6 real_step.
  change (chs_cl _ _ _) with 3. change (chs_ch _ _ _) with 79. change (chs_dh _ _ _) with 1.
  change (16 * 0 + u16 DriveNumber) with DriveNumber. rewrite (in_drive _ _ Hd2).
  rewrite Z.lxor_nilpotent. real_calc. change (u16 STAGE2_SEGMENT) with 0x500. change (u8 STAGE2_SECTORS) with 16.
  real_at. apply wp_int13_read; [done|]. real_norm.
  change (word (0, 0)) with 0. change (16 * 0x500 + u16 0) with 0x5000.
  subst Q. change (int13_sectors n STAGE2_SECTORS drive 79 3 1) with (int13_sectors n 16 drive 79 3 1).
  destruct (int13_sectors n 16 drive 79 3 1) as [bs|].
  - do 2 real_step. real_fetch. do 2 real_wp. rewrite Hc. repeat real_wp. real_calc. apply eventually_here.
    intros Hbs. assert (Z.of_nat (length bs) = 0x2000) by by rewrite Hbs. change (16 * 0 + u16 DriveNumber) with DriveNumber.
    rewrite Stage2.getw_store_bytes. rewrite decide_False by (unfold DriveNumber; lia). rewrite (in_drive _ _ Hd2).
    split_and!; try done; real_norm; [apply Stage2.holds_store|].
    intros x H1 H2 H3. unfold ORG in H3. rewrite Stage2.getw_store_bytes, decide_False by lia. rewrite Hm2, Hm1 by lia.
    unfold m0. by rewrite getw_insert, decide_False by congruence.
  - real_step. eapply disk_error_spec; [exact Hd2|unfold ORG; lia|done|].
    intros g f' m' Hm'. apply eventually_here. split_and!; try done. real_norm.
    intros x H1 H2. unfold ORG in H2. rewrite Hm', Hm2, Hm1 by lia. unfold m0. by rewrite getw_insert, decide_False by congruence.
Qed.

(** The sector as the BIOS leaves it at 0x7C00. *)
Record sector_in (m : gmap Z Z) : Prop := {
  sec_header : Stage2.holds m ORG header;
  sec_loading : Stage2.holds m (y_msg_loading Y) (msg_loading ++ [0]);
  sec_error : Stage2.holds m (y_msg_error Y) (msg_error ++ [0])
}.

Lemma sector_data m : sector_in m → data_in 0 m.
Proof.
  intros [Hh H1 H2]. split; [| |done|done|by apply (Hh 36%nat)].
  - pose proof (Hh 24%nat _ eq_refl) as E1. pose proof (Hh 25%nat _ eq_refl) as E2.
    change (ORG + Z.of_nat 24) with SectorsPerTrack in E1. change (ORG + Z.of_nat 25) with (SectorsPerTrack + 1) in E2.
    by rewrite E1, E2.
  - pose proof (Hh 26%nat _ eq_refl) as E1. pose proof (Hh 27%nat _ eq_refl) as E2.
    change (ORG + Z.of_nat 26) with HeadsPerCylinder in E1. change (ORG + Z.of_nat 27) with (HeadsPerCylinder + 1) in E2.
    by rewrite E1, E2.
Qed.

(** The machine as the BIOS starts the sector: at its first byte, at 0x7C00. *)
Record bios_start (drive : Z) (s : real) : Prop := {
  bs_org : X86.addr K (Sym "boot_sector") 0 = ORG;
  bs_cs : X86.s_cs (sg s) = cs;
  bs_ip : 16 * cs + ip s = ORG;
  bs_dl : r_dl (rg s) = drive;
  bs_real : Z.testbit (cr0 s) 0 = false;
  bs_sector : sector_in (mem s)
}.

End code.

(** ** Properties *)

(** The jump at the start of the sector leads over the block. *)
Lemma jump_leads_to_start : header !! 1%nat = Some (Z.of_nat (length header) - 2) ∧ length header = 62%nat.
Proof. by vm_compute. Qed.
Lemma boot_sector_spec `{Bios16} dev K Y cs s (Q : real → Prop) :
  placed K (boot_asm Y) cs → X86.addr K (Sym "boot_sector") 0 = ORG → X86.s_cs (sg s) = cs → 16 * cs + ip s = ORG →
  eventually (stepR dev K (boot_asm Y)) (set_ip (off K cs (Sym "start") 0) s) Q →
  eventually (stepR dev K (boot_asm Y)) s Q.
Proof.
  intros Hp Horg Hcs Hip HQ.
  eapply (real_exec dev K _ (Sym "boot_sector") 0); [by rewrite Hcs| |reflexivity|].
  - pose proof (Hp (Sym "boot_sector") 0%nat _ eq_refl) as Hr. rewrite Horg in Hr.
    unfold off. rewrite Hcs, Horg, u16_small by lia. lia.
  - cbn [exec]. unfold goto. wp_steps. cbn [sg set_ip]. rewrite Hcs. exact HQ.
Qed.

(** The sector, on a disk. *)
Lemma stage1_spec `{Bios16} dev K Y cs D drive s :
  placed K (boot_asm Y) cs → layout_ok Y → disk16_ok D drive 18 2 → bios_start K Y cs drive s →
  eventually (stepR dev K (boot_asm Y)) s
    (match int13_sectors (calls s) STAGE2_SECTORS drive 79 3 1 with
     | Some _ => stage2_loaded drive (seqZ STAGE2_FIRST_LBA STAGE2_SECTORS ≫= D) s
     | None => restarted s
     end).
Proof.
  intros Hp Hl HD [Horg Hcs Hip Hdl Hc Hsec]. eapply boot_sector_spec; [done|done|done|done|].
  pose proof (stage1_start_spec dev K Y cs Hp Hl drive (set_ip (off K cs (Sym "start") 0) s) Hcs eq_refl Hdl Hc (sector_data Y _ Hsec)) as Hs.
  cbn [calls set_ip] in Hs.
  destruct (int13_sectors (calls s) STAGE2_SECTORS drive 79 3 1) as [bs|] eqn:E; [|exact Hs].
  assert (bs = seqZ STAGE2_FIRST_LBA STAGE2_SECTORS ≫= D) as ->.
  { by apply (d16_read _ _ _ _ HD) in E. }
  eapply eventually_bind; [exact Hs|]. intros s' Hs'. apply eventually_here, Hs'.
  assert (∀ l, length (l ≫= D) = (length l * 512)%nat) as Hlen.
  { induction l as [|x l IH]; [done|]. rewrite bind_cons, length_app, IH, (proj1 (d16_bytes _ _ _ _ HD x)). simpl. lia. }
  by rewrite Hlen, length_seqZ.
Qed.

(** C28. The boot sector loads the second stage: started by the BIOS from a disk of
    18 sectors and 2 heads, at its first instruction, the jump at 0x7C00, the sector
    prints its message and makes one INT 13h call.
    If that succeeds, the sixteen sectors 2864 to 2879 lie at 0x5000 and control is
    at 0500:0000 with the drive number in DL, interrupts on, and the rest of memory
    as it was but for the stack and the drive number in the sector.  If it fails, the
    error is printed and, after a key, the machine restarts at FFFF:0000. *)
Theorem stage1_loads_stage2 `{Bios16} dev K Y cs D drive s :
  placed K (boot_asm Y) cs → layout_ok Y → disk16_ok D drive 18 2 → bios_start K Y cs drive s →
  eventually (stepR dev K (boot_asm Y)) s
    (match int13_sectors (calls s) STAGE2_SECTORS drive 79 3 1 with
     | Some _ => stage2_loaded drive (seqZ STAGE2_FIRST_LBA STAGE2_SECTORS ≫= D) s
     | None => restarted s
     end).
Proof. apply stage1_spec. Qed.

(** A block of the disk. *)
Lemma read_block_delivers `{Bios16} D drive n lba bs :
  disk16_ok D drive 18 2 → 0 ≤ lba < 2880 → read_block n drive lba = Some bs → bs = D lba.
Proof.
  intros HD Hlba Hr.
  apply (Stage2.int13_block_delivers D drive 18 2 n lba bs (disk16_disk_ok _ _ _ _ HD)); [lia|exact Hr].
Qed.

(** C40. [disk_read] is right the first time and wrong the second: if its first
    INT 13h call succeeds, it returns with the block AX in the buffer at ES:BX and all
    registers kept.  But it has lost the block number by the time it retries: if the
    first call fails and the second succeeds, it returns as if all were well with
    another block in the buffer, the one whose number is the AX (status and count)
    that the failed call returned, whatever block was asked for. *)
Theorem disk_read_retries_other_block `{Bios16} dev K Y cs D drive s :
  let n := calls s in
  let lba := word (get16 AX (rg s)) in
  let other := word (int13_result n) in
  let returns b n' := eventually (stepR dev K (boot_asm Y)) s
                        (disk_read_returns Y (rg s) (X86.s_es (sg s)) n' (D b) s) in
  placed K (boot_asm Y) cs → layout_ok Y → disk16_ok D drive 18 2 → read_ok drive (rg s) (X86.s_es (sg s)) →
  X86.s_cs (sg s) = cs → X86.s_ds (sg s) = 0 → X86.s_ss (sg s) = 0 →
  ip s = off K cs (Sym "disk_read") 0 → Z.testbit (cr0 s) 0 = false → data_in Y drive (mem s) →
  0 ≤ lba < 2880 → 0 ≤ other < 2880 →
  (is_Some (read_block n drive lba) → returns lba (n + 1)) ∧
  (read_block n drive lba = None → is_Some (read_block (n + 2) drive other) → returns other (n + 3)).
Proof.
  intros n lba other returns Hp Hl HD Hok Hcs Hds Hss Hip Hc Hd Hlba Hother.
  pose proof (disk_read_spec dev K Y cs Hp Hl drive (rg s) _ Hok s eq_refl Hcs Hds Hss eq_refl Hip Hc Hd ltac:(fold lba; lia)) as Hs.
  fold n lba in Hs. split.
  - intros [bs Hb]. cbn [read_attempts] in Hs. rewrite Hb in Hs. unfold returns.
    by rewrite <- (read_block_delivers D drive n lba bs HD Hlba Hb).
  - intros Hn [bs Hb]. cbn [read_attempts] in Hs. rewrite Hn in Hs. fold other in Hs. rewrite Hb in Hs. unfold returns.
    rewrite <- (read_block_delivers D drive _ other bs HD Hother Hb). by replace (n + 3) with (n + 2 + 1) by lia.
Qed.

(** *** A machine with the sector *)

Definition demo_symbols : symbols := mkSymbols 0x7D90 0x7D91 0x7DB0.
Definition stage1_labels : list label :=
  Sym <$> ["start"; "puts"; "puts.loop"; "puts.done"; "lba_to_chs"; "disk_read"; "disk_read.retry";
           "disk_read.success"; "disk_reset"; "disk_error"]%string.
Definition demo_sizes : list (label * nat) :=
  [(Sym "boot_sector", 2%nat); (Sym "OEMLabel", 60%nat)] ++ sized (boot_asm demo_symbols) stage1_labels.
Definition demo_table : X86.table := X86.lay ORG demo_sizes.
Lemma demo_table_ok : X86.table_ok demo_table = true.
Proof. by vm_compute. Qed.
Definition demo_linker : X86.linker := X86.table_linker demo_table demo_table_ok.

Lemma boot_asm_labels Y l : boot_asm Y l ≠ [] → l = Sym "boot_sector" ∨ l ∈ stage1_labels.
Proof.
  destruct l as [s|n]; [|done]. unfold boot_asm. case_decide; [subst; by left|].
  repeat (case_decide; [subst; intros _; right; by repeat constructor|]). done.
Qed.
Lemma demo_placed : placed demo_linker (boot_asm demo_symbols) 0.
Proof.
  apply (placed_lay _ _ _ _ ORG demo_sizes); [done| |unfold ORG; lia|apply Z.leb_le; by vm_compute].
  intros l [->|Hl]%boot_asm_labels; [by left|]. by do 2 right; apply sized_in.
Qed.
Lemma demo_layout1 : layout_ok demo_symbols.
Proof. split; unfold ORG; simpl; lia. Qed.

(** A disk whose sectors have their low byte all over. *)
Definition numbered_disk (lba : Z) : list Z := replicate 512 (lba `mod` 256).
Lemma numbered_disk_ok lba : length (numbered_disk lba) = 512%nat ∧ Forall (λ b, 0 ≤ b < 256) (numbered_disk lba).
Proof.
  split; [apply length_replicate|]. apply Forall_replicate, Z.mod_pos_bound. lia.
Qed.

Definition demo_mem : gmap Z Z :=
  Stage2.store_bytes (Stage2.store_bytes (Stage2.store_bytes ∅ ORG header) 0x7D91 (msg_loading ++ [0])) 0x7DB0
    (msg_error ++ [0]).
Definition demo_real : real :=
  mkReal (mkRegs 1 2 3 4 5 6 0x80 7 8 9 10 11) (X86.mkGprs 1 2 3 4 5 6 7 8) (X86.mkSegs 0 1 2 3 4 5)
    ORG (mkFlags true false true true) 0x10 (0, 0) demo_mem [] 0 [].
Definition no_device : device := λ _ _, 0.

Definition check_holds (m : gmap Z Z) (a : Z) (bs : list Z) : bool :=
  forallb (λ '(i, b), getw m (a + Z.of_nat i) =? b) (zip (seq 0 (length bs)) bs).
Lemma check_holds_ok m a bs : check_holds m a bs = true → Stage2.holds m a bs.
Proof.
  unfold check_holds. rewrite forallb_forall. intros H i b Hi. apply Z.eqb_eq.
  apply (H (i, b)). apply list_elem_of_In, list_elem_of_lookup. exists i.
  apply lookup_zip_with_Some. exists i, b. split; [done|]. split; [|done].
  apply lookup_seq. split; [done|]. by apply lookup_lt_Some in Hi.
Qed.
Lemma demo_sector_in : sector_in demo_symbols demo_mem.
Proof. split; apply check_holds_ok; by vm_compute. Qed.

(** It loads the sectors from the disk. *)
Lemma stage1_loads_stage2_witness :
  ∃ s', @eventually real (@stepR (floppy numbered_disk []) no_device demo_linker (boot_asm demo_symbols)) demo_real
          (λ s, s = s') ∧ r_dl (rg s') = 0x80 ∧ getw (mem s') 0x5000 = 2864 `mod` 256.
Proof.
  destruct (@stage1_loads_stage2 (floppy numbered_disk []) no_device demo_linker demo_symbols 0 numbered_disk 0x80 demo_real)
    as (s' & Hrun & Hs').
  - exact demo_placed.
  - exact demo_layout1.
  - apply floppy_ok, numbered_disk_ok.
  - split; [done..|exact demo_sector_in].
  - exists s'. split; [exists s'; split; [exact Hrun|reflexivity]|].
    destruct Hs' as (_ & _ & Hdl & _ & _ & _ & _ & _ & _ & Hh & _). split; [exact Hdl|].
    apply (Hh 0%nat). vm_compute. reflexivity.
Defined.

Lemma floppy_block D fails n drive lba bs : @read_block (floppy D fails) n drive lba = Some bs → ∃ b, bs = D b.
Proof.
  unfold read_block, int13_sectors, floppy. destruct (bool_decide _); [done|]. intros <-%(inj Some). eexists.
  rewrite seqZ_cons, seqZ_nil by lia. cbn [mbind list_bind]. by rewrite app_nil_r.
Qed.

(** The disk was changed (status 6): asked for block 19, [disk_read] returns block
    1536. *)
Definition demo_reading : real :=
  mkReal (mkRegs 19 0 0 0 5 6 0x80 7 8 9 10 0x7BF0) (X86.mkGprs 0 0 0 0 0 0 0 0) (X86.mkSegs 0 0 0x1000 0 0 0)
    (off demo_linker 0 (Sym "disk_read") 0) (mkFlags true false true true) 0x10 (0, 0) demo_mem [] 0 [].
Definition other_disk (lba : Z) : list Z := replicate 512 (if lba =? 19 then 1 else 2).
Lemma disk_read_retries_other_block_witness :
  ∃ s', @eventually real (@stepR (floppy other_disk [0]) no_device demo_linker (boot_asm demo_symbols)) demo_reading
          (λ s, s = s') ∧ ip s' = word (getw demo_mem 0x7BF0, getw demo_mem 0x7BF1) ∧
        Stage2.holds (mem s') 0x10000 (other_disk 1536) ∧ other_disk 1536 ≠ other_disk 19.
Proof.
  destruct (@disk_read_retries_other_block (floppy other_disk [0]) no_device demo_linker demo_symbols 0 other_disk 0 demo_reading)
    as [_ H]; [| | | |reflexivity|reflexivity|reflexivity|reflexivity|reflexivity| |vm_compute; split; [intros [=]|reflexivity]
               |vm_compute; split; [intros [=]|reflexivity]|].
  - exact demo_placed.
  - exact demo_layout1.
  - apply floppy_ok. intros lba. split; [apply length_replicate|]. apply Forall_replicate. destruct (lba =? 19); lia.
  - split; [unfold ORG; cbn; lia|unfold word; cbn; lia|right; unfold ORG, word; cbn; lia| |].
    + intros n lba bs Hr. destruct (floppy_block _ _ _ _ _ _ Hr) as [b ->]. apply length_replicate.
    + intros n. unfold int13_result, floppy, word. destruct (bool_decide _); cbn; lia.
  - apply sector_data, demo_sector_in.
  - destruct H as (s' & Hrun & Hs'); [reflexivity|eexists; reflexivity|].
    exists s'. split; [exists s'; split; [exact Hrun|reflexivity]|].
    destruct Hs' as (_ & _ & _ & _ & Hip & Hh & _). split; [exact Hip|]. split; [exact Hh|].
    intros E. apply (f_equal (λ l, l !! 0%nat)) in E. discriminate E.
Defined.

End Stage1.
