(* ===== verification/Handoff.v ===== *)
(** * From the boot sector to the kernel (src/boot/stage2/entry.asm)

    The assembly of the second stage: [_start], which calls [stage2_main], and
    [jump_to_kernel], which switches to protected mode and enters the kernel.  The
    file ends with the whole way from the first instruction of the boot sector to the
    call of [kmain]: Stage1.v, this file, Loader.v and Entry.v composed. *)

From S2P Require Import Prelude Io X86 Entry Boot Fat Loader Real Stage1.
Import Io Real.

Module Handoff.

(** ** entry.asm *)

Definition KERNEL_ENTRY : Z := 0x9000.
Definition STAGE2_BASE : Z := 0x5000.
Definition CODE_SEL : Z := 0x08.
Definition DATA_SEL : Z := 0x10.

(** The offsets the linker gives to data, to [protected_mode_entry], and to the data
    of the C code. *)
Record symbols : Type := mkSymbols {
  y_g_drive : Z;
  y_message : Z;
  y_gdt_start : Z;
  y_protected_mode_entry : Z;
  y_data : Z;
  y_data_end : Z
}.

Definition message : list Z := cstr "Stage 2 reached!\r\n".

(** [gdt_start] and, behind it, [gdt_descriptor]. *)
Definition gdt : list Z := [0x0000000000000000; 0x00CF9A000000FFFF; 0x00CF92000000FFFF].
Definition gdt_image (Y : symbols) : list Z :=
  (gdt ≫= Entry.le_bytes 8) ++ Entry.le_bytes 2 (8 * Z.of_nat (length gdt) - 1) ++
  Entry.le_bytes 4 (STAGE2_BASE + y_gdt_start Y).
Definition y_gdt_descriptor (Y : symbols) : Z := y_gdt_start Y + 8 * Z.of_nat (length gdt).

Definition _start (Y : symbols) : list instr :=
  [Cli; MovRS AX X86.CS; MovSR X86.DS AX; MovSR X86.ES AX; MovSR X86.SS AX; MovI SP 0x3FF0; Sti;
   MovMB (y_g_drive Y) DL;
   Push DX; MovI SI (y_message Y); Call (Sym "puts"); Pop DX;
   Call (Sym "stage2_main"); Fall (Sym "hang")].
Definition hang : list instr := [Cli; Hlt; Jmp (Sym "hang")].

Definition jump_to_kernel (Y : symbols) : list instr :=
  [Cli; InAL 0x92; OrBI AL 0x02; OutAL 0x92; Lgdt (y_gdt_descriptor Y);
   MovEaxCr0; OrEaxI 0x01; MovCr0Eax;
   JmpFar CODE_SEL (STAGE2_BASE + y_protected_mode_entry Y)].

Definition puts : list instr :=
  [Cld; Lodsb; TestB AL AL; Jz (Sym "puts.done"); MovBI AH 0x0E; MovBI BH 0; Int 0x10; Jmp (Sym "puts")].
Definition puts_done : list instr := [Ret].

Definition entry_asm (Y : symbols) : program := λ l,
  match l with
  | X86.IsrN _ => []
  | X86.Sym s =>
      if decide (s = "_start") then _start Y
      else if decide (s = "hang") then hang
      else if decide (s = "jump_to_kernel") then jump_to_kernel Y
      else if decide (s = "puts") then puts
      else if decide (s = "puts.done") then puts_done
      else []
  end%string.

Definition protected_mode_entry : list X86.instr :=
  [X86.MovWI X86.EAX DATA_SEL;
   X86.MovSeg X86.DS; X86.MovSeg X86.ES; X86.MovSeg X86.FS; X86.MovSeg X86.GS; X86.MovSeg X86.SS;
   X86.MovRI X86.ESP 0x9F000;
   X86.MovMW 0xB8000 0x0F50;
   X86.MovRI X86.EAX KERNEL_ENTRY; X86.JmpR X86.EAX].

(** The 32-bit code: the end of entry.asm, and the kernel. *)
Definition code32 (Yk : Entry.symbols) : X86.program := λ l,
  if decide (l = Sym "protected_mode_entry") then protected_mode_entry else Entry.kernel_asm Yk l.

(** ** The second stage in real mode *)

Section stage2.
Context `{Bios16} (dev : device) (K : X86.linker) (Y : symbols).
Context (cs : Z) (Hplaced : placed K (entry_asm Y) cs).
Abbreviation runs_to := (eventually (stepR dev K (entry_asm Y))).

(** [puts] prints the text at DS:SI and returns. *)
Lemma stage2_puts_spec ms al ah bl bh cx si di bp sp u ds es fs gs ss f c gd m t n tr (Q : real → Prop) :
  Stage2.holds m (16 * ds + si) (ms ++ [0]) → 0 ∉ ms → 0 ≤ si → si + Z.of_nat (length ms) < 0xFFFF →
  0 ≤ sp < 0xFFFE →
  (∀ al ah bh si f', f_if f' = f_if f →
     runs_to (mkReal (mkRegs al ah bl bh cx.1.1 cx.1.2 cx.2.1 cx.2.2 si di bp (sp + 2)) u (X86.mkSegs cs ds es fs gs ss)
                (word (getw m (16 * ss + sp), getw m (16 * ss + (sp + 1)))) f' c gd m (rev ms ++ t) n tr) Q) →
  runs_to (mkReal (mkRegs al ah bl bh cx.1.1 cx.1.2 cx.2.1 cx.2.2 si di bp sp) u (X86.mkSegs cs ds es fs gs ss)
             (off K cs (Sym "puts") 0) f c gd m t n tr) Q.
Proof.
  destruct cx as [[cl ch] [dl dh]].
  revert al ah bh si f t. induction ms as [|b ms IH]; intros al ah bh si [fc fz fi fd] t Hm Hn Hsi Hl Hsp HQ;
    cbn [f_if] in *; cbn [length app] in Hl, Hm.
  - assert (getw m (16 * ds + si) = 0) as Hb by (rewrite <- (Z.add_0_r (_ + si)); by apply (Hm 0%nat)).
    do 2 real_step. u16_steps. rewrite Hb. do 3 real_step. u16_steps. by apply HQ.
  - apply not_elem_of_cons in Hn as [Hb0 Hn].
    assert (getw m (16 * ds + si) = b) as Hb by (rewrite <- (Z.add_0_r (_ + si)); by apply (Hm 0%nat)).
    do 2 real_step. u16_steps. rewrite Hb. real_step. rewrite Z.land_diag.
    destruct (Z.eqb_spec b 0) as [|_]; [congruence|]. do 3 real_step.
    real_fetch. unfold int10, rd8. repeat real_wp. real_step. apply IH; [|done|lia|lia|done|].
    + intros i x Hi. rewrite <- (Hm (S i) x Hi). f_equal. lia.
    + intros al' ah' bh' si' f' Hi. cbn [rev] in HQ. rewrite <- app_assoc in HQ. by apply HQ.
Qed.

(** The image: code and tables, then the data of the C code, below the buffers. *)
Record layout_ok : Prop := {
  lay_message : 0 ≤ y_message Y ∧ y_message Y + 19 ≤ y_data Y;
  lay_gdt : 0 ≤ y_gdt_start Y ∧ y_gdt_start Y + 30 ≤ y_data Y;
  lay_protected : 0 ≤ y_protected_mode_entry Y < 0x2000;
  lay_data : y_data Y ≤ y_g_drive Y < y_data_end Y;
  lay_end : y_data_end Y ≤ 0x2000
}.
Context (Hlay : layout_ok).

(** What [_start] leaves to [stage2_main]: all segments are CS, the drive number is
    in its variable, the message is printed. *)
Definition at_stage2_main (drive : Z) (s s' : real) : Prop :=
  ip s' = off K cs (Sym "stage2_main") 0 ∧
  X86.s_cs (sg s') = cs ∧ X86.s_ds (sg s') = cs ∧ X86.s_es (sg s') = cs ∧ X86.s_ss (sg s') = cs ∧
  r_sp (rg s') = 0x3FEE ∧ up s' = up s ∧ f_if (fl s') = true ∧ cr0 s' = cr0 s ∧
  getw (mem s') (16 * cs + y_g_drive Y) = drive ∧ tty s' = rev message ++ tty s ∧ calls s' = calls s ∧ trace s' = trace s ∧
  (∀ x, x ≠ 16 * cs + y_g_drive Y → ¬ (16 * cs + 0x3FEC ≤ x < 16 * cs + 0x3FF0) → getw (mem s') x = getw (mem s) x).

Lemma stage2_start_spec drive s :
  X86.s_cs (sg s) = cs → ip s = off K cs (Sym "_start") 0 → r_dl (rg s) = drive →
  Stage2.holds (mem s) (16 * cs + y_message Y) (message ++ [0]) →
  runs_to s (at_stage2_main drive s).
Proof.
  destruct s as [[al ah bl bh cl ch dl dh si di bp sp] u [cs' ds es fs gs ss] ip' [fc fz fi fd] c gd m t n tr].
  cbn [sg X86.s_cs ip rg r_dl mem]. intros -> -> -> Hm. destruct Hlay as [Hmsg _ _ Hdat Hend].
  set (Q := at_stage2_main _ _). do 11 real_step. u16_steps.
  match goal with |- context [mkReal _ _ _ _ _ _ _ ?x _ _ _] => set (m1 := x) end.
  assert (∀ x, x ≠ 16 * cs + y_g_drive Y → ¬ (16 * cs + 0x3FEC ≤ x < 16 * cs + 0x3FF0) → getw m1 x = getw m x) as Hm1.
  { intros x H1 H2. unfold m1. rewrite !getw_insert, !decide_False by lia. done. }
  apply (stage2_puts_spec message _ _ _ _ ((cl, ch), (drive, dh))); [|by apply (bool_decide_unpack _); vm_compute|lia|simpl; lia|lia|].
  { eapply Stage2.holds_frame; [|exact Hm]. intros x Hx. change (length (message ++ [0])) with 19%nat in Hx. apply Hm1; lia. }
  intros al' ah' bh' si' [fc' fz' fi' fd'] Hfi. cbn [f_if] in Hfi. subst fi'. cbn [fst snd].
  unfold m1 at 1 2. rewrite pushed_word by lia. do 2 real_step. u16_steps. apply eventually_here.
  match goal with |- Q (mkReal _ _ _ _ _ _ _ ?x _ _ _) => set (m2 := x) end. unfold Q.
  assert (∀ x, x ≠ 16 * cs + 0x3FEE → x ≠ 16 * cs + 0x3FEF → getw m2 x = getw m1 x) as Hm2.
  { intros x H1 H2. unfold m2. rewrite !getw_insert, !decide_False by lia. done. }
  split_and!; try done; cbn [mem].
  - rewrite Hm2 by lia. unfold m1. rewrite !getw_insert.
    repeat (first [rewrite decide_True by lia; done | rewrite decide_False by lia]).
  - intros x H1 H2. rewrite Hm2 by lia. by apply Hm1.
Qed.

(** The table and its descriptor, in memory. *)
Definition gdt_in (m : gmap Z Z) : Prop := Stage2.holds m (16 * cs + y_gdt_start Y) (gdt_image Y).

(** Before the far jump: the fast A20 gate is open, the table is loaded, protection is
    on, interrupts are off. *)
Definition at_switch (s s' : real) : Prop :=
  fetch K (entry_asm Y) s' = Some (Sym "jump_to_kernel", 8%nat, JmpFar CODE_SEL (STAGE2_BASE + y_protected_mode_entry Y)) ∧
  sg s' = sg s ∧ f_if (fl s') = false ∧ Z.testbit (cr0 s') 0 = true ∧
  gdtr s' = (8 * Z.of_nat (length gdt) - 1, STAGE2_BASE + y_gdt_start Y) ∧ mem s' = mem s ∧
  ∃ v, trace s' = OutB 0x92 (Z.lor v 2) :: InB 0x92 v :: trace s.

Lemma jump_to_kernel_spec s :
  X86.s_cs (sg s) = cs → X86.s_ds (sg s) = cs → ip s = off K cs (Sym "jump_to_kernel") 0 → gdt_in (mem s) →
  runs_to s (at_switch s).
Proof.
  destruct s as [[al ah bl bh cl ch dl dh si di bp sp] u [cs' ds es fs gs ss] ip' [fc fz fi fd] c gd m t n tr].
  cbn [sg X86.s_cs X86.s_ds ip mem]. intros -> -> -> Hm. destruct Hlay as [_ Hg _ Hdat Hend]. set (Q := at_switch _).
  do 4 real_step. real_fetch. unfold load. repeat real_wp.
  assert (∀ (i : nat) a b, gdt_image Y !! (24 + i)%nat = Some b → a = y_gdt_descriptor Y + Z.of_nat i →
    getw m (16 * cs + u16 a) = b) as Hget.
  { intros i a b Hi ->. rewrite <- (Hm _ _ Hi). f_equal. apply lookup_lt_Some in Hi.
    change (length (gdt_image Y)) with 30%nat in Hi. unfold y_gdt_descriptor. change (length gdt) with 3%nat.
    rewrite u16_small by lia. lia. }
  rewrite (Hget 0%nat _ _ eq_refl), (Hget 1%nat _ _ eq_refl), (Hget 2%nat _ _ eq_refl), (Hget 3%nat _ _ eq_refl),
    (Hget 4%nat _ _ eq_refl) by lia. set (base := STAGE2_BASE + y_gdt_start Y).
  assert (word (base `mod` 256, (base / 256) `mod` 256) + 65536 * ((base / 256 / 256) `mod` 256) = base) as ->.
  { unfold word, base, STAGE2_BASE. cbn [fst snd].
    pose proof (Z.div_mod base 256 ltac:(lia)). pose proof (Z.div_mod (base / 256) 256 ltac:(lia)).
    rewrite (Z.mod_small (_ / 256 / 256)); [unfold base, STAGE2_BASE in *; lia|].
    rewrite Z.div_div by lia. split; [apply Z.div_pos; lia|apply Z.div_lt_upper_bound; lia]. }
  destruct u as [ua uc ud ub usp ubp usi udi].
  do 3 (real_step; rewrite ?split16).
  apply eventually_here. unfold Q. split_and!; try done.
  - by apply fetch_at.
  - cbn [cr0]. by rewrite Z.lor_spec, orb_true_r.
  - eexists (u8 (dev tr 0x92)). cbn [trace]. do 2 f_equal. apply u8_small.
    apply lor_range; [lia|apply u8_range|lia].
Qed.

End stage2.

(** ** The switch to protected mode

    The far jump that follows setting CR0.PE loads CS from the table and goes on in
    32-bit code.  Registers and memory stay; memory is read by words from now on. *)

Definition flags_word (f : flagset) : Z :=
  2 + Z.b2z (f_cf f) + 64 * Z.b2z (f_zf f) + 512 * Z.b2z (f_if f) + 1024 * Z.b2z (f_df f).
Definition x86_of (s : real) : X86.x86 :=
  let g := rg s in
  let full r hi := word (get16 r g) + 65536 * hi (up s) in
  X86.mkX86 (X86.mkGprs (full AX X86.g_eax) (full CX X86.g_ecx) (full DX X86.g_edx) (full BX X86.g_ebx)
               (full SP X86.g_esp) (full BP X86.g_ebp) (full SI X86.g_esi) (full DI X86.g_edi))
    (sg s) (ip s) (flags_word (fl s)) (gdtr s) (X86.words (mem s)) (trace s).
Definition enter_protected (sel o : Z) (s : real) : option X86.x86 :=
  match (_ ← X86.load_cs sel; modify (X86.set_eip o)) (x86_of s) with
  | Some (_, x) => Some x
  | None => None
  end.

(** The segments of the table. *)
Lemma stage2_gdt_reads Y m :
  0 ≤ STAGE2_BASE + y_gdt_start Y < 2 ^ 24 → X86.bytes_in m (STAGE2_BASE + y_gdt_start Y) (gdt_image Y) →
  let g := (8 * Z.of_nat (length gdt) - 1, STAGE2_BASE + y_gdt_start Y) in
  X86.find_descriptor m g CODE_SEL = Entry.gdt_entry 0x08 ∧ X86.find_descriptor m g DATA_SEL = Entry.gdt_entry 0x10.
Proof.
  intros Hr Hin. set (a := STAGE2_BASE + y_gdt_start Y) in *.
  change (gdt_image Y) with (Entry.le_bytes 8 0 ++ Entry.le_bytes 8 0x00CF9A000000FFFF ++ Entry.le_bytes 8 0x00CF92000000FFFF ++
    Entry.le_bytes 2 23 ++ Entry.le_bytes 4 a) in Hin.
  rewrite !X86.bytes_in_app, !Entry.le_bytes_length in Hin. destruct Hin as (_ & H1 & H2 & _).
  unfold X86.find_descriptor, CODE_SEL, DATA_SEL. change (length gdt) with 3%nat. cbn [fst snd].
  change (Z.ldiff 8 7) with 8. change (Z.ldiff 16 7) with 16. cbn [Z.eqb Z.ltb orb]. split.
  - rewrite (Entry.read_le m (a + 8) 8 0x00CF9A000000FFFF); [done|lia|exact H1].
  - rewrite (Entry.read_le m (a + 16) 8 0x00CF92000000FFFF); [done|lia|].
    replace (a + 16) with (a + Z.of_nat 8 + Z.of_nat 8) by lia. exact H2.
Qed.

(** Bytes of a memory by bytes, read by words. *)
Lemma words_holds m a bs :
  Forall (λ b, 0 ≤ b < 256) bs → Stage2.holds m a bs → X86.bytes_in (X86.words m) a bs.
Proof.
  intros Hb Hm i b Hi. rewrite X86.byte_words, (Hm i b Hi). rewrite Forall_lookup in Hb. pose proof (Hb i b Hi).
  change 0xFF with (2 ^ 8 - 1). rewrite land_ones_mod by lia. apply Z.mod_small. lia.
Qed.

Section protected.
Context (dev : device) (K : X86.linker) (Yk : Entry.symbols).
Abbreviation runs_to := (X86.reaches dev K (code32 Yk)).

(** [protected_mode_entry]: flat data segments, a stack below 0x9F000, a letter on the
    screen, and the jump to 0x9000. *)
Lemma protected_mode_entry_spec x d (Q : X86.x86 → Prop) :
  X86.eip x = X86.addr K (Sym "protected_mode_entry") 0 →
  X86.find_descriptor (X86.mem x) (X86.gdtr x) DATA_SEL = Some d → X86.data_ok d = true →
  (∀ g m, X86.g_esp g = 0x9F000 →
     (∀ a, 0 ≤ a < 0xA0000 → X86.byte_at m a = X86.byte_at (X86.mem x) a) →
     runs_to (X86.mkX86 g (X86.mkSegs (X86.s_cs (X86.sg x)) DATA_SEL DATA_SEL DATA_SEL DATA_SEL DATA_SEL)
        KERNEL_ENTRY (X86.flags x) (X86.gdtr x) m (X86.trace x)) Q) →
  runs_to x Q.
Proof.
  destruct x as [[a c dx b sp bp si di] [cs ds es fs gs ss] ip fl gd m tr]. Entry.x86_norm.
  intros -> Hd Hok HQ. Entry.x86_step. change (Z.land DATA_SEL 0xFFFF) with DATA_SEL.
  assert (Z.land (Z.lor (Z.land a 0xFFFF0000) DATA_SEL) 0xFFFF = DATA_SEL) as Esel by apply (Entry.land_low16 a DATA_SEL).
  do 5 (eapply (X86.reaches_mov_seg _ _ _ _ _ _ d); [reflexivity|reflexivity|Entry.x86_norm; by rewrite Esel|done|
    Entry.x86_norm; rewrite Esel]).
  do 4 Entry.x86_step. apply HQ; [done|]. intros y Hy.
  rewrite !X86.byte_put, !decide_False by lia. done.
Qed.
End protected.

(** ** The whole way

    The machine in one of three programs: the boot sector, the second stage in real
    mode, and 32-bit code.  [stage2_main] is C: it runs as in Boot.v, on the memory,
    screen and BIOS of the machine; [statics] are the initial values of its other
    variables, and [compiled s b] is the state in which its compiled code, called in
    [s], calls [jump_to_kernel] with the result [b]. *)

Inductive boot_machine : Type :=
| InStage1 (s : real)
| InStage2 (s : real)
| InProtected (x : X86.x86).

Section chain.
Context `{Bios16} (dev : device) (K1 K2 K32 : X86.linker).
Context (Y1 : Stage1.symbols) (Y2 : symbols) (Yk : Entry.symbols).
Context (statics : Stage2.boot) (compiled : real → Stage2.boot → real).

Definition boot_of (s : real) : Stage2.boot :=
  Stage2.mkBoot (mem s) (tty s) (getw (mem s) (STAGE2_BASE + y_g_drive Y2))
    (Stage2.g_sectors_per_track statics) (Stage2.g_num_heads statics) (Stage2.fs statics) (Stage2.fsd statics) (calls s).

Inductive boot_step : boot_machine → boot_machine → Prop :=
| step_stage1 s s' : stepR dev K1 (Stage1.boot_asm Y1) s s' → boot_step (InStage1 s) (InStage1 s')
| step_enter s : 16 * X86.s_cs (sg s) + ip s = X86.addr K2 (Sym "_start") 0 → boot_step (InStage1 s) (InStage2 s)
| step_stage2 s s' : stepR dev K2 (entry_asm Y2) s s' → boot_step (InStage2 s) (InStage2 s')
| step_main s b :
    ip s = off K2 (X86.s_cs (sg s)) (Sym "stage2_main") 0 →
    Stage2.stage2_main (boot_of s) = Some (Stage2.JumpToKernel, b) →
    boot_step (InStage2 s) (InStage2 (compiled s b))
| step_switch s l n sel o x :
    fetch K2 (entry_asm Y2) s = Some (l, n, JmpFar sel o) → Z.testbit (cr0 s) 0 = true →
    enter_protected sel o s = Some x →
    boot_step (InStage2 s) (InProtected x)
| step_protected x x' : X86.stepR dev K32 (code32 Yk) x x' → boot_step (InProtected x) (InProtected x').

(** How [_start] calls [stage2_main].  Compiled code and disk.asm address the stack by
    32-bit registers, and [_start] sets SP only: the upper half of ESP must be 0. *)
Record main_called (drive : Z) (s : real) : Prop := {
  mc_ip : ip s = off K2 (X86.s_cs (sg s)) (Sym "stage2_main") 0;
  mc_cs : X86.s_cs (sg s) = 0x500;
  mc_ds : X86.s_ds (sg s) = 0x500;
  mc_ss : X86.s_ss (sg s) = 0x500;
  mc_sp : r_sp (rg s) = 0x3FEE;
  mc_esp : X86.g_esp (up s) = 0;
  mc_drive : getw (mem s) (STAGE2_BASE + y_g_drive Y2) = drive
}.
(** What the compiled code, with disk.asm, does when the C code jumps to the kernel: CS and DS are
    those of its caller (ES is not: disk.asm leaves there the segment it read to, Disk.v);
    besides what the C code stores, it writes to its stack, between the directory buffer
    and the stack's top, and to its data only. *)
Record jumps_with (s : real) (b : Stage2.boot) (s' : real) : Prop := {
  jw_ip : ip s' = off K2 (X86.s_cs (sg s)) (Sym "jump_to_kernel") 0;
  jw_cs : X86.s_cs (sg s') = X86.s_cs (sg s);
  jw_ds : X86.s_ds (sg s') = X86.s_ds (sg s);
  jw_mem : ∀ x, ¬ (0x8600 ≤ x < 0x8FF0) → ¬ (STAGE2_BASE + y_data Y2 ≤ x < STAGE2_BASE + y_data_end Y2) →
    getw (mem s') x = getw (Stage2.mem b) x
}.
Definition compiled_ok (drive : Z) : Prop :=
  ∀ s b, main_called drive s → Stage2.stage2_main (boot_of s) = Some (Stage2.JumpToKernel, b) →
    jumps_with s b (compiled s b).

(** A part of an image. *)
Definition at_offset (image : list Z) (o : Z) (part : list Z) : Prop :=
  0 ≤ o ∧ ∀ i b, part !! i = Some b → image !! (Z.to_nat o + i)%nat = Some b.

(** The second stage on the disk, and the kernel's file, which ends where linker.ld
    asserts, below the video memory. *)
Record stage2_image (image : list Z) : Prop := {
  im_message : at_offset image (y_message Y2) (message ++ [0]);
  im_gdt : at_offset image (y_gdt_start Y2) (gdt_image Y2)
}.
Record kernel_image (ms file : list Z) : Prop := {
  ki_gdt : at_offset file (Entry.y_kernel_gdt Yk - KERNEL_ENTRY) (Entry.gdt_image (Entry.y_kernel_gdt Yk));
  ki_gdt_end : Entry.y_kernel_gdt Yk + 46 ≤ Entry.y_bss_start Yk;
  ki_msg : at_offset file (Entry.y_msg_kernel Yk - KERNEL_ENTRY) (ms ++ [0]);
  ki_msg_end : Entry.y_msg_kernel Yk + Z.of_nat (length ms) + 1 ≤ Entry.y_bss_start Yk;
  ki_msg_text : 0 ∉ ms;
  ki_bss : Entry.y_bss_start Yk ≤ Entry.y_bss_end Yk ≤ 0x98000;
  ki_end : KERNEL_ENTRY + Z.of_nat (length file) ≤ 0x98000
}.

(** Where the linkers put the code. *)
Record linked : Prop := {
  li_stage1 : placed K1 (Stage1.boot_asm Y1) 0;
  li_stage2 : placed K2 (entry_asm Y2) 0x500;
  li_start2 : X86.addr K2 (Sym "_start") 0 = STAGE2_BASE;
  li_protected : X86.addr K32 (Sym "protected_mode_entry") 0 = STAGE2_BASE + y_protected_mode_entry Y2;
  li_kernel : X86.addr K32 (Sym "_start") 0 = KERNEL_ENTRY;
  li_layout1 : Stage1.layout_ok Y1;
  li_layout2 : layout_ok Y2
}.

(** The kernel's file on a volume, as [stage2_main] finds it. *)
Definition kernel_on_disk (D : Z → list Z) (drive : Z) (file : list Z) : Prop :=
  ∃ table cl dh e l,
    let b := Stage2.set_drive drive statics in
    let rs := Loader.ready D cl dh b in
    Loader.fat12_disk D table cl dh b ∧
    Loader.kernel_entry (Loader.directory D rs) = Some e ∧
    2 ≤ Stage2.firstCluster e < Z.of_nat (length table) ∧ 0 ≤ Stage2.fileSize e ≤ Fat.MAX_FILE ∧
    Fat.chain table (Fat.clusters_needed rs (Stage2.fileSize e)) (Stage2.firstCluster e) = Some l ∧
    file = take (Z.to_nat (Stage2.fileSize e)) (l ≫= Fat.cluster_bytes D rs).

(** *** Images in memory *)

Lemma at_offset_holds m a image o part :
  Stage2.holds m a image → at_offset image o part → Stage2.holds m (a + o) part.
Proof.
  intros Hm [Ho Hp] i b Hi. rewrite <- (Hm _ _ (Hp i b Hi)). f_equal. lia.
Qed.
Lemma at_offset_bytes m a image o part :
  X86.bytes_in m a image → at_offset image o part → X86.bytes_in m (a + o) part.
Proof.
  intros Hm [Ho Hp] i b Hi. rewrite <- (Hm _ _ (Hp i b Hi)). f_equal. lia.
Qed.

Lemma blocks_bytes D lba n :
  (∀ x, Forall (λ b, 0 ≤ b < 256) (D x)) → Forall (λ b, 0 ≤ b < 256) (Fat.blocks D lba n).
Proof.
  intros HD. revert lba. induction n as [|n IH]; intros lba; simpl; [constructor|]. apply Forall_app. by split.
Qed.

Lemma gdt_image_bytes : Forall (λ b, 0 ≤ b < 256) (gdt_image Y2).
Proof.
  assert (∀ n x, Forall (λ b, 0 ≤ b < 256) (Entry.le_bytes n x)) as Hle.
  { induction n as [|n IH]; intros x; simpl; constructor; [apply Z.mod_pos_bound; lia|apply IH]. }
  unfold gdt_image. rewrite !Forall_app. split_and!; [|apply Hle|apply Hle].
  apply Forall_bind, Forall_true. intros x. apply Hle.
Qed.

(** *** [stage2_main] in the machine *)

Lemma main_runs D drive file s :
  disk16_ok D drive 18 2 → kernel_on_disk D drive file → getw (mem s) (STAGE2_BASE + y_g_drive Y2) = drive →
  ∃ b, Stage2.stage2_main (boot_of s) = Some (Stage2.JumpToKernel, b) ∧
    Loader.own_kept (boot_of s) b ∧ Stage2.holds (Stage2.mem b) KERNEL_ENTRY file ∧ Forall (λ b, 0 ≤ b < 256) file.
Proof.
  intros HD (table & cl & dh & e & l & HF & He & Hc & Hsize & Hl & ->) Hdrive.
  set (b0 := Stage2.set_drive drive statics) in *.
  assert (Loader.kept (Loader.ready D cl dh b0) (Loader.ready D cl dh (boot_of s))) as Hk.
  { split; done. }
  destruct (Loader.contents_kept D _ _ Hk) as (En & Eb & Ed). rewrite <- En in Hl. rewrite <- Ed in He.
  destruct (Loader.stage2_main_spec D table cl dh e (boot_of s)) as (o & b & E & Ho & Hres); [|done|done|done|].
  { destruct HF as [H1 H2 H3 H4 H5 H6]. split; try done; [by rewrite <- H1; cbn; rewrite Hdrive|by eapply Loader.volume_kept|by eapply Loader.root_ok_kept]. }
  rewrite Hl in Hres. destruct Hres as [-> Hh]. exists b. rewrite Eb in Hh. split; [done|]. split; [done|]. split; [done|].
  apply Forall_take, Forall_bind, Forall_true. intros c. apply blocks_bytes. intros x. apply (d16_bytes _ _ _ _ HD x).
Qed.

(** *** The parts in the machine *)

Abbreviation boots := (eventually boot_step).

Lemma in_stage1 s F :
  eventually (stepR dev K1 (Stage1.boot_asm Y1)) s (λ s', boots (InStage1 s') F) → boots (InStage1 s) F.
Proof.
  intros Hs. eapply eventually_bind; [|by intros m Hm; exact Hm].
  eapply eventually_embed; [|exact Hs|done]. intros x y Hxy. by constructor.
Qed.
Lemma in_stage2 s F :
  eventually (stepR dev K2 (entry_asm Y2)) s (λ s', boots (InStage2 s') F) → boots (InStage2 s) F.
Proof.
  intros Hs. eapply eventually_bind; [|by intros m Hm; exact Hm].
  eapply eventually_embed; [|exact Hs|done]. intros x y Hxy. by constructor.
Qed.
Lemma in_protected x F :
  X86.reaches dev K32 (code32 Yk) x (λ x', boots (InProtected x') F) → boots (InProtected x) F.
Proof.
  intros Hs. eapply eventually_bind; [|by intros m Hm; exact Hm].
  eapply eventually_embed; [|exact Hs|done]. intros y z Hyz. by constructor.
Qed.

(** The kernel's code runs the same beside [protected_mode_entry]. *)
Lemma kernel_in_code32 x Q :
  X86.reaches dev K32 (Entry.kernel_asm Yk) x Q → X86.reaches dev K32 (code32 Yk) x Q.
Proof.
  intros Hs. apply (eventually_embed (X86.stepR dev K32 (Entry.kernel_asm Yk)) _ id x Q Q); [|exact Hs|done].
  intros y z. apply X86.stepR_mono.
  intros l n i Hi. unfold code32. case_decide as E; [|done]. by rewrite E in Hi.
Qed.

(** At the call of [kmain], with the file loaded and greeted. *)
Definition at_kmain (ms file : list Z) (mch : boot_machine) : Prop :=
  ∃ x r t, mch = InProtected x ∧
    X86.eip x = X86.addr K32 (Sym "kmain") 0 ∧ X86.g_esp (X86.gp x) = 0x9E000 - 4 ∧
    X86.sg x = X86.mkSegs Entry.GDT_KERNEL_CODE Entry.GDT_KERNEL_DATA Entry.GDT_KERNEL_DATA
                 Entry.GDT_KERNEL_DATA Entry.GDT_KERNEL_DATA Entry.GDT_KERNEL_DATA ∧
    X86.gdtr x = (39, Entry.y_kernel_gdt Yk) ∧ Z.testbit (X86.flags x) 9 = false ∧
    (∀ a, Entry.y_bss_start Yk ≤ a < Entry.y_bss_end Yk → X86.byte_at (X86.mem x) a = 0) ∧
    (∀ i b, file !! i = Some b → KERNEL_ENTRY + Z.of_nat i < Entry.y_bss_start Yk →
       X86.byte_at (X86.mem x) (KERNEL_ENTRY + Z.of_nat i) = b) ∧
    X86.trace x = r ++ Entry.serial_events ++ t ∧ omap Entry.data_byte r = rev ms.

(** From [protected_mode_entry] on. *)
Lemma protected_boots ms file x d :
  linked → kernel_image ms file → (∀ t, ∃ t', Entry.polled dev t t') →
  X86.eip x = X86.addr K32 (Sym "protected_mode_entry") 0 →
  X86.find_descriptor (X86.mem x) (X86.gdtr x) DATA_SEL = Some d → X86.data_ok d = true →
  X86.bytes_in (X86.mem x) KERNEL_ENTRY file →
  boots (InProtected x) (at_kmain ms file).
Proof.
  intros HL [Hg Hge Hm Hme Hms Hbss _] Hser Hip Hd Hok Hfile. unfold KERNEL_ENTRY in *.
  apply in_protected. eapply protected_mode_entry_spec; [exact Hip|exact Hd|exact Hok|]. intros g m Hesp Hmem.
  apply kernel_in_code32. pose proof (at_offset_bytes _ _ _ _ _ Hfile Hg) as Hgin. pose proof (at_offset_bytes _ _ _ _ _ Hfile Hm) as Hmin.
  destruct Hg as [Hg _], Hm as [Hm _].
  replace (0x9000 + (Entry.y_kernel_gdt Yk - 0x9000)) with (Entry.y_kernel_gdt Yk) in Hgin by lia.
  replace (0x9000 + (Entry.y_msg_kernel Yk - 0x9000)) with (Entry.y_msg_kernel Yk) in Hmin by lia.
  assert (∀ a bs, X86.bytes_in (X86.mem x) a bs → 0 ≤ a → a + Z.of_nat (length bs) ≤ 0x98000 → X86.bytes_in m a bs) as Hsame.
  { intros a bs Hin Ha Hb. apply (Entry.bytes_in_same (X86.mem x) m 0xA0000); [exact Hmem|lia|lia|exact Hin]. }
  eapply eventually_bind; [eapply (Entry.start_spec dev K32 Yk ms); [exact Hser|]|].
  - split; cbn; [by rewrite (li_kernel HL)|rewrite Hesp; split; [lia|done]|lia|lia|lia| |split; [|done]].
    + apply Hsame; [exact Hgin|lia|]. rewrite Entry.gdt_image_length. lia.
    + apply Hsame; [exact Hmin|lia|]. rewrite length_app. simpl. lia.
  - intros x' (H1 & H2 & H3 & H4 & _ & H5 & _ & H6 & H7 & r & H8 & H9). apply eventually_here, eventually_here.
    exists x', r, (X86.trace x). split_and!; try done.
    unfold KERNEL_ENTRY. intros i b Hi Hlt. rewrite H7 by lia. cbn [X86.mem]. rewrite Hmem by lia. by apply Hfile.
Qed.

(** From [jump_to_kernel] on. *)
Lemma jump_boots ms file s :
  linked → kernel_image ms file → (∀ t, ∃ t', Entry.polled dev t t') →
  X86.s_cs (sg s) = 0x500 → X86.s_ds (sg s) = 0x500 → ip s = off K2 0x500 (Sym "jump_to_kernel") 0 →
  gdt_in Y2 0x500 (mem s) → Stage2.holds (mem s) KERNEL_ENTRY file → Forall (λ b, 0 ≤ b < 256) file →
  boots (InStage2 s) (at_kmain ms file).
Proof.
  intros HL Hki Hser Hcs Hds Hip Hg Hfile Hfb. apply in_stage2. pose proof (li_layout2 HL) as Hlay.
  eapply eventually_bind; [by eapply (jump_to_kernel_spec dev K2 Y2 0x500 (li_stage2 HL) Hlay s)|].
  intros s' (Hf & Hsg & _ & Hpe & Hgd & Hm & _). apply eventually_here.
  destruct (stage2_gdt_reads Y2 (X86.words (mem s'))) as [Hc Hd].
  { destruct Hlay as [_ ? _ ? ?]. unfold STAGE2_BASE. lia. }
  { rewrite Hm. apply words_holds; [apply gdt_image_bytes|exact Hg]. }
  destruct Entry.code_entry as (dc & Edc & Hcode), Entry.data_entry as (dd & Edd & Hdata).
  rewrite Edc in Hc. rewrite Edd in Hd. set (o := STAGE2_BASE + y_protected_mode_entry Y2) in *.
  assert (enter_protected CODE_SEL o s'
          = Some (X86.set_eip o (X86.set_sg (X86.set_seg X86.CS CODE_SEL (X86.sg (x86_of s'))) (x86_of s')))) as Ex.
  { unfold enter_protected, X86.load_cs, mbind, M_bind, gets, modify, id.
    change (X86.mem (x86_of s')) with (X86.words (mem s')). change (X86.gdtr (x86_of s')) with (gdtr s').
    change (X86.code_ok CODE_SEL dc = true) in Hcode. by rewrite Hgd, Hc, Hcode. }
  eapply eventually_step; [by eapply step_switch|].
  apply (protected_boots ms file _ dd HL Hki Hser); [by rewrite (li_protected HL)| |done|].
  - change (X86.find_descriptor (X86.words (mem s')) (gdtr s') DATA_SEL = Some dd). by rewrite Hgd.
  - change (X86.bytes_in (X86.words (mem s')) KERNEL_ENTRY file). rewrite Hm. by apply words_holds.
Qed.

(** From [_start] of the second stage on. *)
Lemma stage2_boots D drive ms file s :
  linked → compiled_ok drive → disk16_ok D drive 18 2 → kernel_on_disk D drive file → kernel_image ms file →
  (∀ t, ∃ t', Entry.polled dev t t') →
  X86.s_cs (sg s) = 0x500 → ip s = 0 → r_dl (rg s) = drive → X86.g_esp (up s) = 0 →
  stage2_image (seqZ Stage1.STAGE2_FIRST_LBA Stage1.STAGE2_SECTORS ≫= D) →
  Stage2.holds (mem s) STAGE2_BASE (seqZ Stage1.STAGE2_FIRST_LBA Stage1.STAGE2_SECTORS ≫= D) →
  boots (InStage2 s) (at_kmain ms file).
Proof.
  intros HL HC HD Hkd Hki Hser Hcs Hip Hdl Hesp [Hmsg Hgdt] Hm. pose proof (li_layout2 HL) as [L1 L2 _ L3 L4].
  apply in_stage2. eapply eventually_bind.
  { apply (stage2_start_spec dev K2 Y2 0x500 (li_stage2 HL) (li_layout2 HL) drive s Hcs); [|done|].
    - rewrite Hip. unfold off. by rewrite (li_start2 HL).
    - exact (at_offset_holds _ _ _ _ _ Hm Hmsg). }
  intros s1 (Hip1 & Hcs1 & Hds1 & _ & Hss1 & Hsp1 & Hup1 & _ & _ & Hdr & _ & _ & _ & Hm1). apply eventually_here.
  destruct (main_runs D drive file s1 HD Hkd Hdr) as (b & Eb & Hown & Hh & Hfb).
  eapply eventually_step; [eapply step_main; [by rewrite Hcs1|exact Eb]|].
  destruct (HC s1 b) as [Hjip Hjcs Hjds Hjm]; [split; rewrite ?Hcs1, ?Hup1; done|exact Eb|].
  apply jump_boots; try done; [by rewrite Hjcs|by rewrite Hjds|by rewrite Hjip, Hcs1| |].
  - eapply Stage2.holds_frame; [|exact (at_offset_holds _ _ _ _ _ Hm Hgdt)]. intros x Hx.
    change (length (gdt_image Y2)) with 30%nat in Hx. unfold STAGE2_BASE in *.
    rewrite Hjm, Hown by (unfold STAGE2_BASE; lia). apply Hm1; lia.
  - eapply Stage2.holds_frame; [|exact Hh]. unfold KERNEL_ENTRY. intros x Hx. apply Hjm; unfold STAGE2_BASE; lia.
Qed.

End chain.

(** ** The parameter block

    The second stage reads from the block of boot.asm a volume with two tables from
    block 1, the root directory from block 19, and 2847 clusters of one block from block
    33 on, few enough for FAT12. *)
Lemma parameter_block_read :
  let p := Loader.read_bpb (Stage2.pad512 Stage1.header) in
  p = Stage2.mkBpb 512 1 1 2 224 2880 9 ∧ Loader.fields_ok p = true ∧
  Stage2.derive p = Stage2.mkDerived 14 1 19 19 33 2847 2847.
Proof. by vm_compute. Qed.

(** The sectors of the second stage are data clusters of that volume (2833 to 2848):
    nothing in the block keeps a file from being given them. *)
Lemma stage2_sectors_in_data_area i :
  0 ≤ i < Stage1.STAGE2_SECTORS →
  let d := Stage2.derive (Loader.read_bpb (Stage2.pad512 Stage1.header)) in
  let cluster := Stage1.STAGE2_FIRST_LBA + i - Stage2.g_first_data_sector d + 2 in
  2 ≤ cluster < Stage2.g_cluster_count d + 2.
Proof.
  unfold Stage1.STAGE2_SECTORS, Stage1.STAGE2_FIRST_LBA. intros Hi. destruct parameter_block_read as (_ & _ & ->). simpl. lia.
Qed.

(** ** Properties *)

(** C1. neilOS boots.  Let the BIOS have loaded the boot sector of a disk that holds
    the second stage from sector 2864 on and, in its FAT12 volume, a kernel image that
    ends below 0x98000; let the upper half of ESP be 0 (nothing sets it), the one read of
    the boot sector succeed, and no block fail three times in a row.  Let the compiled C
    code keep CS and DS and write to its own stack and data, besides what it stores.
    Then the machine runs from the first instruction of the sector, the jump at 0x7C00,
    through [start] of boot.asm, [_start], [stage2_main] and [jump_to_kernel] of the
    second stage, the switch to protected mode and the kernel's [_start] to the call of
    [kmain]; there, interrupts are off, the
    kernel's own flat segments are loaded, .bss is zero, the rest of the image is that of
    the file, byte by byte, and the message has gone to the serial port. *)
Theorem neilos_boots `{Bios16} dev K1 K2 K32 Y1 Y2 Yk statics compiled D drive ms file s :
  linked K1 K2 K32 Y1 Y2 → compiled_ok K2 Y2 statics compiled drive →
  disk16_ok D drive 18 2 → is_Some (int13_sectors (calls s) Stage1.STAGE2_SECTORS drive 79 3 1) →
  stage2_image Y2 (seqZ Stage1.STAGE2_FIRST_LBA Stage1.STAGE2_SECTORS ≫= D) →
  kernel_on_disk statics D drive file → kernel_image Yk ms file →
  (∀ t, ∃ t', Entry.polled dev t t') → Stage1.bios_start K1 Y1 0 drive s → X86.g_esp (up s) = 0 →
  eventually (boot_step dev K1 K2 K32 Y1 Y2 Yk statics compiled) (InStage1 s) (at_kmain K32 Yk ms file).
Proof.
  intros HL HC HD [bs Hbs] Him Hkd Hki Hser Hst Hesp. apply in_stage1.
  pose proof (Stage1.stage1_spec dev K1 Y1 0 D drive s (li_stage1 _ _ _ _ _ HL) (li_layout1 _ _ _ _ _ HL) HD Hst) as Hs.
  rewrite Hbs in Hs. eapply eventually_bind; [exact Hs|].
  intros s' (Hcs & Hip & Hdl & _ & _ & _ & _ & _ & _ & Hh & Hup & _). apply eventually_here.
  eapply eventually_step; [apply step_enter; rewrite Hcs, Hip; symmetry; apply (li_start2 _ _ _ _ _ HL)|].
  apply (stage2_boots dev K1 K2 K32 Y1 Y2 Yk statics compiled D drive); try done. by rewrite Hup.
Qed.

(** *** A disk that boots *)

Lemma at_offset_take image o part :
  0 ≤ o → take (length part) (drop (Z.to_nat o) image) = part → at_offset image o part.
Proof.
  intros Ho E. split; [done|]. intros i b Hi. pose proof (lookup_lt_Some _ _ _ Hi). rewrite <- E in Hi.
  by rewrite lookup_take_lt, lookup_drop in Hi by lia.
Qed.

Definition demo_symbols : symbols := mkSymbols 0x100 0x40 0x80 0x30 0x100 0x110.
Definition pad (n : nat) (l : list Z) : list Z := take n (l ++ replicate n 0).
(** A kernel of 600 bytes, with its table at 0x9100 and its message at 0x9180. *)
Definition kernel_file : list Z :=
  pad 600 (pad 0x180 (replicate 0x100 7 ++ Entry.gdt_image 0x9100) ++ Entry.msg_kernel ++ [0]).
Definition demo_stage2 : list Z := pad 0x80 (replicate 0x40 1 ++ message) ++ gdt_image demo_symbols.

Definition boot_disk_sector (lba : Z) : list Z :=
  if lba =? 0 then Stage1.header
  else if (lba =? 1) || (lba =? 10) then [0xF8; 0xFF; 0xFF; 3; 0xF0; 0xFF]
  else if lba =? 19 then cstr "NEILOS     " ++ 8 :: replicate 20 0
                         ++ cstr "KERNEL     " ++ 0x20 :: replicate 14 0 ++ [2; 0; 0x58; 2; 0; 0]
  else if lba =? 33 then take 512 kernel_file
  else if lba =? 34 then drop 512 kernel_file
  else if lba =? Stage1.STAGE2_FIRST_LBA then demo_stage2
  else [].
Definition boot_disk (lba : Z) : list Z := Stage2.pad512 (boot_disk_sector lba).
#[local] Instance demo_floppy : Bios16 := floppy boot_disk [].

Lemma boot_disk_bytes lba : length (boot_disk lba) = 512%nat ∧ Forall (λ b, 0 ≤ b < 256) (boot_disk lba).
Proof.
  apply Stage2.pad512_ok. unfold boot_disk_sector. repeat case_match; try done.
  all: apply (bool_decide_unpack _); vm_compute; exact I.
Qed.
Lemma boot_disk16 : disk16_ok boot_disk 0 18 2.
Proof. apply floppy_ok, boot_disk_bytes. Qed.
Lemma boot_disk_reliable : Stage2.reliable 0 18 2.
Proof. intros n lba _. exists 0. split; [lia|]. by eexists. Qed.

(** The code of the three programs. *)
Definition stage2_labels : list label := Sym <$> ["_start"; "hang"; "jump_to_kernel"; "puts"; "puts.done"]%string.
Definition demo_table2 : X86.table := X86.lay STAGE2_BASE (sized (entry_asm demo_symbols) stage2_labels).
Lemma demo_table2_ok : X86.table_ok demo_table2 = true.
Proof. by vm_compute. Qed.
Definition demo_linker2 : X86.linker := X86.table_linker demo_table2 demo_table2_ok.
Definition demo_table32 : X86.table :=
  X86.lay 0x5030 [(Sym "protected_mode_entry", 10%nat)] ++ X86.lay 0x9000 [(Sym "_start", 22%nat)].
Lemma demo_table32_ok : X86.table_ok demo_table32 = true.
Proof. by vm_compute. Qed.
Definition demo_linker32 : X86.linker := X86.table_linker demo_table32 demo_table32_ok.

Lemma entry_asm_labels Y l : entry_asm Y l ≠ [] → l ∈ stage2_labels.
Proof.
  destruct l as [s|n]; [|done]. unfold entry_asm. repeat (case_decide; [subst; intros _; by repeat constructor|]). done.
Qed.

Lemma demo_linked :
  linked Stage1.demo_linker demo_linker2 demo_linker32 Stage1.demo_symbols demo_symbols.
Proof.
  split; [exact Stage1.demo_placed| |by vm_compute|by vm_compute|by vm_compute|exact Stage1.demo_layout1|split; simpl; lia].
  apply (placed_lay _ _ _ _ STAGE2_BASE (sized (entry_asm demo_symbols) stage2_labels)); [done| |done|].
  - intros l Hl. apply sized_in. by eapply entry_asm_labels.
  - apply Z.leb_le. by vm_compute.
Qed.

(** Compiled code that leaves ES at the segment of the last sector it read, and its
    frames below the stack's top. *)
Definition demo_compiled (s : real) (b : Stage2.boot) : real :=
  set_ip (off demo_linker2 (X86.s_cs (sg s)) (Sym "jump_to_kernel") 0)
    (set_sg (X86.set_seg X86.ES 0x920 (sg s))
       (set_rg (set16 SP (lo_hi 0x3F00) (rg s)) (set_mem (<[0x8F00 := 1]> (Stage2.mem b)) s))).
Lemma demo_compiled_ok `{Bios16} drive : compiled_ok demo_linker2 demo_symbols Stage2.demo_boot demo_compiled drive.
Proof.
  intros [g u [cs ds es fs gs ss] i f c gd m t n tr] b _ _. split; [done|done|done|].
  intros x Hx _. cbn [mem set_ip set_sg set_rg set_mem demo_compiled]. by rewrite getw_insert, decide_False by lia.
Qed.

Definition kernel_dir_entry : Stage2.DirEntry := Stage2.mkDirEntry (cstr "KERNEL  ") (cstr "   ") 0x20 2 600.

Lemma boot_disk_fat12 :
  Loader.fat12_disk boot_disk Fat.demo_table 18 1 (Stage2.set_drive 0 Stage2.demo_boot).
Proof.
  split; [done|by vm_compute|by vm_compute|by vm_compute| |].
  - split; [split; [exact (disk16_disk_ok _ _ _ _ boot_disk16)|exact boot_disk_reliable]|by vm_compute|by vm_compute|by vm_compute|
      by vm_compute|by vm_compute| | |].
    + split; [|by apply (bool_decide_unpack _)]. apply (bool_decide_unpack _). by vm_compute.
    + apply (bool_decide_unpack _). by vm_compute.
    + exists (drop 6 (Fat.blocks boot_disk 1 9)). vm_compute. reflexivity.
  - split; by vm_compute.
Qed.

Lemma demo_on_disk : kernel_on_disk Stage2.demo_boot boot_disk 0 kernel_file.
Proof.
  exists Fat.demo_table, 18, 1, kernel_dir_entry, [2; 3]. split; [exact boot_disk_fat12|].
  split; [by vm_compute|]. split; [simpl; lia|]. split; [unfold Fat.MAX_FILE; simpl; lia|].
  split; by vm_compute.
Qed.

Lemma boot_kernel_image : kernel_image Entry.demo_symbols Entry.msg_kernel kernel_file.
Proof.
  split; [apply at_offset_take; by vm_compute|by vm_compute|apply at_offset_take; by vm_compute|by vm_compute| |by vm_compute|by vm_compute].
  apply (bool_decide_unpack _). by vm_compute.
Qed.
Lemma demo_stage2_image :
  stage2_image demo_symbols (seqZ Stage1.STAGE2_FIRST_LBA Stage1.STAGE2_SECTORS ≫= boot_disk).
Proof. split; apply at_offset_take; by vm_compute. Qed.

(** It boots from drive 0. *)
Definition demo_start : real :=
  set_up (X86.mkGprs 1 2 3 4 0 5 6 7) (set_rg (mkRegs 1 2 3 4 5 6 0 7 8 9 10 11) Stage1.demo_real).
Lemma neilos_boots_witness :
  eventually (boot_step Entry.ready_port Stage1.demo_linker demo_linker2 demo_linker32 Stage1.demo_symbols demo_symbols
                Entry.demo_symbols Stage2.demo_boot demo_compiled) (InStage1 demo_start)
    (at_kmain demo_linker32 Entry.demo_symbols Entry.msg_kernel kernel_file).
Proof.
  apply (neilos_boots Entry.ready_port Stage1.demo_linker demo_linker2 demo_linker32 Stage1.demo_symbols demo_symbols
    Entry.demo_symbols Stage2.demo_boot demo_compiled boot_disk 0 Entry.msg_kernel kernel_file demo_start).
  - exact demo_linked.
  - apply demo_compiled_ok.
  - exact boot_disk16.
  - by eexists.
  - exact demo_stage2_image.
  - exact demo_on_disk.
  - exact boot_kernel_image.
  - intros t. exists (Entry.poll Entry.ready_port t :: t). apply Entry.polled_ready. reflexivity.
  - split; [reflexivity..|exact Stage1.demo_sector_in].
  - reflexivity.
Defined.

End Handoff.
